(* ===== verification/_CoqProject ===== *)
-Q . S2P
Prelude.v
Types.v
MemPool.v
Ring.v
PriceLevels.v
BookInv.v
PriceLevelsSpec.v
LevelListSpec.v
LinkSpec.v
StoreSpec.v
LevelsAbs.v
MEOrderBook.v
BookSpec.v
BookMatch.v
MEBookRefine.v
MEBookSpec.v
BookProps.v
Sessions.v
BookTheorems.v
PriceTime.v
MarketOrderBook.v
MarketBookSpec.v
MarketBBO.v
FeedMirror.v
FeedTheorems.v
Wire.v
Sockets.v
LFQueue.v
FIFOSequencer.v
OrderServer.v
OrderGateway.v
OrderFlow.v
MatchingEngine.v
RandomClient.v
SnapshotSynthesizer.v
MarketDataPublisher.v
MarketDataConsumer.v
Recovery.v
SnapshotRebuild.v
LateJoiner.v
Double.v
PositionKeeper.v
OrderManager.v
PositionLimit.v
Strategies.v
OrderFields.v
TradeEngine.v
TradeEngineSpec.v
OrdersInFlight.v
TradingClient.v
ClientRun.v
Text.v
ToString.v
CommandLine.v
Shutdown.v
SystemCalls.v
SocketUtils.v
BookPrinter.v
Logger.v
TCPServer.v
EngineSession.v
EngineTypes.v
RestingOrders.v
ServerRound.v
Exchange.v
ExchangeRun.v
ExchangeFaults.v
ExchangeBounds.v
Lifecycle.v
LifecycleRun.v
TimeUtils.v
LogCalls.v
Examples.v
MarketFeed.v
Market.v
MarketRun.v
MarketSession.v
