(* ===== verification/Prelude.v ===== *)
(** * Trading ecosystem: a verification library

    The program is an electronic exchange and the trading clients that use it, in C++.  Two
    processes talk over the network:

    - the exchange ([src/exchange]): an order server accepts TCP connections and orders the
      requests of all clients by arrival; a matching engine keeps one limit order book per
      instrument; a market data publisher multicasts every change of the books, and a
      snapshot synthesizer multicasts their full contents once a minute;
    - the trading client ([src/trading]): an order gateway speaks to the order server; a
      market data consumer follows the multicast streams and recovers from gaps with a
      snapshot; a trade engine keeps its own copy of the books, positions, risk limits and
      orders, and runs one of two algorithms (or, in [main], a random one).

    Every component is a thread; threads share only single-producer single-consumer queues
    ([src/common/lf_queue.h]).  A thread's loop body is a function here, and what the
    operating system answers (data read, bytes accepted, events, the clock, [rand()]) is an
    argument of it.

    ** Conventions

    Faults of the C++ program are values of [Fault] in the monad [Res], below: an aborting
    [ASSERT] or [FATAL], an exception out of a [noexcept] function, a null pointer, an index
    outside an array, signed overflow.  A theorem that a run "does not fault" says the result
    is [Ok].  Integers are [Z] with the width's wrap-around written out ([u64], [u32], [i32],
    [i64]).  Arrays are [arr]: a length and a sparse map, so the big arrays of the program
    stay executable.  Pointers into a pool are indices of its blocks; pointers to sockets are
    keys.  Loops over linked structures run on fuel ([OutOfFuel] stands for divergence); the
    fuel is the capacity of the pool they walk (plus what the closing of the ring needs), and
    the refinement theorems prove it enough by proving the result [Ok].  Loops that empty a
    queue take their fuel as an argument: the theorems ask for at least the length of the
    queue, and [Exchange] gives them its capacity.

    ** The files, and the code they model

    Shared code:
    - [Types] ([common/types.h], the message headers): limits, enumerations, messages;
      [Wire]: their packed layout, and the framing loop of all receivers;
    - [MemPool] ([common/mem_pool.h]); [LFQueue] ([common/lf_queue.h]): sequential
      operations, and [spsc_step], the two threads of a queue interleaved at every shared
      access; [Sockets] ([common/tcp_socket], [common/mcast_socket]); [TCPServer]
      ([common/tcp_server]): [poll], [sendAndRecv] and a turn of [OrderServer::run];
    - [SystemCalls]: programs as trees of system calls, run against an arbitrary kernel, and
      what their history says of the sockets; [SocketUtils] ([common/socket_utils.h], and the
      members of the socket classes and components that open sockets);
    - [Text], [ToString], [BookPrinter]: every function that prints a structure; [Logger]
      ([common/logging.h]); [LogCalls]: every call of [log] in the program, with its format;
      [TimeUtils] ([common/time_utils.h]); [Double]: the IEEE arithmetic of the strategy code.

    Order books.  The two books are the same linked structure over different orders:
    - [Ring] (circular doubly-linked lists), [PriceLevels] (the structure, over any order
      type with the class [OrderNode]), [BookInv] (its representation invariant),
      [PriceLevelsSpec], [LevelListSpec], [LinkSpec], [StoreSpec], [LevelsAbs] (what each
      operation does to the book the structure represents);
    - [MEOrderBook] ([exchange/matcher/me_order_book]); [BookSpec], the reference book
      without pointers; [BookMatch], [MEBookRefine], [MEBookSpec] (the refinement),
      [BookProps], [Sessions] (which traffic is valid), [BookTheorems], [PriceTime] (who is
      executed first);
    - [MarketOrderBook] ([trading/strategy/market_order_book]), [MarketBookSpec],
      [MarketBBO], [FeedMirror] and [FeedTheorems]: the client's book, its reference, and
      that the exchange's feed makes it equal to the exchange's book.

    The exchange:
    - [FIFOSequencer], [OrderServer] ([exchange/order_server]), [MatchingEngine]
      ([exchange/matcher/matching_engine]), [MarketDataPublisher] and [SnapshotSynthesizer]
      ([exchange/market_data]);
    - [EngineSession]: the reference engine on whole sessions; [EngineTypes]: its values fit
      their C++ types; [RestingOrders]: its answers to one client; [ServerRound]: a turn of
      the order server; [Exchange] ([exchange_main.cpp]): the components joined by their queues,
      one turn of any thread per step, and the invariant; [ExchangeRun]: its theorems;
      [ExchangeFaults]: which turns end the process; [ExchangeBounds]: how full its queues,
      books, pools and counters can be.

    The trading client:
    - [OrderGateway] ([trading/order_gw]), [OrderFlow]: the order connection end to end;
    - [MarketDataConsumer] ([trading/market_data]), [Recovery], [SnapshotRebuild],
      [LateJoiner]: gap detection, recovery, and the market data path end to end;
    - [PositionKeeper], [OrderManager], [PositionLimit], [Strategies], [TradeEngine],
      [TradeEngineSpec] ([trading/strategy]), [OrderFields] (its requests fit the wire);
      [RandomClient] (the RANDOM branch of [trading_main.cpp]);
    - [OrdersInFlight]: what the client takes to be outstanding, against what the exchange
      holds; [TradingClient] ([trading_main.cpp]): the three components joined by their
      queues, one turn of any thread per step, with an exchange and a feed around them;
      [ClientRun]: the invariant and the theorems of the composed client;
    - [CommandLine] and [Shutdown]: how [main] of [trading_main.cpp] reads its arguments,
      waits for silence, and how [TradeEngine::stop] reports the positions.

    Both programs:
    - [MarketFeed]: the exchange's feed is one the client takes; [Market]: one client and the
      exchange, a network between them and other clients besides, any thread of either
      program taking a turn per step; [MarketRun]: each run of the market is a run of the
      composed client and one of the exchange; [MarketSession]: the theorems;
    - [Lifecycle] ([common/thread_utils.h], the start, stop and destructor of every component,
      [signal_handler] and both [main]s): what main creates, stops and frees while the threads
      run, with a clock; [LifecycleRun]: a check of main's actions, its soundness for every
      schedule, and the theorems.

    [Examples] runs two of the example programs ([common/mem_pool_example.cpp],
    [common/logging_example.cpp]).

    ** What the theorems show

    - The pointer programs implement pointer-free books, messages included ([add_refines],
      [cancel_refines], [market_update_refines]); every valid session runs without a fault
      ([book_session], [random_clients_safe]); over whole sessions matching is by price and
      by the arrival of the requests ([price_time_priority]), within limits, and conserves
      quantity.
    - The exchange as a whole implements a reference engine.  Its turns end the process in
      three cases only, all of the order server, and exactly in these: more than 1024 events
      at once, a connection that cannot be set up, more than 1024 requests at once
      ([server_fault], [exchange_fault_causes]).  What clients and subscribers have seen is always a prefix of what the
      reference engine says; everything is delivered in the end; the feed determines the
      books ([exchange_refines_engine] and its neighbours).
    - Order flow: requests and responses cross the connection once, in order, however TCP
      cuts the stream.  Market data: a consumer in step, one that lost datagrams and one that
      joins late all end with the exchange's book.
    - Trading: a turn of the trading thread follows the feed and keeps every position within
      its limit; positions add up; the two algorithms quote where they should.  The client as
      a whole follows the feed, and its true position, answers still on
      their way included, keeps its limit ([client_within_limits] and its neighbours).
    - Both programs together, over a network without loss: again only these three cases end
      one of them ([market_fault_causes]); what the exchange has executed for
      the client, and what it may still execute, keeps the configured limits; a client that
      has caught up has the positions and the books of the exchange ([market_within_limits],
      [market_agrees]).
    - Bounds: with [n] requests in all every queue holds at most [3 n] elements, books, pools,
      buffers and sequence numbers stay as small, and all of it is within its capacity
      ([exchange_within_bounds]).
    - Shared code: the queue under interleaving, the pool, the texts of messages and books, the log file, how the programs set up their sockets.  No log call of the
      program ends it ([log_calls_never_abort]).  The ends of a run: the arguments are
      read as they were written, the wait for silence ends, and the positions logged are
      those of every response received.
    - Threads: from start to exit, SIGINT included, no thread outlives what it works on as
      long as its turns are shorter than the second the destructors wait, and both programs
      get to their exit ([threads_keep_their_objects], [programs_end]); with longer turns they
      do not ([slow_turns_touch_freed_memory]).
    - What the program does not survive, or gets wrong, as theorems: invalid requests and
      identifiers, price collisions modulo 256, a full queue, truncated ids, integer
      overflow, a partial [send], uninitialised profit, the order of requests of one read, an
      incomplete or a ninth group of arguments, a refused connection.

    ** Assumptions on traffic

    [tame] and [traffic_ok] ask that clients name existing instruments, sides and request
    types, use an order id once, keep prices of an instrument in a band of 127 (the level map
    is indexed modulo 256 without a check), and stay below the million of ids the program
    has room for.  The exchange theorems also ask for at most 87381 requests in all, three
    messages each, so that no queue of 262144 slots can overrun however long a thread is
    kept waiting; and that the kernel keeps the contract of its calls and takes what is sent
    ([kernel_ok]; [exchange_fault_causes] does without the latter, since [TCPSocket] looks at
    the number of bytes taken only to log it).  Connections may be refused and any number of
    events and requests may arrive: a turn that faults has no successor, and which do is
    [server_fault].  The theorems about the composed client ask for a valid feed with
    prices below 2^30 and of at most 131072 updates, whose datagrams arrive in order (a gap
    and the recovery from it are the subject of [Recovery] and [LateJoiner]), and for an
    exchange that answers only orders it holds ([turn_allowed]).  The market theorems assume
    nothing of the exchange's answers, which are those of its own threads; they ask for prices
    below 2^30, for at most 43690 requests in all (six messages each at most, within a queue of
    262144), and for a network that delivers the bytes of a connection and the datagrams of
    the feed in order and takes what is sent ([market_setup], [market_allowed]).  [Shutdown] takes a clock that does not go
    back and sleeps that last; [LifecycleRun] takes turns of less than a second.  Each theorem has a witness that meets its hypotheses.

    ** Not modelled

    The system clock, the kernel, [ctime] and [std::sort] are arguments.  Calls to [log] in the
    components change no other state and are left out of their definitions: [Logger] models
    [log] itself and [LogCalls] shows that leaving them out hides no abort; that the logger's
    thread keeps up with its queue is a hypothesis of [Logger].  [Lifecycle] and the models of
    the components are separate: a turn there is a look at [run_], and what a thread does in
    its turn is the subject of [Exchange] and [TradingClient].  The performance-only macros
    [LIKELY] and [UNLIKELY].  The example programs but two, which print what threads and sockets
    do in real time.  In [Exchange], [TradingClient] and [Market] a turn of a thread is atomic:
    the interleaving of single queue accesses is modelled in [LFQueue], and a socket there is
    its buffers, how it was opened being the subject of [SocketUtils].
    A byte off the wire that names no enumerator is a fault of the model ([BadEnum]). *)

From stdpp Require Export base tactics option list list_numbers numbers gmap fin_maps sorting.

#[global] Open Scope Z_scope.

(** ** Faults and the error monad

    The ways a run of the C++ program stops being a run of the program:
    - [AssertFailed]: [ASSERT] printed its message and called [exit];
    - [FatalExit]: [FATAL] printed its message and called [exit];
    - [OutOfRange]: [std::array::at] threw [std::out_of_range]; every caller is
      [noexcept], so the process is terminated;
    - [BadIndex]: an unchecked [operator[]] outside the array (undefined behaviour);
    - [NullDeref]: a null pointer was dereferenced (undefined behaviour);
    - [SignedOverflow]: a signed arithmetic operation overflowed (undefined behaviour);
    - [BadEnum]: a byte off the wire is no enumerator of its type (the program goes on
      with it; the model does not);
    - [OutOfFuel]: a loop of the model used up its fuel, which stands for divergence. *)
Inductive Fault :=
  | AssertFailed | FatalExit | OutOfRange | BadIndex | NullDeref
  | SignedOverflow | BadEnum | OutOfFuel.

#[export] Instance Fault_eq_dec : EqDecision Fault.
Proof. solve_decision. Defined.

Inductive Res (A : Type) :=
  | Ok (a : A)
  | Err (f : Fault).
Arguments Ok {A} a.
Arguments Err {A} f.

#[export] Instance Res_ret : MRet Res := @Ok.
#[export] Instance Res_bind : MBind Res :=
  λ A B k m, match m with Ok a => k a | Err f => Err f end.
#[export] Instance Res_fmap : FMap Res :=
  λ A B k m, match m with Ok a => Ok (k a) | Err f => Err f end.

#[export] Instance Res_eq_dec {A} `{EqDecision A} : EqDecision (Res A).
Proof. solve_decision. Defined.

Definition is_ok {A} (m : Res A) : bool :=
  match m with Ok _ => true | Err _ => false end.

(** [ASSERT(cond, msg)] of [common/macros.h]. *)
Definition ASSERT (cond : bool) : Res unit :=
  if cond then Ok tt else Err AssertFailed.

(** [FATAL(msg)] of [common/macros.h]. *)
Definition FATAL {A} : Res A := Err FatalExit.

(** Dereferencing a nullable pointer. *)
Definition deref {A} (p : option A) : Res A :=
  match p with Some a => Ok a | None => Err NullDeref end.

Section ResLemmas.
Context {A B : Type}.
Implicit Types (m : Res A) (k : A → Res B).

Lemma res_bind_Ok m k b : m ≫= k = Ok b ↔ ∃ a, m = Ok a ∧ k a = Ok b.
Proof. destruct m; naive_solver. Qed.

Lemma res_bind_Err m k f :
  m ≫= k = Err f ↔ m = Err f ∨ ∃ a, m = Ok a ∧ k a = Err f.
Proof. destruct m; naive_solver. Qed.

Lemma ASSERT_true c : c = true → ASSERT c = Ok tt.
Proof. by intros ->. Qed.

Lemma ASSERT_Ok c u : ASSERT c = Ok u ↔ c = true.
Proof. destruct c, u; naive_solver. Qed.

Lemma deref_Ok (p : option A) a : deref p = Ok a ↔ p = Some a.
Proof. destruct p; naive_solver. Qed.

Lemma is_ok_spec m : is_ok m = true ↔ ∃ a, m = Ok a.
Proof. destruct m; naive_solver. Qed.
End ResLemmas.

(** ** Machine integers

    A w-bit integer is a [Z] in its range; these are the conversions. *)
Definition u8 (z : Z) : Z := z mod 2 ^ 8.
Definition u32 (z : Z) : Z := z mod 2 ^ 32.
Definition u64 (z : Z) : Z := z mod 2 ^ 64.
Definition i32 (z : Z) : Z := (z + 2 ^ 31) mod 2 ^ 32 - 2 ^ 31.
Definition i64 (z : Z) : Z := (z + 2 ^ 63) mod 2 ^ 64 - 2 ^ 63.

Definition in_u32 (z : Z) : bool := (0 <=? z) && (z <? 2 ^ 32).
Definition in_u64 (z : Z) : bool := (0 <=? z) && (z <? 2 ^ 64).
Definition in_i32 (z : Z) : bool := (- 2 ^ 31 <=? z) && (z <? 2 ^ 31).
Definition in_i64 (z : Z) : bool := (- 2 ^ 63 <=? z) && (z <? 2 ^ 63).

(** Signed arithmetic whose overflow is undefined behaviour. *)
Definition chk_i32 (z : Z) : Res Z := if in_i32 z then Ok z else Err SignedOverflow.
Definition chk_i64 (z : Z) : Res Z := if in_i64 z then Ok z else Err SignedOverflow.

Section IntLemmas.
Implicit Types z : Z.

Lemma u32_range z : 0 ≤ u32 z < 2 ^ 32.
Proof. unfold u32. apply Z.mod_pos_bound. lia. Qed.
Lemma u64_range z : 0 ≤ u64 z < 2 ^ 64.
Proof. unfold u64. apply Z.mod_pos_bound. lia. Qed.
Lemma i32_range z : - 2 ^ 31 ≤ i32 z < 2 ^ 31.
Proof. unfold i32. pose proof (Z.mod_pos_bound (z + 2 ^ 31) (2 ^ 32)). lia. Qed.
Lemma i64_range z : - 2 ^ 63 ≤ i64 z < 2 ^ 63.
Proof. unfold i64. pose proof (Z.mod_pos_bound (z + 2 ^ 63) (2 ^ 64)). lia. Qed.

Lemma u32_id z : 0 ≤ z < 2 ^ 32 → u32 z = z.
Proof. intros. unfold u32. by rewrite Z.mod_small. Qed.
Lemma u64_id z : 0 ≤ z < 2 ^ 64 → u64 z = z.
Proof. intros. unfold u64. by rewrite Z.mod_small. Qed.
Lemma i32_id z : - 2 ^ 31 ≤ z < 2 ^ 31 → i32 z = z.
Proof. intros. unfold i32. rewrite Z.mod_small; lia. Qed.
Lemma i64_id z : - 2 ^ 63 ≤ z < 2 ^ 63 → i64 z = z.
Proof. intros. unfold i64. rewrite Z.mod_small; lia. Qed.

Lemma in_i32_spec z : in_i32 z = true ↔ - 2 ^ 31 ≤ z < 2 ^ 31.
Proof. unfold in_i32. rewrite andb_true_iff, Z.leb_le, Z.ltb_lt. done. Qed.
Lemma in_i64_spec z : in_i64 z = true ↔ - 2 ^ 63 ≤ z < 2 ^ 63.
Proof. unfold in_i64. rewrite andb_true_iff, Z.leb_le, Z.ltb_lt. done. Qed.
Lemma in_u32_spec z : in_u32 z = true ↔ 0 ≤ z < 2 ^ 32.
Proof. unfold in_u32. rewrite andb_true_iff, Z.leb_le, Z.ltb_lt. done. Qed.
Lemma in_u64_spec z : in_u64 z = true ↔ 0 ≤ z < 2 ^ 64.
Proof. unfold in_u64. rewrite andb_true_iff, Z.leb_le, Z.ltb_lt. done. Qed.

Lemma chk_i32_Ok z y : chk_i32 z = Ok y ↔ y = z ∧ - 2 ^ 31 ≤ z < 2 ^ 31.
Proof.
  unfold chk_i32. destruct (in_i32 z) eqn:E.
  - apply in_i32_spec in E. naive_solver.
  - split; [done|]. intros [_ H]. apply in_i32_spec in H. congruence.
Qed.
Lemma chk_i64_Ok z y : chk_i64 z = Ok y ↔ y = z ∧ - 2 ^ 63 ≤ z < 2 ^ 63.
Proof.
  unfold chk_i64. destruct (in_i64 z) eqn:E.
  - apply in_i64_spec in E. naive_solver.
  - split; [done|]. intros [_ H]. apply in_i64_spec in H. congruence.
Qed.
End IntLemmas.

(** ** Arrays

    [std::array] and [std::vector] of a fixed length, kept sparsely: a cell that
    was never written holds [arr_dflt].  [at] is the checked member function,
    [idx] the unchecked [operator[]]; both are the same read inside the range and
    differ in what happens outside. *)
Record arr (A : Type) := Arr {
  arr_len : Z;
  arr_dflt : A;
  arr_map : gmap Z A
}.
Arguments Arr {A} _ _ _.
Arguments arr_len {A} _.
Arguments arr_dflt {A} _.
Arguments arr_map {A} _.

Definition arr_new {A} (n : Z) (x : A) : arr A := Arr n x ∅.
Definition arr_get {A} (a : arr A) (i : Z) : A := default (arr_dflt a) (arr_map a !! i).
Definition arr_set {A} (a : arr A) (i : Z) (x : A) : arr A :=
  Arr (arr_len a) (arr_dflt a) (<[i:=x]> (arr_map a)).
Definition arr_fill {A} (a : arr A) (x : A) : arr A := Arr (arr_len a) x ∅.
Definition arr_in {A} (a : arr A) (i : Z) : bool := (0 <=? i) && (i <? arr_len a).

Definition arr_at {A} (a : arr A) (i : Z) : Res A :=
  if arr_in a i then Ok (arr_get a i) else Err OutOfRange.
Definition arr_at_set {A} (a : arr A) (i : Z) (x : A) : Res (arr A) :=
  if arr_in a i then Ok (arr_set a i x) else Err OutOfRange.
Definition arr_idx {A} (a : arr A) (i : Z) : Res A :=
  if arr_in a i then Ok (arr_get a i) else Err BadIndex.
Definition arr_idx_set {A} (a : arr A) (i : Z) (x : A) : Res (arr A) :=
  if arr_in a i then Ok (arr_set a i x) else Err BadIndex.

Section ArrLemmas.
Context {A : Type}.
Implicit Types (a : arr A) (i j : Z) (x : A).

Lemma arr_in_spec a i : arr_in a i = true ↔ 0 ≤ i < arr_len a.
Proof. unfold arr_in. rewrite andb_true_iff, Z.leb_le, Z.ltb_lt. done. Qed.

Lemma arr_get_new n x i : arr_get (arr_new n x) i = x.
Proof. unfold arr_get, arr_new; simpl. by rewrite lookup_empty. Qed.
Lemma arr_get_fill a x i : arr_get (arr_fill a x) i = x.
Proof. unfold arr_get, arr_fill; simpl. by rewrite lookup_empty. Qed.

Lemma arr_get_set a i j x :
  arr_get (arr_set a i x) j = if decide (i = j) then x else arr_get a j.
Proof.
  unfold arr_get, arr_set; simpl. rewrite lookup_insert.
  by destruct (decide (i = j)).
Qed.
Lemma arr_get_set_eq a i x : arr_get (arr_set a i x) i = x.
Proof. rewrite arr_get_set. by rewrite decide_True. Qed.
Lemma arr_get_set_ne a i j x : i ≠ j → arr_get (arr_set a i x) j = arr_get a j.
Proof. intros. rewrite arr_get_set. by rewrite decide_False. Qed.

Lemma arr_len_set a i x : arr_len (arr_set a i x) = arr_len a.
Proof. done. Qed.

Lemma arr_at_Ok a i : 0 ≤ i < arr_len a → arr_at a i = Ok (arr_get a i).
Proof. intros H. unfold arr_at. by rewrite (proj2 (arr_in_spec a i) H). Qed.
Lemma arr_at_Ok_inv a i x : arr_at a i = Ok x → x = arr_get a i.
Proof. unfold arr_at. destruct (arr_in a i); [by intros [= <-]|done]. Qed.
Lemma arr_at_set_Ok a i x : 0 ≤ i < arr_len a → arr_at_set a i x = Ok (arr_set a i x).
Proof. intros H. unfold arr_at_set. by rewrite (proj2 (arr_in_spec a i) H). Qed.
Lemma arr_idx_Ok a i : 0 ≤ i < arr_len a → arr_idx a i = Ok (arr_get a i).
Proof. intros H. unfold arr_idx. by rewrite (proj2 (arr_in_spec a i) H). Qed.
Lemma arr_idx_set_Ok a i x : 0 ≤ i < arr_len a → arr_idx_set a i x = Ok (arr_set a i x).
Proof. intros H. unfold arr_idx_set. by rewrite (proj2 (arr_in_spec a i) H). Qed.
Lemma arr_at_out a i : ¬ (0 ≤ i < arr_len a) → arr_at a i = Err OutOfRange.
Proof.
  intros H. unfold arr_at. destruct (arr_in a i) eqn:E; [|done].
  by apply arr_in_spec in E.
Qed.
Lemma arr_at_set_out a i x : ¬ (0 ≤ i < arr_len a) → arr_at_set a i x = Err OutOfRange.
Proof.
  intros H. unfold arr_at_set. destruct (arr_in a i) eqn:E; [|done].
  by apply arr_in_spec in E.
Qed.
End ArrLemmas.

(** The default database of the development: reads of updated arrays. *)
Create HintDb trading.
Create Rewrite HintDb trading.
#[export] Hint Rewrite @arr_get_new @arr_get_fill @arr_get_set_eq @arr_len_set : trading.
#[export] Hint Rewrite @arr_get_set_ne using (congruence || lia) : trading.

(** ** Loops

    A [while] loop is its body, [step : S → Res (S + R)] ([inl s]: go on with
    [s]; [inr r]: the loop is left with [r]), run with a binary fuel: [loop_pos p]
    runs the body at most [p] times without ever building [p] in unary. *)
Section Loop.
Context {S R : Type} (step : S → Res (S + R)).

Definition and_then (r : S + R) (k : S → Res (S + R)) : Res (S + R) :=
  match r with inl s => k s | inr x => Ok (inr x) end.

Fixpoint loop_pos (p : positive) (s : S) : Res (S + R) :=
  match p with
  | xH => step s
  | xO q => r ← loop_pos q s; and_then r (loop_pos q)
  | xI q =>
      r ← step s; and_then r (λ s1,
      r ← loop_pos q s1; and_then r (loop_pos q))
  end.

Definition loop (fuel : positive) (s : S) : Res R :=
  r ← loop_pos fuel s;
  match r with inl _ => Err OutOfFuel | inr x => Ok x end.

(** The same loop with unary fuel, for the proofs. *)
Fixpoint loop_nat (n : nat) (s : S) : Res (S + R) :=
  match n with
  | O => Ok (inl s)
  | Datatypes.S n => r ← step s; and_then r (loop_nat n)
  end.

Lemma loop_nat_add n m s :
  loop_nat (n + m) s = (r ← loop_nat n s; and_then r (loop_nat m)).
Proof.
  revert s. induction n as [|n IH]; intros s; simpl; [done|].
  destruct (step s) as [[s1|x]|f]; simpl; [|done|done]. apply IH.
Qed.

Lemma loop_pos_nat p s : loop_pos p s = loop_nat (Pos.to_nat p) s.
Proof.
  revert s. induction p as [p IH|p IH|]; intros s.
  - replace (Pos.to_nat p~1) with (Datatypes.S (Pos.to_nat p + Pos.to_nat p)) by lia.
    simpl.
    destruct (step s) as [[s1|x]|f]; simpl; [|done|done].
    rewrite loop_nat_add, IH.
    destruct (loop_nat (Pos.to_nat p) s1) as [[s2|x]|f]; simpl; auto.
  - replace (Pos.to_nat p~0) with (Pos.to_nat p + Pos.to_nat p)%nat by lia. simpl.
    rewrite loop_nat_add, IH.
    destruct (loop_nat (Pos.to_nat p) s) as [[s2|x]|f]; simpl; auto.
  - rewrite Pos2Nat.inj_1. simpl.
    by destruct (step s) as [[s1|x]|f].
Qed.

Lemma loop_unfold_nat fuel s :
  loop fuel s = (r ← loop_nat (Pos.to_nat fuel) s;
                 match r with inl _ => Err OutOfFuel | inr x => Ok x end).
Proof. unfold loop. by rewrite loop_pos_nat. Qed.

(** Total correctness: an invariant and a measure below the fuel give a result. *)
Lemma loop_measure (I : S → Prop) (m : S → nat) (Q : R → Prop) fuel s :
  (∀ s, I s → ∃ r, step s = Ok r ∧
     match r with inl s' => I s' ∧ (m s' < m s)%nat | inr x => Q x end) →
  I s → (m s < Pos.to_nat fuel)%nat →
  ∃ x, loop fuel s = Ok x ∧ Q x.
Proof.
  intros Hstep HI Hm. rewrite loop_unfold_nat.
  remember (Pos.to_nat fuel) as n eqn:En. clear En.
  revert s HI Hm. induction n as [|n IH]; intros s HI Hm; [lia|]. simpl.
  destruct (Hstep s HI) as ([s'|x] & -> & H); simpl.
  - destruct H as [HI' Hlt]. apply IH; [done|lia].
  - eauto.
Qed.

(** A loop that fails: the invariant holds up to a step that faults. *)
Lemma loop_measure_err (I : S → Prop) (m : S → nat) f fuel s :
  (∀ s, I s → step s = Err f ∨ ∃ s', step s = Ok (inl s') ∧ I s' ∧ (m s' < m s)%nat) →
  I s → (m s < Pos.to_nat fuel)%nat →
  loop fuel s = Err f.
Proof.
  intros Hstep HI Hm. rewrite loop_unfold_nat.
  remember (Pos.to_nat fuel) as n eqn:En. clear En.
  revert s HI Hm. induction n as [|n IH]; intros s HI Hm; [lia|]. simpl.
  destruct (Hstep s HI) as [->|(s' & -> & HI' & Hlt)]; simpl; [done|].
  apply IH; [done|lia].
Qed.
End Loop.

(** ** Folds that can fail *)
Section FoldRes.
Context {A S : Type} (f : S → A → Res S).

Fixpoint fold_res (s : S) (l : list A) : Res S :=
  match l with
  | [] => Ok s
  | x :: l => s ← f s x; fold_res s l
  end.

Lemma fold_res_app s l k : fold_res s (l ++ k) = (s ← fold_res s l; fold_res s k).
Proof.
  revert s. induction l as [|x l IH]; intros s; [done|]. simpl.
  by destruct (f s x) as [s1|e]; simpl.
Qed.
End FoldRes.

Definition of_option {A} (e : Fault) (m : option A) : Res A :=
  match m with Some a => Ok a | None => Err e end.

(** ** Sums *)
Definition sumZ (l : list Z) : Z := foldr Z.add 0 l.

Lemma sumZ_cons x l : sumZ (x :: l) = x + sumZ l.
Proof. done. Qed.
Lemma sumZ_app l k : sumZ (l ++ k) = sumZ l + sumZ k.
Proof. induction l as [|x l IH]; [done|]. simpl. rewrite IH. lia. Qed.
#[export] Instance sumZ_perm : Proper ((≡ₚ) ==> (=)) sumZ.
Proof. induction 1; simpl in *; lia. Qed.

(** [for (i = 0; i < n; ++i) s = body(i, s)], for a body without [break]. *)
Section ForRange.
Context {S : Type} (body : Z → S → Res S).

Definition for_range_step (n : Z) (st : Z * S) : Res ((Z * S) + S) :=
  let '(i, s) := st in
  if i <? n then s' ← body i s; Ok (inl (i + 1, s')) else Ok (inr s).
Definition for_range (n : Z) (s : S) : Res S :=
  loop (for_range_step n) (Z.to_pos (n + 1)) (0, s).

(** Total correctness with an invariant indexed by the counter. *)
Lemma for_range_inv (I : Z → S → Prop) n s :
  0 ≤ n → (∀ i s, 0 ≤ i < n → I i s → ∃ s', body i s = Ok s' ∧ I (i + 1) s') →
  I 0 s → ∃ s', for_range n s = Ok s' ∧ I n s'.
Proof.
  intros Hn Hbody H0.
  apply (loop_measure (for_range_step n) (λ st, 0 ≤ st.1 ≤ n ∧ I st.1 st.2)
           (λ st, Z.to_nat (n - st.1))).
  - intros [i s'] [Hi HI]. simpl in *. unfold for_range_step.
    destruct (i <? n) eqn:E; [apply Z.ltb_lt in E|apply Z.ltb_ge in E].
    + destruct (Hbody i s') as (s1 & -> & H1); [lia|done|]. simpl. eexists; split; [done|].
      simpl. split; [split; [lia|done]|lia].
    + eexists; split; [done|]. simpl. by replace n with i by lia.
  - simpl. split; [lia|done].
  - simpl. lia.
Qed.
End ForRange.

(** ** Filters that keep everything or nothing *)
Lemma length_omap_le {A B} (f : A → option B) (l : list A) : (length (omap f l) ≤ length l)%nat.
Proof. induction l as [|x l IH]; [done|]. cbn. destruct (f x); cbn in *; lia. Qed.
Lemma filter_none_or_all {A} (P : A → Prop) `{∀ x, Decision (P x)} (l : list A) :
  (Forall P l → filter P l = l) ∧ (Forall (λ x, ¬ P x) l → filter P l = []).
Proof.
  induction l as [|x l [IH1 IH2]]; [done|]. split; intros [Hx Hl]%Forall_cons.
  - by rewrite filter_cons_True, IH1.
  - by rewrite filter_cons_False, IH2.
Qed.
