(* ===== verification/Types.v ===== *)
(** * Types: the vocabulary of the ecosystem

    The typedefs, limits and enumerations of [common/types.h], and the message
    structures of [exchange/order_server/client_request.h],
    [exchange/order_server/client_response.h] and
    [exchange/market_data/market_update.h].  Every id, price and quantity is a [Z];
    the typedefs give its width ([u64], [u32], [i64] of the prelude).  An
    enumeration value outside the enumerators (possible only for a corrupt byte on
    the wire) is not represented. *)
From S2P Require Import Prelude.

(** ** Limits ([common/types.h]) *)
Definition ME_MAX_TICKERS : Z := 8.
Definition ME_MAX_CLIENT_UPDATES : Z := 256 * 1024.
Definition ME_MAX_MARKET_UPDATES : Z := 256 * 1024.
Definition ME_MAX_NUM_CLIENTS : Z := 256.
Definition ME_MAX_ORDER_IDS : Z := 1024 * 1024.
Definition ME_MAX_PRICE_LEVELS : Z := 256.

(** ** Scalar types and their sentinels *)
Abbreviation OrderId := Z (only parsing).
Abbreviation TickerId := Z (only parsing).
Abbreviation ClientId := Z (only parsing).
Abbreviation Price := Z (only parsing).
Abbreviation Qty := Z (only parsing).
Abbreviation Priority := Z (only parsing).
Abbreviation Nanos := Z (only parsing).

Definition OrderId_INVALID : OrderId := 2 ^ 64 - 1.
Definition TickerId_INVALID : TickerId := 2 ^ 32 - 1.
Definition ClientId_INVALID : ClientId := 2 ^ 32 - 1.
Definition Price_INVALID : Price := 2 ^ 63 - 1.
Definition Qty_INVALID : Qty := 2 ^ 32 - 1.
Definition Priority_INVALID : Priority := 2 ^ 64 - 1.

(** ** Enumerations *)
Module Side.
Inductive t := INVALID | BUY | SELL | MAX.
#[export] Instance t_eq_dec : EqDecision t.
Proof. solve_decision. Defined.
End Side.
Export (hints) Side.

(** [static_cast<int>(side)]. *)
Definition sideToValue (side : Side.t) : Z :=
  match side with
  | Side.INVALID => 0
  | Side.BUY => 1
  | Side.SELL => -1
  | Side.MAX => 2
  end.

(** [static_cast<size_t>(side) + 1]: the cast of SELL = -1 wraps, and so does the
    addition. *)
Definition sideToIndex (side : Side.t) : Z := u64 (u64 (sideToValue side) + 1).

Module AlgoType.
Inductive t := INVALID | RANDOM | MAKER | TAKER | MAX.
#[export] Instance t_eq_dec : EqDecision t.
Proof. solve_decision. Defined.
End AlgoType.
Export (hints) AlgoType.

Module ClientRequestType.
Inductive t := INVALID | NEW | CANCEL.
#[export] Instance t_eq_dec : EqDecision t.
Proof. solve_decision. Defined.
End ClientRequestType.
Export (hints) ClientRequestType.

Module ClientResponseType.
Inductive t := INVALID | ACCEPTED | CANCELED | FILLED | CANCEL_REJECTED.
#[export] Instance t_eq_dec : EqDecision t.
Proof. solve_decision. Defined.
End ClientResponseType.
Export (hints) ClientResponseType.

Module MarketUpdateType.
Inductive t :=
  | INVALID | CLEAR | ADD | MODIFY | CANCEL | TRADE | SNAPSHOT_START | SNAPSHOT_END.
#[export] Instance t_eq_dec : EqDecision t.
Proof. solve_decision. Defined.
End MarketUpdateType.
Export (hints) MarketUpdateType.

(** ** Messages *)
Record MEClientRequest := mkMEClientRequest {
  rq_type : ClientRequestType.t;
  rq_client_id : ClientId;
  rq_ticker_id : TickerId;
  rq_order_id : OrderId;
  rq_side : Side.t;
  rq_price : Price;
  rq_qty : Qty
}.

Record OMClientRequest := mkOMClientRequest {
  omrq_seq_num : Z;
  omrq_request : MEClientRequest
}.

Record MEClientResponse := mkMEClientResponse {
  rs_type : ClientResponseType.t;
  rs_client_id : ClientId;
  rs_ticker_id : TickerId;
  rs_client_order_id : OrderId;
  rs_market_order_id : OrderId;
  rs_side : Side.t;
  rs_price : Price;
  rs_exec_qty : Qty;
  rs_leaves_qty : Qty
}.

Record OMClientResponse := mkOMClientResponse {
  omrs_seq_num : Z;
  omrs_response : MEClientResponse
}.

Record MEMarketUpdate := mkMEMarketUpdate {
  mu_type : MarketUpdateType.t;
  mu_order_id : OrderId;
  mu_ticker_id : TickerId;
  mu_side : Side.t;
  mu_price : Price;
  mu_qty : Qty;
  mu_priority : Priority
}.

Record MDPMarketUpdate := mkMDPMarketUpdate {
  mdp_seq_num : Z;
  mdp_update : MEMarketUpdate
}.

#[export] Instance MEClientRequest_eq_dec : EqDecision MEClientRequest.
Proof. solve_decision. Defined.
#[export] Instance MEClientResponse_eq_dec : EqDecision MEClientResponse.
Proof. solve_decision. Defined.
#[export] Instance MEMarketUpdate_eq_dec : EqDecision MEMarketUpdate.
Proof. solve_decision. Defined.
#[export] Instance MDPMarketUpdate_eq_dec : EqDecision MDPMarketUpdate.
Proof. solve_decision. Defined.

(** The default member initialisers of the structures. *)
Definition MEClientRequest_default : MEClientRequest :=
  mkMEClientRequest ClientRequestType.INVALID ClientId_INVALID TickerId_INVALID
    OrderId_INVALID Side.INVALID Price_INVALID Qty_INVALID.
Definition MEClientResponse_default : MEClientResponse :=
  mkMEClientResponse ClientResponseType.INVALID ClientId_INVALID TickerId_INVALID
    OrderId_INVALID OrderId_INVALID Side.INVALID Price_INVALID Qty_INVALID Qty_INVALID.
Definition MEMarketUpdate_default : MEMarketUpdate :=
  mkMEMarketUpdate MarketUpdateType.INVALID OrderId_INVALID TickerId_INVALID
    Side.INVALID Price_INVALID Qty_INVALID Priority_INVALID.
Definition MDPMarketUpdate_default : MDPMarketUpdate :=
  mkMDPMarketUpdate 0 MEMarketUpdate_default.

(** ** Facts about sides *)
Lemma sideToIndex_values :
  sideToIndex Side.SELL = 0 ∧ sideToIndex Side.INVALID = 1 ∧
  sideToIndex Side.BUY = 2 ∧ sideToIndex Side.MAX = 3.
Proof. done. Qed.

(** The index of a side stays inside an array of [sideToIndex(MAX) + 1] cells, and
    two sides never share a cell. *)
Lemma sideToIndex_range side : 0 ≤ sideToIndex side < sideToIndex Side.MAX + 1.
Proof. by destruct side. Qed.
Lemma sideToIndex_inj s1 s2 : sideToIndex s1 = sideToIndex s2 → s1 = s2.
Proof. by destruct s1, s2. Qed.
