(* ===== verification/MemPool.v ===== *)
(** * MemPool: the fixed-capacity object pool of [common/mem_pool.h]

    A pointer handed out by the pool is the index of its block in [store_]. *)
From S2P Require Import Prelude.

Abbreviation ptr := Z (only parsing).

Record ObjectBlock (T : Type) := mkBlock { object_ : T; is_free_ : bool }.
Arguments mkBlock {T} _ _.
Arguments object_ {T} _.
Arguments is_free_ {T} _.

Record MemPool (T : Type) := mkPool {
  store_ : arr (ObjectBlock T);
  next_free_index_ : Z
}.
Arguments mkPool {T} _ _.
Arguments store_ {T} _.
Arguments next_free_index_ {T} _.

Section MemPool.
Context {T : Type}.
Implicit Types (pool : MemPool T) (t : T) (p : ptr).

(** The constructor: [num_elems] blocks holding [T()], all of them free. *)
Definition MemPool_new (num_elems : Z) (t : T) : MemPool T :=
  mkPool (arr_new num_elems (mkBlock t true)) 0.

(** One turn of the [while] loop of [updateNextFreeIndex]. *)
Definition updateNextFreeIndex_step (store : arr (ObjectBlock T)) (initial i : Z)
  : Res (Z + Z) :=
  block ← arr_idx store i;
  if is_free_ block then Ok (inr i)
  else
    let i1 := u64 (i + 1) in
    let i2 := if i1 =? arr_len store then 0 else i1 in
    _ ← ASSERT (negb (initial =? i2));
    Ok (inl i2).

(** Find the next available free block to be used for the next allocation. *)
Definition updateNextFreeIndex pool : Res (MemPool T) :=
  let initial := next_free_index_ pool in
  i ← loop (updateNextFreeIndex_step (store_ pool) initial)
           (Z.to_pos (arr_len (store_ pool) + 1)) initial;
  Ok (mkPool (store_ pool) i).

Definition allocate pool t : Res (ptr * MemPool T) :=
  block ← arr_idx (store_ pool) (next_free_index_ pool);
  _ ← ASSERT (is_free_ block);
  let ret := next_free_index_ pool in
  let store := arr_set (store_ pool) ret (mkBlock t false) in
  pool' ← updateNextFreeIndex (mkPool store (next_free_index_ pool));
  Ok (ret, pool').

Definition deallocate pool p : Res (MemPool T) :=
  _ ← ASSERT (arr_in (store_ pool) p);
  let block := arr_get (store_ pool) p in
  _ ← ASSERT (negb (is_free_ block));
  Ok (mkPool (arr_set (store_ pool) p (mkBlock (object_ block) true))
             (next_free_index_ pool)).

(** The object behind a pointer into the pool, and a write through it. *)
Definition pool_get pool p : T := object_ (arr_get (store_ pool) p).
Definition pool_put pool p t : MemPool T :=
  mkPool (arr_set (store_ pool) p
            (mkBlock t (is_free_ (arr_get (store_ pool) p))))
         (next_free_index_ pool).
Definition pool_upd pool p (f : T → T) : MemPool T := pool_put pool p (f (pool_get pool p)).

Definition pool_size pool : Z := arr_len (store_ pool).
Definition pool_free pool p : bool := is_free_ (arr_get (store_ pool) p).
End MemPool.

(** ** Reads after writes *)
Section PoolAccess.
Context {T : Type}.
Implicit Types (pool : MemPool T) (t : T) (p q : ptr).

Lemma pool_get_put pool p q t :
  pool_get (pool_put pool p t) q = if decide (p = q) then t else pool_get pool q.
Proof.
  unfold pool_get, pool_put; simpl. rewrite arr_get_set.
  by destruct (decide (p = q)).
Qed.
Lemma pool_free_put pool p q t : pool_free (pool_put pool p t) q = pool_free pool q.
Proof.
  unfold pool_free, pool_put; simpl. rewrite arr_get_set.
  destruct (decide (p = q)) as [->|]; done.
Qed.
Lemma pool_size_put pool p t : pool_size (pool_put pool p t) = pool_size pool.
Proof. done. Qed.
Lemma pool_next_put pool p t :
  next_free_index_ (pool_put pool p t) = next_free_index_ pool.
Proof. done. Qed.
Lemma pool_get_upd pool p q f :
  pool_get (pool_upd pool p f) q =
  if decide (p = q) then f (pool_get pool p) else pool_get pool q.
Proof. apply pool_get_put. Qed.
Lemma pool_free_upd pool p q f : pool_free (pool_upd pool p f) q = pool_free pool q.
Proof. apply pool_free_put. Qed.
Lemma pool_size_upd pool p f : pool_size (pool_upd pool p f) = pool_size pool.
Proof. done. Qed.
End PoolAccess.

#[export] Hint Rewrite @pool_get_put @pool_free_put @pool_size_put @pool_next_put
  @pool_get_upd @pool_free_upd @pool_size_upd : trading.

(** ** What the pool promises

    [pool_rep pool l]: the blocks in use are exactly the pointers of [l], and the
    next allocation will find a free block. *)
Definition pool_wf {T} (pool : MemPool T) : Prop :=
  0 < pool_size pool < 2 ^ 64 - 1 ∧
  0 ≤ next_free_index_ pool < pool_size pool ∧
  pool_free pool (next_free_index_ pool) = true.

Definition pool_rep {T} (pool : MemPool T) (l : list ptr) : Prop :=
  pool_wf pool ∧ NoDup l ∧
  ∀ p, p ∈ l ↔ 0 ≤ p < pool_size pool ∧ pool_free pool p = false.

#[export] Instance pool_rep_perm {T} (pool : MemPool T) :
  Proper ((≡ₚ) ==> iff) (pool_rep pool).
Proof.
  assert (∀ l k, l ≡ₚ k → pool_rep pool l → pool_rep pool k) as H.
  { intros l k Hlk (Hwf & Hnd & Hl). split; [done|]. split.
    - by rewrite <-Hlk.
    - intros p. by rewrite <-Hlk. }
  intros l k Hlk. split; eauto using Permutation_sym.
Qed.

(** Fewer than [n - 1] pointers leave a free index other than [next]. *)
Lemma exists_free_index (n next : Z) (l : list Z) :
  Z.of_nat (length l) + 2 ≤ n → ∃ j, 0 ≤ j < n ∧ j ≠ next ∧ j ∉ l.
Proof.
  intros Hlen.
  destruct (decide (Exists (λ j, j ∉ next :: l) (seqZ 0 n))) as [Hex|Hno].
  - apply Exists_exists in Hex as (j & Hj & Hnot).
    apply elem_of_seqZ in Hj. exists j. set_solver by lia.
  - exfalso. rewrite <-Forall_Exists_neg in Hno.
    assert (seqZ 0 n ⊆+ next :: l) as Hsub.
    { apply NoDup_submseteq; [apply NoDup_seqZ|]. intros j Hj.
      rewrite Forall_forall in Hno. specialize (Hno j Hj).
      destruct (decide (j ∈ next :: l)); naive_solver. }
    apply submseteq_length in Hsub. rewrite length_seqZ in Hsub. simpl in Hsub. lia.
Qed.

Section PoolSpec.
Context {T : Type}.
Implicit Types (pool : MemPool T) (t : T) (p q : ptr) (l : list ptr).

Lemma MemPool_new_rep n t : 0 < n < 2 ^ 64 - 1 → pool_rep (MemPool_new n t) [].
Proof.
  intros Hn. split_and!; simpl.
  - unfold pool_wf, pool_size, pool_free; simpl. rewrite arr_get_new; simpl. lia.
  - constructor.
  - intros p. unfold pool_free; simpl. rewrite arr_get_new; simpl. set_solver.
Qed.

Lemma MemPool_new_get n t p : pool_get (MemPool_new n t) p = t.
Proof. unfold pool_get; simpl. by rewrite arr_get_new. Qed.

Lemma MemPool_new_size n t : pool_size (MemPool_new n t) = n.
Proof. done. Qed.

(** [i] is [cyc_off n i0 i] places after [i0] on the circle of [n] indices. *)
Definition cyc_off (n i0 i : Z) : Z := if i0 <=? i then i - i0 else i - i0 + n.
Definition cyc_add (n i0 d : Z) : Z := if i0 + d <? n then i0 + d else i0 + d - n.

(** The search stops at the first free block in cyclic order. *)
Lemma updateNextFreeIndex_found pool n i0 d :
  pool_size pool = n → next_free_index_ pool = i0 →
  0 < n < 2 ^ 64 - 1 → 0 ≤ i0 < n → 0 ≤ d < n →
  pool_free pool (cyc_add n i0 d) = true →
  (∀ k, 0 ≤ k < d → pool_free pool (cyc_add n i0 k) = false) →
  updateNextFreeIndex pool = Ok (mkPool (store_ pool) (cyc_add n i0 d)).
Proof.
  intros Esz Ei0 Hn Hi0 Hd Hfree Hbusy. unfold updateNextFreeIndex.
  rewrite Ei0. unfold pool_size in Esz.
  destruct (loop_measure (updateNextFreeIndex_step (store_ pool) i0)
    (λ i, 0 ≤ i < n ∧ cyc_off n i0 i ≤ d) (λ i, Z.to_nat (d - cyc_off n i0 i))
    (λ i, i = cyc_add n i0 d)
    (Z.to_pos (arr_len (store_ pool) + 1)) i0) as (i & -> & ->); [| | |done].
  - intros i (Hi & Hoff). unfold updateNextFreeIndex_step.
    rewrite arr_idx_Ok by lia. simpl.
    change (is_free_ (arr_get (store_ pool) i)) with (pool_free pool i).
    assert (i = cyc_add n i0 (cyc_off n i0 i)) as Ecyc.
    { unfold cyc_add, cyc_off. repeat case_match; lia. }
    destruct (decide (cyc_off n i0 i = d)) as [<-|Hne].
    + rewrite Ecyc, Hfree, <-Ecyc. eauto.
    + rewrite Ecyc, (Hbusy (cyc_off n i0 i)), <-Ecyc
        by (unfold cyc_off in *; repeat case_match; lia).
      rewrite u64_id, Esz by lia.
      eexists; split.
      * rewrite ASSERT_true; [done|]. unfold cyc_off in *.
        rewrite negb_true_iff, Z.eqb_neq. repeat case_match; lia.
      * simpl. unfold cyc_off in *. repeat case_match; lia.
  - unfold cyc_off. case_match; lia.
  - rewrite Esz. unfold cyc_off. case_match; lia.
Qed.

(** Without a free block the search goes once around the pool and fails. *)
Lemma updateNextFreeIndex_full pool :
  0 < pool_size pool < 2 ^ 64 - 1 → 0 ≤ next_free_index_ pool < pool_size pool →
  (∀ i, 0 ≤ i < pool_size pool → pool_free pool i = false) →
  updateNextFreeIndex pool = Err AssertFailed.
Proof.
  intros Hn Hi0 Hbusy. unfold updateNextFreeIndex.
  remember (pool_size pool) as n eqn:Esz. remember (next_free_index_ pool) as i0.
  unfold pool_size in Esz.
  rewrite (loop_measure_err _ (λ i, 0 ≤ i < n)
    (λ i, Z.to_nat (n - cyc_off n i0 i)) AssertFailed); [done| |done|].
  - intros i Hi. unfold updateNextFreeIndex_step.
    rewrite arr_idx_Ok by lia. simpl.
    change (is_free_ (arr_get (store_ pool) i)) with (pool_free pool i).
    rewrite Hbusy, u64_id, <-Esz by lia.
    destruct (Z.eqb_spec i0 (if i + 1 =? n then 0 else i + 1)) as [|Hne]; simpl;
      [by left|right].
    eexists; split; [done|]. unfold cyc_off in *. repeat case_match; lia.
  - rewrite <-Esz. unfold cyc_off. case_match; lia.
Qed.

Lemma first_free pool n i0 m :
  0 ≤ m < n → 0 ≤ i0 < n → pool_free pool (cyc_add n i0 m) = true →
  ∃ d, 0 ≤ d ≤ m ∧ pool_free pool (cyc_add n i0 d) = true ∧
    (∀ k, 0 ≤ k < d → pool_free pool (cyc_add n i0 k) = false).
Proof.
  intros Hm Hi0. remember (Z.to_nat m) as x eqn:Ex. revert m Hm Ex.
  induction (lt_wf x) as [x _ IH]. intros m Hm -> Hfree.
  destruct (decide (Exists (λ k, pool_free pool (cyc_add n i0 k) = true) (seqZ 0 m)))
    as [Hex|Hno].
  - apply Exists_exists in Hex as (k & Hk & Hkf). apply elem_of_seqZ in Hk.
    destruct (IH (Z.to_nat k) ltac:(lia) k ltac:(lia) eq_refl Hkf)
      as (d & Hd & Hdf & Hmin).
    exists d. split_and!; [lia|lia|done|done].
  - exists m. split_and!; [lia|lia|done|]. intros k Hk.
    apply not_true_is_false. intros Hkf. apply Hno, Exists_exists.
    exists k. split; [apply elem_of_seqZ; lia|done].
Qed.

(** Allocation with at least one other free block: it hands out the block at
    [next_free_index_], writes the object there, and touches nothing else. *)
Lemma allocate_spec pool l t :
  pool_rep pool l → Z.of_nat (length l) + 2 ≤ pool_size pool →
  ∃ pool', allocate pool t = Ok (next_free_index_ pool, pool') ∧
    (next_free_index_ pool ∉ l) ∧ pool_rep pool' (next_free_index_ pool :: l) ∧
    pool_size pool' = pool_size pool ∧
    (∀ q, pool_get pool' q =
           if decide (next_free_index_ pool = q) then t else pool_get pool q).
Proof.
  intros ((Hn & Hnext & Hfree) & Hnd & Hl) Hlen.
  remember (pool_size pool) as n eqn:En. remember (next_free_index_ pool) as i0 eqn:Ei0.
  assert (i0 ∉ l) as Hnin. { rewrite Hl. intros [_ ?]. congruence. }
  unfold allocate. rewrite <-Ei0, arr_idx_Ok by (unfold pool_size in En; lia). simpl.
  change (is_free_ (arr_get (store_ pool) i0)) with (pool_free pool i0).
  rewrite Hfree. simpl.
  set (store := arr_set (store_ pool) i0 (mkBlock t false)).
  set (pool1 := mkPool store i0).
  assert (∀ q, pool_free pool1 q = if decide (i0 = q) then false else pool_free pool q)
    as Hfree1.
  { intros q. unfold pool_free, pool1, store; simpl. rewrite arr_get_set.
    by destruct (decide (i0 = q)). }
  destruct (exists_free_index n i0 l Hlen) as (j & Hj & Hji & Hjl).
  assert (pool_free pool j = true) as Hjf.
  { destruct (pool_free pool j) eqn:E; [done|]. exfalso. apply Hjl, Hl. done. }
  destruct (first_free pool1 n i0 (cyc_off n i0 j)) as (d & Hd & Hdf & Hdmin).
  { unfold cyc_off. case_match; lia. }
  { done. }
  { replace (cyc_add n i0 (cyc_off n i0 j)) with j
      by (unfold cyc_off, cyc_add; repeat case_match; lia).
    rewrite Hfree1. by rewrite decide_False. }
  assert (0 ≤ d < n) by (unfold cyc_off in Hd; case_match; lia).
  rewrite (updateNextFreeIndex_found pool1 n i0 d); try done. simpl.
  eexists; split_and!; [done|done| |done|].
  - split_and!.
    + unfold pool_wf. change (pool_size _) with (pool_size pool). rewrite <-En. simpl.
      split_and!; try lia; [| |exact Hdf]; unfold cyc_add; case_match; lia.
    + by constructor.
    + intros p. rewrite elem_of_cons, Hl. change (pool_size _) with (pool_size pool).
      change (pool_free (mkPool store (cyc_add n i0 d)) p) with (pool_free pool1 p).
      rewrite Hfree1, <-En. destruct (decide (i0 = p)); naive_solver.
  - intros q. unfold pool_get; simpl. unfold store. rewrite arr_get_set.
    by destruct (decide (i0 = q)).
Qed.

(** The last free block cannot be handed out: with [size - 1] blocks in use the
    search for the next free one fails after the block was written. *)
Lemma allocate_last pool l t :
  pool_rep pool l → Z.of_nat (length l) + 1 = pool_size pool →
  allocate pool t = Err AssertFailed.
Proof.
  intros ((Hn & Hnext & Hfree) & Hnd & Hl) Hlen.
  unfold allocate. rewrite arr_idx_Ok by done. simpl.
  change (is_free_ (arr_get (store_ pool) (next_free_index_ pool)))
    with (pool_free pool (next_free_index_ pool)).
  rewrite Hfree. simpl. rewrite updateNextFreeIndex_full; [done|done|done|].
  simpl. intros i Hi. change (pool_size _) with (pool_size pool) in Hi.
  unfold pool_free; simpl. rewrite arr_get_set.
  destruct (decide (next_free_index_ pool = i)) as [|Hne]; [done|].
  change (pool_free pool i = false).
  destruct (decide (i ∈ l)) as [Hin|Hnin]; [by apply Hl|].
  exfalso. assert (Nat.le (length (next_free_index_ pool :: i :: l))
                     (length (seqZ 0 (pool_size pool)))) as Hbad.
  { apply submseteq_length, NoDup_submseteq.
    - apply NoDup_cons; split; [|by apply NoDup_cons]. rewrite elem_of_cons.
      intros [?|Hin]; [done|]. apply Hl in Hin as [_ ?]. congruence.
    - intros j. rewrite elem_of_seqZ, !elem_of_cons. intros [->|[->|Hj]]; [lia|lia|].
      apply Hl in Hj. lia. }
  rewrite length_seqZ in Hbad. simpl in Hbad. lia.
Qed.

Lemma deallocate_spec pool l p :
  pool_rep pool (p :: l) →
  ∃ pool', deallocate pool p = Ok pool' ∧ pool_rep pool' l ∧
    pool_size pool' = pool_size pool ∧ (∀ q, pool_get pool' q = pool_get pool q).
Proof.
  intros ((Hn & Hnext & Hfree) & Hnd & Hl).
  destruct (proj1 (Hl p)) as [Hp Hpf]; [by left|].
  unfold deallocate. rewrite (proj2 (arr_in_spec _ _) Hp). simpl.
  change (is_free_ (arr_get (store_ pool) p)) with (pool_free pool p).
  rewrite Hpf. simpl. eexists; split_and!; [done| |done|].
  - assert (∀ q, pool_free (mkPool (arr_set (store_ pool) p
              (mkBlock (object_ (arr_get (store_ pool) p)) true))
              (next_free_index_ pool)) q
            = if decide (p = q) then true else pool_free pool q) as Hfree1.
    { intros q. unfold pool_free; simpl. rewrite arr_get_set.
      by destruct (decide (p = q)). }
    apply NoDup_cons in Hnd as [Hnin Hnd]. split; [|split; [done|]].
    + unfold pool_wf. change (pool_size _) with (pool_size pool). simpl.
      rewrite Hfree1. by case_decide.
    + intros q. change (pool_size _) with (pool_size pool). rewrite Hfree1.
      specialize (Hl q). rewrite elem_of_cons in Hl. case_decide; naive_solver.
  - intros q. unfold pool_get; simpl. rewrite arr_get_set.
    by destruct (decide (p = q)) as [->|].
Qed.

(** Freeing a block that is not in use, or a pointer of another pool, is caught. *)
Lemma deallocate_bad pool l p :
  pool_rep pool l → p ∉ l → deallocate pool p = Err AssertFailed.
Proof.
  intros (_ & _ & Hl) Hp. unfold deallocate.
  destruct (arr_in (store_ pool) p) eqn:Hin; simpl; [|done].
  apply arr_in_spec in Hin.
  change (is_free_ (arr_get (store_ pool) p)) with (pool_free pool p).
  destruct (pool_free pool p) eqn:Hf; [done|]. exfalso. by apply Hp, Hl.
Qed.

Lemma pool_rep_put pool l p t : pool_rep pool l → pool_rep (pool_put pool p t) l.
Proof.
  intros (Hwf & Hnd & Hl). split; [|split; [done|]].
  - unfold pool_wf in *. by autorewrite with trading.
  - intros q. by autorewrite with trading.
Qed.
End PoolSpec.

(** ** Theorems *)

(** C39: What an allocation does, and how many there can be: while two blocks are free the
    cyclic search for the next free index ends and [allocate] hands out a block that is not
    in use, holding the object, with every other object untouched; with one free block left
    it fails its assertion, so a pool of [n] blocks serves [n - 1] objects. *)
Theorem pool_capacity {T} (pool : MemPool T) (l : list ptr) (t : T) :
  pool_rep pool l →
  (Z.of_nat (length l) + 2 ≤ pool_size pool →
   ∃ p pool', allocate pool t = Ok (p, pool') ∧ (p ∉ l) ∧ pool_rep pool' (p :: l) ∧
     pool_get pool' p = t ∧ ∀ q, q ≠ p → pool_get pool' q = pool_get pool q) ∧
  (Z.of_nat (length l) + 1 = pool_size pool → allocate pool t = Err AssertFailed).
Proof.
  intros Hrep. split; [|by apply allocate_last].
  intros Hl. destruct (allocate_spec pool l t Hrep Hl) as (pool' & H & Hnew & Hrep' & _ & Hget).
  exists (next_free_index_ pool), pool'. split_and!; try done.
  - by rewrite Hget, decide_True.
  - intros q Hq. by rewrite Hget, decide_False.
Qed.

Lemma pool_capacity_witness :
  ∃ p pool', allocate (MemPool_new 2 0) 7 = Ok (p, pool') ∧ pool_get pool' p = 7 ∧
    allocate pool' 8 = Err AssertFailed.
Proof.
  destruct (pool_capacity (MemPool_new 2 0) [] 7) as [H _]; [by apply MemPool_new_rep|].
  destruct H as (p & pool' & H & _ & Hrep & Hg & _); [by vm_compute|].
  exists p, pool'. split; [exact H|]. split; [exact Hg|].
  destruct (pool_capacity pool' [p] 8) as [_ H2]; [exact Hrep|]. apply H2.
  vm_compute in H. injection H as _ <-. reflexivity.
Defined.
