(* ===== verification/Ring.v ===== *)
(** * Ring: circular doubly-linked lists

    Both order books thread their orders and their price levels on circular
    doubly-linked lists.  [ring nxt prv l]: following [nxt] from the head of [l]
    visits [l] in order and returns to the head, and [prv] is its inverse.  The
    update lemmas only ask what the new links are, not in which order the code
    wrote them. *)
From S2P Require Import Prelude.

(** The steps of a walk from [a] through [l]. *)
Fixpoint path (a : Z) (l : list Z) : list (Z * Z) :=
  match l with
  | [] => []
  | b :: t => (a, b) :: path b t
  end.

Definition cyc_pairs (l : list Z) : list (Z * Z) :=
  match l with
  | [] => []
  | a :: t => path a (t ++ [a])
  end.

Definition ring (nxt prv : Z → option Z) (l : list Z) : Prop :=
  NoDup l ∧ ∀ x y, (x, y) ∈ cyc_pairs l → nxt x = Some y ∧ prv y = Some x.

Section Path.
Implicit Types (a b x y : Z) (l k t : list Z).

Lemma path_app a b l k : path a (l ++ b :: k) = path a (l ++ [b]) ++ path b k.
Proof. revert a. induction l as [|c l IH]; intros a; simpl; [done|]. by rewrite IH. Qed.

Lemma elem_of_path a b x y l : (x, y) ∈ path a (l ++ [b]) → x ∈ a :: l ∧ y ∈ l ++ [b].
Proof.
  revert a. induction l as [|c l IH]; intros a; simpl.
  - set_solver.
  - rewrite elem_of_cons. intros [?|H]; [set_solver|]. apply IH in H. set_solver.
Qed.

Lemma cyc_pairs_rotate1 a l : cyc_pairs (l ++ [a]) ≡ₚ cyc_pairs (a :: l).
Proof.
  destruct l as [|b l]; simpl; [done|].
  rewrite <-app_assoc. simpl. rewrite (path_app b a l [b]). simpl.
  by rewrite Permutation_app_comm.
Qed.

Lemma cyc_pairs_rotate l k : cyc_pairs (l ++ k) ≡ₚ cyc_pairs (k ++ l).
Proof.
  revert k. induction l as [|a l IH]; intros k; [by rewrite app_nil_r|].
  change ((a :: l) ++ k) with (a :: (l ++ k)).
  rewrite <-cyc_pairs_rotate1, <-app_assoc, IH, <-app_assoc. done.
Qed.
End Path.

Section Ring.
Implicit Types (nxt prv : Z → option Z) (a x y z : Z) (l k t : list Z).

Lemma ring_NoDup nxt prv l : ring nxt prv l → NoDup l.
Proof. by intros []. Qed.

Lemma ring_rotate nxt prv l k : ring nxt prv (l ++ k) → ring nxt prv (k ++ l).
Proof.
  intros [Hnd H]. split.
  - by rewrite Permutation_app_comm.
  - intros x y. rewrite cyc_pairs_rotate. apply H.
Qed.

Lemma ring_nil nxt prv : ring nxt prv [].
Proof. split; [constructor|set_solver]. Qed.

Lemma ring_single nxt prv a : nxt a = Some a → prv a = Some a → ring nxt prv [a].
Proof.
  intros. split; [apply NoDup_singleton|]. simpl. intros x y Hxy.
  apply list_elem_of_singleton in Hxy. by simplify_eq.
Qed.

(** The last element of [a :: t]. *)
Abbreviation lastof a t := (default a (last t)).

Lemma lastof_elem a t : lastof a t ∈ a :: t.
Proof.
  destruct t as [|z t' _] using rev_ind; simpl; [set_solver|].
  rewrite last_snoc. simpl. set_solver.
Qed.

Lemma lastof_app a t k b : lastof a (t ++ b :: k) = lastof b k.
Proof.
  rewrite last_app. simpl. destruct k as [|c k _] using rev_ind; [done|].
  change (b :: k ++ [c]) with ((b :: k) ++ [c]). by rewrite !last_snoc.
Qed.

Lemma ring_head nxt prv a t :
  ring nxt prv (a :: t) → nxt (lastof a t) = Some a ∧ prv a = Some (lastof a t).
Proof.
  intros [_ H]. apply H. simpl.
  destruct t as [|z t' _] using rev_ind; simpl; [set_solver|].
  rewrite last_snoc, <-app_assoc. simpl. rewrite path_app. simpl. set_solver.
Qed.

Lemma ring_next nxt prv l x y k :
  ring nxt prv (l ++ x :: y :: k) → nxt x = Some y ∧ prv y = Some x.
Proof.
  intros H. apply ring_rotate in H as [_ H]. apply H. simpl. set_solver.
Qed.

Lemma ring_next_head nxt prv a t :
  ring nxt prv (a :: t) → nxt a = Some (default a (head t)).
Proof.
  destruct t as [|b t].
  - intros H. by apply ring_head in H as [? _].
  - intros H. by apply (ring_next nxt prv [] a b t) in H as [? _].
Qed.

(** An element of a ring is its own neighbour exactly when it is alone. *)
Lemma ring_self_next nxt prv a t : ring nxt prv (a :: t) → nxt a = Some a ↔ t = [].
Proof.
  intros H. rewrite (ring_next_head _ _ _ _ H). destruct t as [|b t]; simpl; [done|].
  apply ring_NoDup, NoDup_cons in H as [Ha _]. set_solver.
Qed.
Lemma ring_self_prev nxt prv a t : ring nxt prv (a :: t) → prv a = Some a ↔ t = [].
Proof.
  intros H. destruct (ring_head _ _ _ _ H) as [_ ->].
  destruct t as [|z t' _] using rev_ind; simpl; [done|]. rewrite last_snoc; simpl.
  apply ring_NoDup, NoDup_cons in H as [Ha _].
  split; [intros [= ->]; set_solver|]. by intros ?%app_nil%proj2.
Qed.

(** The neighbours of an element are in the ring. *)
Lemma ring_closed nxt prv l x :
  ring nxt prv l → x ∈ l → ∃ y z, nxt x = Some y ∧ prv x = Some z ∧ y ∈ l ∧ z ∈ l.
Proof.
  intros H (l1 & l2 & ->)%list_elem_of_split. apply ring_rotate in H.
  rewrite <-app_comm_cons in H.
  pose proof (ring_next_head _ _ _ _ H) as Hn.
  destruct (ring_head _ _ _ _ H) as [_ Hp].
  eexists _, _. split_and!; [done|done| |].
  - destruct l2 as [|b l2]; simpl; [destruct l1; simpl; set_solver|set_solver].
  - pose proof (lastof_elem x (l2 ++ l1)). set_solver.
Qed.

Lemma ring_ext nxt prv nxt' prv' l :
  ring nxt prv l → (∀ x, x ∈ l → nxt' x = nxt x ∧ prv' x = prv x) → ring nxt' prv' l.
Proof.
  intros [Hnd H] Heq. split; [done|]. intros x y Hxy.
  destruct l as [|a t]; [set_solver|]. simpl in *.
  pose proof (elem_of_path _ _ _ _ _ Hxy) as [Hx Hy].
  destruct (H _ _ Hxy). destruct (Heq x) as [-> _]; [done|].
  destruct (Heq y) as [_ ->]; [set_solver|]. done.
Qed.

(** Linking [x] between the last element and the head. *)
Lemma ring_insert_end nxt prv nxt' prv' a t x :
  ring nxt prv (a :: t) → x ∉ a :: t →
  nxt' (lastof a t) = Some x → nxt' x = Some a →
  prv' x = Some (lastof a t) → prv' a = Some x →
  (∀ y, y ∈ a :: t → y ≠ lastof a t → nxt' y = nxt y) →
  (∀ y, y ∈ a :: t → y ≠ a → prv' y = prv y) →
  ring nxt' prv' (a :: t ++ [x]).
Proof.
  intros [Hnd H] Hx Hz Hxn Hxp Ha Hn Hp. split.
  { change (a :: t ++ [x]) with ((a :: t) ++ [x]). apply NoDup_app.
    split_and!; [done|set_solver|apply NoDup_singleton]. }
  intros u v. simpl. rewrite <-app_assoc. simpl. rewrite path_app.
  rewrite elem_of_app. simpl. rewrite list_elem_of_singleton.
  intros [Huv|[= -> ->]]; [|done].
  destruct t as [|z t' _] using rev_ind; simpl in *.
  { apply list_elem_of_singleton in Huv. by simplify_eq. }
  rewrite last_snoc in *; simpl in *.
  rewrite <-app_assoc in Huv; simpl in Huv. rewrite path_app in Huv.
  rewrite elem_of_app in Huv. simpl in Huv. rewrite list_elem_of_singleton in Huv.
  destruct Huv as [Huv|[= -> ->]]; [|done].
  pose proof (elem_of_path _ _ _ _ _ Huv) as [Hu Hv].
  rewrite app_comm_cons, NoDup_app in Hnd. destruct Hnd as (Hnd1 & Hnd2 & _).
  apply NoDup_cons in Hnd1 as [Hnd1 _].
  assert (a ≠ z) by (specialize (Hnd2 a); set_solver).
  assert (u ≠ z) by (specialize (Hnd2 u); set_solver).
  assert (v ≠ a) by set_solver.
  rewrite (Hn u) by set_solver. rewrite (Hp v) by set_solver.
  apply H. rewrite <-app_assoc. simpl. rewrite path_app. set_solver.
Qed.

(** Linking [x] before [a], wherever [a] is. *)
Lemma ring_insert_before nxt prv nxt' prv' l a k x :
  let z := lastof a (k ++ l) in
  ring nxt prv (l ++ a :: k) → x ∉ l ++ a :: k →
  nxt' z = Some x → nxt' x = Some a → prv' x = Some z → prv' a = Some x →
  (∀ y, y ∈ l ++ a :: k → y ≠ z → nxt' y = nxt y) →
  (∀ y, y ∈ l ++ a :: k → y ≠ a → prv' y = prv y) →
  ring nxt' prv' (l ++ x :: a :: k).
Proof.
  intros z H Hx Hz Hxn Hxp Ha Hn Hp. apply ring_rotate in H.
  rewrite <-app_comm_cons in H.
  assert (ring nxt' prv' (a :: (k ++ l) ++ [x])) as H'.
  { eapply ring_insert_end; try done; [set_solver| |]; intros y Hy; [apply Hn|apply Hp];
      set_solver. }
  rewrite <-app_assoc in H'.
  replace (l ++ x :: a :: k) with ((l ++ [x]) ++ (a :: k)) by by rewrite <-app_assoc.
  by apply ring_rotate.
Qed.

(** The same, from the new links of every node. *)
Lemma ring_insert_at nxt prv nxt' prv' l k a t x :
  k ++ l = a :: t → ring nxt prv (l ++ k) → x ∉ l ++ k →
  (∀ y, nxt' y = if decide (y = x) then Some a
                 else if decide (y = lastof a t) then Some x else nxt y) →
  (∀ y, prv' y = if decide (y = x) then Some (lastof a t)
                 else if decide (y = a) then Some x else prv y) →
  ring nxt' prv' (l ++ x :: k).
Proof.
  intros E H Hx Hn Hp. apply ring_rotate in H. rewrite E in H.
  assert (x ∉ a :: t) as Hx' by (rewrite <-E; set_solver + Hx).
  pose proof (lastof_elem a t) as Hz.
  assert (ring nxt' prv' (a :: t ++ [x])) as H'.
  { eapply ring_insert_end; [done|done|..]; rewrite ?Hn, ?Hp.
    - rewrite decide_False, decide_True; [done|done|]. by intros <-.
    - by rewrite decide_True.
    - by rewrite decide_True.
    - rewrite decide_False, decide_True; [done|done|]. intros ->. apply Hx'. by left.
    - intros y Hy Hyz. rewrite Hn, !decide_False; [done|done|]. by intros ->.
    - intros y Hy Hyz. rewrite Hp, !decide_False; [done|done|]. by intros ->. }
  rewrite app_comm_cons, <-E, <-app_assoc in H'. apply ring_rotate in H'.
  by rewrite <-app_assoc in H'.
Qed.

(** Unlinking [x], which has at least one neighbour. *)
Lemma ring_remove nxt prv nxt' prv' l x k a t :
  k ++ l = a :: t →
  ring nxt prv (l ++ x :: k) →
  nxt' (lastof a t) = Some a → prv' a = Some (lastof a t) →
  (∀ y, y ∈ a :: t → y ≠ lastof a t → nxt' y = nxt y) →
  (∀ y, y ∈ a :: t → y ≠ a → prv' y = prv y) →
  ring nxt' prv' (l ++ k).
Proof.
  intros E H Hz Ha Hn Hp. apply ring_rotate in H. rewrite <-app_comm_cons, E in H.
  apply ring_rotate. rewrite E. destruct H as [Hnd H].
  apply NoDup_cons in Hnd as [Hx Hnd]. split; [done|]. intros u v Huv. simpl in Huv, H.
  destruct t as [|z t' _] using rev_ind; simpl in *.
  { apply list_elem_of_singleton in Huv. by simplify_eq. }
  rewrite last_snoc in *; simpl in *.
  rewrite <-app_assoc in Huv; simpl in Huv. rewrite path_app in Huv.
  rewrite elem_of_app in Huv. simpl in Huv. rewrite list_elem_of_singleton in Huv.
  destruct Huv as [Huv|[= -> ->]]; [|done].
  pose proof (elem_of_path _ _ _ _ _ Huv) as [Hu Hv].
  rewrite app_comm_cons, NoDup_app in Hnd. destruct Hnd as (Hnd1 & Hnd2 & _).
  apply NoDup_cons in Hnd1 as [Hnd1 _].
  assert (a ≠ z) by (specialize (Hnd2 a); set_solver).
  assert (u ≠ z) by (specialize (Hnd2 u); set_solver).
  assert (v ≠ a) by set_solver.
  rewrite (Hn u) by set_solver. rewrite (Hp v) by set_solver.
  apply H. right. rewrite <-app_assoc. simpl. rewrite path_app. set_solver.
Qed.

(** Unlinking, as the program does it: the two neighbours, and the ring once they are joined. *)
Lemma ring_unlink nxt prv l x k :
  ring nxt prv (l ++ x :: k) → l ++ k ≠ [] →
  ∃ a z, nxt x = Some a ∧ prv x = Some z ∧ a ≠ x ∧ z ≠ x ∧ a ∈ l ++ k ∧ z ∈ l ++ k ∧
    ¬ x ∈ l ++ k ∧ head (k ++ l) = Some a ∧
    (∀ nxt' prv',
      (∀ y, nxt' y = if decide (y = x) then None
                     else if decide (y = z) then Some a else nxt y) →
      (∀ y, prv' y = if decide (y = x) then None
                     else if decide (y = a) then Some z else prv y) →
      ring nxt' prv' (l ++ k)).
Proof.
  intros H Hne. pose proof (ring_rotate _ _ _ _ H) as Hrot. rewrite <-app_comm_cons in Hrot.
  assert (∀ y, y ∈ l ++ k ↔ y ∈ k ++ l) as Hperm by (intros y; rewrite !elem_of_app; tauto).
  destruct (k ++ l) as [|a t] eqn:E; [by apply app_nil in E as [-> ->]|].
  pose proof (ring_head _ _ _ _ Hrot) as [_ Hprev].
  pose proof (ring_next_head _ _ _ _ Hrot) as Hnext. simpl in Hnext.
  pose proof (lastof_app x [] t a) as El. simpl in El. rewrite El in Hprev. clear El.
  pose proof (ring_NoDup _ _ _ Hrot) as Hnd. apply NoDup_cons in Hnd as [Hx _].
  pose proof (lastof_elem a t) as Hz. exists a, (lastof a t). rewrite !Hperm.
  assert (a ≠ x) as Hax by (intros ->; apply Hx; by left).
  assert (lastof a t ≠ x) as Hzx by (intros Ez; by rewrite Ez in Hz).
  split_and!; try done; [by left|].
  intros nxt' prv' Hn Hp. eapply ring_remove; [exact E|exact H|..]; rewrite ?Hn, ?Hp.
  - by rewrite decide_False, decide_True.
  - by rewrite decide_False, decide_True.
  - intros y Hy Hyz. rewrite Hn, !decide_False; [done|done|by intros ->].
  - intros y Hy Hya. rewrite Hp, !decide_False; [done|done|by intros ->].
Qed.
End Ring.

(** ** Walking a ring *)
Section Walk.
Context (nxt prv : Z → option Z) (a : Z) (t : list Z) (Hring : ring nxt prv (a :: t)).

Lemma ring_next_split k1 p k2 :
  a :: t = k1 ++ p :: k2 → nxt p = Some (default a (head k2)).
Proof.
  intros E. destruct k2 as [|y k2].
  - destruct (ring_head _ _ _ _ Hring) as [Hl _].
    destruct k1 as [|b k1]; injection E as -> ->; [done|]. by rewrite last_snoc in Hl.
  - pose proof Hring as H. rewrite E in H. by apply ring_next in H as [? _].
Qed.

Lemma ring_prev_split k1 p k2 :
  a :: t = k1 ++ p :: k2 → prv p = Some (default (default a (last t)) (last k1)).
Proof.
  intros E. destruct k1 as [|y k1 _] using rev_ind.
  - injection E as -> ->. by destruct (ring_head _ _ _ _ Hring) as [_ ?].
  - rewrite last_snoc. pose proof Hring as H. rewrite E, <-app_assoc in H.
    by apply ring_next in H as [_ ?].
Qed.

(** [for (p = first;; p = p->next) { body; if (p->next == first) break; }] runs the body over
    the ring, once per element and in order. *)
Lemma ring_loop {A} (body : A → Z → Res A) (step : option Z * A → Res ((option Z * A) + A))
    fuel x :
  (∀ p x, p ∈ a :: t → step (Some p, x) =
    (x ← body x p;
     if bool_decide (nxt p = Some a) then Ok (inr x) else Ok (inl (nxt p, x)))) →
  (length (a :: t) ≤ Pos.to_nat fuel)%nat →
  loop step fuel (Some a, x) = fold_res body x (a :: t).
Proof.
  intros Hstep Hfuel. rewrite loop_unfold_nat.
  assert (∀ k2 k1 p n x, a :: t = k1 ++ p :: k2 → (length (p :: k2) ≤ n)%nat →
    loop_nat step n (Some p, x) = (x ← fold_res body x (p :: k2); Ok (inr x))) as Hwalk.
  { induction k2 as [|q k2 IH]; intros k1 p n y E Hn;
      (destruct n as [|n]; [simpl in Hn; lia|]); cbn [loop_nat fold_res];
      (rewrite Hstep by (rewrite E; set_solver +));
      (destruct (body y p) as [z|f]; [|done]); cbn [mbind Res_bind];
      rewrite (ring_next_split k1 p _ E); cbn [head default from_option id].
    - by rewrite bool_decide_eq_true_2.
    - rewrite bool_decide_eq_false_2.
      + cbn [and_then mbind Res_bind].
        apply (IH (k1 ++ [p]) q); [by rewrite <-app_assoc|simpl in *; lia].
      + intros [= ->]. pose proof (ring_NoDup _ _ _ Hring) as Hnd. rewrite E in Hnd.
        destruct k1 as [|b k1]; injection E as -> E.
        * apply NoDup_cons in Hnd as [Hnd _]. set_solver.
        * rewrite <-app_comm_cons in Hnd. apply NoDup_cons in Hnd as [Hnd _]. set_solver. }
  rewrite (Hwalk t [] a) by done. by destruct (fold_res body x (a :: t)).
Qed.
End Walk.
