(* ===== verification/PriceLevels.v ===== *)
(** * PriceLevels: the price-level structure of both order books

    [exchange/matcher/me_order_book.h] and [trading/strategy/market_order_book.h]
    hold the same code for the circular lists of price levels and of the orders of
    a level, over two different order structures.  It is modelled once, over any
    order structure that has the links ([OrderNode]), and each book instantiates
    it. *)
From S2P Require Import Prelude Types MemPool Ring.

(** The part of an order the price levels look at. *)
Class OrderData (D : Type) := {
  d_side : D → Side.t;
  d_price : D → Price
}.

(** An order structure: its data, and the two links of its level's list. *)
Class OrderNode (T D : Type) := {
  o_data : T → D;
  o_prev : T → option ptr;
  o_next : T → option ptr;
  set_prev : option ptr → T → T;
  set_next : option ptr → T → T;
  o_data_set_prev p t : o_data (set_prev p t) = o_data t;
  o_data_set_next p t : o_data (set_next p t) = o_data t;
  o_prev_set_prev p t : o_prev (set_prev p t) = p;
  o_prev_set_next p t : o_prev (set_next p t) = o_prev t;
  o_next_set_prev p t : o_next (set_prev p t) = o_next t;
  o_next_set_next p t : o_next (set_next p t) = p
}.
#[export] Hint Rewrite @o_data_set_prev @o_data_set_next @o_prev_set_prev
  @o_prev_set_next @o_next_set_prev @o_next_set_next : trading.

(** [MEOrdersAtPrice] and [MarketOrdersAtPrice]. *)
Record OrdersAtPrice := mkOrdersAtPrice {
  oap_side : Side.t;
  oap_price : Price;
  oap_first : option ptr;
  oap_prev : option ptr;
  oap_next : option ptr
}.

Definition OrdersAtPrice_default : OrdersAtPrice :=
  mkOrdersAtPrice Side.INVALID Price_INVALID None None None.

Definition set_first (p : option ptr) (l : OrdersAtPrice) : OrdersAtPrice :=
  mkOrdersAtPrice (oap_side l) (oap_price l) p (oap_prev l) (oap_next l).
Definition set_prev_entry (p : option ptr) (l : OrdersAtPrice) : OrdersAtPrice :=
  mkOrdersAtPrice (oap_side l) (oap_price l) (oap_first l) p (oap_next l).
Definition set_next_entry (p : option ptr) (l : OrdersAtPrice) : OrdersAtPrice :=
  mkOrdersAtPrice (oap_side l) (oap_price l) (oap_first l) (oap_prev l) p.

(** The members of the two books that make up the structure. *)
Record PriceLevels (T : Type) := mkPriceLevels {
  orders_at_price_pool_ : MemPool OrdersAtPrice;
  bids_by_price_ : option ptr;
  asks_by_price_ : option ptr;
  price_orders_at_price_ : arr (option ptr);
  order_pool_ : MemPool T
}.
Arguments mkPriceLevels {T} _ _ _ _ _.
Arguments orders_at_price_pool_ {T} _.
Arguments bids_by_price_ {T} _.
Arguments asks_by_price_ {T} _.
Arguments price_orders_at_price_ {T} _.
Arguments order_pool_ {T} _.

Section Ops.
Context {T D : Type} `{OrderData D} `{OrderNode T D}.
Implicit Types (pl : PriceLevels T) (p o : ptr) (s : Side.t) (price : Price).

Definition PriceLevels_new (t : T) : PriceLevels T :=
  mkPriceLevels (MemPool_new ME_MAX_PRICE_LEVELS OrdersAtPrice_default) None None
    (arr_new ME_MAX_PRICE_LEVELS None) (MemPool_new ME_MAX_ORDER_IDS t).

(** Reads and writes through pointers to levels and to orders. *)
Definition lvl pl p : OrdersAtPrice := pool_get (orders_at_price_pool_ pl) p.
Definition ord pl o : T := pool_get (order_pool_ pl) o.
Definition lvl_upd pl p (f : OrdersAtPrice → OrdersAtPrice) : PriceLevels T :=
  mkPriceLevels (pool_upd (orders_at_price_pool_ pl) p f) (bids_by_price_ pl)
    (asks_by_price_ pl) (price_orders_at_price_ pl) (order_pool_ pl).
Definition ord_upd pl o (f : T → T) : PriceLevels T :=
  mkPriceLevels (orders_at_price_pool_ pl) (bids_by_price_ pl) (asks_by_price_ pl)
    (price_orders_at_price_ pl) (pool_upd (order_pool_ pl) o f).
Definition with_level_pool pl pool : PriceLevels T :=
  mkPriceLevels pool (bids_by_price_ pl) (asks_by_price_ pl)
    (price_orders_at_price_ pl) (order_pool_ pl).
Definition with_order_pool pl pool : PriceLevels T :=
  mkPriceLevels (orders_at_price_pool_ pl) (bids_by_price_ pl) (asks_by_price_ pl)
    (price_orders_at_price_ pl) pool.
Definition with_hash pl hash : PriceLevels T :=
  mkPriceLevels (orders_at_price_pool_ pl) (bids_by_price_ pl) (asks_by_price_ pl)
    hash (order_pool_ pl).

(** [(side == Side::BUY ? bids_by_price_ : asks_by_price_)], read and written. *)
Definition best pl s : option ptr :=
  if bool_decide (s = Side.BUY) then bids_by_price_ pl else asks_by_price_ pl.
Definition set_best pl s (p : option ptr) : PriceLevels T :=
  if bool_decide (s = Side.BUY)
  then mkPriceLevels (orders_at_price_pool_ pl) p (asks_by_price_ pl)
         (price_orders_at_price_ pl) (order_pool_ pl)
  else mkPriceLevels (orders_at_price_pool_ pl) (bids_by_price_ pl) p
         (price_orders_at_price_ pl) (order_pool_ pl).

(** [price % ME_MAX_PRICE_LEVELS], with the price converted to [size_t] first. *)
Definition priceToIndex price : Z := u64 price mod ME_MAX_PRICE_LEVELS.

Definition getOrdersAtPrice pl price : Res (option ptr) :=
  arr_at (price_orders_at_price_ pl) (priceToIndex price).

(** The test that decides on which side of [target] a new level goes:
    [side == SELL && price > target->price || side == BUY && price < target->price]. *)
Definition goes_after s price (target : OrdersAtPrice) : bool :=
  (bool_decide (s = Side.SELL) && (price >? oap_price target)) ||
  (bool_decide (s = Side.BUY) && (price <? oap_price target)).

(** One turn of [while (add_after && target != best_orders_by_price)]. *)
Definition find_target_step pl s price (best : ptr) (st : bool * ptr)
  : Res ((bool * ptr) + (bool * ptr)) :=
  let '(add_after, target) := st in
  if add_after && negb (target =? best) then
    let add_after := goes_after s price (lvl pl target) in
    if add_after
    then next ← deref (oap_next (lvl pl target)); Ok (inl (true, next))
    else Ok (inl (false, target))
  else Ok (inr (add_after, target)).

(** The search part of [addOrdersAtPrice]: (add_after, target). *)
Definition find_target pl s price (best : ptr) : Res (bool * ptr) :=
  st ← (if goes_after s price (lvl pl best)
        then next ← deref (oap_next (lvl pl best));
             Ok (goes_after s price (lvl pl next), next)
        else Ok (false, best));
  loop (find_target_step pl s price best)
       (Z.to_pos (pool_size (orders_at_price_pool_ pl) + 2)) st.

(** Add a new level at the correct place of the hash map and of the list. *)
Definition addOrdersAtPrice pl (np : ptr) : Res (PriceLevels T) :=
  let s := oap_side (lvl pl np) in
  let price := oap_price (lvl pl np) in
  hash ← arr_at_set (price_orders_at_price_ pl) (priceToIndex price) (Some np);
  let pl := with_hash pl hash in
  match best pl s with
  | None =>
      let pl := set_best pl s (Some np) in
      Ok (lvl_upd pl np (λ l, set_prev_entry (Some np) (set_next_entry (Some np) l)))
  | Some best =>
      '(add_after, target) ← find_target pl s price best;
      if (add_after : bool) then
        target ← (if target =? best then deref (oap_prev (lvl pl best)) else Ok target);
        let pl := lvl_upd pl np (set_prev_entry (Some target)) in
        tn ← deref (oap_next (lvl pl target));
        let pl := lvl_upd pl tn (set_prev_entry (Some np)) in
        let pl := lvl_upd pl np (set_next_entry (oap_next (lvl pl target))) in
        Ok (lvl_upd pl target (set_next_entry (Some np)))
      else
        let pl := lvl_upd pl np (set_prev_entry (oap_prev (lvl pl target))) in
        let pl := lvl_upd pl np (set_next_entry (Some target)) in
        tp ← deref (oap_prev (lvl pl target));
        let pl := lvl_upd pl tp (set_next_entry (Some np)) in
        let pl := lvl_upd pl target (set_prev_entry (Some np)) in
        if (bool_decide (s = Side.BUY) && (price >? oap_price (lvl pl best))) ||
           (bool_decide (s = Side.SELL) && (price <? oap_price (lvl pl best)))
        then
          let next := oap_next (lvl pl target) in
          let pl := lvl_upd pl target
            (set_next_entry (if bool_decide (next = Some best) then Some np else next)) in
          Ok (set_best pl s (Some np))
        else Ok pl
  end.

(** Remove a level from the hash map and from the list, and free it. *)
Definition removeOrdersAtPrice pl s price : Res (PriceLevels T) :=
  let best_orders_by_price := best pl s in
  oap ← getOrdersAtPrice pl price;
  oap ← deref oap;
  pl ← (if bool_decide (oap_next (lvl pl oap) = Some oap)
        then Ok (set_best pl s None)
        else
          pv ← deref (oap_prev (lvl pl oap));
          let pl := lvl_upd pl pv (set_next_entry (oap_next (lvl pl oap))) in
          nx ← deref (oap_next (lvl pl oap));
          let pl := lvl_upd pl nx (set_prev_entry (oap_prev (lvl pl oap))) in
          let pl := if bool_decide (Some oap = best_orders_by_price)
                    then set_best pl s (oap_next (lvl pl oap)) else pl in
          Ok (lvl_upd pl oap (λ l, set_prev_entry None (set_next_entry None l))));
  hash ← arr_at_set (price_orders_at_price_ pl) (priceToIndex price) None;
  let pl := with_hash pl hash in
  pool ← deallocate (orders_at_price_pool_ pl) oap;
  Ok (with_level_pool pl pool).

(** [addOrder] up to the order-id map: append the order to the list of its price,
    making a level for it when there is none. *)
Definition linkOrder pl o : Res (PriceLevels T) :=
  let price := d_price (o_data (ord pl o)) in
  let s := d_side (o_data (ord pl o)) in
  oap ← getOrdersAtPrice pl price;
  match oap with
  | None =>
      let pl := ord_upd pl o (λ t, set_next (Some o) (set_prev (Some o) t)) in
      '(np, pool) ← allocate (orders_at_price_pool_ pl)
                      (mkOrdersAtPrice s price (Some o) None None);
      addOrdersAtPrice (with_level_pool pl pool) np
  | Some oap =>
      first ← deref (oap_first (lvl pl oap));
      fp ← deref (o_prev (ord pl first));
      let pl := ord_upd pl fp (set_next (Some o)) in
      let pl := ord_upd pl o (set_prev (o_prev (ord pl first))) in
      let pl := ord_upd pl o (set_next (Some first)) in
      Ok (ord_upd pl first (set_prev (Some o)))
  end.

(** [removeOrder] up to the order-id map: unlink the order, and remove its level
    when it was the only one there. *)
Definition unlinkOrder pl o : Res (PriceLevels T) :=
  let price := d_price (o_data (ord pl o)) in
  let s := d_side (o_data (ord pl o)) in
  oap ← getOrdersAtPrice pl price;
  if bool_decide (o_prev (ord pl o) = Some o) then removeOrdersAtPrice pl s price
  else
    let order_after := o_next (ord pl o) in
    order_before ← deref (o_prev (ord pl o));
    let pl := ord_upd pl order_before (set_next order_after) in
    after ← deref order_after;
    let pl := ord_upd pl after (set_prev (Some order_before)) in
    oap ← deref oap;
    let pl := if bool_decide (oap_first (lvl pl oap) = Some o)
              then lvl_upd pl oap (set_first order_after) else pl in
    Ok (ord_upd pl o (λ t, set_next None (set_prev None t))).

(** The free store of orders. *)
Definition allocOrder pl (t : T) : Res (ptr * PriceLevels T) :=
  '(o, pool) ← allocate (order_pool_ pl) t;
  Ok (o, with_order_pool pl pool).
Definition deallocOrder pl o : Res (PriceLevels T) :=
  pool ← deallocate (order_pool_ pl) o;
  Ok (with_order_pool pl pool).
End Ops.
