(* ===== verification/BookInv.v ===== *)
(** * BookInv: the representation invariant of the price levels

    A ghost description of a book lists, for each side, its levels from the most to
    the least aggressive price, and for each level its orders in FIFO order, all as
    pointers.  [book_rep pl extra G] says that the memory [pl] is the book [G]: the
    lists are the rings of the heap, the hash map finds exactly the levels, and the
    blocks in use of the two pools are exactly the nodes ([extra]: orders that are
    allocated and not yet, or no longer, linked). *)
From S2P Require Import Prelude Types MemPool Ring PriceLevels.

Record glevel := mkGlevel {
  g_ptr : ptr;
  g_side : Side.t;
  g_price : Price;
  g_orders : list ptr
}.

Record ghost := mkGhost { g_bids : list glevel; g_asks : list glevel }.

Definition tradable (s : Side.t) : Prop := s = Side.BUY ∨ s = Side.SELL.
Definition opp (s : Side.t) : Side.t :=
  if bool_decide (s = Side.BUY) then Side.SELL else Side.BUY.
Definition gside (G : ghost) (s : Side.t) : list glevel :=
  if bool_decide (s = Side.BUY) then g_bids G else g_asks G.
Definition gset (G : ghost) (s : Side.t) (l : list glevel) : ghost :=
  if bool_decide (s = Side.BUY) then mkGhost l (g_asks G) else mkGhost (g_bids G) l.
Definition glevels (G : ghost) : list glevel := g_bids G ++ g_asks G.
Definition gorders (l : list glevel) : list ptr := concat (g_orders <$> l).

(** [better s p q]: on side [s], price [p] is more aggressive than [q]. *)
Definition better (s : Side.t) (p q : Price) : Prop :=
  match s with
  | Side.BUY => q < p
  | Side.SELL => p < q
  | _ => False
  end.

#[export] Instance better_dec s p q : Decision (better s p q).
Proof. destruct s; simpl; apply _. Defined.

#[export] Instance better_trans s : Transitive (better s).
Proof. intros x y z. destruct s; simpl; lia. Qed.

(** The level's list with [o] appended, and with [k] instead. *)
Definition g_with (g : glevel) (k : list ptr) : glevel :=
  mkGlevel (g_ptr g) (g_side g) (g_price g) k.

Section GhostLemmas.
Implicit Types (G : ghost) (s : Side.t) (l : list glevel) (g : glevel).

Lemma gside_gset G s l : gside (gset G s l) s = l.
Proof. unfold gside, gset. by case_bool_decide. Qed.
Lemma gside_gset_opp G s l : tradable s → gside (gset G s l) (opp s) = gside G (opp s).
Proof. by intros [->| ->]. Qed.
Lemma gset_gside G s : gset G s (gside G s) = G.
Proof. unfold gside, gset. destruct G. by case_bool_decide. Qed.
Lemma tradable_cases s s' : tradable s → tradable s' → s' = s ∨ s' = opp s.
Proof. by intros [->| ->] [->| ->]; unfold opp; simpl; [left|right|right|left]. Qed.
Lemma opp_tradable s : tradable (opp s).
Proof. unfold opp, tradable. case_bool_decide; auto. Qed.
Lemma opp_ne s : tradable s → opp s ≠ s.
Proof. by intros [->| ->]. Qed.

Lemma glevels_perm G s :
  tradable s → glevels G ≡ₚ gside G s ++ gside G (opp s).
Proof.
  intros [->| ->]; unfold glevels, gside, opp; simpl; [done|].
  apply Permutation_app_comm.
Qed.
Lemma glevels_gset_perm G s l :
  tradable s → glevels (gset G s l) ≡ₚ l ++ gside G (opp s).
Proof.
  intros Hs. rewrite (glevels_perm _ s Hs), gside_gset.
  by rewrite gside_gset_opp.
Qed.

#[export] Instance gorders_perm : Proper ((≡ₚ) ==> (≡ₚ)) gorders.
Proof.
  intros l k H. unfold gorders. apply (fmap_Permutation g_orders) in H.
  induction H; simpl; [done|by f_equiv| |by etrans].
  rewrite !app_assoc. f_equiv. apply Permutation_app_comm.
Qed.
Lemma gorders_cons g l : gorders (g :: l) = g_orders g ++ gorders l.
Proof. done. Qed.
Lemma gorders_app l k : gorders (l ++ k) = gorders l ++ gorders k.
Proof. unfold gorders. by rewrite fmap_app, concat_app. Qed.
Lemma elem_of_gorders x l : x ∈ gorders l ↔ ∃ g, g ∈ l ∧ x ∈ g_orders g.
Proof.
  unfold gorders. rewrite list_elem_of_In, in_concat. setoid_rewrite <-list_elem_of_In.
  split.
  - intros (k & (g & -> & Hg)%list_elem_of_fmap & Hx). eauto.
  - intros (g & Hg & Hx). exists (g_orders g). split; [|done].
    by apply list_elem_of_fmap_2.
Qed.
End GhostLemmas.

Section Views.
Context {T D : Type} `{OrderData D} `{OrderNode T D}.
Implicit Types (pl : PriceLevels T) (p q o x : ptr) (s : Side.t).

Definition lnext pl p : option ptr := oap_next (lvl pl p).
Definition lprev pl p : option ptr := oap_prev (lvl pl p).
Definition onext pl o : option ptr := o_next (ord pl o).
Definition oprev pl o : option ptr := o_prev (ord pl o).
Definition odata pl o : D := o_data (ord pl o).

Lemma lvl_lvl_upd pl p q f :
  lvl (lvl_upd pl p f) q = if decide (p = q) then f (lvl pl p) else lvl pl q.
Proof. unfold lvl, lvl_upd; simpl. apply pool_get_upd. Qed.
Lemma ord_ord_upd pl p q f :
  ord (ord_upd pl p f) q = if decide (p = q) then f (ord pl p) else ord pl q.
Proof. unfold ord, ord_upd; simpl. apply pool_get_upd. Qed.
Lemma lvl_ord_upd pl p q f : lvl (ord_upd pl p f) q = lvl pl q.
Proof. done. Qed.
Lemma ord_lvl_upd pl p q f : ord (lvl_upd pl p f) q = ord pl q.
Proof. done. Qed.
Lemma lvl_set_best pl s b q : lvl (set_best pl s b) q = lvl pl q.
Proof. unfold set_best. by case_bool_decide. Qed.
Lemma ord_set_best pl s b q : ord (set_best pl s b) q = ord pl q.
Proof. unfold set_best. by case_bool_decide. Qed.
Lemma lvl_with_hash pl h q : lvl (with_hash pl h) q = lvl pl q.
Proof. done. Qed.
Lemma ord_with_hash pl h q : ord (with_hash pl h) q = ord pl q.
Proof. done. Qed.
Lemma ord_with_level_pool pl h q : ord (with_level_pool pl h) q = ord pl q.
Proof. done. Qed.
Lemma lvl_with_order_pool pl h q : lvl (with_order_pool pl h) q = lvl pl q.
Proof. done. Qed.
Lemma best_lvl_upd pl s p f : best (lvl_upd pl p f) s = best pl s.
Proof. done. Qed.
Lemma best_ord_upd pl s p f : best (ord_upd pl p f) s = best pl s.
Proof. done. Qed.
Lemma best_with_hash pl s h : best (with_hash pl h) s = best pl s.
Proof. done. Qed.
Lemma best_with_level_pool pl s h : best (with_level_pool pl h) s = best pl s.
Proof. done. Qed.
Lemma best_with_order_pool pl s h : best (with_order_pool pl h) s = best pl s.
Proof. done. Qed.
Lemma best_set_best pl s b : best (set_best pl s b) s = b.
Proof. unfold best, set_best. by case_bool_decide. Qed.
Lemma best_set_best_opp pl s b : tradable s → best (set_best pl s b) (opp s) = best pl (opp s).
Proof. by intros [->| ->]. Qed.

Lemma lpool_lvl_upd pl p f :
  orders_at_price_pool_ (lvl_upd pl p f) = pool_upd (orders_at_price_pool_ pl) p f.
Proof. done. Qed.
Lemma opool_ord_upd pl p f :
  order_pool_ (ord_upd pl p f) = pool_upd (order_pool_ pl) p f.
Proof. done. Qed.
Lemma lpool_ord_upd pl p f :
  orders_at_price_pool_ (ord_upd pl p f) = orders_at_price_pool_ pl.
Proof. done. Qed.
Lemma opool_lvl_upd pl p f : order_pool_ (lvl_upd pl p f) = order_pool_ pl.
Proof. done. Qed.
Lemma lpool_set_best pl s b :
  orders_at_price_pool_ (set_best pl s b) = orders_at_price_pool_ pl.
Proof. unfold set_best. by case_bool_decide. Qed.
Lemma opool_set_best pl s b : order_pool_ (set_best pl s b) = order_pool_ pl.
Proof. unfold set_best. by case_bool_decide. Qed.
Lemma hash_set_best pl s b :
  price_orders_at_price_ (set_best pl s b) = price_orders_at_price_ pl.
Proof. unfold set_best. by case_bool_decide. Qed.
Lemma hash_lvl_upd pl p f :
  price_orders_at_price_ (lvl_upd pl p f) = price_orders_at_price_ pl.
Proof. done. Qed.
Lemma hash_ord_upd pl p f :
  price_orders_at_price_ (ord_upd pl p f) = price_orders_at_price_ pl.
Proof. done. Qed.
End Views.

#[export] Hint Rewrite @lvl_lvl_upd @ord_ord_upd @lvl_ord_upd @ord_lvl_upd @lvl_set_best
  @ord_set_best @lvl_with_hash @ord_with_hash @ord_with_level_pool @lvl_with_order_pool
  @best_lvl_upd @best_ord_upd @best_with_hash @best_with_level_pool @best_with_order_pool
  @best_set_best @lpool_lvl_upd @opool_ord_upd @lpool_ord_upd @opool_lvl_upd
  @lpool_set_best @opool_set_best @hash_set_best @hash_lvl_upd @hash_ord_upd : trading.

(** ** The invariant *)
Section Rep.
Context {T D : Type} `{OrderData D} `{OrderNode T D}.
Implicit Types (pl : PriceLevels T) (p q o x : ptr) (s : Side.t) (g : glevel)
  (G : ghost) (l : list glevel).

Definition order_ok pl g o : Prop :=
  d_side (odata pl o) = g_side g ∧ d_price (odata pl o) = g_price g.

Definition level_rep pl g : Prop :=
  oap_side (lvl pl (g_ptr g)) = g_side g ∧
  oap_price (lvl pl (g_ptr g)) = g_price g ∧
  oap_first (lvl pl (g_ptr g)) = head (g_orders g) ∧
  g_orders g ≠ [] ∧
  ring (onext pl) (oprev pl) (g_orders g) ∧
  Forall (order_ok pl g) (g_orders g).

Definition side_rep pl s l : Prop :=
  best pl s = head (g_ptr <$> l) ∧
  ring (lnext pl) (lprev pl) (g_ptr <$> l) ∧
  StronglySorted (better s) (g_price <$> l) ∧
  Forall (λ g, g_side g = s) l.

Definition hash_rep pl l : Prop :=
  arr_len (price_orders_at_price_ pl) = ME_MAX_PRICE_LEVELS ∧
  ∀ i p, 0 ≤ i < ME_MAX_PRICE_LEVELS →
    arr_get (price_orders_at_price_ pl) i = Some p ↔
    ∃ g, g ∈ l ∧ g_ptr g = p ∧ priceToIndex (g_price g) = i.

Record book_rep pl (extra : list ptr) G : Prop := {
  br_side : ∀ s, tradable s → side_rep pl s (gside G s);
  br_levels : Forall (level_rep pl) (glevels G);
  br_lpool : pool_rep (orders_at_price_pool_ pl) (g_ptr <$> glevels G);
  br_lsize : pool_size (orders_at_price_pool_ pl) = ME_MAX_PRICE_LEVELS;
  br_opool : pool_rep (order_pool_ pl) (extra ++ gorders (glevels G));
  br_osize : pool_size (order_pool_ pl) = ME_MAX_ORDER_IDS;
  br_hash : hash_rep pl (glevels G)
}.

Lemma priceToIndex_range price : 0 ≤ priceToIndex price < ME_MAX_PRICE_LEVELS.
Proof. unfold priceToIndex. apply Z.mod_pos_bound. done. Qed.

#[export] Instance hash_rep_perm pl : Proper ((≡ₚ) ==> iff) (hash_rep pl).
Proof. intros l k Hlk. unfold hash_rep. by setoid_rewrite Hlk. Qed.

(** A level keeps its representation when its own fields and the links and data of
    its own orders are unchanged. *)
Lemma level_rep_frame pl pl' g :
  level_rep pl g →
  oap_side (lvl pl' (g_ptr g)) = oap_side (lvl pl (g_ptr g)) →
  oap_price (lvl pl' (g_ptr g)) = oap_price (lvl pl (g_ptr g)) →
  oap_first (lvl pl' (g_ptr g)) = oap_first (lvl pl (g_ptr g)) →
  (∀ o, o ∈ g_orders g → onext pl' o = onext pl o ∧ oprev pl' o = oprev pl o ∧
                         odata pl' o = odata pl o) →
  level_rep pl' g.
Proof.
  intros (Hs & Hp & Hf & Hne & Hr & Hd) Es Ep Ef Ho.
  split_and!; [congruence..|done| |].
  - eapply ring_ext; [done|]. intros o Hin. by destruct (Ho o Hin) as (? & ? & _).
  - rewrite Forall_forall in *. intros o Hin. destruct (Ho o Hin) as (_ & _ & E).
    unfold order_ok. rewrite E. by apply Hd.
Qed.

Lemma side_rep_frame pl pl' s l :
  side_rep pl s l →
  best pl' s = best pl s →
  (∀ g, g ∈ l → lnext pl' (g_ptr g) = lnext pl (g_ptr g) ∧
                lprev pl' (g_ptr g) = lprev pl (g_ptr g)) →
  side_rep pl' s l.
Proof.
  intros (Hb & Hr & Hs & Hsd) Eb El. split_and!; [congruence| |done|done].
  eapply ring_ext; [done|]. intros p (g & -> & Hg)%list_elem_of_fmap. auto.
Qed.

Lemma gside_elem G s g : tradable s → g ∈ gside G s → g ∈ glevels G.
Proof. intros Hs Hg. rewrite (glevels_perm G s Hs), elem_of_app. by left. Qed.

(** A side with a level singled out, and everything else. *)
Lemma glevels_focus G s l1 g l2 :
  tradable s → gside G s = l1 ++ g :: l2 →
  glevels G ≡ₚ g :: (l1 ++ l2 ++ gside G (opp s)).
Proof.
  intros Hs E. rewrite (glevels_perm G s Hs), E.
  rewrite <-app_assoc, <-app_comm_cons. by rewrite <-Permutation_middle.
Qed.
Lemma glevels_focus_gset G s l1 g l2 :
  tradable s →
  glevels (gset G s (l1 ++ g :: l2)) ≡ₚ g :: (l1 ++ l2 ++ gside G (opp s)).
Proof.
  intros Hs. rewrite (glevels_focus _ s l1 g l2) by (done || apply gside_gset).
  by rewrite gside_gset_opp.
Qed.

(** Two levels never share an index of the hash map. *)
Lemma hash_rep_inj pl l g1 g2 :
  hash_rep pl l → NoDup (g_ptr <$> l) → g1 ∈ l → g2 ∈ l →
  priceToIndex (g_price g1) = priceToIndex (g_price g2) → g1 = g2.
Proof.
  intros [_ Hh] Hnd H1 H2 Hi.
  assert (arr_get (price_orders_at_price_ pl) (priceToIndex (g_price g2))
          = Some (g_ptr g1)) as E1.
  { apply Hh; [apply priceToIndex_range|eauto]. }
  assert (arr_get (price_orders_at_price_ pl) (priceToIndex (g_price g2))
          = Some (g_ptr g2)) as E2.
  { apply Hh; [apply priceToIndex_range|eauto]. }
  apply list_elem_of_lookup in H1 as [i H1]. apply list_elem_of_lookup in H2 as [j H2].
  assert (i = j) as ->; [|congruence].
  eapply (NoDup_lookup (g_ptr <$> l) i j (g_ptr g1)); [done| |].
  - by rewrite list_lookup_fmap, H1.
  - rewrite list_lookup_fmap, H2. simpl. congruence.
Qed.

(** The hash map lookups of the code, under the invariant. *)
Lemma getOrdersAtPrice_Some pl l g :
  hash_rep pl l → g ∈ l → getOrdersAtPrice pl (g_price g) = Ok (Some (g_ptr g)).
Proof.
  intros [Hlen Hh] Hg. unfold getOrdersAtPrice.
  rewrite arr_at_Ok by (rewrite Hlen; apply priceToIndex_range).
  f_equal. apply Hh; [apply priceToIndex_range|eauto].
Qed.
Lemma getOrdersAtPrice_None pl l price :
  hash_rep pl l → (∀ g, g ∈ l → priceToIndex (g_price g) ≠ priceToIndex price) →
  getOrdersAtPrice pl price = Ok None.
Proof.
  intros [Hlen Hh] Hno. unfold getOrdersAtPrice.
  rewrite arr_at_Ok by (rewrite Hlen; apply priceToIndex_range).
  f_equal. destruct (arr_get _ _) as [p|] eqn:E; [|done].
  apply Hh in E as (g & Hg & _ & Hi); [|apply priceToIndex_range].
  by destruct (Hno g Hg).
Qed.

Lemma hash_rep_insert pl l g hash :
  hash_rep pl l →
  (∀ g', g' ∈ l → priceToIndex (g_price g') ≠ priceToIndex (g_price g)) →
  hash = arr_set (price_orders_at_price_ pl) (priceToIndex (g_price g)) (Some (g_ptr g)) →
  hash_rep (with_hash pl hash) (g :: l).
Proof.
  intros [Hlen Hh] Hno ->. split; [done|]. intros i p Hi. simpl.
  rewrite arr_get_set. setoid_rewrite elem_of_cons.
  destruct (decide (priceToIndex (g_price g) = i)) as [<-|Hne].
  - split; [intros [= <-]; eauto|]. intros (g' & [->|Hg'] & <- & Hi'); [done|].
    by destruct (Hno g' Hg').
  - rewrite Hh by done. naive_solver.
Qed.

Lemma hash_rep_delete pl l g hash :
  hash_rep pl (g :: l) →
  (∀ g', g' ∈ l → priceToIndex (g_price g') ≠ priceToIndex (g_price g)) →
  hash = arr_set (price_orders_at_price_ pl) (priceToIndex (g_price g)) None →
  hash_rep (with_hash pl hash) l.
Proof.
  intros [Hlen Hh] Hno ->. split; [done|]. intros i p Hi. simpl.
  rewrite arr_get_set.
  destruct (decide (priceToIndex (g_price g) = i)) as [<-|Hne].
  - split; [done|]. intros (g' & Hg' & <- & Hi'). by destruct (Hno g' Hg').
  - rewrite Hh by done. setoid_rewrite elem_of_cons. naive_solver.
Qed.

(** The hash map only looks at the pointers and prices of the levels. *)
Lemma hash_rep_ext pl pl' l l' :
  hash_rep pl l → price_orders_at_price_ pl' = price_orders_at_price_ pl →
  ((λ g, (g_ptr g, g_price g)) <$> l) ≡ₚ ((λ g, (g_ptr g, g_price g)) <$> l') →
  hash_rep pl' l'.
Proof.
  intros [Hlen Hh] E Hl. split; [congruence|]. intros i p Hi. rewrite E, Hh by done.
  assert (∀ k : list glevel, (∃ g, g ∈ k ∧ g_ptr g = p ∧ priceToIndex (g_price g) = i) ↔
    ∃ q, (p, q) ∈ ((λ g, (g_ptr g, g_price g)) <$> k) ∧ priceToIndex q = i) as Hk.
  { intros k. setoid_rewrite list_elem_of_fmap. naive_solver. }
  rewrite !Hk. by setoid_rewrite Hl.
Qed.

(** The empty book. *)
Lemma PriceLevels_new_rep t : book_rep (PriceLevels_new t) [] (mkGhost [] []).
Proof.
  split; simpl; try done.
  - intros s Hs. unfold side_rep, gside, best. simpl.
    case_bool_decide; split_and!; simpl; first [done|apply ring_nil|constructor].
  - by apply MemPool_new_rep.
  - by apply MemPool_new_rep.
  - split; [done|]. intros i p Hi. unfold PriceLevels_new. simpl. rewrite arr_get_new.
    set_solver.
Qed.
End Rep.

(** A price goes between the prices that beat it and the prices it beats. *)
Lemma sorted_insert s (g : glevel) (l1 l2 : list glevel) :
  StronglySorted (better s) (g_price <$> l1 ++ l2) →
  Forall (λ g', better s (g_price g') (g_price g)) l1 →
  Forall (λ g', better s (g_price g) (g_price g')) l2 →
  StronglySorted (better s) ((g_price <$> l1) ++ g_price g :: (g_price <$> l2)).
Proof.
  rewrite fmap_app. induction l1 as [|h l1 IH]; simpl; intros Hs H1 H2.
  - constructor; [done|]. by apply Forall_fmap.
  - inversion Hs as [|? ? Hs' Hf]; subst. apply Forall_cons in H1 as [Hh H1].
    constructor; [by apply IH|]. rewrite Forall_app, Forall_cons in *. naive_solver.
Qed.

(** Every sorted list of levels splits at a price it does not hold. *)
Lemma sorted_split s price (l : list glevel) :
  tradable s →
  StronglySorted (better s) (g_price <$> l) →
  (∀ g, g ∈ l → g_price g ≠ price) →
  ∃ l1 l2, l = l1 ++ l2 ∧
    Forall (λ g, better s (g_price g) price) l1 ∧
    Forall (λ g, better s price (g_price g)) l2.
Proof.
  intros Hts. induction l as [|g l IH]; intros Hs Hne.
  - by exists [], [].
  - simpl in Hs. inversion Hs as [|? ? Hs' Hf]; subst.
    destruct (decide (better s (g_price g) price)) as [Hb|Hb].
    + destruct IH as (l1 & l2 & -> & H1 & H2); [done| |].
      { intros g' Hg'. apply Hne. by right. }
      exists (g :: l1), l2. split_and!; [done|by constructor|done].
    + exists [], (g :: l). split_and!; [done|constructor|].
      assert (better s price (g_price g)) as Hgp.
      { specialize (Hne g ltac:(by left)). destruct Hts as [->| ->]; simpl in *; lia. }
      constructor; [done|]. rewrite Forall_fmap in Hf.
      eapply Forall_impl; [done|]. simpl. intros g' Hg'. by etrans.
Qed.

Lemma sorted_remove {A} (R : relation A) (l1 l2 : list A) x :
  StronglySorted R (l1 ++ x :: l2) → StronglySorted R (l1 ++ l2).
Proof.
  induction l1 as [|h l1 IH]; simpl; intros Hs; inversion Hs as [|? ? Hs' Hf]; subst.
  - done.
  - constructor; [by apply IH|]. rewrite Forall_app, Forall_cons in *. naive_solver.
Qed.
