(* ===== verification/PriceLevelsSpec.v ===== *)
(** * PriceLevelsSpec: what the operations of the price levels do

    Each operation of [PriceLevels] takes a memory that represents a ghost book to
    one that represents the book with the order added or removed at its place, and
    leaves the data of every order alone. *)
From S2P Require Import Prelude Types MemPool Ring PriceLevels BookInv.

Lemma pool_rep_upd {T} (pool : MemPool T) l p f :
  pool_rep pool l → pool_rep (pool_upd pool p f) l.
Proof. apply pool_rep_put. Qed.
#[export] Hint Resolve pool_rep_upd pool_rep_put : trading.

Section OrderOps.
Context {T D : Type} `{OrderData D} `{OrderNode T D}.
Implicit Types (pl : PriceLevels T) (p q o x : ptr) (s : Side.t) (g : glevel)
  (G : ghost) (l : list glevel) (k os : list ptr).

(** Facts the invariant gives about a level of side [s]. *)
Lemma book_rep_level pl extra G s l1 g l2 :
  tradable s → book_rep pl extra G → gside G s = l1 ++ g :: l2 →
  level_rep pl g ∧ g_side g = s ∧ g ∈ glevels G ∧
  (∀ g', g' ∈ l1 ++ l2 ++ gside G (opp s) → g_ptr g' ≠ g_ptr g ∧
     (∀ x, x ∈ g_orders g' → (x ∉ g_orders g) ∧ x ∉ extra)) ∧
  (∀ x, x ∈ extra → x ∉ g_orders g) ∧ NoDup (g_orders g).
Proof.
  intros Hs [Hside Hlv Hlp _ Hop _ _] E.
  pose proof (glevels_focus _ _ _ _ _ Hs E) as Hperm.
  rewrite Hperm in Hlv, Hlp, Hop. rewrite gorders_cons in Hop.
  destruct Hlp as (_ & Hndp & _), Hop as (_ & Hndo & _).
  apply Forall_cons in Hlv as [Hg Hlv].
  rewrite fmap_cons, NoDup_cons in Hndp. destruct Hndp as [Hgp _].
  rewrite (Permutation_app_comm extra), <-app_assoc, NoDup_app in Hndo.
  destruct Hndo as (Hndg & Hdisj & Hrest). rewrite NoDup_app in Hrest.
  destruct Hrest as (_ & Hdisj2 & _).
  split_and!; [done| |rewrite Hperm; by left| | |done].
  - destruct (Hside s Hs) as (_ & _ & _ & Hss). rewrite E in Hss.
    rewrite Forall_forall in Hss. apply Hss, elem_of_app. right. by left.
  - intros g' Hg'. split.
    + intros Heq. apply Hgp. rewrite <-Heq. by apply list_elem_of_fmap_2.
    + intros x Hx. assert (x ∈ gorders (l1 ++ l2 ++ gside G (opp s))) as Hxr.
      { apply elem_of_gorders. eauto. }
      split; [|by apply Hdisj2]. intros Hxg. apply (Hdisj x Hxg), elem_of_app. by left.
  - intros x Hx Hxg. apply (Hdisj x Hxg), elem_of_app. by right.
Qed.

(** Updates that only touch the order list of one level. *)
Lemma book_rep_orders_upd pl pl' extra extra' G s l1 g l2 os :
  tradable s → book_rep pl extra G → gside G s = l1 ++ g :: l2 →
  (∀ b, best pl' b = best pl b) →
  (∀ p, oap_side (lvl pl' p) = oap_side (lvl pl p) ∧
        oap_price (lvl pl' p) = oap_price (lvl pl p) ∧
        lnext pl' p = lnext pl p ∧ lprev pl' p = lprev pl p ∧
        (p ≠ g_ptr g → oap_first (lvl pl' p) = oap_first (lvl pl p))) →
  (∀ k, pool_rep (orders_at_price_pool_ pl) k → pool_rep (orders_at_price_pool_ pl') k) →
  pool_size (orders_at_price_pool_ pl') = pool_size (orders_at_price_pool_ pl) →
  (∀ k, pool_rep (order_pool_ pl) k → pool_rep (order_pool_ pl') k) →
  pool_size (order_pool_ pl') = pool_size (order_pool_ pl) →
  price_orders_at_price_ pl' = price_orders_at_price_ pl →
  oap_first (lvl pl' (g_ptr g)) = head os → os ≠ [] →
  ring (onext pl') (oprev pl') os →
  (∀ x, x ∈ os → order_ok pl' g x) →
  (∀ x, x ∉ g_orders g → x ∉ extra →
     onext pl' x = onext pl x ∧ oprev pl' x = oprev pl x ∧ odata pl' x = odata pl x) →
  extra' ++ os ≡ₚ extra ++ g_orders g →
  book_rep pl' extra' (gset G s (l1 ++ g_with g os :: l2)).
Proof.
  intros Hs Hrep E Hbest Hlvl Hlp Hlsz Hop Hosz Hhash Hfirst Hne Hring Hok Hframe Hperm.
  pose proof (book_rep_level _ _ _ _ _ _ _ Hs Hrep E) as (Hg & Hgs & Hgin & Hoth & _ & _).
  destruct Hrep as [Hside Hlv Hlpr Hls Hopr Hos Hhr].
  pose proof (glevels_focus _ _ _ _ _ Hs E) as Hfoc.
  pose proof (glevels_focus_gset G s l1 (g_with g os) l2 Hs) as Hfoc'.
  assert (g_ptr <$> (l1 ++ g_with g os :: l2) = g_ptr <$> (l1 ++ g :: l2)) as Eptr.
  { rewrite !fmap_app, !fmap_cons. done. }
  split; try congruence.
  - intros s' Hs'.
    assert (gside (gset G s (l1 ++ g_with g os :: l2)) s' = gside G s' ∨
            s' = s) as Hcase.
    { destruct (tradable_cases s s' Hs Hs') as [->| ->]; [by right|left].
      by apply gside_gset_opp. }
    assert (side_rep pl' s' (gside G s')) as Hsr.
    { eapply side_rep_frame; [by apply Hside|done|]. intros g' _.
      destruct (Hlvl (g_ptr g')) as (_ & _ & ? & ? & _). done. }
    destruct Hcase as [->|Hcase]; [done|]. subst s'. rewrite gside_gset. rewrite E in Hsr.
    destruct Hsr as (? & ? & Hsrt & Hss). rewrite <-Eptr in *.
    split_and!; [done|done| |].
    + rewrite fmap_app, fmap_cons in *. done.
    + rewrite Forall_app, Forall_cons in *. naive_solver.
  - rewrite Hfoc'. apply Forall_cons. split.
    + destruct Hg as (? & ? & ? & ? & ? & ?).
      destruct (Hlvl (g_ptr g)) as (Es & Ep & _).
      split_and!; simpl; [congruence|congruence|done|done|done|].
      rewrite Forall_forall. intros x Hx. by apply Hok.
    + rewrite Hfoc in Hlv. apply Forall_cons in Hlv as [_ Hlv].
      rewrite Forall_forall in *. intros g' Hg'.
      destruct (Hoth g' Hg') as [Hpne Hdisj].
      destruct (Hlvl (g_ptr g')) as (Es & Ep & _ & _ & Ef).
      eapply level_rep_frame; [by apply Hlv|done|done|by apply Ef|].
      intros x Hx. destruct (Hdisj x Hx). by apply Hframe.
  - apply Hlp. rewrite Hfoc'. rewrite Hfoc in Hlpr. done.
  - apply Hop. rewrite Hfoc', gorders_cons. rewrite Hfoc, gorders_cons in Hopr.
    simpl. rewrite app_assoc, Hperm, <-app_assoc. done.
  - eapply hash_rep_ext; [done|done|]. rewrite Hfoc, Hfoc'. done.
Qed.

(** What an order is after a few updates of others. *)
Ltac ord_view := unfold onext, oprev, odata in *; autorewrite with trading;
  repeat (case_bool_decide; autorewrite with trading);
  repeat case_decide; subst; autorewrite with trading; congruence.

(** [linkOrder] when the order's price has a level on its side. *)
Lemma linkOrder_existing pl G s l1 g l2 o :
  tradable s → book_rep pl [o] G → gside G s = l1 ++ g :: l2 →
  d_side (odata pl o) = s → d_price (odata pl o) = g_price g →
  ∃ pl', linkOrder pl o = Ok pl' ∧
    book_rep pl' [] (gset G s (l1 ++ g_with g (g_orders g ++ [o]) :: l2)) ∧
    (∀ x, odata pl' x = odata pl x).
Proof.
  intros Hs Hrep E Hos Hop.
  pose proof (book_rep_level _ _ _ _ _ _ _ Hs Hrep E)
    as ((_ & _ & Hf & Hne & Hring & Hok) & Hgs & Hgin & _ & Hfresh & _).
  specialize (Hfresh o ltac:(set_solver)).
  destruct (g_orders g) as [|f os] eqn:Eg; [done|].
  pose proof (ring_head _ _ _ _ Hring) as [_ Hprev].
  assert (f ≠ o) by set_solver + Hfresh.
  assert (default f (last os) ≠ o).
  { pose proof (lastof_elem f os) as Hl. set_solver + Hl Hfresh. }
  unfold linkOrder. change (o_data (ord pl o)) with (odata pl o).
  rewrite Hop, (getOrdersAtPrice_Some _ _ _ (br_hash _ _ _ Hrep) Hgin). simpl.
  rewrite Hf. simpl. change (o_prev (ord pl f)) with (oprev pl f). rewrite Hprev. simpl.
  assert (default f (last os) ∈ f :: os) as Hzin by apply lastof_elem.
  remember (default f (last os)) as z eqn:Ez.
  eexists; split_and!; [done| |].
  - set (pl' := ord_upd _ f _).
    assert (∀ x, onext pl' x = if decide (x = o) then Some f
                               else if decide (x = z) then Some o else onext pl x) as Hn.
    { intros x. unfold pl'. ord_view. }
    assert (∀ x, oprev pl' x = if decide (x = o) then Some z
                               else if decide (x = f) then Some o else oprev pl x) as Hp.
    { intros x. unfold pl'. ord_view. }
    assert (∀ x, odata pl' x = odata pl x) as Hd.
    { intros x. unfold pl'. ord_view. }
    eapply book_rep_orders_upd; try done; try (simpl; auto with trading; fail).
    + rewrite Forall_forall in Hok.
      eapply ring_insert_end; [done|done|..]; rewrite <-?Ez, ?Hn, ?Hp.
      * rewrite decide_False, decide_True; done.
      * by rewrite decide_True.
      * by rewrite decide_True.
      * rewrite decide_False, decide_True; done.
      * intros y Hy Hyz. rewrite Hn, !decide_False; [done|done|set_solver + Hy Hfresh].
      * intros y Hy Hyz. rewrite Hp, !decide_False; [done|done|set_solver + Hy Hfresh].
    + intros x Hx. unfold order_ok. rewrite Hd.
      change (f :: os ++ [o]) with ((f :: os) ++ [o]) in Hx.
      apply elem_of_app in Hx as [Hx|Hx].
      * rewrite Forall_forall in Hok. by apply Hok.
      * apply list_elem_of_singleton in Hx as ->. by rewrite Hgs.
    + intros x Hx Hxo. rewrite Hn, Hp, Hd.
      rewrite Eg in Hx. assert (x ≠ o) by set_solver + Hxo.
      assert (x ≠ f) by set_solver + Hx. assert (x ≠ z) by set_solver + Hx Hzin.
      by rewrite !decide_False.
    + rewrite Eg. simpl. apply Permutation_sym, (Permutation_cons_append (f :: os) o).
  - intros x. ord_view.
Qed.

(** [unlinkOrder] when the level has other orders. *)
Lemma unlinkOrder_more pl G s l1 g l2 k1 o k2 :
  tradable s → book_rep pl [] G → gside G s = l1 ++ g :: l2 →
  g_orders g = k1 ++ o :: k2 → k1 ++ k2 ≠ [] →
  ∃ pl', unlinkOrder pl o = Ok pl' ∧
    book_rep pl' [o] (gset G s (l1 ++ g_with g (k1 ++ k2) :: l2)) ∧
    (∀ x, odata pl' x = odata pl x).
Proof.
  intros Hs Hrep E Ek Hne.
  pose proof (book_rep_level _ _ _ _ _ _ _ Hs Hrep E)
    as ((_ & _ & Hf & _ & Hring & Hok) & Hgs & Hgin & _ & _ & Hnd).
  rewrite Ek in Hf, Hring, Hok, Hnd.
  destruct (ring_unlink _ _ _ _ _ Hring Hne)
    as (a & z & Hnext & Hprev & Ha & Hz & Hain & Hzin & Hoin & Hhead & Hunlink).
  rewrite Forall_forall in Hok.
  destruct (Hok o) as [Hos Hop]; [apply elem_of_app; right; by left|].
  unfold unlinkOrder. change (o_data (ord pl o)) with (odata pl o).
  rewrite Hop, (getOrdersAtPrice_Some _ _ _ (br_hash _ _ _ Hrep) Hgin).
  change (o_prev (ord pl o)) with (oprev pl o). change (o_next (ord pl o)) with (onext pl o).
  rewrite Hprev, Hnext. simpl. rewrite bool_decide_eq_false_2 by congruence. simpl.
  autorewrite with trading. rewrite Hf.
  eexists; split_and!; [done| |].
  2: { intros x. ord_view. }
  set (pl' := ord_upd _ o _).
  assert (∀ x, onext pl' x = if decide (x = o) then None
                             else if decide (x = z) then Some a else onext pl x) as Hn.
  { intros x. unfold pl'. ord_view. }
  assert (∀ x, oprev pl' x = if decide (x = o) then None
                             else if decide (x = a) then Some z else oprev pl x) as Hp.
  { intros x. unfold pl'. ord_view. }
  assert (∀ x, odata pl' x = odata pl x) as Hd.
  { intros x. unfold pl'. ord_view. }
  eapply book_rep_orders_upd; try done; try (simpl; auto with trading; fail).
  - intros b. unfold pl'. case_bool_decide; by autorewrite with trading.
  - intros p. unfold pl', lnext, lprev. autorewrite with trading.
    case_bool_decide; autorewrite with trading; [|done].
    case_decide; subst; simpl; done.
  - intros k Hk. unfold pl'. case_bool_decide; simpl; auto with trading.
  - unfold pl'. case_bool_decide; done.
  - intros k Hk. unfold pl'. case_bool_decide; simpl; auto with trading.
  - unfold pl'. case_bool_decide; done.
  - unfold pl'. case_bool_decide; done.
  - unfold pl'. autorewrite with trading. destruct k1 as [|c k1]; simpl in *.
    + rewrite bool_decide_eq_true_2 by done. autorewrite with trading.
      rewrite decide_True by done. simpl. rewrite app_nil_r in Hhead. by rewrite Hhead.
    + apply NoDup_cons in Hnd as [Hc _].
      rewrite bool_decide_eq_false_2 by (intros [= ->]; set_solver + Hc).
      by autorewrite with trading.
  - intros x Hx. unfold order_ok. rewrite Hd. apply Hok.
    apply elem_of_app in Hx as [Hx|Hx]; apply elem_of_app; [by left|right; by right].
  - intros x Hx Hx'. rewrite Hn, Hp, Hd. rewrite Ek in Hx.
    rewrite !decide_False; [done|..]; set_solver + Hx Hain Hzin Hx'.
  - rewrite Ek. simpl. by rewrite Permutation_middle.
Qed.
End OrderOps.
