(* ===== verification/LevelListSpec.v ===== *)
(** * LevelListSpec: inserting and removing price levels

    The search of [addOrdersAtPrice] stops where the sorted list of levels says, so
    a new level is linked at its sorted place; [removeOrdersAtPrice] unlinks one. *)
From S2P Require Import Prelude Types MemPool Ring PriceLevels BookInv PriceLevelsSpec.

(** ** The list of levels *)
Section LevelOps.
Context {T D : Type} `{OrderData D} `{OrderNode T D}.
Implicit Types (pl : PriceLevels T) (p q o x : ptr) (s : Side.t) (g : glevel)
  (G : ghost) (l : list glevel) (k os : list ptr).

Lemma goes_after_better s price lv :
  tradable s → goes_after s price lv = true ↔ better s (oap_price lv) price.
Proof.
  unfold goes_after. intros [->| ->]; simpl.
  - rewrite Z.ltb_lt. lia.
  - rewrite orb_false_r, Z.gtb_lt. lia.
Qed.

Lemma better_asym s p q : better s p q → better s q p → False.
Proof. destruct s; simpl; lia. Qed.

(** Where the search ends, read off the list. *)
Fixpoint target_of (s : Side.t) (price : Price) (best : ptr) (l : list glevel)
  : bool * ptr :=
  match l with
  | [] => (true, best)
  | g :: l => if bool_decide (better s (g_price g) price) then target_of s price best l
              else (false, g_ptr g)
  end.

Lemma target_of_split s price b l1 l2 :
  Forall (λ g, better s (g_price g) price) l1 →
  Forall (λ g, better s price (g_price g)) l2 →
  target_of s price b (l1 ++ l2) =
  match l2 with [] => (true, b) | c :: _ => (false, g_ptr c) end.
Proof.
  intros H1 H2. induction H1 as [|g l1 Hg _ IH]; simpl.
  - destruct l2 as [|c l2]; simpl; [done|]. apply Forall_cons in H2 as [Hc _].
    rewrite bool_decide_eq_false_2; [done|]. intros ?. by eapply better_asym.
  - by rewrite bool_decide_eq_true_2.
Qed.

Section Find.
Context (pl : PriceLevels T) (s : Side.t) (price : Price) (b : glevel) (l : list glevel).
Context (Hs : tradable s) (Hring : ring (lnext pl) (lprev pl) (g_ptr <$> b :: l)).
Context (Hprice : ∀ g, g ∈ b :: l → oap_price (lvl pl (g_ptr g)) = g_price g).

Lemma goes_after_level g :
  g ∈ b :: l →
  goes_after s price (lvl pl (g_ptr g)) = bool_decide (better s (g_price g) price).
Proof.
  intros Hg. apply eq_bool_prop_intro.
  rewrite !Is_true_true, goes_after_better, bool_decide_eq_true by done.
  by rewrite Hprice.
Qed.

Lemma find_loop (suf pre : list glevel) (x : glevel) n :
  l = pre ++ x :: suf → (length suf + 2 ≤ n)%nat →
  loop_nat (find_target_step pl s price (g_ptr b)) n (true, g_ptr x)
  = Ok (inr (target_of s price (g_ptr b) (x :: suf))).
Proof.
  revert pre x n. induction suf as [|y suf IH]; intros pre x n El Hn.
  all: destruct n as [|n]; [simpl in Hn; lia|]; simpl loop_nat.
  all: assert (x ∈ b :: l) as Hx
    by (rewrite El; right; apply elem_of_app; right; by left).
  all: assert (g_ptr x ≠ g_ptr b) as Hxb.
  1,3: pose proof (ring_NoDup _ _ _ Hring) as Hnd;
       rewrite El, fmap_cons, fmap_app, fmap_cons in Hnd;
       apply NoDup_cons in Hnd as [Hb _]; intros E; apply Hb; rewrite <-E;
       apply elem_of_app; right; by left.
  all: rewrite (proj2 (Z.eqb_neq _ _) Hxb); simpl; rewrite (goes_after_level x Hx).
  all: case_bool_decide as Hbet; simpl;
    [|destruct n as [|n]; [simpl in Hn; lia|]; simpl; done].
  - pose proof Hring as Hr.
    assert (oap_next (lvl pl (g_ptr x)) = Some (g_ptr b)) as ->.
    { rewrite El, fmap_cons in Hr. destruct (ring_head _ _ _ _ Hr) as [Hz _].
      rewrite fmap_app in Hz. simpl in Hz. by rewrite lastof_app in Hz. }
    simpl. destruct n as [|n]; [simpl in Hn; lia|]. simpl. by rewrite Z.eqb_refl.
  - assert (oap_next (lvl pl (g_ptr x)) = Some (g_ptr y)) as ->.
    { pose proof Hring as Hr. rewrite El, app_comm_cons, fmap_app in Hr. simpl in Hr.
      by apply (ring_next _ _ (g_ptr b :: (g_ptr <$> pre))) in Hr as [? _]. }
    simpl. rewrite (IH (pre ++ [x]) y n); [done| |simpl in Hn; lia].
    by rewrite <-app_assoc.
Qed.

Lemma find_target_spec :
  (length (b :: l) ≤ Z.to_nat (pool_size (orders_at_price_pool_ pl)))%nat →
  find_target pl s price (g_ptr b) = Ok (target_of s price (g_ptr b) (b :: l)).
Proof.
  intros Hlen. unfold find_target.
  rewrite goes_after_level by by left. simpl.
  assert (∀ st, loop (find_target_step pl s price (g_ptr b))
            (Z.to_pos (pool_size (orders_at_price_pool_ pl) + 2)) st =
          (r ← loop_nat (find_target_step pl s price (g_ptr b))
             (Z.to_nat (pool_size (orders_at_price_pool_ pl)) + 2) st;
           match r with inl _ => Err OutOfFuel | inr y => Ok y end)) as Hloop.
  { intros st. rewrite loop_unfold_nat. simpl in Hlen.
    replace (Pos.to_nat (Z.to_pos (pool_size (orders_at_price_pool_ pl) + 2))) with
      (Z.to_nat (pool_size (orders_at_price_pool_ pl)) + 2)%nat by lia. done. }
  case_bool_decide as Hb; simpl; [|by rewrite Hloop, Nat.add_comm].
  pose proof Hring as Hr. rewrite fmap_cons in Hr.
  pose proof (ring_next_head _ _ _ _ Hr) as Hn. clear Hr.
  unfold lnext in Hn. rewrite Hn.
  assert (∀ k : list glevel, l = k → mbind (M:=Res) (λ st, loop (find_target_step pl s price (g_ptr b))
            (Z.to_pos (pool_size (orders_at_price_pool_ pl) + 2)) st)
            (next ← deref (Some (default (g_ptr b) (head (g_ptr <$> k))));
             Ok (goes_after s price (lvl pl next), next))
          = Ok (target_of s price (g_ptr b) k)) as Hgo; [|by apply Hgo].
  intros [|y suf] El; simpl.
  - rewrite (goes_after_level b) by by left. rewrite Hloop, Nat.add_comm. simpl.
    rewrite bool_decide_eq_true_2 by done. by rewrite Z.eqb_refl.
  - rewrite (goes_after_level y) by (rewrite El; right; by left).
    rewrite Hloop. case_bool_decide as Hy.
    + rewrite (find_loop suf [] y) by (done || (rewrite El in Hlen; simpl in Hlen; lia)).
      simpl. by rewrite bool_decide_eq_true_2.
    + by rewrite Nat.add_comm.
Qed.
End Find.

(** What the operations on levels leave alone: orders, sizes, and everything about
    a level but its links; and the links outside [ps]. *)
Record level_frame (pl pl' : PriceLevels T) (ps : list ptr) : Prop := {
  lf_ord : ∀ x, ord pl' x = ord pl x;
  lf_opool : order_pool_ pl' = order_pool_ pl;
  lf_side : ∀ p, oap_side (lvl pl' p) = oap_side (lvl pl p);
  lf_price : ∀ p, oap_price (lvl pl' p) = oap_price (lvl pl p);
  lf_first : ∀ p, oap_first (lvl pl' p) = oap_first (lvl pl p);
  lf_size : pool_size (orders_at_price_pool_ pl') = pool_size (orders_at_price_pool_ pl);
  lf_next : ∀ p, p ∉ ps → lnext pl' p = lnext pl p;
  lf_prev : ∀ p, p ∉ ps → lprev pl' p = lprev pl p
}.

Ltac level_view :=
  intros; unfold lnext, lprev in *; autorewrite with trading; repeat case_decide;
  subst; autorewrite with trading; simpl in *; congruence.

(** [np] now sits between [z] and [a], and nothing else of any level changed. *)
Record linked_between pl pl' np z a : Prop := {
  lb_next : ∀ y, lnext pl' y = if decide (y = np) then Some a
                   else if decide (y = z) then Some np else lnext pl y;
  lb_prev : ∀ y, lprev pl' y = if decide (y = np) then Some z
                   else if decide (y = a) then Some np else lprev pl y;
  lb_side : ∀ p, oap_side (lvl pl' p) = oap_side (lvl pl p);
  lb_price : ∀ p, oap_price (lvl pl' p) = oap_price (lvl pl p);
  lb_first : ∀ p, oap_first (lvl pl' p) = oap_first (lvl pl p)
}.

(** The writes of the branch [add_after], with [target = z]. *)
Lemma link_after_views pl np z a :
  np ≠ z → np ≠ a → lnext pl z = Some a →
  let pl1 := lvl_upd pl np (set_prev_entry (Some z)) in
  let pl2 := lvl_upd pl1 a (set_prev_entry (Some np)) in
  let pl3 := lvl_upd pl2 np (set_next_entry (oap_next (lvl pl2 z))) in
  linked_between pl (lvl_upd pl3 z (set_next_entry (Some np))) np z a.
Proof. intros Hz Ha Hnext pl1 pl2 pl3. unfold pl3, pl2, pl1. split; level_view. Qed.

(** The writes of the other branch, with [target = a]. *)
Lemma link_before_views pl np z a :
  np ≠ z → np ≠ a → lprev pl a = Some z →
  let pl1 := lvl_upd pl np (set_prev_entry (oap_prev (lvl pl a))) in
  let pl2 := lvl_upd pl1 np (set_next_entry (Some a)) in
  let pl3 := lvl_upd pl2 z (set_next_entry (Some np)) in
  linked_between pl (lvl_upd pl3 a (set_prev_entry (Some np))) np z a.
Proof. intros Hz Ha Hprev pl1 pl2 pl3. unfold pl3, pl2, pl1. split; level_view. Qed.

(** What [addOrdersAtPrice] must achieve. *)
Definition level_added pl pl' s np (ps1 ps2 : list ptr) : Prop :=
  level_frame pl pl' (np :: ps1 ++ ps2) ∧
  price_orders_at_price_ pl' = price_orders_at_price_ pl ∧
  ring (lnext pl') (lprev pl') (ps1 ++ np :: ps2) ∧
  best pl' s = head (ps1 ++ np :: ps2) ∧
  best pl' (opp s) = best pl (opp s) ∧
  (∀ k, pool_rep (orders_at_price_pool_ pl) k → pool_rep (orders_at_price_pool_ pl') k).

Lemma linked_level_added pl pl' s np z a t (ps1 ps2 : list ptr) :
  linked_between pl pl' np z a →
  ps2 ++ ps1 = a :: t → z = default a (last t) →
  ring (lnext pl) (lprev pl) (ps1 ++ ps2) → np ∉ ps1 ++ ps2 →
  (∀ x, ord pl' x = ord pl x) → order_pool_ pl' = order_pool_ pl →
  pool_size (orders_at_price_pool_ pl') = pool_size (orders_at_price_pool_ pl) →
  price_orders_at_price_ pl' = price_orders_at_price_ pl →
  best pl' s = head (ps1 ++ np :: ps2) → best pl' (opp s) = best pl (opp s) →
  (∀ k, pool_rep (orders_at_price_pool_ pl) k → pool_rep (orders_at_price_pool_ pl') k) →
  level_added pl pl' s np ps1 ps2.
Proof.
  intros [Hn Hp Hs Hpr Hf] E -> Hring Hnp Ho Hop Hsz Hh Hb Hb' Hrep.
  assert (∀ p, p ∉ np :: ps1 ++ ps2 → p ≠ np ∧ p ≠ a ∧ p ≠ default a (last t)) as Hout.
  { intros p Hin. pose proof (lastof_elem a t) as Hl. rewrite <-E in Hl.
    assert (a ∈ ps2 ++ ps1) as Ha by (rewrite E; by left).
    split_and!; [set_solver + Hin|set_solver + Hin Ha|set_solver + Hin Hl]. }
  split_and!; try done.
  - split; try done; intros p Hin; destruct (Hout p Hin) as (? & ? & ?);
      rewrite ?Hn, ?Hp; by rewrite !decide_False.
  - by eapply ring_insert_at.
Qed.

Lemma level_added_first pl s np :
  level_added pl
    (lvl_upd (set_best pl s (Some np)) np
       (λ lv, set_prev_entry (Some np) (set_next_entry (Some np) lv))) s np [] [].
Proof.
  split_and!; try (by autorewrite with trading).
  - split; intros; autorewrite with trading; try done; [level_view..| |];
      (assert (np ≠ p) by set_solver); level_view.
  - apply ring_single; level_view.
  - unfold opp, best, set_best. by repeat case_bool_decide.
  - intros k Hk. autorewrite with trading. auto with trading.
Qed.

(** The search of [addOrdersAtPrice] under the invariant. *)
Lemma find_target_split pl s price b (l l1 l2 : list glevel) :
  tradable s → ring (lnext pl) (lprev pl) (g_ptr <$> b :: l) →
  (∀ g, g ∈ b :: l → oap_price (lvl pl (g_ptr g)) = g_price g) →
  b :: l = l1 ++ l2 →
  Forall (λ g, better s (g_price g) price) l1 →
  Forall (λ g, better s price (g_price g)) l2 →
  (length (b :: l) ≤ Z.to_nat (pool_size (orders_at_price_pool_ pl)))%nat →
  find_target pl s price (g_ptr b) =
  Ok (match l2 with [] => (true, g_ptr b) | c :: _ => (false, g_ptr c) end).
Proof.
  intros Hs Hring Hpr E H1 H2 Hlen. rewrite (find_target_spec pl s price b l) by done.
  f_equal. rewrite E. by apply target_of_split.
Qed.

(** Which level is the best one after the insertion. *)
Lemma best_test s price lv :
  tradable s →
  ((bool_decide (s = Side.BUY) && (price >? oap_price lv)) ||
   (bool_decide (s = Side.SELL) && (price <? oap_price lv))) =
  bool_decide (better s price (oap_price lv)).
Proof.
  intros Hs. apply eq_bool_prop_intro. rewrite !Is_true_true, bool_decide_eq_true.
  destruct Hs as [->| ->]; simpl.
  - rewrite orb_false_r, Z.gtb_lt. lia.
  - rewrite Z.ltb_lt. lia.
Qed.

Section Add.
Context (pl : PriceLevels T) (s : Side.t) (price : Price) (np : ptr).
Context (hash : arr (option ptr)).
Context (Hs : tradable s).
Context (Hside : oap_side (lvl pl np) = s) (Hpr : oap_price (lvl pl np) = price).
Context (Hhash : arr_at_set (price_orders_at_price_ pl) (priceToIndex price) (Some np)
                 = Ok hash).

(** No level is less aggressive: the new one goes last. *)
Lemma addOrdersAtPrice_last (b : glevel) (l : list glevel) :
  best pl s = Some (g_ptr b) →
  ring (lnext pl) (lprev pl) (g_ptr <$> b :: l) →
  (∀ g, g ∈ b :: l → oap_price (lvl pl (g_ptr g)) = g_price g) →
  Forall (λ g, better s (g_price g) price) (b :: l) →
  np ∉ g_ptr <$> (b :: l) →
  (length (b :: l) ≤ Z.to_nat (pool_size (orders_at_price_pool_ pl)))%nat →
  ∃ pl', addOrdersAtPrice pl np = Ok pl' ∧
    level_added (with_hash pl hash) pl' s np (g_ptr <$> b :: l) [].
Proof.
  intros Hbest Hring Hprices H1 Hnp Hsz.
  unfold addOrdersAtPrice. rewrite Hside, Hpr, Hhash. cbn [mbind Res_bind].
  set (pl0 := with_hash pl hash). change (best pl0 s) with (best pl s). rewrite Hbest.
  rewrite (find_target_split pl0 s price b l (b :: l) []); try done; cycle 1.
  { by rewrite app_nil_r. }
  cbn [mbind Res_bind]. rewrite Z.eqb_refl.
  change (oap_prev (lvl pl0 (g_ptr b))) with (lprev pl (g_ptr b)).
  rewrite fmap_cons in Hring, Hnp. destruct (ring_head _ _ _ _ Hring) as [Hz ->].
  pose proof (lastof_elem (g_ptr b) (g_ptr <$> l)) as Hzin.
  remember (default (g_ptr b) (last (g_ptr <$> l))) as z eqn:Ez.
  assert (np ≠ z) as Hnz by (intros ->; done).
  assert (np ≠ g_ptr b) as Hnb by (intros ->; apply Hnp; by left).
  cbn [mbind Res_bind deref].
  assert (oap_next (lvl (lvl_upd pl0 np (set_prev_entry (Some z))) z) = Some (g_ptr b))
    as Htn.
  { autorewrite with trading. by rewrite decide_False. }
  rewrite Htn. cbn [mbind Res_bind deref].
  eexists; split; [done|].
  eapply (linked_level_added _ _ _ _ z (g_ptr b) (g_ptr <$> l));
    [|done|done|by rewrite app_nil_r|by rewrite app_nil_r|done..|].
  - by apply (link_after_views pl0 np z (g_ptr b)).
  - intros k Hk. simpl. eauto with trading.
Qed.

(** A less aggressive level [c] exists: the new one goes before the first. *)
Lemma addOrdersAtPrice_before (b : glevel) (l l1 : list glevel) c (l2 : list glevel) :
  b :: l = l1 ++ c :: l2 →
  best pl s = Some (g_ptr b) →
  ring (lnext pl) (lprev pl) (g_ptr <$> b :: l) →
  (∀ g, g ∈ b :: l → oap_price (lvl pl (g_ptr g)) = g_price g) →
  Forall (λ g, better s (g_price g) price) l1 →
  Forall (λ g, better s price (g_price g)) (c :: l2) →
  np ∉ g_ptr <$> (b :: l) →
  (length (b :: l) ≤ Z.to_nat (pool_size (orders_at_price_pool_ pl)))%nat →
  ∃ pl', addOrdersAtPrice pl np = Ok pl' ∧
    level_added (with_hash pl hash) pl' s np (g_ptr <$> l1) (g_ptr <$> c :: l2).
Proof.
  intros E Hbest Hring Hprices H1 H2 Hnp Hsz.
  unfold addOrdersAtPrice. rewrite Hside, Hpr, Hhash. cbn [mbind Res_bind].
  set (pl0 := with_hash pl hash). change (best pl0 s) with (best pl s). rewrite Hbest.
  rewrite (find_target_split pl0 s price b l l1 (c :: l2)); try done.
  cbn [mbind Res_bind].
  assert (oap_price (lvl pl0 (g_ptr b)) = g_price b) as Hbp by (apply Hprices; by left).
  rewrite E in Hring, Hnp. rewrite fmap_app in Hring, Hnp.
  pose proof (ring_rotate _ _ _ _ Hring) as Hrot.
  rewrite fmap_cons, <-app_comm_cons in Hrot.
  destruct (ring_head _ _ _ _ Hrot) as [Hz Hzp].
  pose proof (lastof_elem (g_ptr c) ((g_ptr <$> l2) ++ (g_ptr <$> l1))) as Hzin.
  remember (default (g_ptr c) (last ((g_ptr <$> l2) ++ (g_ptr <$> l1)))) as z eqn:Ez.
  assert (z ∈ (g_ptr <$> l1) ++ (g_ptr <$> c :: l2)) as Hzin'.
  { rewrite fmap_cons. set_solver + Hzin. }
  assert (np ≠ z) as Hnz by (intros ->; done).
  assert (np ≠ g_ptr c) as Hnc.
  { intros ->. apply Hnp, elem_of_app. right. by left. }
  assert (np ≠ g_ptr b) as Hnb.
  { intros ->. apply Hnp. rewrite <-fmap_app, <-E. by left. }
  pose proof (link_before_views pl0 np z (g_ptr c) Hnz Hnc Hzp) as Hlink.
  cbn zeta in Hlink.
  set (pl1 := lvl_upd pl0 np (set_prev_entry (oap_prev (lvl pl0 (g_ptr c))))) in *.
  set (pl2 := lvl_upd pl1 np (set_next_entry (Some (g_ptr c)))) in *.
  assert (oap_prev (lvl pl2 (g_ptr c)) = Some z) as ->.
  { unfold pl2, pl1. autorewrite with trading. by rewrite !decide_False. }
  cbn [mbind Res_bind deref].
  set (pl3 := lvl_upd pl2 z (set_next_entry (Some np))) in *.
  set (pl4 := lvl_upd pl3 (g_ptr c) (set_prev_entry (Some np))) in *.
  rewrite best_test by done. rewrite (lb_price _ _ _ _ _ Hlink), Hbp.
  assert (∀ k, pool_rep (orders_at_price_pool_ pl0) k →
               pool_rep (orders_at_price_pool_ pl4) k) as Hrep.
  { intros k Hk. unfold pl4, pl3, pl2, pl1. simpl. eauto with trading. }
  destruct l1 as [|b' l1]; injection E as -> ->.
  - rewrite bool_decide_eq_true_2 by (by apply Forall_cons in H2 as [? _]).
    eexists; split; [done|].
    eapply (linked_level_added _ _ _ _ z (g_ptr c) ((g_ptr <$> l2) ++ []));
      [|done|done|done|done|..]; try (intros; autorewrite with trading; done).
    + rewrite bool_decide_eq_false_2.
      2: { intros Hn. change (lnext pl4 (g_ptr c) = Some (g_ptr c)) in Hn.
           rewrite (lb_next _ _ _ _ _ Hlink) in Hn.
           rewrite decide_False in Hn by done. case_decide as Hcz; [congruence|].
           apply (ring_self_next _ _ _ _ Hrot) in Hn.
           apply Hcz. rewrite Ez. simpl in Hn |- *. by rewrite Hn. }
      destruct Hlink as [Hn Hp Hs1 Hp1 Hf1].
      split; intros; unfold lnext, lprev in *; autorewrite with trading; try done;
        case_decide as Hy; subst; simpl; done.
    + by rewrite best_set_best_opp.
    + intros k Hk. autorewrite with trading. auto with trading.
  - rewrite bool_decide_eq_false_2.
    2: { apply Forall_cons in H1 as [Hb' _]. intros ?. by eapply better_asym. }
    eexists; split; [done|].
    by eapply (linked_level_added _ _ _ _ z (g_ptr c)
                ((g_ptr <$> l2) ++ (g_ptr <$> b' :: l1))).
Qed.
End Add.
End LevelOps.
