(* ===== verification/LinkSpec.v ===== *)
(** * LinkSpec: adding and removing an order that makes or ends its level

    With [PriceLevelsSpec], this completes the contract of [linkOrder] and
    [unlinkOrder]: at the end, [linkOrder_spec] and [unlinkOrder_spec] cover both
    cases of each. *)
From S2P Require Import Prelude Types MemPool Ring PriceLevels BookInv PriceLevelsSpec.
From S2P Require Import LevelListSpec.

Section NewLevel.
Context {T D : Type} `{OrderData D} `{OrderNode T D}.
Implicit Types (pl : PriceLevels T) (p q o x : ptr) (s : Side.t) (g : glevel)
  (G : ghost) (l : list glevel) (k os : list ptr).

(** The memory [pl1] before a new level goes in: its only order [o] is linked to itself, the
    level is allocated, and the rest is as in [pl]. *)
Record level_ready pl pl1 G g o : Prop := {
  rdy_lvl : ∀ p, p ≠ g_ptr g → lvl pl1 p = lvl pl p;
  rdy_ord : ∀ x, x ≠ o → ord pl1 x = ord pl x;
  rdy_data : ∀ x, odata pl1 x = odata pl x;
  rdy_next : onext pl1 o = Some o;
  rdy_prev : oprev pl1 o = Some o;
  rdy_order : order_ok pl1 g o;
  rdy_side : oap_side (lvl pl1 (g_ptr g)) = g_side g;
  rdy_price : oap_price (lvl pl1 (g_ptr g)) = g_price g;
  rdy_first : oap_first (lvl pl1 (g_ptr g)) = Some o;
  rdy_best : ∀ b, best pl1 b = best pl b;
  rdy_lpool : pool_rep (orders_at_price_pool_ pl1) (g_ptr g :: (g_ptr <$> glevels G));
  rdy_lsize : pool_size (orders_at_price_pool_ pl1) = ME_MAX_PRICE_LEVELS;
  rdy_opool : ∀ k, pool_rep (order_pool_ pl) k → pool_rep (order_pool_ pl1) k;
  rdy_osize : pool_size (order_pool_ pl1) = pool_size (order_pool_ pl);
  rdy_hash : price_orders_at_price_ pl1 = price_orders_at_price_ pl
}.

(** The ghost book with a new level. *)
Section LevelAdded.
Context (pl pl1 pl' : PriceLevels T) (G : ghost) (s : Side.t) (l1 l2 : list glevel).
Context (g : glevel) (o : ptr).
Let hash := arr_set (price_orders_at_price_ pl) (priceToIndex (g_price g)) (Some (g_ptr g)).
Context (Hs : tradable s) (Hrep : book_rep pl [o] G) (E : gside G s = l1 ++ l2).
Context (Hgs : g_side g = s) (Hgo : g_orders g = [o]).
Context (Hnp : g_ptr g ∉ g_ptr <$> glevels G).
Context (Hready : level_ready pl pl1 G g o).
Context (Hadd : level_added (with_hash pl1 hash) pl' s (g_ptr g) (g_ptr <$> l1) (g_ptr <$> l2)).

Lemma added_perm : glevels G ≡ₚ l1 ++ l2 ++ gside G (opp s).
Proof using Hs E. rewrite (glevels_perm G s Hs), E. by rewrite <-app_assoc. Qed.

Lemma added_fresh g' : g' ∈ glevels G → g_ptr g' ≠ g_ptr g.
Proof using Hnp. intros Hg' Heq. apply Hnp. rewrite <-Heq. by apply list_elem_of_fmap_2. Qed.

Lemma added_orders x :
  onext pl' x = onext pl1 x ∧ oprev pl' x = oprev pl1 x ∧ odata pl' x = odata pl1 x.
Proof using Hadd. destruct Hadd as ([Lo _ _ _ _ _ _ _] & _). unfold onext, oprev, odata. by rewrite Lo. Qed.

Lemma added_side :
  Forall (λ g', better s (g_price g') (g_price g)) l1 →
  Forall (λ g', better s (g_price g) (g_price g')) l2 →
  side_rep pl' s (l1 ++ g :: l2).
Proof using Hs Hrep E Hgs Hadd.
  intros Hl1 Hl2. destruct Hadd as (_ & Lh & Lring & Lb & _).
  destruct (br_side _ _ _ Hrep s Hs) as (_ & _ & Hsort & Hsd). rewrite E in Hsort, Hsd. split_and!.
  - rewrite fmap_app, fmap_cons. done.
  - rewrite fmap_app, fmap_cons. done.
  - rewrite fmap_app, fmap_cons. by apply sorted_insert.
  - rewrite Forall_app, Forall_cons in *. naive_solver.
Qed.

Lemma added_other_side : side_rep pl' (opp s) (gside G (opp s)).
Proof using Hs Hrep E Hnp Hready Hadd.
  destruct Hadd as ([_ _ _ _ _ _ Ln Lp] & _ & _ & _ & Lb' & _).
  eapply side_rep_frame; [by apply (br_side _ _ _ Hrep), opp_tradable| |].
  - rewrite Lb'. apply Hready.
  - intros g' Hg'. assert (g_ptr g' ≠ g_ptr g) as Hne.
    { apply added_fresh. rewrite added_perm, !elem_of_app. auto. }
    assert (g_ptr g' ∉ g_ptr g :: (g_ptr <$> l1) ++ (g_ptr <$> l2)) as Hnin.
    { rewrite elem_of_cons, <-fmap_app. intros [?|Hin]; [done|].
      destruct (br_lpool _ _ _ Hrep) as (_ & Hnd & _).
      rewrite added_perm, app_assoc, fmap_app in Hnd.
      apply NoDup_app in Hnd as (_ & Hdis & _). apply (Hdis _ Hin).
      by apply list_elem_of_fmap_2. }
    rewrite Ln, Lp by done. unfold lnext, lprev. rewrite lvl_with_hash.
    by rewrite (rdy_lvl _ _ _ _ _ Hready).
Qed.

Lemma added_new_level : level_rep pl' g.
Proof using Hgs Hgo Hready Hadd.
  destruct Hadd as ([_ _ Ls Lpr Lf _ _ _] & _). destruct (added_orders o) as (Hn' & Hp' & Hd').
  split_and!.
  - rewrite Ls. apply Hready.
  - rewrite Lpr. apply Hready.
  - rewrite Lf, Hgo. apply Hready.
  - by rewrite Hgo.
  - rewrite Hgo. apply ring_single; [rewrite Hn'|rewrite Hp']; apply Hready.
  - rewrite Hgo. apply Forall_singleton. unfold order_ok. rewrite Hd'. apply Hready.
Qed.

Lemma added_old_levels : Forall (level_rep pl') (glevels G).
Proof using Hrep Hnp Hready Hadd.
  destruct Hadd as ([_ _ Ls Lpr Lf _ _ _] & _). pose proof (br_levels _ _ _ Hrep) as Bl.
  rewrite Forall_forall in *. intros g' Hg'.
  assert (lvl pl1 (g_ptr g') = lvl pl (g_ptr g')) as Elv by by apply Hready, added_fresh.
  eapply level_rep_frame; [by apply Bl|..].
  - by rewrite Ls, lvl_with_hash, Elv.
  - by rewrite Lpr, lvl_with_hash, Elv.
  - by rewrite Lf, lvl_with_hash, Elv.
  - intros x Hx. assert (x ≠ o) as Hxo.
    { intros ->. destruct (br_opool _ _ _ Hrep) as (_ & Hnd & _). apply NoDup_cons in Hnd as [Hnd _].
      apply Hnd, elem_of_gorders. eauto. }
    destruct (added_orders x) as (-> & -> & ->). rewrite (rdy_data _ _ _ _ _ Hready).
    unfold onext, oprev. by rewrite (rdy_ord _ _ _ _ _ Hready).
Qed.

Lemma book_rep_level_added :
  Forall (λ g', better s (g_price g') (g_price g)) l1 →
  Forall (λ g', better s (g_price g) (g_price g')) l2 →
  (∀ g', g' ∈ glevels G → priceToIndex (g_price g') ≠ priceToIndex (g_price g)) →
  book_rep pl' [] (gset G s (l1 ++ g :: l2)).
Proof using Hs Hrep E Hgs Hgo Hnp Hready Hadd.
  intros Hl1 Hl2 Hidx. pose proof (glevels_focus_gset G s l1 g l2 Hs) as Hfoc.
  rewrite <-added_perm in Hfoc.
  pose proof Hadd as ([_ Lop _ _ _ Lsz _ _] & Lh & _ & _ & _ & Lrep). split.
  - intros s' Hs'. destruct (tradable_cases s s' Hs Hs') as [->| ->].
    + rewrite gside_gset. by apply added_side.
    + rewrite gside_gset_opp by done. apply added_other_side.
  - rewrite Hfoc. apply Forall_cons. split; [apply added_new_level|apply added_old_levels].
  - apply Lrep. rewrite Hfoc. apply Hready.
  - rewrite Lsz. apply Hready.
  - rewrite Lop. apply Hready. rewrite Hfoc, gorders_cons, Hgo. apply Hrep.
  - rewrite Lop. simpl. rewrite (rdy_osize _ _ _ _ _ Hready). apply Hrep.
  - rewrite Hfoc. assert (hash_rep (with_hash pl hash) (g :: glevels G)) as Hhr.
    { by apply hash_rep_insert; [apply Hrep| |]. }
    eapply hash_rep_ext; [exact Hhr|by rewrite Lh|done].
Qed.
End LevelAdded.

(** [addOrdersAtPrice] under the invariant of a side, in all its cases. *)
Lemma addOrdersAtPrice_spec pl s price np hash (l1 l2 : list glevel) :
  tradable s → side_rep pl s (l1 ++ l2) →
  oap_side (lvl pl np) = s → oap_price (lvl pl np) = price →
  arr_at_set (price_orders_at_price_ pl) (priceToIndex price) (Some np) = Ok hash →
  (∀ g, g ∈ l1 ++ l2 → oap_price (lvl pl (g_ptr g)) = g_price g) →
  Forall (λ g, better s (g_price g) price) l1 →
  Forall (λ g, better s price (g_price g)) l2 →
  np ∉ g_ptr <$> (l1 ++ l2) →
  (length (l1 ++ l2) ≤ Z.to_nat (pool_size (orders_at_price_pool_ pl)))%nat →
  ∃ pl', addOrdersAtPrice pl np = Ok pl' ∧
    level_added (with_hash pl hash) pl' s np (g_ptr <$> l1) (g_ptr <$> l2).
Proof.
  intros Hs (Hbest & Hring & _ & _) Hside Hpr Hhash Hprices H1 H2 Hnp Hsz.
  destruct (l1 ++ l2) as [|b l] eqn:E.
  - apply app_nil in E as [-> ->]. eexists; split; [|apply level_added_first].
    unfold addOrdersAtPrice. rewrite Hside, Hpr, Hhash. simpl.
    change (best (with_hash pl hash) s) with (best pl s). by rewrite Hbest.
  - destruct l2 as [|c l2].
    + rewrite app_nil_r in E. subst l1.
      by eapply (addOrdersAtPrice_last pl s price np hash Hs Hside Hpr Hhash b l).
    + by eapply (addOrdersAtPrice_before pl s price np hash Hs Hside Hpr Hhash b l l1 c l2).
Qed.

(** What [linkOrder] does first: the order linked to itself, and a level for it. *)
Definition own_level pl (o : ptr) (pool : MemPool OrdersAtPrice) : PriceLevels T :=
  with_level_pool (ord_upd pl o (λ t, set_next (Some o) (set_prev (Some o) t))) pool.

Section OwnLevel.
Context (pl : PriceLevels T) (G : ghost) (s : Side.t) (price : Price) (o np : ptr).
Context (pool : MemPool OrdersAtPrice).
Context (Hrep : book_rep pl [o] G) (Hos : d_side (odata pl o) = s) (Hop : d_price (odata pl o) = price).
Context (Hpool : pool_rep pool (np :: (g_ptr <$> glevels G))).
Context (Hpsz : pool_size pool = pool_size (orders_at_price_pool_ pl)).
Context (Hpget : ∀ p, pool_get pool p =
  if decide (np = p) then mkOrdersAtPrice s price (Some o) None None
  else pool_get (orders_at_price_pool_ pl) p).

Lemma own_level_lvl p : lvl (own_level pl o pool) p =
  if decide (np = p) then mkOrdersAtPrice s price (Some o) None None else lvl pl p.
Proof using Hpget. apply Hpget. Qed.

Lemma own_level_ord x : ord (own_level pl o pool) x =
  if decide (o = x) then set_next (Some o) (set_prev (Some o) (ord pl o)) else ord pl x.
Proof. unfold own_level. by autorewrite with trading. Qed.

Lemma own_level_data x : odata (own_level pl o pool) x = odata pl x.
Proof. unfold odata. rewrite own_level_ord. case_decide; subst; by autorewrite with trading. Qed.

Lemma own_level_ready : level_ready pl (own_level pl o pool) G (mkGlevel np s price [o]) o.
Proof using Hrep Hos Hop Hpool Hpsz Hpget.
  assert (lvl (own_level pl o pool) np = mkOrdersAtPrice s price (Some o) None None) as Hnew.
  { by rewrite own_level_lvl, decide_True. }
  split; cbn [g_ptr g_side g_price]; rewrite ?Hnew; try done.
  - intros p Hp. by rewrite own_level_lvl, decide_False.
  - intros x Hx. by rewrite own_level_ord, decide_False.
  - apply own_level_data.
  - unfold onext. rewrite own_level_ord, decide_True by done. by autorewrite with trading.
  - unfold oprev. rewrite own_level_ord, decide_True by done. by autorewrite with trading.
  - unfold order_ok. by rewrite own_level_data.
  - change (pool_size pool = ME_MAX_PRICE_LEVELS). rewrite Hpsz. apply Hrep.
  - intros k Hk. cbn. eauto with trading.
Qed.
End OwnLevel.

(** [linkOrder] when no level has the index of the order's price. *)
Lemma linkOrder_new pl G s l1 l2 o price :
  tradable s → book_rep pl [o] G → gside G s = l1 ++ l2 →
  d_side (odata pl o) = s → d_price (odata pl o) = price →
  Forall (λ g, better s (g_price g) price) l1 →
  Forall (λ g, better s price (g_price g)) l2 →
  (∀ g, g ∈ glevels G → priceToIndex (g_price g) ≠ priceToIndex price) →
  Z.of_nat (length (glevels G)) + 2 ≤ ME_MAX_PRICE_LEVELS →
  ∃ np pl', linkOrder pl o = Ok pl' ∧
    book_rep pl' [] (gset G s (l1 ++ mkGlevel np s price [o] :: l2)) ∧
    (∀ x, odata pl' x = odata pl x).
Proof.
  intros Hs Hrep E Hos Hop H1 H2 Hidx Hcap.
  unfold linkOrder. change (o_data (ord pl o)) with (odata pl o). rewrite Hos, Hop.
  rewrite (getOrdersAtPrice_None _ _ _ (br_hash _ _ _ Hrep) Hidx). simpl.
  destruct (allocate_spec (orders_at_price_pool_ pl) (g_ptr <$> glevels G)
              (mkOrdersAtPrice s price (Some o) None None))
    as (pool & -> & Hnp & Hpool & Hpsz & Hpget).
  { apply (br_lpool _ _ _ Hrep). }
  { rewrite length_fmap, (br_lsize _ _ _ Hrep). done. }
  simpl. remember (next_free_index_ (orders_at_price_pool_ pl)) as np eqn:Enp.
  pose proof (own_level_ready pl G s price o np pool Hrep Hos Hop Hpool Hpsz Hpget) as Hready.
  fold (own_level pl o pool).
  assert (∀ g, g ∈ l1 ++ l2 → g ∈ glevels G ∧ g_ptr g ≠ np) as Hsub.
  { intros g Hg. rewrite <-E in Hg. apply gside_elem in Hg; [|done]. split; [done|].
    intros <-. apply Hnp. by apply list_elem_of_fmap_2. }
  destruct (addOrdersAtPrice_spec (own_level pl o pool) s price np
    (arr_set (price_orders_at_price_ pl) (priceToIndex price) (Some np)) l1 l2)
    as (pl' & -> & Hadd); try done; try apply Hready.
  - rewrite <-E. eapply side_rep_frame; [by apply (br_side _ _ _ Hrep)|done|].
    intros g Hg. rewrite E in Hg. unfold lnext, lprev.
    by rewrite (rdy_lvl _ _ _ _ _ Hready) by apply Hsub, Hg.
  - cbn. rewrite arr_at_set_Ok; [done|]. destruct (br_hash _ _ _ Hrep) as [-> _].
    apply priceToIndex_range.
  - intros g Hg. destruct (Hsub g Hg) as [Hin Hne]. rewrite (rdy_lvl _ _ _ _ _ Hready) by done.
    pose proof (br_levels _ _ _ Hrep) as Hl. rewrite Forall_forall in Hl.
    by destruct (Hl g Hin) as (_ & ? & _).
  - intros (g & -> & Hg)%list_elem_of_fmap. by destruct (Hsub g Hg).
  - rewrite (rdy_lsize _ _ _ _ _ Hready), <-E.
    rewrite (glevels_perm G s Hs), length_app in Hcap. lia.
  - exists np, pl'. split; [done|]. split.
    + by apply (book_rep_level_added pl (own_level pl o pool) pl' G s l1 l2 _ o).
    + intros x. destruct Hadd as ([Lo _ _ _ _ _ _ _] & _). unfold odata. rewrite Lo.
      apply Hready.
Qed.
End NewLevel.

(** ** Removing a level *)
Section RemoveLevel.
Context {T D : Type} `{OrderData D} `{OrderNode T D}.
Implicit Types (pl : PriceLevels T) (p q o x : ptr) (s : Side.t) (g : glevel)
  (G : ghost) (l : list glevel) (k os : list ptr).

(** What [removeOrdersAtPrice] must achieve for the level [gp], [ps] remaining. *)
Record level_removed (pl pl' : PriceLevels T) (s : Side.t) (gp : ptr) (price : Price)
    (ps k : list ptr) : Prop := {
  lr_frame : level_frame pl pl' (gp :: ps);
  lr_hash : price_orders_at_price_ pl' =
            arr_set (price_orders_at_price_ pl) (priceToIndex price) None;
  lr_ring : ring (lnext pl') (lprev pl') ps;
  lr_best : best pl' s = head ps;
  lr_opp : best pl' (opp s) = best pl (opp s);
  lr_pool : pool_rep (orders_at_price_pool_ pl') k
}.

(** The tail of [removeOrdersAtPrice]: the hash map and the pool. *)
Lemma remove_tail pl pl1 s gp price ps k :
  arr_len (price_orders_at_price_ pl1) = ME_MAX_PRICE_LEVELS →
  pool_rep (orders_at_price_pool_ pl1) (gp :: k) →
  level_frame pl pl1 (gp :: ps) →
  price_orders_at_price_ pl1 = price_orders_at_price_ pl →
  ring (lnext pl1) (lprev pl1) ps → best pl1 s = head ps →
  best pl1 (opp s) = best pl (opp s) →
  ∃ pl', (hash ← arr_at_set (price_orders_at_price_ pl1) (priceToIndex price) None;
          let pl2 := with_hash pl1 hash in
          pool ← deallocate (orders_at_price_pool_ pl2) gp;
          Ok (with_level_pool pl2 pool)) = Ok pl' ∧
    level_removed pl pl' s gp price ps k.
Proof.
  intros Hlen Hrep [Lo Lop Ls Lpr Lf Lsz Ln Lp] Hh Hring Hb Hb'.
  rewrite arr_at_set_Ok by (rewrite Hlen; apply priceToIndex_range). simpl.
  destruct (deallocate_spec _ _ _ Hrep) as (pool' & -> & Hrep' & Hsz & Hget). simpl.
  eexists; split; [done|].
  assert (∀ p, lvl (with_level_pool (with_hash pl1 (arr_set (price_orders_at_price_ pl1)
            (priceToIndex price) None)) pool') p = lvl pl1 p) as Hlv by exact Hget.
  split; try done.
  - split; intros; unfold lnext, lprev; rewrite ?Hlv; auto.
    + apply Lo.
    + by transitivity (pool_size (orders_at_price_pool_ pl1)).
    + by apply Ln.
    + by apply Lp.
  - simpl. by rewrite Hh.
  - eapply ring_ext; [exact Hring|]. intros x _. unfold lnext, lprev. by rewrite !Hlv.
Qed.

Ltac rm_view :=
  intros; unfold lnext, lprev in *; autorewrite with trading; repeat case_decide;
  subst; autorewrite with trading; simpl in *; congruence.

Lemma removeOrdersAtPrice_spec pl s l1 g l2 k :
  tradable s → side_rep pl s (l1 ++ g :: l2) →
  getOrdersAtPrice pl (g_price g) = Ok (Some (g_ptr g)) →
  arr_len (price_orders_at_price_ pl) = ME_MAX_PRICE_LEVELS →
  pool_rep (orders_at_price_pool_ pl) (g_ptr g :: k) →
  ∃ pl', removeOrdersAtPrice pl s (g_price g) = Ok pl' ∧
    level_removed pl pl' s (g_ptr g) (g_price g) (g_ptr <$> l1 ++ l2) k.
Proof.
  intros Hs (Hbest & Hring & _ & _) Hget Hlen Hpool.
  unfold removeOrdersAtPrice. rewrite Hget, Hbest. simpl.
  rewrite fmap_app, fmap_cons in Hring. pose proof (ring_NoDup _ _ _ Hring) as Hnd.
  change (oap_next (lvl pl (g_ptr g))) with (lnext pl (g_ptr g)).
  change (oap_prev (lvl pl (g_ptr g))) with (lprev pl (g_ptr g)).
  destruct (decide ((g_ptr <$> l1) ++ (g_ptr <$> l2) = [])) as [[E1 E2]%app_nil|Hne].
  - rewrite E1, E2 in Hring. rewrite (proj2 (ring_self_next _ _ _ _ Hring)) by done.
    rewrite bool_decide_eq_true_2 by done. cbn [mbind Res_bind].
    rewrite fmap_app, E1, E2. simpl.
    apply remove_tail; autorewrite with trading; try done.
    + split; intros; unfold lnext, lprev; by autorewrite with trading.
    + apply ring_nil.
    + by rewrite best_set_best_opp.
  - destruct (ring_unlink _ _ _ _ _ Hring Hne)
      as (a & z & Hnext & Hprev & Ha & Hz & Hain & Hzin & _ & Hhead & Hunlink).
    rewrite Hprev, Hnext. rewrite bool_decide_eq_false_2 by congruence.
    cbn [mbind Res_bind deref].
    set (pl1 := lvl_upd pl z (set_next_entry (Some a))).
    assert (oap_next (lvl pl1 (g_ptr g)) = Some a ∧ oap_prev (lvl pl1 (g_ptr g)) = Some z) as [E1 E2].
    { unfold pl1. autorewrite with trading. by rewrite decide_False. }
    rewrite E1, E2. cbn [mbind Res_bind deref].
    set (pl2 := lvl_upd pl1 a (set_prev_entry (Some z))).
    assert (oap_next (lvl pl2 (g_ptr g)) = Some a) as E3.
    { unfold pl2. autorewrite with trading. by rewrite decide_False. }
    rewrite E3.
    match goal with |- context [lvl_upd ?m (g_ptr g) ?f] => set (pl3 := lvl_upd m (g_ptr g) f) end.
    assert (∀ x, lnext pl3 x = if decide (x = g_ptr g) then None
              else if decide (x = z) then Some a else lnext pl x) as Hn.
    { unfold pl3, pl2, pl1. case_bool_decide; rm_view. }
    assert (∀ x, lprev pl3 x = if decide (x = g_ptr g) then None
              else if decide (x = a) then Some z else lprev pl x) as Hp.
    { unfold pl3, pl2, pl1. case_bool_decide; rm_view. }
    apply remove_tail.
    + unfold pl3, pl2, pl1. case_bool_decide; by autorewrite with trading.
    + unfold pl3, pl2, pl1. case_bool_decide; autorewrite with trading; auto with trading.
    + rewrite fmap_app. split; try (unfold pl3, pl2, pl1; case_bool_decide; rm_view);
        try (intros; unfold pl3, pl2, pl1; case_bool_decide; by autorewrite with trading).
      * intros x [Hx1 Hx]%not_elem_of_cons. rewrite Hn, !decide_False; [done|by intros ->|done].
      * intros x [Hx1 Hx]%not_elem_of_cons. rewrite Hp, !decide_False; [done|by intros ->|done].
    + unfold pl3, pl2, pl1. case_bool_decide; by autorewrite with trading.
    + rewrite fmap_app. by apply Hunlink.
    + unfold pl3, pl2, pl1. destruct l1 as [|b l1]; simpl in *.
      * rewrite bool_decide_eq_true_2 by done. autorewrite with trading.
        rewrite app_nil_r in Hhead. by rewrite Hhead.
      * apply NoDup_cons in Hnd as [Hb _]. rewrite bool_decide_eq_false_2.
        -- by autorewrite with trading.
        -- intros [= Eq]. apply Hb. rewrite <-Eq. apply elem_of_app. right. by left.
    + unfold pl3, pl2, pl1. case_bool_decide; autorewrite with trading; [|done].
      by rewrite best_set_best_opp.
Qed.

(** The ghost book without a level that held one order. *)
Lemma book_rep_level_removed pl pl' G s l1 g l2 o :
  tradable s → book_rep pl [] G → gside G s = l1 ++ g :: l2 → g_orders g = [o] →
  (∀ g', g' ∈ l1 ++ l2 ++ gside G (opp s) → priceToIndex (g_price g') ≠ priceToIndex (g_price g)) →
  level_removed pl pl' s (g_ptr g) (g_price g) (g_ptr <$> l1 ++ l2)
    (g_ptr <$> l1 ++ l2 ++ gside G (opp s)) →
  book_rep pl' [o] (gset G s (l1 ++ l2)).
Proof.
  intros Hs [Bs Bl Blp Bls Bop Bos Bh] E Eo Hidx
    [[Lo Lop Ls Lpr Lf Lsz Ln Lp] Lh Lring Lb Lb' Lpool].
  pose proof (glevels_focus _ _ _ _ _ Hs E) as Hfoc.
  assert (glevels (gset G s (l1 ++ l2)) ≡ₚ l1 ++ l2 ++ gside G (opp s)) as Hfoc'.
  { rewrite glevels_gset_perm by done. by rewrite <-app_assoc. }
  rewrite Hfoc in Blp, Bl, Bh. pose proof (Bs s Hs) as (_ & _ & Hsort & Hsd). rewrite E in Hsort, Hsd.
  split; try congruence.
  - intros s' Hs'. destruct (tradable_cases s s' Hs Hs') as [->| ->].
    + rewrite gside_gset. split_and!; [done|done| |].
      * rewrite fmap_app, fmap_cons in Hsort. rewrite fmap_app. by eapply sorted_remove.
      * rewrite Forall_app, Forall_cons in *. naive_solver.
    + rewrite gside_gset_opp by done.
      eapply side_rep_frame; [by apply Bs, opp_tradable|done|].
      intros g' Hg'. assert (g_ptr g' ∉ g_ptr g :: (g_ptr <$> l1 ++ l2)) as Hnin.
      { destruct Blp as (_ & Hnd & _). rewrite app_assoc, fmap_cons, fmap_app in Hnd.
        rewrite app_comm_cons in Hnd. apply NoDup_app in Hnd as (_ & Hdis & _).
        intros Hin. apply (Hdis _ Hin). by apply list_elem_of_fmap_2. }
      by rewrite Ln, Lp.
  - rewrite Hfoc'. apply Forall_cons in Bl as [_ Bl].
    rewrite Forall_forall in *. intros g' Hg'.
    eapply level_rep_frame; [by apply Bl|by rewrite ?Ls, ?Lpr, ?Lf..|].
    intros x _. unfold onext, oprev, odata. by rewrite Lo.
  - by rewrite Hfoc'.
  - rewrite Lop, Hfoc'. rewrite Hfoc, gorders_cons, Eo in Bop. done.
  - rewrite Hfoc'. eapply hash_rep_ext; [by eapply (hash_rep_delete _ _ g)|done|done].
Qed.

(** [unlinkOrder] when the order is alone at its price. *)
Lemma unlinkOrder_last pl G s l1 g l2 o :
  tradable s → book_rep pl [] G → gside G s = l1 ++ g :: l2 → g_orders g = [o] →
  ∃ pl', unlinkOrder pl o = Ok pl' ∧ book_rep pl' [o] (gset G s (l1 ++ l2)) ∧
    (∀ x, odata pl' x = odata pl x).
Proof.
  intros Hs Hrep E Eo.
  pose proof (book_rep_level _ _ _ _ _ _ _ Hs Hrep E)
    as ((_ & _ & _ & _ & Hring & Hok) & Hgs & Hgin & Hoth & _ & _).
  rewrite Eo in Hring, Hok. apply Forall_singleton in Hok as [Hos Hop].
  pose proof (glevels_focus _ _ _ _ _ Hs E) as Hfoc.
  pose proof (getOrdersAtPrice_Some _ _ _ (br_hash _ _ _ Hrep) Hgin) as Hget.
  pose proof (br_lpool _ _ _ Hrep) as Blp.
  assert (∀ g', g' ∈ l1 ++ l2 ++ gside G (opp s) →
            priceToIndex (g_price g') ≠ priceToIndex (g_price g)) as Hidx.
  { intros g' Hg' Hi. destruct (Hoth g' Hg') as [Hne _]. apply Hne. f_equal.
    eapply (hash_rep_inj pl (glevels G)); try done; [apply Hrep|by destruct Blp as (_ & ? & _)|].
    rewrite Hfoc. by right. }
  unfold unlinkOrder. change (o_data (ord pl o)) with (odata pl o). rewrite Hos, Hop, Hgs.
  rewrite Hget. change (o_prev (ord pl o)) with (oprev pl o).
  rewrite (proj2 (ring_self_prev _ _ _ _ Hring)) by done.
  cbn [mbind Res_bind]. rewrite bool_decide_eq_true_2 by done.
  pose proof (br_side _ _ _ Hrep s Hs) as Hside. rewrite E in Hside. rewrite Hfoc in Blp.
  destruct (br_hash _ _ _ Hrep) as [Bhl _].
  destruct (removeOrdersAtPrice_spec pl s l1 g l2 _ Hs Hside Hget Bhl Blp) as (pl' & -> & Hrm).
  eexists; split; [done|]. split; [by apply (book_rep_level_removed pl pl' G s l1 g l2 o)|].
  intros x. unfold odata. by rewrite (lf_ord _ _ _ (lr_frame _ _ _ _ _ _ _ Hrm)).
Qed.
End RemoveLevel.
