(* ===== verification/StoreSpec.v ===== *)
(** * StoreSpec: orders in and out of the store, and the contract of the levels

    Allocation, release and in-place data updates under the invariant, and the two
    results the books use: [linkOrder_spec] and [unlinkOrder_spec]. *)
From S2P Require Import Prelude Types MemPool Ring PriceLevels BookInv PriceLevelsSpec.
From S2P Require Import LevelListSpec LinkSpec.

(** The level left when its orders become [k]: none when [k] is empty. *)
Definition level_with (g : glevel) (k : list ptr) : list glevel :=
  match k with [] => [] | _ => [g_with g k] end.

(** The levels of a side with [o] appended at [price]. *)
Fixpoint ghost_insert (s : Side.t) (price : Price) (np o : ptr) (l : list glevel)
  : list glevel :=
  match l with
  | [] => [mkGlevel np s price [o]]
  | g :: l =>
      if bool_decide (g_price g = price) then g_with g (g_orders g ++ [o]) :: l
      else if bool_decide (better s (g_price g) price)
      then g :: ghost_insert s price np o l
      else mkGlevel np s price [o] :: g :: l
  end.

Section Store.
Context {T D : Type} `{OrderData D} `{OrderNode T D}.
Implicit Types (pl : PriceLevels T) (p q o x : ptr) (s : Side.t) (g : glevel)
  (G : ghost) (l : list glevel) (k os : list ptr).

(** The levels do not depend on the store beyond the orders they link. *)
Lemma book_rep_store pl pool extra extra' G :
  book_rep pl extra G →
  (∀ x, x ∈ gorders (glevels G) → pool_get pool x = ord pl x) →
  pool_rep pool (extra' ++ gorders (glevels G)) →
  pool_size pool = pool_size (order_pool_ pl) →
  book_rep (with_order_pool pl pool) extra' G.
Proof.
  intros [Bs Bl Blp Bls Bop Bos Bh] Hget Hrep Hsz.
  split; try done; [|by rewrite <-Bos].
  rewrite Forall_forall in *. intros g Hg. eapply level_rep_frame; [by apply Bl|done..|].
  intros x Hx. assert (x ∈ gorders (glevels G)) as Hin by (apply elem_of_gorders; eauto).
  unfold onext, oprev, odata, ord in *. simpl. by rewrite Hget.
Qed.

Lemma allocOrder_spec pl G t :
  book_rep pl [] G →
  Z.of_nat (length (gorders (glevels G))) + 2 ≤ ME_MAX_ORDER_IDS →
  ∃ o pl', allocOrder pl t = Ok (o, pl') ∧ book_rep pl' [o] G ∧
    (o ∉ gorders (glevels G)) ∧ ord pl' o = t ∧
    (∀ x, x ≠ o → ord pl' x = ord pl x).
Proof.
  intros Hrep Hcap. unfold allocOrder.
  destruct (allocate_spec (order_pool_ pl) (gorders (glevels G)) t)
    as (pool' & -> & Hnin & Hrep' & Hsz & Hget).
  { apply (br_opool _ _ _ Hrep). }
  { by rewrite (br_osize _ _ _ Hrep). }
  eexists _, _. split; [done|]. split_and!; [|done| |].
  - eapply book_rep_store; [done| |done|done].
    intros x Hx. rewrite Hget, decide_False; [done|]. by intros <-.
  - unfold ord. simpl. by rewrite Hget, decide_True.
  - intros x Hx. unfold ord. simpl. by rewrite Hget, decide_False.
Qed.

Lemma deallocOrder_spec pl G o :
  book_rep pl [o] G →
  ∃ pl', deallocOrder pl o = Ok pl' ∧ book_rep pl' [] G ∧ (∀ x, ord pl' x = ord pl x).
Proof.
  intros Hrep. unfold deallocOrder.
  destruct (deallocate_spec _ _ _ (br_opool _ _ _ Hrep)) as (pool' & -> & Hrep' & Hsz & Hget).
  eexists. split; [done|]. split; [|exact Hget].
  eapply book_rep_store; [done| |done|done]. intros x _. apply Hget.
Qed.

(** Changing an order's data in place, but not its side and price. *)
Lemma ord_upd_rep pl extra G o (f : T → T) :
  book_rep pl extra G →
  (∀ t, o_prev (f t) = o_prev t) → (∀ t, o_next (f t) = o_next t) →
  (∀ t, d_side (o_data (f t)) = d_side (o_data t)) →
  (∀ t, d_price (o_data (f t)) = d_price (o_data t)) →
  book_rep (ord_upd pl o f) extra G.
Proof.
  intros [Bs Bl Blp Bls Bop Bos Bh] Hp Hn Hs Hpr.
  split; try done; [|by apply pool_rep_upd].
  rewrite Forall_forall in *. intros g Hg. destruct (Bl g Hg) as (? & ? & ? & ? & Hr & Hok).
  split_and!; try done.
  - eapply ring_ext; [exact Hr|]. intros x _. unfold onext, oprev.
    autorewrite with trading. case_decide; subst; auto.
  - rewrite Forall_forall in *. intros x Hx. unfold order_ok, odata.
    autorewrite with trading. case_decide; subst; rewrite ?Hs, ?Hpr; by apply Hok.
Qed.

(** ** The contract of [linkOrder] and [unlinkOrder] *)

Lemma ghost_insert_existing s price np o l1 g l2 :
  g_price g = price → Forall (λ g', better s (g_price g') price) l1 →
  ghost_insert s price np o (l1 ++ g :: l2) =
  l1 ++ g_with g (g_orders g ++ [o]) :: l2.
Proof.
  intros Hg H1. induction H1 as [|h l1 Hh _ IH]; simpl.
  - by rewrite bool_decide_eq_true_2.
  - rewrite bool_decide_eq_false_2.
    2: { intros E. rewrite E in Hh. destruct s; simpl in Hh; lia. }
    by rewrite bool_decide_eq_true_2, IH.
Qed.

Lemma ghost_insert_new s price np o l1 l2 :
  Forall (λ g, better s (g_price g) price) l1 →
  Forall (λ g, better s price (g_price g)) l2 →
  ghost_insert s price np o (l1 ++ l2) = l1 ++ mkGlevel np s price [o] :: l2.
Proof.
  intros H1 H2. induction H1 as [|h l1 Hh _ IH]; simpl.
  - destruct l2 as [|g l2]; simpl; [done|]. apply Forall_cons in H2 as [Hg _].
    rewrite !bool_decide_eq_false_2; [done|..].
    + intros Hb. by eapply better_asym.
    + intros E. rewrite E in Hg. destruct s; simpl in Hg; lia.
  - rewrite bool_decide_eq_false_2.
    2: { intros E. rewrite E in Hh. destruct s; simpl in Hh; lia. }
    by rewrite bool_decide_eq_true_2, IH.
Qed.

(** The levels before a given one beat its price. *)
Lemma sorted_before s l1 g l2 :
  StronglySorted (better s) (g_price <$> l1 ++ g :: l2) →
  Forall (λ g', better s (g_price g') (g_price g)) l1.
Proof.
  induction l1 as [|h l1 IH]; simpl; intros Hs; [constructor|].
  inversion Hs as [|? ? Hs' Hf]; subst. constructor; [|by apply IH].
  rewrite Forall_fmap, Forall_app, Forall_cons in Hf. naive_solver.
Qed.

Lemma linkOrder_spec pl G s o price :
  tradable s → book_rep pl [o] G →
  d_side (odata pl o) = s → d_price (odata pl o) = price →
  (∀ g, g ∈ glevels G → priceToIndex (g_price g) = priceToIndex price →
        g_price g = price ∧ g_side g = s) →
  Z.of_nat (length (glevels G)) + 2 ≤ ME_MAX_PRICE_LEVELS →
  ∃ np pl', linkOrder pl o = Ok pl' ∧
    book_rep pl' [] (gset G s (ghost_insert s price np o (gside G s))) ∧
    (∀ x, odata pl' x = odata pl x).
Proof.
  intros Hs Hrep Hos Hop Hidx Hcap.
  destruct (br_side _ _ _ Hrep s Hs) as (_ & _ & Hsort & Hsd).
  destruct (decide (Exists (λ g, g_price g = price) (gside G s))) as [Hex|Hno].
  - apply Exists_exists in Hex as (g & (l1 & l2 & E)%list_elem_of_split & Hg).
    destruct (linkOrder_existing pl G s l1 g l2 o) as (pl' & Hl & Hrep' & Hd); try done.
    { congruence. }
    exists 0, pl'. split; [done|]. split; [|done].
    rewrite E in Hsort. apply sorted_before in Hsort. rewrite Hg in Hsort.
    by rewrite E, ghost_insert_existing.
  - rewrite <-Forall_Exists_neg, Forall_forall in Hno.
    destruct (sorted_split s price (gside G s) Hs Hsort Hno) as (l1 & l2 & E & H1 & H2).
    destruct (linkOrder_new pl G s l1 l2 o price) as (np & pl' & Hl & Hrep' & Hd); try done.
    { intros g Hg Hi. destruct (Hidx g Hg Hi) as [Hp Hgs].
      apply (Hno g); [|done].
      rewrite (glevels_perm G s Hs), elem_of_app in Hg. destruct Hg as [Hg|Hg]; [done|].
      destruct (br_side _ _ _ Hrep (opp s) (opp_tradable s)) as (_ & _ & _ & Hsd').
      rewrite Forall_forall in Hsd'. specialize (Hsd' g Hg).
      by destruct (opp_ne s Hs); congruence. }
    exists np, pl'. split; [done|]. split; [|done].
    by rewrite E, ghost_insert_new.
Qed.

Lemma unlinkOrder_spec pl G s l1 g l2 k1 o k2 :
  tradable s → book_rep pl [] G → gside G s = l1 ++ g :: l2 →
  g_orders g = k1 ++ o :: k2 →
  ∃ pl', unlinkOrder pl o = Ok pl' ∧
    book_rep pl' [o] (gset G s (l1 ++ level_with g (k1 ++ k2) ++ l2)) ∧
    (∀ x, odata pl' x = odata pl x).
Proof.
  intros Hs Hrep E Ek. destruct (k1 ++ k2) as [|a k] eqn:Ekk; simpl.
  - apply app_nil in Ekk as [-> ->]. by apply (unlinkOrder_last pl G s l1 g l2 o).
  - rewrite <-Ekk. apply (unlinkOrder_more pl G s l1 g l2 k1 o k2); try done. congruence.
Qed.
End Store.
