(* ===== verification/LevelsAbs.v ===== *)
(** * LevelsAbs: the book a set of price levels holds

    The view of a side that both reference books share: its levels, most aggressive
    first, each with the data of its orders in FIFO order, for any order data. *)
From S2P Require Import Prelude Types MemPool Ring PriceLevels BookInv PriceLevelsSpec.
From S2P Require Import LevelListSpec LinkSpec StoreSpec.

Abbreviation side_levels D := (list (Price * list D)).

Section Levels.
Context {D : Type} `{OrderData D}.
Implicit Types (l k : side_levels D) (ds : list D) (d : D) (s : Side.t) (p : Price).

Definition level_orders l : list D := concat (l.*2).

(** A level, if it still has orders. *)
Definition some_level p ds : side_levels D := match ds with [] => [] | _ => [(p, ds)] end.

(** An order joins the back of the queue of its price, in a new level if need be. *)
Fixpoint insert_order s d l : side_levels D :=
  match l with
  | [] => [(d_price d, [d])]
  | (p, ds) :: l' =>
      if bool_decide (p = d_price d) then (p, ds ++ [d]) :: l'
      else if bool_decide (better s p (d_price d)) then (p, ds) :: insert_order s d l'
      else (d_price d, [d]) :: l
  end.

Definition remove_where (P : D → Prop) `{∀ d, Decision (P d)} l : side_levels D :=
  l ≫= λ pd : Price * list D, some_level pd.1 (filter (λ d, ¬ P d) pd.2).
Definition update_where (P : D → Prop) `{∀ d, Decision (P d)} (f : D → D) l
  : side_levels D :=
  (λ pd : Price * list D, (pd.1, (λ d, if decide (P d) then f d else d) <$> pd.2)) <$> l.

Lemma level_orders_cons p ds l : level_orders ((p, ds) :: l) = ds ++ level_orders l.
Proof. done. Qed.
Lemma level_orders_app l k : level_orders (l ++ k) = level_orders l ++ level_orders k.
Proof. unfold level_orders. by rewrite fmap_app, concat_app. Qed.
Lemma level_orders_some p ds : level_orders (some_level p ds) = ds.
Proof. destruct ds; [done|]. unfold level_orders. simpl. by rewrite app_nil_r. Qed.
Lemma elem_of_level_orders d l :
  d ∈ level_orders l ↔ ∃ p ds, (p, ds) ∈ l ∧ d ∈ ds.
Proof.
  unfold level_orders. rewrite list_elem_of_In, in_concat. setoid_rewrite <-list_elem_of_In.
  split.
  - intros (ds & ([p ds'] & -> & Hp)%list_elem_of_fmap & Hd). eauto.
  - intros (p & ds & Hp & Hd). exists ds. split; [|done].
    apply list_elem_of_fmap. by exists (p, ds).
Qed.
Lemma level_orders_perm l k :
  l ≡ₚ k → level_orders l ≡ₚ level_orders k.
Proof.
  induction 1 as [|[p ds] l k _ IH|[p ds] [p' ds'] l|l1 l2 l3 _ IH1 _ IH2].
  - done.
  - by rewrite !level_orders_cons, IH.
  - rewrite !level_orders_cons. solve_Permutation.
  - by etrans.
Qed.

Lemma insert_order_orders s d l :
  level_orders (insert_order s d l) ≡ₚ d :: level_orders l.
Proof.
  induction l as [|[p ds] l IH]; simpl; [done|]. case_bool_decide; [|case_bool_decide].
  - rewrite !level_orders_cons. solve_Permutation.
  - rewrite !level_orders_cons, IH. solve_Permutation.
  - by rewrite !level_orders_cons.
Qed.
Lemma insert_order_prices s d l p :
  p ∈ (insert_order s d l).*1 → p = d_price d ∨ p ∈ l.*1.
Proof.
  induction l as [|[q ds] l IH]; simpl; [set_solver|].
  case_bool_decide; [|case_bool_decide]; simpl; set_solver.
Qed.
(** An order joins the back of the queue of its price. *)
Lemma insert_order_back s d l1 ds l2 :
  Forall (λ pd, better s pd.1 (d_price d)) l1 →
  insert_order s d (l1 ++ (d_price d, ds) :: l2) = l1 ++ (d_price d, ds ++ [d]) :: l2.
Proof.
  induction 1 as [|[p ds'] l1 Hp _ IH]; simpl in *.
  - by rewrite bool_decide_eq_true_2.
  - rewrite bool_decide_eq_false_2 by (intros ->; destruct s; simpl in Hp; lia).
    by rewrite bool_decide_eq_true_2, IH.
Qed.
End Levels.

Section Where.
Context {D : Type} `{OrderData D} (P : D → Prop) `{∀ d, Decision (P d)}.
Implicit Types (l k : side_levels D) (ds : list D) (d : D) (p : Price).

Lemma remove_where_app l k : remove_where P (l ++ k) = remove_where P l ++ remove_where P k.
Proof. unfold remove_where. apply bind_app. Qed.
Lemma remove_where_cons p ds l :
  remove_where P ((p, ds) :: l) =
  some_level p (filter (λ d, ¬ P d) ds) ++ remove_where P l.
Proof. done. Qed.

Lemma filter_others ds :
  (∀ d, d ∈ ds → ¬ P d) → filter (λ d, ¬ P d) ds = ds.
Proof.
  induction ds as [|d ds IH]; intros Hd; [done|].
  rewrite filter_cons_True by (apply Hd; by left). f_equal.
  apply IH. intros x Hx. apply Hd. by right.
Qed.

Lemma remove_where_others l :
  Forall (λ pd, pd.2 ≠ []) l → (∀ d, d ∈ level_orders l → ¬ P d) →
  remove_where P l = l.
Proof.
  induction 1 as [|[p ds] l Hds Hl IH]; intros Hd; [done|]. simpl in Hds.
  rewrite level_orders_cons in Hd.
  rewrite remove_where_cons, filter_others by (intros; apply Hd; set_solver).
  rewrite IH by (intros; apply Hd; set_solver). by destruct ds.
Qed.

Lemma update_where_others f l :
  (∀ d, d ∈ level_orders l → ¬ P d) → update_where P f l = l.
Proof.
  intros Hd. unfold update_where. rewrite <-(list_fmap_id l) at 2.
  apply list_fmap_ext. intros i [p ds] Hl. simpl. f_equal.
  rewrite <-(list_fmap_id ds) at 2. apply list_fmap_ext. intros j d Hj. simpl.
  rewrite decide_False; [done|]. apply Hd, elem_of_level_orders.
  exists p, ds. split; by eapply list_elem_of_lookup_2.
Qed.

Lemma remove_where_sub l :
  (∀ p, p ∈ (remove_where P l).*1 → p ∈ l.*1) ∧
  (∀ d, d ∈ level_orders (remove_where P l) ↔ d ∈ level_orders l ∧ ¬ P d).
Proof.
  induction l as [|[p ds] l [IH1 IH2]]; [set_solver|].
  rewrite remove_where_cons, level_orders_cons, fmap_app, level_orders_app,
    level_orders_some.
  split.
  - intros q. rewrite elem_of_app. intros [Hq|Hq]; [|set_solver].
    destruct (filter _ ds); set_solver.
  - intros d. rewrite !elem_of_app, IH2, list_elem_of_filter. naive_solver.
Qed.

Lemma remove_where_orders l :
  level_orders (remove_where P l) = filter (λ d, ¬ P d) (level_orders l).
Proof.
  induction l as [|[p ds] l IH]; [done|].
  by rewrite remove_where_cons, level_orders_app, level_orders_some, level_orders_cons,
    filter_app, IH.
Qed.

Lemma remove_where_ids {A} (f : D → A) l :
  f <$> level_orders (remove_where P l) ⊆+ f <$> level_orders l.
Proof.
  rewrite remove_where_orders. apply fmap_submseteq, sublist_submseteq, sublist_filter.
Qed.

Lemma update_where_orders f l :
  level_orders (update_where P f l) = (λ d, if decide (P d) then f d else d) <$> level_orders l.
Proof.
  induction l as [|[p ds] l IH]; [done|].
  unfold update_where in *. rewrite fmap_cons, !level_orders_cons, fmap_app. by rewrite IH.
Qed.
Lemma update_where_prices f l : (update_where P f l).*1 = l.*1.
Proof. unfold update_where. by rewrite <-list_fmap_compose. Qed.
End Where.

(** ** The view of the memory *)
Section Abs.
Context {T D : Type} `{OrderData D} `{OrderNode T D}.
Implicit Types (pl : PriceLevels T) (G : ghost) (s : Side.t).

Definition abs_level pl (g : glevel) : Price * list D :=
  (g_price g, odata pl <$> g_orders g).
Definition abs_side pl (l : list glevel) : side_levels D :=
  abs_level pl <$> l.

Lemma abs_side_app pl l1 l2 : abs_side pl (l1 ++ l2) = abs_side pl l1 ++ abs_side pl l2.
Proof. apply fmap_app. Qed.
Lemma abs_side_cons pl g l : abs_side pl (g :: l) = abs_level pl g :: abs_side pl l.
Proof. done. Qed.
Lemma abs_level_with pl g k :
  abs_side pl (level_with g k) = some_level (g_price g) (odata pl <$> k).
Proof. by destruct k. Qed.

Lemma abs_side_ext pl pl' l :
  (∀ x, x ∈ gorders l → odata pl' x = odata pl x) → abs_side pl' l = abs_side pl l.
Proof.
  intros Hd. unfold abs_side, abs_level. apply list_fmap_ext. intros i g Hg. f_equal.
  apply list_fmap_ext. intros j x Hx. apply Hd, elem_of_gorders.
  exists g. split; by eapply list_elem_of_lookup_2.
Qed.

(** Taking one order out of the ghost book. *)
Lemma gorders_level_with g k : gorders (level_with g k) = k.
Proof. destruct k; unfold gorders; simpl; [done|]. by rewrite app_nil_r. Qed.

Lemma gorders_remove G s l1 g l2 k1 o k2 :
  tradable s → gside G s = l1 ++ g :: l2 → g_orders g = k1 ++ o :: k2 →
  gorders (glevels G) ≡ₚ
  o :: gorders (glevels (gset G s (l1 ++ level_with g (k1 ++ k2) ++ l2))).
Proof.
  intros Hs E Ek. rewrite (glevels_focus _ _ _ _ _ Hs E), glevels_gset_perm by done.
  rewrite gorders_cons, Ek, !gorders_app, gorders_level_with. solve_Permutation.
Qed.

Lemma gorders_ghost_insert s price np o l :
  gorders (ghost_insert s price np o l) ≡ₚ o :: gorders l.
Proof.
  induction l as [|g l IH]; simpl; [done|].
  case_bool_decide; [|case_bool_decide].
  - rewrite !gorders_cons. simpl. solve_Permutation.
  - rewrite !gorders_cons, IH. solve_Permutation.
  - by rewrite !gorders_cons.
Qed.

Lemma abs_ghost_insert pl pl' s np o d l :
  odata pl' o = d → (∀ x, x ∈ gorders l → odata pl' x = odata pl x) →
  abs_side pl' (ghost_insert s (d_price d) np o l) = insert_order s d (abs_side pl l).
Proof.
  intros Ho. induction l as [|g l IH]; intros Hx.
  - unfold abs_side, abs_level. simpl. by rewrite Ho.
  - assert (abs_level pl' g = abs_level pl g) as Eg.
    { unfold abs_level. f_equal. apply list_fmap_ext. intros i x Hi.
      apply Hx. rewrite gorders_cons, elem_of_app. left. by eapply list_elem_of_lookup_2. }
    assert (∀ x, x ∈ gorders l → odata pl' x = odata pl x) as Hl.
    { intros x ?. apply Hx. rewrite gorders_cons. set_solver. }
    rewrite abs_side_cons. unfold abs_level at 1. cbn [ghost_insert insert_order].
    case_bool_decide; [|case_bool_decide].
    + rewrite abs_side_cons. f_equal; [|by apply abs_side_ext].
      unfold abs_level, g_with. simpl. rewrite fmap_app. simpl. rewrite Ho.
      do 2 f_equal. injection Eg. done.
    + rewrite abs_side_cons, Eg, (IH Hl). done.
    + rewrite !abs_side_cons, Eg. unfold abs_level at 1. simpl. rewrite Ho.
      by rewrite (abs_side_ext pl pl' l).
Qed.

Lemma level_orders_abs pl l : level_orders (abs_side pl l) = odata pl <$> gorders l.
Proof.
  induction l as [|g l IH]; [done|].
  rewrite abs_side_cons, gorders_cons, fmap_app. unfold abs_level.
  by rewrite level_orders_cons, IH.
Qed.
Lemma prices_abs pl l : (abs_side pl l).*1 = g_price <$> l.
Proof. unfold abs_side. by rewrite <-list_fmap_compose. Qed.

Lemma elem_of_gorders_split G s o :
  tradable s → o ∈ gorders (gside G s) →
  ∃ l1 g l2 k1 k2, gside G s = l1 ++ g :: l2 ∧ g_orders g = k1 ++ o :: k2.
Proof.
  intros Hs (g & (l1 & l2 & E)%list_elem_of_split & (k1 & k2 & Ek)%list_elem_of_split)%elem_of_gorders.
  eauto 10.
Qed.

Lemma NoDup_gorders_split G s :
  tradable s → NoDup (gorders (glevels G)) →
  NoDup (gorders (gside G s) ++ gorders (gside G (opp s))).
Proof. intros Hs. by rewrite (glevels_perm G s Hs), gorders_app. Qed.

Lemma opp_opp s : tradable s → opp (opp s) = s.
Proof. by intros [->| ->]. Qed.

Lemma book_rep_nonempty pl extra G s g :
  tradable s → book_rep pl extra G → g ∈ gside G s → g_orders g ≠ [].
Proof.
  intros Hs Hrep Hg. pose proof (br_levels _ _ _ Hrep) as Hl.
  rewrite Forall_forall in Hl.
  by destruct (Hl g (gside_elem _ _ _ Hs Hg)) as (_ & _ & _ & ? & _).
Qed.

Lemma abs_nonempty pl extra G s :
  tradable s → book_rep pl extra G →
  Forall (λ pd, pd.2 ≠ []) (abs_side pl (gside G s)).
Proof.
  intros Hs Hrep. apply Forall_fmap, Forall_forall. intros g Hg. simpl.
  intros ?%fmap_nil_inv. by apply (book_rep_nonempty pl extra G s g Hs Hrep Hg).
Qed.

Lemma book_rep_nodup pl G : book_rep pl [] G → NoDup (gorders (glevels G)).
Proof. intros Hr. by destruct (br_opool _ _ _ Hr) as (_ & ? & _). Qed.

(** The ghost book without one order holds the reference book without it. *)
Lemma abs_remove pl pl' G s l1 g l2 k1 o k2 (P : D → Prop) `{∀ d, Decision (P d)} :
  tradable s → book_rep pl [] G → gside G s = l1 ++ g :: l2 → g_orders g = k1 ++ o :: k2 →
  (∀ x, odata pl' x = odata pl x) →
  P (odata pl o) →
  (∀ x, x ∈ gorders (glevels G) → P (odata pl x) → x = o) →
  let G' := gset G s (l1 ++ level_with g (k1 ++ k2) ++ l2) in
  abs_side pl' (gside G' s) =
    remove_where P (abs_side pl (gside G s)) ∧
  abs_side pl' (gside G' (opp s)) =
    remove_where P (abs_side pl (gside G (opp s))).
Proof.
  intros Hs Hrep E Ek Hd Ho Hu G'.
  pose proof (abs_nonempty pl [] G s Hs Hrep) as Hne.
  pose proof (NoDup_gorders_split G s Hs (book_rep_nodup _ _ Hrep)) as Hnd.
  pose proof (gorders_remove _ _ _ _ _ _ _ _ Hs E Ek) as Hperm.
  pose proof (book_rep_nodup _ _ Hrep) as Hnd0. rewrite Hperm in Hnd0.
  apply NoDup_cons in Hnd0 as [Hno _].
  rewrite glevels_gset_perm, !gorders_app, gorders_level_with in Hno by done.
  assert (∀ l, (∀ x, x ∈ gorders l → x ∈ gorders (glevels G) ∧ x ≠ o) →
    ∀ d, d ∈ level_orders (abs_side pl l) → ¬ P d) as Hother.
  { intros l Hl d. rewrite level_orders_abs. intros (x & -> & Hx)%list_elem_of_fmap Hi.
    destruct (Hl x Hx). by apply Hu in Hi. }
  assert (∀ x, x ∈ gorders (glevels G) ↔ x = o ∨ x ∈ gorders l1 ∨ x ∈ k1 ++ k2 ∨
    x ∈ gorders l2 ∨ x ∈ gorders (gside G (opp s))) as Hin.
  { intros x. rewrite Hperm, glevels_gset_perm, !gorders_app, gorders_level_with by done.
    rewrite elem_of_cons, !elem_of_app. tauto. }
  rewrite E, abs_side_app, abs_side_cons, Forall_app, Forall_cons in Hne.
  destruct Hne as (Hne1 & _ & Hne2). split.
  - unfold G'. rewrite gside_gset, E, !abs_side_app, abs_side_cons, remove_where_app.
    unfold abs_level at 1. rewrite remove_where_cons, abs_level_with.
    rewrite !(abs_side_ext pl pl') by done.
    rewrite (remove_where_others _ (abs_side _ l1)), (remove_where_others _ (abs_side _ l2)).
    2,4: done. 2,3: apply Hother; intros x Hx; rewrite Hin; set_solver + Hno Hx.
    do 3 f_equal. rewrite Ek, !fmap_app, fmap_cons, filter_app.
    rewrite filter_cons_False by tauto.
    rewrite !filter_others; [f_equal; apply list_fmap_ext; intros; apply Hd|..];
      intros d (x & -> & Hx)%list_elem_of_fmap Hi;
      (apply Hu in Hi; [subst x|rewrite Hin]; set_solver + Hno Hx).
  - unfold G'. rewrite gside_gset_opp by done.
    rewrite (abs_side_ext pl pl') by done.
    rewrite remove_where_others; [done|by apply (abs_nonempty pl [] G _ (opp_tradable s))|].
    apply Hother. intros x Hx. rewrite Hin. set_solver + Hno Hx.
Qed.

(** The view after the data of one order changed in place. *)
Lemma abs_update pl pl' l o (P : D → Prop) `{∀ d, Decision (P d)} f :
  (∀ x, x ∈ gorders l → odata pl' x = if decide (o = x) then f (odata pl o) else odata pl x) →
  (∀ x, x ∈ gorders l → P (odata pl x) ↔ x = o) →
  abs_side pl' l = update_where P f (abs_side pl l).
Proof.
  intros Hd HP. unfold abs_side, update_where. rewrite <-list_fmap_compose.
  apply list_fmap_ext. intros i g Hg. unfold abs_level. simpl. f_equal.
  rewrite <-list_fmap_compose. apply list_fmap_ext. intros j x Hx.
  assert (x ∈ gorders l) as Hin.
  { apply elem_of_gorders. exists g. split; by eapply list_elem_of_lookup_2. }
  simpl. rewrite (Hd x Hin). specialize (HP x Hin).
  destruct (decide (o = x)) as [<-|Hne]; [by rewrite decide_True by by apply HP|].
  rewrite decide_False; [done|]. intros Hx'. by apply HP in Hx'.
Qed.

(** The levels of a side are sorted, and their orders carry their side and price. *)
Lemma abs_level_ok pl extra G s :
  tradable s → book_rep pl extra G →
  Forall (λ pd, Forall (λ d, d_price d = pd.1 ∧ d_side d = s) pd.2)
    (abs_side pl (gside G s)) ∧
  StronglySorted (better s) (abs_side pl (gside G s)).*1.
Proof.
  intros Hs Hrep. destruct (br_side _ _ _ Hrep s Hs) as (_ & _ & Hsort & Hsd).
  rewrite prices_abs. split; [|done]. apply Forall_fmap, Forall_forall. intros g Hg.
  apply Forall_fmap. pose proof (br_levels _ _ _ Hrep) as Hl.
  rewrite Forall_forall in Hl, Hsd.
  destruct (Hl g (gside_elem _ _ _ Hs Hg)) as (_ & _ & _ & _ & _ & Hok).
  eapply Forall_impl; [exact Hok|]. intros x [Hx1 Hx2]. rewrite (Hsd g Hg) in Hx1. done.
Qed.

(** An order is put into the book: [o] is new, and the side has it where it belongs. *)
Record stored pl pl' G s d o G' : Prop := {
  so_rep : book_rep pl' [] G';
  so_new : o ∉ gorders (glevels G);
  so_data : odata pl' o = d;
  so_others : ∀ x, x ∈ gorders (glevels G) → odata pl' x = odata pl x;
  so_perm : gorders (glevels G') ≡ₚ o :: gorders (glevels G);
  so_side : abs_side pl' (gside G' s) = insert_order s d (abs_side pl (gside G s));
  so_opp : abs_side pl' (gside G' (opp s)) = abs_side pl (gside G (opp s))
}.

Lemma store_order pl G t d s :
  o_data t = d → tradable s → d_side d = s → book_rep pl [] G →
  (∀ g, g ∈ glevels G → priceToIndex (g_price g) = priceToIndex (d_price d) →
        g_price g = d_price d ∧ g_side g = s) →
  Z.of_nat (length (gorders (glevels G))) + 2 ≤ ME_MAX_ORDER_IDS →
  Z.of_nat (length (glevels G)) + 2 ≤ ME_MAX_PRICE_LEVELS →
  ∃ o pl1 pl' G', allocOrder pl t = Ok (o, pl1) ∧ linkOrder pl1 o = Ok pl' ∧
    stored pl pl' G s d o G'.
Proof.
  intros Ht Hs Hds Hrep Hidx Hcap Hlcap.
  destruct (allocOrder_spec _ _ t Hrep Hcap) as (o & pl1 & Hal & Hrep1 & Hno & Ho & Hd1).
  assert (odata pl1 o = d) as Hod by (unfold odata; by rewrite Ho).
  destruct (linkOrder_spec pl1 G s o (d_price d)) as (np & pl2 & Hli & Hrep2 & Hd2);
    try done; [by rewrite Hod..|].
  assert (∀ x, x ∈ gorders (glevels G) → odata pl2 x = odata pl x) as Hd.
  { intros x Hx. rewrite Hd2. unfold odata. rewrite Hd1; [done|]. by intros ->. }
  assert (∀ s', tradable s' → ∀ x, x ∈ gorders (gside G s') → odata pl2 x = odata pl x) as Hin.
  { intros s' Hs' x Hx. apply Hd. rewrite (glevels_perm G s' Hs'), gorders_app. set_solver + Hx. }
  exists o, pl1, pl2. eexists. split; [done|]. split; [done|]. split; [exact Hrep2|done| |done|..].
  - by rewrite Hd2.
  - rewrite glevels_gset_perm by done. rewrite gorders_app, gorders_ghost_insert.
    by rewrite (glevels_perm G s Hs), gorders_app.
  - rewrite gside_gset. apply abs_ghost_insert; [by rewrite Hd2|]. by apply Hin.
  - rewrite gside_gset_opp by done. apply abs_side_ext, Hin, opp_tradable.
Qed.
End Abs.
