(* ===== verification/MEOrderBook.v ===== *)
(** * MEOrderBook: the exchange's limit order book

    [exchange/matcher/me_order.h], [me_order_book.h] and [me_order_book.cpp].  The
    book talks to its matching engine through [sendClientResponse] and
    [sendMarketUpdate]; here it appends to [out], the sequence of those calls, which
    [MatchingEngine] then performs on the queues.  The members [client_response_]
    and [market_update_] are scratch space for those calls and are local here. *)
From S2P Require Import Prelude Types MemPool Ring PriceLevels.

(** ** Data *)

(** [struct MEOrder]. *)
Record MEOrder := mkMEOrder {
  me_ticker_id : TickerId;
  me_client_id : ClientId;
  me_client_order_id : OrderId;
  me_market_order_id : OrderId;
  me_side : Side.t;
  me_price : Price;
  me_qty : Qty;
  me_priority : Priority;
  me_prev_order : option ptr;
  me_next_order : option ptr
}.

Definition MEOrder_default : MEOrder :=
  mkMEOrder TickerId_INVALID ClientId_INVALID OrderId_INVALID OrderId_INVALID
    Side.INVALID Price_INVALID Qty_INVALID Priority_INVALID None None.

(** An order without its links. *)
Record OrderInfo := mkOrderInfo {
  oi_ticker_id : TickerId;
  oi_client_id : ClientId;
  oi_client_order_id : OrderId;
  oi_market_order_id : OrderId;
  oi_side : Side.t;
  oi_price : Price;
  oi_qty : Qty;
  oi_priority : Priority
}.

#[export] Instance OrderInfo_eq_dec : EqDecision OrderInfo.
Proof. solve_decision. Defined.

Definition me_info (o : MEOrder) : OrderInfo :=
  mkOrderInfo (me_ticker_id o) (me_client_id o) (me_client_order_id o)
    (me_market_order_id o) (me_side o) (me_price o) (me_qty o) (me_priority o).

Definition oi_set_qty (q : Qty) (d : OrderInfo) : OrderInfo :=
  mkOrderInfo (oi_ticker_id d) (oi_client_id d) (oi_client_order_id d)
    (oi_market_order_id d) (oi_side d) (oi_price d) q (oi_priority d).

Definition me_set_prev (p : option ptr) (o : MEOrder) : MEOrder :=
  mkMEOrder (me_ticker_id o) (me_client_id o) (me_client_order_id o)
    (me_market_order_id o) (me_side o) (me_price o) (me_qty o) (me_priority o)
    p (me_next_order o).
Definition me_set_next (p : option ptr) (o : MEOrder) : MEOrder :=
  mkMEOrder (me_ticker_id o) (me_client_id o) (me_client_order_id o)
    (me_market_order_id o) (me_side o) (me_price o) (me_qty o) (me_priority o)
    (me_prev_order o) p.
Definition me_set_qty (q : Qty) (o : MEOrder) : MEOrder :=
  mkMEOrder (me_ticker_id o) (me_client_id o) (me_client_order_id o)
    (me_market_order_id o) (me_side o) (me_price o) q (me_priority o)
    (me_prev_order o) (me_next_order o).

#[export] Instance OrderInfo_data : OrderData OrderInfo :=
  {| d_side := oi_side; d_price := oi_price |}.
#[export, refine] Instance MEOrder_node : OrderNode MEOrder OrderInfo :=
  {| o_data := me_info; o_prev := me_prev_order; o_next := me_next_order;
     set_prev := me_set_prev; set_next := me_set_next |}.
Proof. all: done. Defined.

(** The calls a book makes on its matching engine, in order. *)
Inductive Event :=
  | SendResponse (r : MEClientResponse)
  | SendUpdate (u : MEMarketUpdate).

#[export] Instance Event_eq_dec : EqDecision Event.
Proof. solve_decision. Defined.

(** [class MEOrderBook]. *)
Record MEOrderBook := mkMEOrderBook {
  ob_ticker_id : TickerId;
  cid_oid_to_order_ : arr (arr (option ptr));
  ob_levels : PriceLevels MEOrder;
  next_market_order_id_ : OrderId
}.

(** The constructor.  The two hash maps have no initialiser in the source; here
    they start out null (see the findings). *)
Definition MEOrderBook_new (ticker_id : TickerId) : MEOrderBook :=
  mkMEOrderBook ticker_id
    (arr_new ME_MAX_NUM_CLIENTS (arr_new ME_MAX_ORDER_IDS None))
    (PriceLevels_new MEOrder_default) 1.

Definition with_levels (bk : MEOrderBook) (pl : PriceLevels MEOrder) : MEOrderBook :=
  mkMEOrderBook (ob_ticker_id bk) (cid_oid_to_order_ bk) pl (next_market_order_id_ bk).
Definition with_cid (bk : MEOrderBook) (m : arr (arr (option ptr))) : MEOrderBook :=
  mkMEOrderBook (ob_ticker_id bk) m (ob_levels bk) (next_market_order_id_ bk).
Definition with_next_id (bk : MEOrderBook) (i : OrderId) : MEOrderBook :=
  mkMEOrderBook (ob_ticker_id bk) (cid_oid_to_order_ bk) (ob_levels bk) i.

(** ** Operations *)

(** [cid_oid_to_order_.at(client_id).at(order_id)], read and written. *)
Definition cid_at (m : arr (arr (option ptr))) (c : ClientId) (i : OrderId)
  : Res (option ptr) := row ← arr_at m c; arr_at row i.
Definition cid_at_set (m : arr (arr (option ptr))) (c : ClientId) (i : OrderId)
    (p : option ptr) : Res (arr (arr (option ptr))) :=
  row ← arr_at m c; row ← arr_at_set row i p; arr_at_set m c row.

Definition generateNewMarketOrderId (bk : MEOrderBook) : OrderId * MEOrderBook :=
  let i := next_market_order_id_ bk in (i, with_next_id bk (u64 (i + 1))).

Definition getNextPriority (bk : MEOrderBook) (price : Price) : Res Priority :=
  let pl := ob_levels bk in
  orders_at_price ← getOrdersAtPrice pl price;
  match orders_at_price with
  | None => Ok 1
  | Some oap =>
      first ← deref (oap_first (lvl pl oap));
      last ← deref (me_prev_order (ord pl first));
      Ok (u64 (me_priority (ord pl last) + 1))
  end.

(** Remove and de-allocate an order from the containers. *)
Definition removeOrder (bk : MEOrderBook) (order : ptr) : Res MEOrderBook :=
  pl ← unlinkOrder (ob_levels bk) order;
  cid ← cid_at_set (cid_oid_to_order_ bk) (me_client_id (ord pl order))
          (me_client_order_id (ord pl order)) None;
  pl ← deallocOrder pl order;
  Ok (with_cid (with_levels bk pl) cid).

(** Add an order at the end of the queue of its price. *)
Definition addOrder (bk : MEOrderBook) (order : ptr) : Res MEOrderBook :=
  pl ← linkOrder (ob_levels bk) order;
  cid ← cid_at_set (cid_oid_to_order_ bk) (me_client_id (ord pl order))
          (me_client_order_id (ord pl order)) (Some order);
  Ok (with_cid (with_levels bk pl) cid).

(** Match an aggressive order against the passive order [itr]. *)
Definition match_ (bk : MEOrderBook) (out : list Event) (ticker_id : TickerId)
    (client_id : ClientId) (side : Side.t) (client_order_id new_market_order_id : OrderId)
    (itr : ptr) (leaves_qty : Qty) : Res (MEOrderBook * list Event * Qty) :=
  let order_qty := me_qty (ord (ob_levels bk) itr) in
  let fill_qty := Z.min leaves_qty order_qty in
  let leaves_qty := u32 (leaves_qty - fill_qty) in
  let bk := with_levels bk
    (ord_upd (ob_levels bk) itr (λ o, me_set_qty (u32 (me_qty o - fill_qty)) o)) in
  let order := ord (ob_levels bk) itr in
  let out := out ++ [SendResponse (mkMEClientResponse ClientResponseType.FILLED client_id
    ticker_id client_order_id new_market_order_id side (me_price order) fill_qty
    leaves_qty)] in
  let out := out ++ [SendResponse (mkMEClientResponse ClientResponseType.FILLED
    (me_client_id order) ticker_id (me_client_order_id order) (me_market_order_id order)
    (me_side order) (me_price order) fill_qty (me_qty order))] in
  let out := out ++ [SendUpdate (mkMEMarketUpdate MarketUpdateType.TRADE OrderId_INVALID
    ticker_id side (me_price order) fill_qty Priority_INVALID)] in
  if me_qty order =? 0 then
    let out := out ++ [SendUpdate (mkMEMarketUpdate MarketUpdateType.CANCEL
      (me_market_order_id order) ticker_id (me_side order) (me_price order) order_qty
      Priority_INVALID)] in
    bk ← removeOrder bk itr;
    Ok (bk, out, leaves_qty)
  else
    let out := out ++ [SendUpdate (mkMEMarketUpdate MarketUpdateType.MODIFY
      (me_market_order_id order) ticker_id (me_side order) (me_price order) (me_qty order)
      (me_priority order))] in
    Ok (bk, out, leaves_qty).

(** One turn of the two [while] loops of [checkForMatch]: [best] is the head of the
    opposite side, and the loop is left when the price does not cross it. *)
Definition checkForMatch_step (client_id : ClientId) (client_order_id : OrderId)
    (ticker_id : TickerId) (side : Side.t) (price : Price) (new_market_order_id : OrderId)
    (best : PriceLevels MEOrder → option ptr) (beyond : Price → bool)
    (st : MEOrderBook * list Event * Qty)
  : Res ((MEOrderBook * list Event * Qty) + (MEOrderBook * list Event * Qty)) :=
  let '(bk, out, leaves_qty) := st in
  if leaves_qty =? 0 then Ok (inr st)
  else
    match best (ob_levels bk) with
    | None => Ok (inr st)
    | Some lp =>
        itr ← deref (oap_first (lvl (ob_levels bk) lp));
        if beyond (me_price (ord (ob_levels bk) itr)) then Ok (inr st)
        else
          st ← match_ bk out ticker_id client_id side client_order_id new_market_order_id
                 itr leaves_qty;
          Ok (inl st)
    end.

(** The last parameter is declared [Qty], so the 64-bit id is truncated to 32 bits. *)
Definition checkForMatch (bk : MEOrderBook) (out : list Event) (client_id : ClientId)
    (client_order_id : OrderId) (ticker_id : TickerId) (side : Side.t) (price : Price)
    (qty : Qty) (new_market_order_id : OrderId) : Res (MEOrderBook * list Event * Qty) :=
  let new_market_order_id := u32 new_market_order_id in
  let fuel := Z.to_pos (ME_MAX_ORDER_IDS + 2) in
  st ← (if bool_decide (side = Side.BUY) then
          loop (checkForMatch_step client_id client_order_id ticker_id side price
                  new_market_order_id asks_by_price_ (λ p, price <? p))
               fuel (bk, out, qty)
        else Ok (bk, out, qty));
  if bool_decide (side = Side.SELL) then
    loop (checkForMatch_step client_id client_order_id ticker_id side price
            new_market_order_id bids_by_price_ (λ p, price >? p)) fuel st
  else Ok st.

(** Create and add a new order, after matching it with the opposite side. *)
Definition add (bk : MEOrderBook) (out : list Event) (client_id : ClientId)
    (client_order_id : OrderId) (ticker_id : TickerId) (side : Side.t) (price : Price)
    (qty : Qty) : Res (MEOrderBook * list Event) :=
  let '(new_market_order_id, bk) := generateNewMarketOrderId bk in
  let out := out ++ [SendResponse (mkMEClientResponse ClientResponseType.ACCEPTED client_id
    ticker_id client_order_id new_market_order_id side price 0 qty)] in
  '(bk, out, leaves_qty) ← checkForMatch bk out client_id client_order_id ticker_id side
                             price qty new_market_order_id;
  if negb (leaves_qty =? 0) then
    priority ← getNextPriority bk price;
    '(order, pl) ← allocOrder (ob_levels bk)
      (mkMEOrder ticker_id client_id client_order_id new_market_order_id side price
         leaves_qty priority None None);
    bk ← addOrder (with_levels bk pl) order;
    Ok (bk, out ++ [SendUpdate (mkMEMarketUpdate MarketUpdateType.ADD new_market_order_id
                     ticker_id side price leaves_qty priority)])
  else Ok (bk, out).

(** Cancel an order, or reject the cancel when there is no such order. *)
Definition cancel (bk : MEOrderBook) (out : list Event) (client_id : ClientId)
    (order_id : OrderId) (ticker_id : TickerId) : Res (MEOrderBook * list Event) :=
  exchange_order ← (if client_id <? arr_len (cid_oid_to_order_ bk)
                    then cid_at (cid_oid_to_order_ bk) client_id order_id
                    else Ok None);
  match exchange_order with
  | None =>
      Ok (bk, out ++ [SendResponse (mkMEClientResponse ClientResponseType.CANCEL_REJECTED
        client_id ticker_id order_id OrderId_INVALID Side.INVALID Price_INVALID
        Qty_INVALID Qty_INVALID)])
  | Some p =>
      let order := ord (ob_levels bk) p in
      let response := mkMEClientResponse ClientResponseType.CANCELED client_id ticker_id
        order_id (me_market_order_id order) (me_side order) (me_price order) Qty_INVALID
        (me_qty order) in
      let update := mkMEMarketUpdate MarketUpdateType.CANCEL (me_market_order_id order)
        ticker_id (me_side order) (me_price order) 0 (me_priority order) in
      bk ← removeOrder bk p;
      Ok (bk, out ++ [SendUpdate update; SendResponse response])
  end.
