(* ===== verification/BookSpec.v ===== *)
(** * BookSpec: what an order book is, without pointers

    A side is a list of price levels, most aggressive first, each with its orders in
    FIFO order.  [spec_add] and [spec_cancel] say what the exchange's book does to
    such a book and which messages it sends; [MEBookRefine] proves that the pointer
    program does this.  The orders of a level are matched by structural recursion:
    there is no loop and no fuel here. *)
From S2P Require Import Prelude Types MemPool PriceLevels BookInv LevelsAbs MEOrderBook.

Record SpecBook := mkSpecBook {
  sb_bids : side_levels OrderInfo;
  sb_asks : side_levels OrderInfo;
  sb_next_id : OrderId
}.

Definition sb_side (a : SpecBook) (s : Side.t) : side_levels OrderInfo :=
  if bool_decide (s = Side.BUY) then sb_bids a else sb_asks a.
Definition sb_set (a : SpecBook) (s : Side.t) (l : side_levels OrderInfo) : SpecBook :=
  if bool_decide (s = Side.BUY) then mkSpecBook l (sb_asks a) (sb_next_id a)
  else mkSpecBook (sb_bids a) l (sb_next_id a).
Definition sb_levels (a : SpecBook) : side_levels OrderInfo := sb_bids a ++ sb_asks a.
Definition sb_orders (a : SpecBook) : list OrderInfo := level_orders (sb_levels a).
Definition SpecBook_new : SpecBook := mkSpecBook [] [] 1.

(** ** Matching *)

(** An incoming order on [side] at [price] trades with resting orders at [p]. *)
Definition crosses (side : Side.t) (price p : Price) : bool :=
  match side with
  | Side.BUY => p <=? price
  | Side.SELL => price <=? p
  | _ => false
  end.

Section Match.
Context (client_id : ClientId) (client_order_id : OrderId) (ticker_id : TickerId).
Context (side : Side.t) (price : Price) (market_order_id : OrderId).

(** The messages of one execution of [fill] units against the resting order [d],
    which keeps [rest] units; the incoming order keeps [leaves]. *)
Definition fill_events (d : OrderInfo) (fill rest leaves : Qty) : list Event :=
  [ SendResponse (mkMEClientResponse ClientResponseType.FILLED client_id ticker_id
      client_order_id market_order_id side (oi_price d) fill leaves);
    SendResponse (mkMEClientResponse ClientResponseType.FILLED (oi_client_id d) ticker_id
      (oi_client_order_id d) (oi_market_order_id d) (oi_side d) (oi_price d) fill rest);
    SendUpdate (mkMEMarketUpdate MarketUpdateType.TRADE OrderId_INVALID ticker_id side
      (oi_price d) fill Priority_INVALID);
    SendUpdate
      (if rest =? 0
       then mkMEMarketUpdate MarketUpdateType.CANCEL (oi_market_order_id d) ticker_id
              (oi_side d) (oi_price d) (oi_qty d) Priority_INVALID
       else mkMEMarketUpdate MarketUpdateType.MODIFY (oi_market_order_id d) ticker_id
              (oi_side d) (oi_price d) rest (oi_priority d)) ].

Fixpoint match_level (ds : list OrderInfo) (leaves : Qty)
  : list OrderInfo * Qty * list Event :=
  match ds with
  | [] => ([], leaves, [])
  | d :: ds' =>
      if leaves =? 0 then (ds, 0, [])
      else if oi_qty d <=? leaves then
        let '(rest, leaves', ev) := match_level ds' (leaves - oi_qty d) in
        (rest, leaves', fill_events d (oi_qty d) 0 (leaves - oi_qty d) ++ ev)
      else
        (oi_set_qty (oi_qty d - leaves) d :: ds', 0,
         fill_events d leaves (oi_qty d - leaves) 0)
  end.

Fixpoint match_side (l : side_levels OrderInfo) (leaves : Qty)
  : side_levels OrderInfo * Qty * list Event :=
  match l with
  | [] => ([], leaves, [])
  | (p, ds) :: l' =>
      if (leaves =? 0) || negb (crosses side price p) then (l, leaves, [])
      else
        match match_level ds leaves with
        | ([], leaves1, ev) =>
            let '(l'', leaves2, ev') := match_side l' leaves1 in (l'', leaves2, ev ++ ev')
        | (ds1, leaves1, ev) => ((p, ds1) :: l', leaves1, ev)
        end
  end.
End Match.

(** ** Adding and cancelling *)

(** One more than the priority of the last order at [price], or 1. *)
Definition next_priority (price : Price) (l : side_levels OrderInfo) : Priority :=
  match list_find (λ pd, pd.1 = price) l with
  | Some (_, (_, ds)) =>
      match last ds with Some d => u64 (oi_priority d + 1) | None => 1 end
  | None => 1
  end.

Definition spec_add (a : SpecBook) (client_id : ClientId) (client_order_id : OrderId)
    (ticker_id : TickerId) (side : Side.t) (price : Price) (qty : Qty)
  : SpecBook * list Event :=
  let moid := sb_next_id a in
  let accepted := SendResponse (mkMEClientResponse ClientResponseType.ACCEPTED client_id
    ticker_id client_order_id moid side price 0 qty) in
  let '(other, leaves, ev) := match_side client_id client_order_id ticker_id side price
    (u32 moid) (sb_side a (opp side)) qty in
  let a1 := sb_set a (opp side) other in
  let a1 := mkSpecBook (sb_bids a1) (sb_asks a1) (u64 (moid + 1)) in
  if leaves =? 0 then (a1, accepted :: ev)
  else
    let prio := next_priority price (sb_side a1 side) in
    (sb_set a1 side (insert_order side (mkOrderInfo ticker_id client_id client_order_id moid
       side price leaves prio) (sb_side a1 side)),
     accepted :: ev ++ [SendUpdate (mkMEMarketUpdate MarketUpdateType.ADD moid ticker_id
       side price leaves prio)]).

(** The live order of a client under its own order id. *)
Definition is_order (client_id : ClientId) (order_id : OrderId) (d : OrderInfo) : Prop :=
  oi_client_id d = client_id ∧ oi_client_order_id d = order_id.
#[export] Instance is_order_dec c i d : Decision (is_order c i d).
Proof. unfold is_order. apply _. Defined.

Definition find_order (a : SpecBook) (client_id : ClientId) (order_id : OrderId)
  : option OrderInfo := snd <$> list_find (is_order client_id order_id) (sb_orders a).

Definition remove_from (client_id : ClientId) (order_id : OrderId)
    (l : side_levels OrderInfo) : side_levels OrderInfo :=
  remove_where (is_order client_id order_id) l.

Definition spec_cancel (a : SpecBook) (client_id : ClientId) (order_id : OrderId)
    (ticker_id : TickerId) : SpecBook * list Event :=
  match find_order a client_id order_id with
  | None =>
      (a, [SendResponse (mkMEClientResponse ClientResponseType.CANCEL_REJECTED client_id
             ticker_id order_id OrderId_INVALID Side.INVALID Price_INVALID Qty_INVALID
             Qty_INVALID)])
  | Some d =>
      (mkSpecBook (remove_from client_id order_id (sb_bids a))
         (remove_from client_id order_id (sb_asks a)) (sb_next_id a),
       [SendUpdate (mkMEMarketUpdate MarketUpdateType.CANCEL (oi_market_order_id d) ticker_id
          (oi_side d) (oi_price d) 0 (oi_priority d));
        SendResponse (mkMEClientResponse ClientResponseType.CANCELED client_id ticker_id
          order_id (oi_market_order_id d) (oi_side d) (oi_price d) Qty_INVALID (oi_qty d))])
  end.
