(* ===== verification/BookMatch.v ===== *)
(** * BookMatch: facts about the matching of the reference book

    One-order unfoldings of [match_side], what it leaves behind, and what it trades. *)
From S2P Require Import Prelude Types PriceLevels BookInv LevelsAbs MEOrderBook BookSpec.

Definition order_key (d : OrderInfo) : ClientId * OrderId :=
  (oi_client_id d, oi_client_order_id d).
Definition total_qty (ds : list OrderInfo) : Z := sumZ (oi_qty <$> ds).

Lemma total_qty_cons d ds : total_qty (d :: ds) = oi_qty d + total_qty ds.
Proof. done. Qed.
Lemma total_qty_app k ds : total_qty (k ++ ds) = total_qty k + total_qty ds.
Proof. unfold total_qty. by rewrite fmap_app, sumZ_app. Qed.
#[export] Instance total_qty_perm : Proper ((≡ₚ) ==> (=)) total_qty.
Proof. intros k l H. unfold total_qty. by rewrite H. Qed.
Section Match.
Context (client_id : ClientId) (client_order_id : OrderId) (ticker_id : TickerId).
Context (side : Side.t) (price : Price) (market_order_id : OrderId).
Implicit Types (l : list (Price * list OrderInfo)) (ds : list OrderInfo) (lv : Qty).

Abbreviation mlevel := (match_level client_id client_order_id ticker_id side market_order_id).
Abbreviation mside := (match_side client_id client_order_id ticker_id side price market_order_id).
Abbreviation fevents := (fill_events client_id client_order_id ticker_id side market_order_id).

Lemma match_side_stop l lv :
  lv = 0 ∨ (∀ p ds l', l = (p, ds) :: l' → crosses side price p = false) →
  mside l lv = (l, lv, []).
Proof.
  intros H. destruct l as [|[p ds] l]; [done|]. simpl.
  destruct H as [->|H]; [done|]. by rewrite (H _ _ _ eq_refl), orb_true_r.
Qed.

(** The first resting order is filled completely. *)
Lemma match_side_full p d ds l lv :
  lv ≠ 0 → crosses side price p = true → oi_qty d ≤ lv →
  mside ((p, d :: ds) :: l) lv =
  let '(l', lv', ev) := mside (some_level p ds ++ l) (lv - oi_qty d) in
  (l', lv', fevents d (oi_qty d) 0 (lv - oi_qty d) ++ ev).
Proof.
  intros H0 Hc Hq. simpl. rewrite Hc, orb_false_r.
  rewrite (proj2 (Z.eqb_neq lv 0)) by done. rewrite (proj2 (Z.leb_le _ _)) by done.
  destruct ds as [|d2 ds]; simpl.
  - by destruct (mside l (lv - oi_qty d)) as [[l' lv'] ev].
  - rewrite Hc, orb_false_r. destruct (lv - oi_qty d =? 0) eqn:E0.
    { apply Z.eqb_eq in E0. by rewrite E0. }
    destruct (oi_qty d2 <=? lv - oi_qty d).
    + destruct (mlevel ds _) as [[[|d3 rest] lv'] ev]; simpl.
      * by destruct (mside l lv') as [[l' lv''] ev'].
      * done.
    + done.
Qed.

(** The first resting order is filled partially. *)
Lemma match_side_part p d ds l lv :
  lv ≠ 0 → crosses side price p = true → lv < oi_qty d →
  mside ((p, d :: ds) :: l) lv =
  ((p, oi_set_qty (oi_qty d - lv) d :: ds) :: l, 0, fevents d lv (oi_qty d - lv) 0).
Proof.
  intros H0 Hc Hq. simpl. rewrite Hc, orb_false_r.
  rewrite (proj2 (Z.eqb_neq lv 0)) by done. by rewrite (proj2 (Z.leb_gt _ _)) by done.
Qed.

(** An induction principle for matching, one resting order at a time. *)
Lemma match_side_ind (P : list (Price * list OrderInfo) → Qty →
    list (Price * list OrderInfo) → Qty → list Event → Prop) :
  (∀ l lv, lv = 0 ∨ (∀ p ds l', l = (p, ds) :: l' → crosses side price p = false) →
     P l lv l lv []) →
  (∀ p d ds l lv l' lv' ev, lv ≠ 0 → crosses side price p = true → oi_qty d ≤ lv →
     mside (some_level p ds ++ l) (lv - oi_qty d) = (l', lv', ev) →
     P (some_level p ds ++ l) (lv - oi_qty d) l' lv' ev →
     P ((p, d :: ds) :: l) lv l' lv' (fevents d (oi_qty d) 0 (lv - oi_qty d) ++ ev)) →
  (∀ p d ds l lv, lv ≠ 0 → crosses side price p = true → lv < oi_qty d →
     P ((p, d :: ds) :: l) lv ((p, oi_set_qty (oi_qty d - lv) d :: ds) :: l) 0
       (fevents d lv (oi_qty d - lv) 0)) →
  ∀ l lv l' lv' ev, Forall (λ pd, pd.2 ≠ []) l → mside l lv = (l', lv', ev) →
    P l lv l' lv' ev.
Proof.
  intros Hstop Hfull Hpart l lv.
  remember (length (level_orders l)) as n eqn:En. revert l lv En.
  induction n as [n IH] using lt_wf_ind. intros l lv -> l' lv' ev Hne E.
  destruct (decide (lv = 0)) as [H0|H0].
  { rewrite match_side_stop in E by auto. simplify_eq. auto. }
  destruct l as [|[p ds] l]; [simplify_eq/=; by apply Hstop; right|].
  destruct (crosses side price p) eqn:Hc.
  2: { rewrite match_side_stop in E by (right; by intros ??? [= -> -> ->]).
       simplify_eq. apply Hstop. right. by intros ??? [= -> -> ->]. }
  apply Forall_cons in Hne as [Hds Hne].
  destruct ds as [|d ds]; [done|]. destruct (decide (oi_qty d ≤ lv)) as [Hq|Hq].
  - rewrite match_side_full in E by done.
    destruct (mside (some_level p ds ++ l) (lv - oi_qty d)) as [[l1 lv1] ev1] eqn:E1.
    simplify_eq. apply Hfull; try done. eapply IH; [|done| |done].
    + rewrite level_orders_app, level_orders_cons, level_orders_some. simpl. lia.
    + apply Forall_app. split; [|done]. destruct ds; simpl; [done|]. by constructor.
  - rewrite match_side_part in E by (done || lia). simplify_eq. apply Hpart; [done..|lia].
Qed.

(** Matching only drops orders from the front of the side; what it changes of the
    order left in front is its quantity. *)
Lemma match_side_suffix {A} (f : OrderInfo → A) l lv l' lv' ev :
  (∀ q d, f (oi_set_qty q d) = f d) →
  Forall (λ pd, pd.2 ≠ []) l → mside l lv = (l', lv', ev) →
  l'.*1 `suffix_of` l.*1 ∧ (f <$> level_orders l') `suffix_of` (f <$> level_orders l).
Proof.
  intros Hf. revert l lv l' lv' ev. apply (match_side_ind (λ l _ l' _ _,
    l'.*1 `suffix_of` l.*1 ∧ (f <$> level_orders l') `suffix_of` (f <$> level_orders l))).
  - done.
  - intros p d ds l lv l' lv' ev _ _ _ _ [H1 H2].
    rewrite level_orders_cons. rewrite level_orders_app, level_orders_some in H2. split.
    + destruct ds; simpl in *; [by apply suffix_cons_r|done].
    + by apply suffix_cons_r.
  - intros p d ds l lv _ _ _. rewrite !level_orders_cons. cbn [app]. by rewrite !fmap_cons, Hf.
Qed.

Lemma some_level_nonempty p ds l :
  Forall (λ pd, pd.2 ≠ []) l → Forall (λ pd, pd.2 ≠ []) (some_level p ds ++ l).
Proof. intros H. apply Forall_app. split; [|done]. destruct ds; by repeat constructor. Qed.

Lemma match_side_nonempty l lv l' lv' ev :
  Forall (λ pd, pd.2 ≠ []) l → mside l lv = (l', lv', ev) →
  Forall (λ pd, pd.2 ≠ []) l'.
Proof.
  intros Hne E. pose proof Hne as Hne'. revert Hne'. revert l lv l' lv' ev Hne E.
  apply (match_side_ind (λ l _ l' _ _, Forall (λ pd, pd.2 ≠ []) l →
                                       Forall (λ pd, pd.2 ≠ []) l')).
  - done.
  - intros p d ds l lv l' lv' ev _ _ _ _ IH [_ H]%Forall_cons.
    by apply IH, some_level_nonempty.
  - intros p d ds l lv _ _ _ [_ H]%Forall_cons. by constructor.
Qed.

Lemma match_side_leaves l lv l' lv' ev :
  Forall (λ pd, pd.2 ≠ []) l → mside l lv = (l', lv', ev) →
  0 ≤ lv → (∀ d, d ∈ level_orders l → 0 ≤ oi_qty d) → 0 ≤ lv' ≤ lv.
Proof.
  revert l lv l' lv' ev.
  apply (match_side_ind (λ l lv _ lv' _, 0 ≤ lv →
    (∀ d, d ∈ level_orders l → 0 ≤ oi_qty d) → 0 ≤ lv' ≤ lv)).
  - intros; lia.
  - intros p d ds l lv l' lv' ev _ _ Hq _ IH H0 Hd.
    rewrite level_orders_cons in Hd. pose proof (Hd d ltac:(by left)).
    destruct IH; [lia| |lia]. intros x Hx. apply Hd. right.
    by rewrite level_orders_app, level_orders_some in Hx.
  - intros; lia.
Qed.

(** What is left of the incoming order meets a side that it does not cross. *)
Lemma match_side_head l lv l' lv' ev :
  Forall (λ pd, pd.2 ≠ []) l → mside l lv = (l', lv', ev) → lv' ≠ 0 →
  ∀ p ds k, l' = (p, ds) :: k → crosses side price p = false.
Proof.
  revert l lv l' lv' ev.
  apply (match_side_ind (λ _ _ l' lv' _, lv' ≠ 0 →
    ∀ p ds k, l' = (p, ds) :: k → crosses side price p = false)).
  - intros l lv [->|H] Hne; [done|]. naive_solver.
  - auto.
  - done.
Qed.
End Match.
