(* ===== verification/MEBookRefine.v ===== *)
(** * MEBookRefine: the pointer book refines the reference book

    [me_rep bk G]: the book [bk] is well formed and holds the ghost book [G].
    [refines bk a]: it holds the reference book [a].  The operations of
    [MEOrderBook] take [refines] to [refines] with exactly the messages of
    [BookSpec], for every request that [valid_new] admits. *)
From S2P Require Import Prelude Types MemPool Ring PriceLevels BookInv PriceLevelsSpec.
From S2P Require Import LevelListSpec LinkSpec StoreSpec LevelsAbs MEOrderBook BookSpec BookMatch.

Definition cid_get (bk : MEOrderBook) (c : ClientId) (i : OrderId) : option ptr :=
  arr_get (arr_get (cid_oid_to_order_ bk) c) i.

#[local] Arguments odata : simpl never.
Abbreviation data bk := (odata (ob_levels bk)).

Definition client_ok (c : ClientId) : Prop := 0 ≤ c < ME_MAX_NUM_CLIENTS.
Definition oid_ok (i : OrderId) : Prop := 0 ≤ i < ME_MAX_ORDER_IDS.
Definition info_ok (d : OrderInfo) : Prop :=
  client_ok (oi_client_id d) ∧ oid_ok (oi_client_order_id d) ∧ 0 ≤ oi_qty d < 2 ^ 32.

Record me_rep (bk : MEOrderBook) (G : ghost) : Prop := {
  mr_book : book_rep (ob_levels bk) [] G;
  mr_len : arr_len (cid_oid_to_order_ bk) = ME_MAX_NUM_CLIENTS;
  mr_row : ∀ c, client_ok c → arr_len (arr_get (cid_oid_to_order_ bk) c) = ME_MAX_ORDER_IDS;
  mr_cid : ∀ c i p, client_ok c → oid_ok i →
    cid_get bk c i = Some p ↔ p ∈ gorders (glevels G) ∧ is_order c i (data bk p);
  mr_data : ∀ p, p ∈ gorders (glevels G) → info_ok (data bk p)
}.

Record refines_by (bk : MEOrderBook) (G : ghost) (a : SpecBook) : Prop := {
  rf_rep : me_rep bk G;
  rf_bids : abs_side (ob_levels bk) (g_bids G) = sb_bids a;
  rf_asks : abs_side (ob_levels bk) (g_asks G) = sb_asks a;
  rf_next : next_market_order_id_ bk = sb_next_id a
}.
Definition refines (bk : MEOrderBook) (a : SpecBook) : Prop := ∃ G, refines_by bk G a.

(** ** The order-id map *)
Section Cid.
Implicit Types (m : arr (arr (option ptr))) (c : ClientId) (i : OrderId).

Definition cid_wf m : Prop :=
  arr_len m = ME_MAX_NUM_CLIENTS ∧
  ∀ c, client_ok c → arr_len (arr_get m c) = ME_MAX_ORDER_IDS.

Lemma cid_at_Ok m c i :
  cid_wf m → client_ok c → oid_ok i → cid_at m c i = Ok (arr_get (arr_get m c) i).
Proof.
  intros [Hl Hr] Hc Hi. unfold cid_at. rewrite arr_at_Ok by by rewrite Hl. simpl.
  rewrite arr_at_Ok; [done|]. by rewrite Hr.
Qed.

Lemma cid_at_set_Ok m c i v :
  cid_wf m → client_ok c → oid_ok i →
  ∃ m', cid_at_set m c i v = Ok m' ∧ cid_wf m' ∧
    (∀ c' i', arr_get (arr_get m' c') i' =
              if decide (c = c' ∧ i = i') then v else arr_get (arr_get m c') i').
Proof.
  intros [Hl Hr] Hc Hi. unfold cid_at_set. rewrite arr_at_Ok by by rewrite Hl. simpl.
  rewrite arr_at_set_Ok by by rewrite Hr. simpl.
  rewrite arr_at_set_Ok by by rewrite Hl. eexists; split; [done|]. split.
  - split; [done|]. intros c' Hc'. rewrite arr_get_set. case_decide; [|by apply Hr].
    simpl. by apply Hr.
  - intros c' i'. rewrite arr_get_set. destruct (decide (c = c')) as [<-|Hne].
    + rewrite arr_get_set. repeat case_decide; naive_solver.
    + rewrite decide_False by naive_solver. done.
Qed.
End Cid.

Lemma mr_wf bk G : me_rep bk G → cid_wf (cid_oid_to_order_ bk).
Proof. intros []. by split. Qed.

Lemma mr_nodup bk G : me_rep bk G → NoDup (gorders (glevels G)).
Proof. intros Hr. by destruct (br_opool _ _ _ (mr_book _ _ Hr)) as (_ & ? & _). Qed.

(** ** [removeOrder] *)
Lemma removeOrder_spec bk G s l1 g l2 k1 o k2 :
  tradable s → me_rep bk G → gside G s = l1 ++ g :: l2 → g_orders g = k1 ++ o :: k2 →
  ∃ bk', removeOrder bk o = Ok bk' ∧
    me_rep bk' (gset G s (l1 ++ level_with g (k1 ++ k2) ++ l2)) ∧
    (∀ x, data bk' x = data bk x) ∧
    next_market_order_id_ bk' = next_market_order_id_ bk.
Proof.
  intros Hs Hrep E Ek. pose proof (gorders_remove _ _ _ _ _ _ _ _ Hs E Ek) as Hperm.
  pose proof (mr_nodup _ _ Hrep) as Hnd. rewrite Hperm in Hnd.
  apply NoDup_cons in Hnd as [Hno _].
  destruct (unlinkOrder_spec _ _ _ _ _ _ _ _ _ Hs (mr_book _ _ Hrep) E Ek)
    as (pl1 & Hun & Hrep1 & Hd1).
  destruct (deallocOrder_spec _ _ _ Hrep1) as (pl2 & Hde & Hrep2 & Hd2).
  assert (o ∈ gorders (glevels G)) as Hoin by (rewrite Hperm; by left).
  destruct (mr_data _ _ Hrep o Hoin) as (Hc & Hi & _).
  set (d := data bk o) in *.
  destruct (cid_at_set_Ok _ _ _ None (mr_wf _ _ Hrep) Hc Hi) as (m & Hm & Hwf & Hget).
  assert (∀ x, odata pl2 x = data bk x) as Hd.
  { intros x. unfold odata. rewrite Hd2. apply Hd1. }
  exists (with_cid (with_levels bk pl2) m). split; [|split; [|done]].
  - unfold removeOrder. rewrite Hun. simpl.
    change (me_client_id (ord pl1 o)) with (oi_client_id (odata pl1 o)).
    change (me_client_order_id (ord pl1 o)) with (oi_client_order_id (odata pl1 o)).
    rewrite Hd1. fold d. rewrite Hm. simpl. by rewrite Hde.
  - split; [exact Hrep2|apply Hwf|apply Hwf| |].
    + intros c i p Hc' Hi'. unfold cid_get. cbn [cid_oid_to_order_ with_cid ob_levels with_levels].
      rewrite Hget, Hd.
      pose proof (mr_cid _ _ Hrep c i p Hc' Hi') as Hcid. unfold cid_get in Hcid.
      rewrite Hperm, elem_of_cons in Hcid.
      case_decide as Heq; [|rewrite Hcid; split; [|naive_solver]].
      * destruct Heq as [<- <-]. split; [done|]. intros [Hp Hpi].
        assert (cid_get bk (oi_client_id d) (oi_client_order_id d) = Some p) as E1.
        { apply (mr_cid _ _ Hrep); try done. rewrite Hperm. split; [by right|done]. }
        assert (cid_get bk (oi_client_id d) (oi_client_order_id d) = Some o) as E2.
        { apply (mr_cid _ _ Hrep); try done. }
        congruence.
      * intros [[->|Hp] [Hp1 Hp2]]; [|done]. by destruct Heq.
    + intros p Hp. change (info_ok (odata pl2 p)). rewrite Hd. apply (mr_data _ _ Hrep). rewrite Hperm. by right.
Qed.

(** ** [addOrder] *)
Definition storeOrder (bk : MEOrderBook) (t : MEOrder) : Res MEOrderBook :=
  '(order, pl) ← allocOrder (ob_levels bk) t; addOrder (with_levels bk pl) order.

Lemma storeOrder_spec bk G t d s :
  me_info t = d → tradable s → oi_side d = s → info_ok d → me_rep bk G →
  (∀ p, p ∈ gorders (glevels G) → order_key (data bk p) ≠ order_key d) →
  (∀ g, g ∈ glevels G → priceToIndex (g_price g) = priceToIndex (oi_price d) →
        g_price g = oi_price d ∧ g_side g = s) →
  Z.of_nat (length (gorders (glevels G))) + 2 ≤ ME_MAX_ORDER_IDS →
  Z.of_nat (length (glevels G)) + 2 ≤ ME_MAX_PRICE_LEVELS →
  ∃ bk' G', storeOrder bk t = Ok bk' ∧ me_rep bk' G' ∧
    abs_side (ob_levels bk') (gside G' s) =
      insert_order s d (abs_side (ob_levels bk) (gside G s)) ∧
    abs_side (ob_levels bk') (gside G' (opp s)) =
      abs_side (ob_levels bk) (gside G (opp s)) ∧
    next_market_order_id_ bk' = next_market_order_id_ bk.
Proof.
  intros Ht Hs Hds (Hc & Hi & Hq) Hrep Hkey Hidx Hcap Hlcap.
  destruct (store_order (ob_levels bk) G t d s)
    as (o & pl1 & pl2 & G' & Hal & Hli & [Hrep2 Hno Hod Hd Hperm Hside Hopp]);
    [done|done|done|apply (mr_book _ _ Hrep)|done..|].
  destruct (cid_at_set_Ok _ _ _ (Some o) (mr_wf _ _ Hrep) Hc Hi) as (m & Hm & Hwf & Hget).
  exists (with_cid (with_levels bk pl2) m), G'. split_and!; [| |exact Hside|exact Hopp|done].
  - unfold storeOrder, addOrder. rewrite Hal. cbn [mbind Res_bind ob_levels with_levels].
    rewrite Hli. cbn [mbind Res_bind].
    change (me_client_id (ord pl2 o)) with (oi_client_id (odata pl2 o)).
    change (me_client_order_id (ord pl2 o)) with (oi_client_order_id (odata pl2 o)).
    rewrite Hod. cbn [cid_oid_to_order_ with_levels]. by rewrite Hm.
  - split; [exact Hrep2|apply Hwf|apply Hwf| |].
    + intros c i p Hc' Hi'. unfold cid_get. cbn [cid_oid_to_order_ with_cid ob_levels with_levels].
      rewrite Hget, Hperm, elem_of_cons.
      pose proof (mr_cid _ _ Hrep c i p Hc' Hi') as Hcid. unfold cid_get in Hcid.
      destruct (decide (p = o)) as [->|Hpo].
      * rewrite Hod. case_decide as Heq.
        { destruct Heq as [<- <-]. split; [|done]. intros _. split; [by left|done]. }
        rewrite Hcid. split; [|by intros [_ []]; destruct Heq]. by intros [? _].
      * case_decide as Heq.
        { destruct Heq as [<- <-]. split; [congruence|]. intros [[->|Hp] [Hp1 Hp2]]; [done|].
          rewrite Hd in Hp1, Hp2 by done. destruct (Hkey p Hp). unfold order_key. congruence. }
        rewrite Hcid. split; intros [Hp Hp']; (split; [naive_solver|]).
        { by rewrite Hd. }
        { rewrite Hd in Hp'; [done|naive_solver]. }
    + intros p Hp. change (info_ok (odata pl2 p)). rewrite Hperm, elem_of_cons in Hp.
      destruct Hp as [->|Hp]; [by rewrite Hod|]. rewrite Hd by done. by apply (mr_data _ _ Hrep).
Qed.

(** ** [match] and [checkForMatch] *)
Lemma set_qty_spec bk G o f q :
  me_rep bk G → f (ord (ob_levels bk) o) = q → 0 ≤ q < 2 ^ 32 →
  let bk' := with_levels bk (ord_upd (ob_levels bk) o (λ t, me_set_qty (f t) t)) in
  me_rep bk' G ∧
  (∀ x, data bk' x = if decide (o = x) then oi_set_qty q (data bk o) else data bk x).
Proof.
  intros Hrep Hf Hq bk'.
  assert (∀ x, data bk' x = if decide (o = x) then oi_set_qty q (data bk o) else data bk x)
    as Hd.
  { intros x. unfold bk', odata. cbn [ob_levels with_levels]. autorewrite with trading.
    case_decide; [|done]. by rewrite Hf. }
  split; [|done]. split.
  - apply ord_upd_rep; [apply (mr_book _ _ Hrep)|done..].
  - apply (mr_len _ _ Hrep).
  - apply (mr_row _ _ Hrep).
  - intros c i p Hc Hi. rewrite Hd.
    change (cid_get bk' c i) with (cid_get bk c i).
    rewrite (mr_cid _ _ Hrep c i p Hc Hi). case_decide; [subst|]; done.
  - intros p Hp. rewrite Hd. pose proof (mr_data _ _ Hrep p Hp) as (Hc & Hi & Hpq).
    case_decide; [subst; by unfold info_ok|by unfold info_ok].
Qed.

Lemma info_qty_range bk G p :
  me_rep bk G → p ∈ gorders (glevels G) → 0 ≤ oi_qty (data bk p) < 2 ^ 32.
Proof. intros Hrep Hp. by destruct (mr_data _ _ Hrep p Hp) as (_ & _ & ?). Qed.

(** One execution against the first order [o] of the most aggressive level [g] of the
    side opposite to the incoming order. *)
Lemma match_spec bk G out tid cid s coid moid g l o k lv :
  tradable s → me_rep bk G → gside G (opp s) = g :: l → g_orders g = o :: k →
  0 < lv < 2 ^ 32 →
  let d := data bk o in
  let fe := fill_events cid coid tid s moid d in
  if decide (oi_qty d ≤ lv)
  then ∃ bk', match_ bk out tid cid s coid moid o lv =
                Ok (bk', out ++ fe (oi_qty d) 0 (lv - oi_qty d), lv - oi_qty d) ∧
       me_rep bk' (gset G (opp s) (level_with g k ++ l)) ∧
       (∀ x, x ≠ o → data bk' x = data bk x) ∧
       next_market_order_id_ bk' = next_market_order_id_ bk
  else ∃ bk', match_ bk out tid cid s coid moid o lv =
                Ok (bk', out ++ fe lv (oi_qty d - lv) 0, 0) ∧
       me_rep bk' G ∧
       (∀ x, data bk' x = if decide (o = x) then oi_set_qty (oi_qty d - lv) d
                          else data bk x) ∧
       next_market_order_id_ bk' = next_market_order_id_ bk.
Proof.
  intros Hs Hrep E Ek Hlv d fe.
  assert (o ∈ gorders (glevels G)) as Hin.
  { rewrite (glevels_perm G _ (opp_tradable s)), E, gorders_app, gorders_cons, Ek.
    set_solver. }
  pose proof (info_qty_range _ _ _ Hrep Hin) as Hq. fold d in Hq.
  set (fill := Z.min lv (oi_qty d)).
  destruct (set_qty_spec bk G o (λ t, u32 (me_qty t - fill)) (oi_qty d - fill) Hrep)
    as [Hrep1 Hd1].
  { change (me_qty (ord (ob_levels bk) o)) with (oi_qty d). rewrite u32_id; lia. }
  { lia. }
  set (bk1 := with_levels _ _) in Hrep1, Hd1.
  assert (data bk1 o = oi_set_qty (oi_qty d - fill) d) as Hdo.
  { rewrite Hd1. by rewrite decide_True. }
  unfold match_.
  change (me_qty (ord (ob_levels bk) o)) with (oi_qty d). fold fill. fold bk1.
  change (me_qty (ord (ob_levels bk1) o)) with (oi_qty (data bk1 o)).
  change (me_price (ord (ob_levels bk1) o)) with (oi_price (data bk1 o)).
  change (me_client_id (ord (ob_levels bk1) o)) with (oi_client_id (data bk1 o)).
  change (me_client_order_id (ord (ob_levels bk1) o)) with (oi_client_order_id (data bk1 o)).
  change (me_market_order_id (ord (ob_levels bk1) o)) with (oi_market_order_id (data bk1 o)).
  change (me_side (ord (ob_levels bk1) o)) with (oi_side (data bk1 o)).
  change (me_priority (ord (ob_levels bk1) o)) with (oi_priority (data bk1 o)).
  rewrite Hdo, (u32_id (lv - fill)) by lia. cbn [oi_set_qty oi_qty oi_price oi_client_id
    oi_client_order_id oi_market_order_id oi_side oi_priority].
  case_decide as Hle.
  - replace (oi_qty d - fill) with 0 by lia. replace fill with (oi_qty d) by lia.
    cbn [Z.eqb]. rewrite <-!app_assoc. cbn [app].
    destruct (removeOrder_spec bk1 G (opp s) [] g l [] o k) as (bk' & Hr & Hrep' & Hd' & Hn');
      [apply opp_tradable|done..|].
    rewrite Hr. exists bk'. split_and!; [done|done| |done].
    intros x Hx. rewrite Hd', Hd1. by rewrite decide_False.
  - replace fill with lv by lia. rewrite (proj2 (Z.eqb_neq _ _)) by lia.
    rewrite <-!app_assoc. cbn [app]. exists bk1. split_and!; [|done| |done].
    + rewrite Z.sub_diag. unfold fe, fill_events.
      by rewrite (proj2 (Z.eqb_neq (oi_qty d - lv) 0)) by lia.
    + intros x. rewrite Hd1. case_decide; [|done]. f_equal. lia.
Qed.

Lemma book_head bk G s g l o k :
  tradable s → me_rep bk G → gside G s = g :: l → g_orders g = o :: k →
  best (ob_levels bk) s = Some (g_ptr g) ∧
  oap_first (lvl (ob_levels bk) (g_ptr g)) = Some o ∧
  oi_price (data bk o) = g_price g.
Proof.
  intros Hs Hrep E Ek. destruct (br_side _ _ _ (mr_book _ _ Hrep) s Hs) as (Hb & _).
  pose proof (br_levels _ _ _ (mr_book _ _ Hrep)) as Hl. rewrite Forall_forall in Hl.
  destruct (Hl g) as (_ & _ & Hf & _ & _ & Hok).
  { apply (gside_elem G s); [done|]. rewrite E. by left. }
  rewrite E in Hb. rewrite Ek in Hf, Hok. apply Forall_cons in Hok as [[_ Hp] _]. done.
Qed.

Section Loop.
Context (cid : ClientId) (coid : OrderId) (tid : TickerId) (s : Side.t) (price : Price)
  (moid : OrderId) (best' : PriceLevels MEOrder → option ptr) (beyond : Price → bool).
Context (Hs : tradable s) (Hbest : ∀ pl, best' pl = best pl (opp s))
  (Hbeyond : ∀ p, beyond p = negb (crosses s price p)).

Abbreviation step := (checkForMatch_step cid coid tid s price moid best' beyond).
Abbreviation mside := (match_side cid coid tid s price moid).

Lemma step_eq bk out lv :
  step (bk, out, lv) =
  if lv =? 0 then Ok (inr (bk, out, lv))
  else match best' (ob_levels bk) with
       | None => Ok (inr (bk, out, lv))
       | Some lp =>
           itr ← deref (oap_first (lvl (ob_levels bk) lp));
           if beyond (me_price (ord (ob_levels bk) itr)) then Ok (inr (bk, out, lv))
           else st ← match_ bk out tid cid s coid moid itr lv; Ok (inl st)
       end.
Proof. done. Qed.

(** The iteration that executes against the first order of the best level, and the one that
    ends the loop. *)
Lemma step_match bk G out lv g l o k :
  me_rep bk G → gside G (opp s) = g :: l → g_orders g = o :: k → lv ≠ 0 →
  crosses s price (g_price g) = true →
  step (bk, out, lv) = (st ← match_ bk out tid cid s coid moid o lv; Ok (inl st)).
Proof.
  intros Hrep El Ek H0 Hc. destruct (book_head _ _ _ _ _ _ _ (opp_tradable s) Hrep El Ek) as (Hb & Hf & Hp).
  rewrite step_eq, (proj2 (Z.eqb_neq _ _)), Hbest, Hb, Hf by done. cbn [deref mbind Res_bind].
  change (me_price (ord (ob_levels bk) o)) with (oi_price (data bk o)). by rewrite Hp, Hbeyond, Hc.
Qed.
Lemma step_stop bk G out lv :
  me_rep bk G →
  lv = 0 ∨ (∀ g l, gside G (opp s) = g :: l → crosses s price (g_price g) = false) →
  step (bk, out, lv) = Ok (inr (bk, out, lv)) ∧
  mside (abs_side (ob_levels bk) (gside G (opp s))) lv = (abs_side (ob_levels bk) (gside G (opp s)), lv, []).
Proof.
  intros Hrep Hstop. pose proof (opp_tradable s) as Hos. split.
  - rewrite step_eq. destruct (lv =? 0) eqn:E0; [done|]. apply Z.eqb_neq in E0.
    destruct Hstop as [?|Hc]; [done|]. rewrite Hbest. destruct (gside G (opp s)) as [|g l] eqn:El.
    + destruct (br_side _ _ _ (mr_book _ _ Hrep) _ Hos) as (Hb & _). rewrite El in Hb. by rewrite Hb.
    + destruct (g_orders g) as [|o k] eqn:Ek.
      { exfalso. eapply (book_rep_nonempty _ _ G (opp s) g); [done|apply (mr_book _ _ Hrep)| |done].
        rewrite El. by left. }
      destruct (book_head _ _ _ _ _ _ _ Hos Hrep El Ek) as (Hb & Hf & Hp).
      rewrite Hb, Hf. cbn [deref mbind Res_bind].
      change (me_price (ord (ob_levels bk) o)) with (oi_price (data bk o)).
      by rewrite Hp, Hbeyond, (Hc g l eq_refl).
  - apply match_side_stop. destruct Hstop as [->|Hc]; [by left|]. right. intros p ds l' E.
    destruct (gside G (opp s)) as [|g l]; [done|]. rewrite abs_side_cons in E. injection E as <- _ _.
    by apply (Hc g l).
Qed.

(** What is left of a side whose first order [o] is gone, or has another quantity. *)
Lemma abs_side_gone bk bk1 g l o k :
  g_orders g = o :: k → o ∉ k ++ gorders l → (∀ x, x ≠ o → data bk1 x = data bk x) →
  abs_side (ob_levels bk1) (level_with g k ++ l) =
  some_level (g_price g) (odata (ob_levels bk) <$> k) ++ abs_side (ob_levels bk) l.
Proof.
  intros Ek Hnd Hd. rewrite abs_side_app, abs_level_with. f_equal; [f_equal|].
  - apply list_fmap_ext. intros i x Hx%list_elem_of_lookup_2. apply Hd. set_solver + Hnd Hx.
  - apply abs_side_ext. intros x Hx. apply Hd. set_solver + Hnd Hx.
Qed.
Lemma abs_side_changed bk bk1 g l o k d :
  g_orders g = o :: k → o ∉ k ++ gorders l →
  (∀ x, data bk1 x = if decide (o = x) then d else data bk x) →
  abs_side (ob_levels bk1) (g :: l) =
  (g_price g, d :: (odata (ob_levels bk) <$> k)) :: abs_side (ob_levels bk) l.
Proof.
  intros Ek Hnd Hd. rewrite abs_side_cons. unfold abs_level. rewrite Ek. cbn [fmap list_fmap].
  rewrite Hd, decide_True by done. f_equal; [do 2 f_equal|].
  - apply list_fmap_ext. intros i x Hx%list_elem_of_lookup_2. rewrite Hd, decide_False; [done|].
    set_solver + Hnd Hx.
  - apply abs_side_ext. intros x Hx. rewrite Hd, decide_False; [done|]. set_solver + Hnd Hx.
Qed.

Lemma loop_cases G lv :
  (lv = 0 ∨ ∀ g l, gside G (opp s) = g :: l → crosses s price (g_price g) = false) ∨
  lv ≠ 0 ∧ ∃ g l, gside G (opp s) = g :: l ∧ crosses s price (g_price g) = true.
Proof.
  destruct (decide (lv = 0)); [by left; left|].
  destruct (gside G (opp s)) as [|g l]; [by left; right|].
  destruct (crosses s price (g_price g)) eqn:Hc; [right; eauto|].
  left; right. by intros g' l' [= <- _].
Qed.

Lemma match_loop n : ∀ bk G out lv l' lv' ev,
  me_rep bk G → 0 ≤ lv < 2 ^ 32 → (length (gorders (gside G (opp s))) < n)%nat →
  mside (abs_side (ob_levels bk) (gside G (opp s))) lv = (l', lv', ev) →
  ∃ bk' G', loop_nat step n (bk, out, lv) = Ok (inr (bk', out ++ ev, lv')) ∧
    me_rep bk' G' ∧
    abs_side (ob_levels bk') (gside G' (opp s)) = l' ∧
    abs_side (ob_levels bk') (gside G' s) = abs_side (ob_levels bk) (gside G s) ∧
    next_market_order_id_ bk' = next_market_order_id_ bk.
Proof.
  pose proof (opp_tradable s) as Hos.
  induction n as [|n IH]; intros bk G out lv l' lv' ev Hrep Hlv Hn E; [lia|]. cbn [loop_nat].
  destruct (loop_cases G lv) as [Hstop|(H0 & g & l & El & Hc)].
  { destruct (step_stop bk G out lv Hrep Hstop) as [-> E']. rewrite E' in E. simplify_eq.
    exists bk, G. rewrite app_nil_r. by split_and!. }
  destruct (g_orders g) as [|o k] eqn:Ek.
  { exfalso. eapply (book_rep_nonempty _ _ G (opp s) g); [done|apply (mr_book _ _ Hrep)| |done].
    rewrite El. by left. }
  rewrite (step_match bk G out lv g l o k) by done. rewrite El, abs_side_cons in E.
  unfold abs_level in E. rewrite Ek in E. cbn [fmap list_fmap] in E.
  pose proof (NoDup_gorders_split G (opp s) Hos (mr_nodup _ _ Hrep)) as Hnd.
  rewrite (opp_opp s Hs), El, gorders_cons, Ek, <-!app_comm_cons in Hnd.
  apply NoDup_cons in Hnd as [[Hk Hnd]%not_elem_of_app _].
  assert (length (gorders (gside G (opp s))) = S (length (k ++ gorders l))) as Hlen.
  { rewrite El, gorders_cons, Ek. done. }
  assert (∀ bk1, (∀ x, x ≠ o → data bk1 x = data bk x) →
    abs_side (ob_levels bk1) (gside G s) = abs_side (ob_levels bk) (gside G s)) as Hother.
  { intros bk1 Hd. apply abs_side_ext. intros x Hx. apply Hd. by intros ->. }
  pose proof (match_spec bk G out tid cid s coid moid g l o k lv Hs Hrep El Ek ltac:(lia)) as Hm.
  cbn zeta in Hm. case_decide as Hle; destruct Hm as (bk1 & -> & Hrep1 & Hd1 & Hn1);
    cbn [mbind Res_bind and_then].
  - rewrite match_side_full in E by done.
    destruct (mside (some_level (g_price g) ((odata (ob_levels bk)) <$> k) ++
      abs_side (ob_levels bk) l) (lv - oi_qty (data bk o))) as [[l1 lv1] ev1] eqn:E1. simplify_eq.
    assert (0 ≤ oi_qty (data bk o)).
    { eapply info_qty_range; [done|]. rewrite (glevels_perm G _ Hos), El, gorders_app,
        gorders_cons, Ek. set_solver. }
    pose proof (gside_gset_opp G (opp s) (level_with g k ++ l) Hos) as Es. rewrite (opp_opp s Hs) in Es.
    edestruct (IH bk1 (gset G (opp s) (level_with g k ++ l)))
      as (bk' & G' & Hl & Hrep' & Ho' & Hs' & Hn'); [done|..].
    + instantiate (1 := lv - oi_qty (data bk o)). lia.
    + rewrite gside_gset, gorders_app, gorders_level_with, Hlen in *. lia.
    + rewrite gside_gset, <-E1. f_equal. by apply (abs_side_gone _ _ _ _ o).
    + exists bk', G'. rewrite Hl, <-app_assoc. split_and!; [done|done|done| |congruence].
      rewrite Hs', Es. by apply Hother.
  - rewrite match_side_part in E by (done || lia). simplify_eq.
    destruct n as [|n]; [lia|]. cbn [loop_nat].
    destruct (step_stop bk1 G (out ++ fill_events cid coid tid s moid (data bk o) lv
      (oi_qty (data bk o) - lv) 0) 0 Hrep1 ltac:(by left)) as [-> _]. cbn [mbind Res_bind and_then].
    exists bk1, G. split_and!; [done|done| | |done].
    + rewrite El. by apply (abs_side_changed _ _ _ _ o).
    + apply Hother. intros x Hx. by rewrite Hd1, decide_False.
Qed.
End Loop.
