(* ===== verification/MEBookSpec.v ===== *)
(** * MEBookSpec: the exchange's book implements the reference book

    [add_refines] and [cancel_refines]: from a book that holds the reference book
    [a], each operation of [MEOrderBook] succeeds, leaves a book that holds what
    [BookSpec] says, and sends exactly the messages [BookSpec] says. *)
From S2P Require Import Prelude Types MemPool Ring PriceLevels BookInv PriceLevelsSpec.
From S2P Require Import LevelListSpec LinkSpec StoreSpec LevelsAbs MEOrderBook BookSpec BookMatch.
From S2P Require Import MEBookRefine.

#[local] Arguments odata : simpl never.

(** ** The two views of a side *)
Section Sides.
Implicit Types (a : SpecBook) (s : Side.t) (bk : MEOrderBook) (G : ghost).

Lemma sb_side_set a s l : sb_side (sb_set a s l) s = l.
Proof. unfold sb_side, sb_set. by case_bool_decide. Qed.
Lemma sb_side_set_opp a s l : tradable s → sb_side (sb_set a s l) (opp s) = sb_side a (opp s).
Proof. by intros [->| ->]. Qed.
Lemma sb_side_opp_set a s l : tradable s → sb_side (sb_set a (opp s) l) s = sb_side a s.
Proof. by intros [->| ->]. Qed.
Lemma sb_next_set a s l : sb_next_id (sb_set a s l) = sb_next_id a.
Proof. unfold sb_set. by case_bool_decide. Qed.
Lemma sb_levels_perm a s :
  tradable s → sb_levels a ≡ₚ sb_side a s ++ sb_side a (opp s).
Proof.
  intros [->| ->]; unfold sb_levels, sb_side; simpl; [done|]. apply Permutation_app_comm.
Qed.
Lemma refines_side bk G a s : refines_by bk G a → tradable s →
  abs_side (ob_levels bk) (gside G s) = sb_side a s.
Proof. intros [] [->| ->]; done. Qed.

Lemma refines_of bk G a s :
  tradable s → me_rep bk G →
  abs_side (ob_levels bk) (gside G s) = sb_side a s →
  abs_side (ob_levels bk) (gside G (opp s)) = sb_side a (opp s) →
  next_market_order_id_ bk = sb_next_id a →
  refines_by bk G a.
Proof. intros [->| ->]; by split. Qed.

Lemma refines_orders bk G a :
  refines_by bk G a → sb_orders a = odata (ob_levels bk) <$> gorders (glevels G).
Proof.
  intros [_ Hb Ha _]. unfold sb_orders, sb_levels, glevels.
  rewrite <-Hb, <-Ha, <-abs_side_app. apply level_orders_abs.
Qed.
Lemma refines_prices bk G a :
  refines_by bk G a → (sb_levels a).*1 = g_price <$> glevels G.
Proof.
  intros [_ Hb Ha _]. unfold sb_levels, glevels.
  rewrite <-Hb, <-Ha, <-abs_side_app. apply prices_abs.
Qed.

Lemma book_levels_nonempty bk G s :
  tradable s → me_rep bk G →
  Forall (λ pd, pd.2 ≠ []) (abs_side (ob_levels bk) (gside G s)).
Proof. intros Hs Hrep. by apply (abs_nonempty _ [] _ _ Hs (mr_book _ _ Hrep)). Qed.
End Sides.

(** A new book holds the empty reference book. *)
Lemma MEOrderBook_new_refines tid : refines (MEOrderBook_new tid) SpecBook_new.
Proof.
  exists (mkGhost [] []). split; [|done..]. split; simpl; try done.
  - apply PriceLevels_new_rep.
  - intros c i p Hc Hi. unfold cid_get, MEOrderBook_new. simpl. rewrite !arr_get_new.
    split; [done|]. intros [Hp _]. by apply not_elem_of_nil in Hp.
  - intros p Hp. by apply not_elem_of_nil in Hp.
Qed.

(** ** The loop of [checkForMatch] *)
Lemma checkForMatch_spec bk G out cid coid tid s price qty moid l' lv' ev :
  tradable s → me_rep bk G → 0 ≤ qty < 2 ^ 32 →
  Z.of_nat (length (gorders (glevels G))) + 2 ≤ ME_MAX_ORDER_IDS →
  match_side cid coid tid s price (u32 moid)
    (abs_side (ob_levels bk) (gside G (opp s))) qty = (l', lv', ev) →
  ∃ bk' G', checkForMatch bk out cid coid tid s price qty moid = Ok (bk', out ++ ev, lv') ∧
    me_rep bk' G' ∧
    abs_side (ob_levels bk') (gside G' (opp s)) = l' ∧
    abs_side (ob_levels bk') (gside G' s) = abs_side (ob_levels bk) (gside G s) ∧
    next_market_order_id_ bk' = next_market_order_id_ bk.
Proof.
  intros Hs Hrep Hq Hcap E. unfold checkForMatch.
  assert (length (gorders (gside G (opp s))) <
          Pos.to_nat (Z.to_pos (ME_MAX_ORDER_IDS + 2)))%nat as Hfuel.
  { rewrite (glevels_perm G s Hs), gorders_app, length_app in Hcap. unfold ME_MAX_ORDER_IDS in *. lia. }
  destruct Hs as [->| ->].
  - destruct (match_loop cid coid tid Side.BUY price (u32 moid) asks_by_price_
      (λ p, price <? p) (or_introl eq_refl) (λ _, eq_refl)) with
      (n := Pos.to_nat (Z.to_pos (ME_MAX_ORDER_IDS + 2))) (bk := bk) (G := G) (out := out)
      (lv := qty) (l' := l') (lv' := lv') (ev := ev) as (bk' & G' & Hl & H); try done.
    { intros p. simpl. by rewrite Z.ltb_antisym. }
    exists bk', G'. split; [|done]. change (bool_decide (Side.BUY = Side.BUY)) with true.
    cbv iota. rewrite loop_unfold_nat, Hl. done.
  - destruct (match_loop cid coid tid Side.SELL price (u32 moid) bids_by_price_
      (λ p, price >? p) (or_intror eq_refl) (λ _, eq_refl)) with
      (n := Pos.to_nat (Z.to_pos (ME_MAX_ORDER_IDS + 2))) (bk := bk) (G := G) (out := out)
      (lv := qty) (l' := l') (lv' := lv') (ev := ev) as (bk' & G' & Hl & H); try done.
    { intros p. simpl. by rewrite Z.gtb_ltb, Z.ltb_antisym. }
    exists bk', G'. split; [|done]. change (bool_decide (Side.SELL = Side.BUY)) with false.
    change (bool_decide (Side.SELL = Side.SELL)) with true.
    cbv iota. cbn [mbind Res_bind]. rewrite loop_unfold_nat, Hl. done.
Qed.

(** ** [getNextPriority] *)
Lemma next_priority_cons price p ds l :
  next_priority price ((p, ds) :: l) =
  if decide (p = price)
  then match last ds with Some d => u64 (oi_priority d + 1) | None => 1 end
  else next_priority price l.
Proof.
  unfold next_priority. cbn [list_find]. simpl. case_decide; [done|].
  by destruct (list_find _ l) as [[i [p' ds']]|].
Qed.

Lemma next_priority_none price l :
  (∀ p, p ∈ l.*1 → p ≠ price) → next_priority price l = 1.
Proof.
  induction l as [|[p ds] l IH]; intros Hp; [done|]. rewrite next_priority_cons.
  rewrite decide_False by (apply Hp; by left). apply IH. intros q Hq. apply Hp. by right.
Qed.

Lemma next_priority_abs pl s l1 g l2 price :
  StronglySorted (better s) (g_price <$> l1 ++ g :: l2) → g_price g = price →
  next_priority price (abs_side pl (l1 ++ g :: l2)) =
  match last (odata pl <$> g_orders g) with
  | Some d => u64 (oi_priority d + 1) | None => 1 end.
Proof.
  intros Hsort%sorted_before Hg. rewrite Hg in Hsort. rewrite abs_side_app, abs_side_cons.
  induction Hsort as [|h l1 Hh _ IH]; simpl; unfold abs_level at 1; rewrite next_priority_cons.
  - by rewrite decide_True.
  - rewrite decide_False; [exact IH|]. intros E. rewrite E in Hh. destruct s; simpl in Hh; lia.
Qed.

Lemma getNextPriority_spec bk G s price :
  tradable s → me_rep bk G →
  (∀ g, g ∈ glevels G → priceToIndex (g_price g) = priceToIndex price →
        g_price g = price ∧ g_side g = s) →
  getNextPriority bk price =
  Ok (next_priority price (abs_side (ob_levels bk) (gside G s))).
Proof.
  intros Hs Hrep Hidx. pose proof (mr_book _ _ Hrep) as Hb.
  destruct (br_side _ _ _ Hb s Hs) as (_ & _ & Hsort & Hsd).
  unfold getNextPriority.
  destruct (decide (Exists (λ g, g_price g = price) (gside G s))) as [Hex|Hno].
  - apply Exists_exists in Hex as (g & Hgin & Hg).
    pose proof (gside_elem G s g Hs Hgin) as Hgl.
    pose proof (getOrdersAtPrice_Some _ _ _ (br_hash _ _ _ Hb) Hgl) as Hget.
    rewrite Hg in Hget. rewrite Hget. cbn [mbind Res_bind].
    apply list_elem_of_split in Hgin as (l1 & l2 & E). rewrite E in Hsort |- *.
    rewrite (next_priority_abs _ _ _ _ _ _ Hsort Hg).
    pose proof (br_levels _ _ _ Hb) as Hl. rewrite Forall_forall in Hl.
    destruct (Hl g Hgl) as (_ & _ & Hf & Hne & Hr & _).
    destruct (g_orders g) as [|o k]; [done|]. rewrite Hf. cbn [head deref mbind Res_bind].
    destruct (ring_head _ _ _ _ Hr) as [_ Hp].
    change (me_prev_order (ord (ob_levels bk) o)) with (oprev (ob_levels bk) o).
    rewrite Hp. cbn [deref]. rewrite fmap_last.
    destruct k as [|o2 k _] using rev_ind; [done|]. rewrite app_comm_cons, !last_snoc. done.
  - rewrite <-Forall_Exists_neg, Forall_forall in Hno.
    rewrite (getOrdersAtPrice_None _ _ _ (br_hash _ _ _ Hb)).
    + cbn [mbind Res_bind]. rewrite next_priority_none; [done|].
      rewrite prices_abs. intros p (g & -> & Hg)%list_elem_of_fmap. by apply Hno.
    + intros g Hg Hi. destruct (Hidx g Hg Hi) as [Hp Hgs].
      rewrite (glevels_perm G s Hs), elem_of_app in Hg. destruct Hg as [Hg|Hg].
      * by apply (Hno g).
      * destruct (br_side _ _ _ Hb (opp s) (opp_tradable s)) as (_ & _ & _ & Hsd').
        rewrite Forall_forall in Hsd'. specialize (Hsd' g Hg).
        by destruct (opp_ne s Hs); congruence.
Qed.

(** ** [add] *)

(** The requests the book is built for: the client and order ids index the order-id
    map, the client does not reuse the id of a live order, no other live price shares
    the index of the hash map with the new price, and the two pools have room. *)
Definition valid_new (a : SpecBook) (cid : ClientId) (coid : OrderId) (s : Side.t)
    (price : Price) (qty : Qty) : Prop :=
  tradable s ∧ client_ok cid ∧ oid_ok coid ∧ 0 ≤ qty < 2 ^ 32 ∧
  ((cid, coid) ∉ (order_key <$> sb_orders a)) ∧
  Forall (λ p, priceToIndex p = priceToIndex price → p = price) (sb_levels a).*1 ∧
  Z.of_nat (length (sb_orders a)) + 2 ≤ ME_MAX_ORDER_IDS ∧
  Z.of_nat (length (sb_levels a)) + 2 ≤ ME_MAX_PRICE_LEVELS.

#[export] Instance valid_new_dec a cid coid s price qty :
  Decision (valid_new a cid coid s price qty).
Proof. unfold valid_new, tradable, client_ok, oid_ok. apply _. Defined.

(** A level left on the other side does not carry the price of what is left of the
    incoming order. *)
Lemma no_level_at_price bk G s price cid coid tid moid l lv lv' ev g :
  tradable s → me_rep bk G → Forall (λ pd, pd.2 ≠ []) l →
  match_side cid coid tid s price moid l lv =
    (abs_side (ob_levels bk) (gside G (opp s)), lv', ev) →
  lv' ≠ 0 → g ∈ gside G (opp s) → g_price g ≠ price.
Proof.
  intros Hs Hrep Hne E Hlv Hg.
  destruct (br_side _ _ _ (mr_book _ _ Hrep) (opp s) (opp_tradable s)) as (_ & _ & Hsort & _).
  destruct (gside G (opp s)) as [|h t] eqn:Eh; [by apply elem_of_nil in Hg|].
  rewrite abs_side_cons in E.
  pose proof (match_side_head _ _ _ _ _ _ _ _ _ _ _ Hne E Hlv _ _ _ eq_refl) as Hc.
  simpl in Hsort. inversion Hsort as [|? ? _ Hall]; subst. rewrite Forall_fmap, Forall_forall in Hall.
  apply elem_of_cons in Hg as [->|Hg]; [|specialize (Hall g Hg)];
    destruct Hs as [->| ->]; simpl in *; apply Z.leb_gt in Hc; lia.
Qed.

(** The reference book after the matching part of [spec_add]. *)
Definition spec_matched (a : SpecBook) (s : Side.t) (other : list (Price * list OrderInfo))
  : SpecBook :=
  let a1 := sb_set a (opp s) other in
  mkSpecBook (sb_bids a1) (sb_asks a1) (u64 (sb_next_id a + 1)).

Lemma spec_matched_same a s other : tradable s → sb_side (spec_matched a s other) s = sb_side a s.
Proof. by intros [->| ->]. Qed.
Lemma spec_matched_opp a s other : tradable s → sb_side (spec_matched a s other) (opp s) = other.
Proof. by intros [->| ->]. Qed.

Section AddProof.
Context (bk : MEOrderBook) (G : ghost) (a : SpecBook) (cid : ClientId) (coid : OrderId)
  (tid : TickerId) (s : Side.t) (price : Price) (qty : Qty).
Context (HG : refines_by bk G a) (Hvalid : valid_new a cid coid s price qty).
Context (other : list (Price * list OrderInfo)) (lv : Qty) (ev : list Event) (moid : OrderId).
Context (Hmatch : match_side cid coid tid s price moid (sb_side a (opp s)) qty
                  = (other, lv, ev)).

Lemma add_tradable : tradable s.
Proof. by destruct Hvalid as [? _]. Qed.

Lemma side_nonempty : Forall (λ pd, pd.2 ≠ []) (sb_side a (opp s)).
Proof.
  rewrite <-(refines_side _ _ _ _ HG (opp_tradable s)).
  eapply book_levels_nonempty; [apply opp_tradable|apply (rf_rep _ _ _ HG)].
Qed.

(** Matching takes orders and levels away; it adds none. *)
Lemma matched_sub {A} (f : OrderInfo → A) :
  (∀ q d, f (oi_set_qty q d) = f d) →
  (sb_levels (spec_matched a s other)).*1 ⊆+ (sb_levels a).*1 ∧
  (f <$> sb_orders (spec_matched a s other)) ⊆+ (f <$> sb_orders a).
Proof.
  pose proof add_tradable as Hs. intros Hf.
  destruct (match_side_suffix _ _ _ _ _ _ f _ _ _ _ _ Hf side_nonempty Hmatch)
    as [[k1 E1] [k2 E2]].
  unfold sb_orders. rewrite !(level_orders_perm _ _ (sb_levels_perm _ s Hs)).
  rewrite !(sb_levels_perm _ s Hs), spec_matched_same, spec_matched_opp by done.
  rewrite !level_orders_app, !fmap_app, E1, E2.
  split; apply submseteq_skips_l, submseteq_inserts_l; done.
Qed.

Context (bk1 : MEOrderBook) (G1 : ghost) (HG1 : refines_by bk1 G1 (spec_matched a s other)).

Lemma matched_room :
  Z.of_nat (length (gorders (glevels G1))) + 2 ≤ ME_MAX_ORDER_IDS ∧
  Z.of_nat (length (glevels G1)) + 2 ≤ ME_MAX_PRICE_LEVELS.
Proof.
  destruct Hvalid as (_ & _ & _ & _ & _ & _ & Hcap & Hlcap).
  destruct (matched_sub order_key (λ _ _, eq_refl)) as [H1%submseteq_length H2%submseteq_length].
  rewrite (refines_orders _ _ _ HG1) in H2. rewrite (refines_prices _ _ _ HG1) in H1.
  rewrite !length_fmap in H1. rewrite !length_fmap in H2. lia.
Qed.

Lemma matched_fresh p :
  p ∈ gorders (glevels G1) → order_key (odata (ob_levels bk1) p) ≠ (cid, coid).
Proof.
  destruct Hvalid as (_ & _ & _ & _ & Hfresh & _). destruct (matched_sub order_key (λ _ _, eq_refl)) as [_ Hsub].
  intros Hp E. apply Hfresh. eapply elem_of_submseteq; [|exact Hsub].
  rewrite <-E, (refines_orders _ _ _ HG1). by do 2 apply list_elem_of_fmap_2.
Qed.

Lemma matched_level g :
  lv ≠ 0 → g ∈ glevels G1 → priceToIndex (g_price g) = priceToIndex price →
  g_price g = price ∧ g_side g = s.
Proof.
  intros Hlv Hg Hx. pose proof add_tradable as Hs.
  destruct Hvalid as (_ & _ & _ & _ & _ & Hfit & _).
  assert (g_price g = price) as Hp.
  { rewrite Forall_forall in Hfit. apply Hfit; [|done]. destruct (matched_sub order_key (λ _ _, eq_refl)) as [Hsub _].
    eapply elem_of_submseteq; [|exact Hsub]. rewrite (refines_prices _ _ _ HG1).
    by apply list_elem_of_fmap_2. }
  split; [done|]. rewrite (glevels_perm G1 s Hs), elem_of_app in Hg. destruct Hg as [Hg|Hg].
  - destruct (br_side _ _ _ (mr_book _ _ (rf_rep _ _ _ HG1)) s Hs) as (_ & _ & _ & Hsd).
    rewrite Forall_forall in Hsd. by apply Hsd.
  - destruct (no_level_at_price bk1 G1 s price cid coid tid moid (sb_side a (opp s)) qty
      lv ev g); try done; [apply (rf_rep _ _ _ HG1)|apply side_nonempty|].
    rewrite (refines_side _ _ _ _ HG1 (opp_tradable s)), spec_matched_opp by done.
    done.
Qed.
End AddProof.

Lemma spec_add_eq a cid coid tid s price qty other lv ev :
  match_side cid coid tid s price (u32 (sb_next_id a)) (sb_side a (opp s)) qty
    = (other, lv, ev) →
  let a1 := spec_matched a s other in
  let prio := next_priority price (sb_side a1 s) in
  let moid := sb_next_id a in
  let accepted := SendResponse (mkMEClientResponse ClientResponseType.ACCEPTED cid
    tid coid moid s price 0 qty) in
  spec_add a cid coid tid s price qty =
  if lv =? 0 then (a1, accepted :: ev)
  else (sb_set a1 s (insert_order s (mkOrderInfo tid cid coid moid s price lv prio)
          (sb_side a1 s)),
        accepted :: ev ++ [SendUpdate (mkMEMarketUpdate MarketUpdateType.ADD moid tid s price
                                         lv prio)]).
Proof. intros E. unfold spec_add. by rewrite E. Qed.

Lemma add_eq bk out cid coid tid s price qty :
  add bk out cid coid tid s price qty =
  let moid := next_market_order_id_ bk in
  '(bk1, out1, lv) ← checkForMatch (with_next_id bk (u64 (moid + 1)))
      (out ++ [SendResponse (mkMEClientResponse ClientResponseType.ACCEPTED cid tid coid moid
                               s price 0 qty)]) cid coid tid s price qty moid;
  if lv =? 0 then Ok (bk1, out1)
  else
    prio ← getNextPriority bk1 price;
    bk2 ← storeOrder bk1 (mkMEOrder tid cid coid moid s price lv prio None None);
    Ok (bk2, out1 ++ [SendUpdate (mkMEMarketUpdate MarketUpdateType.ADD moid tid s price lv
                                    prio)]).
Proof.
  unfold add, generateNewMarketOrderId. cbv beta iota zeta.
  destruct (checkForMatch _ _ _ _ _ _ _ _ _) as [[[bk1 out1] lv]|f]; [|done].
  cbn [mbind Res_bind]. destruct (lv =? 0); cbn [negb]; [done|].
  destruct (getNextPriority bk1 price) as [prio|f]; [|done].
  cbn [mbind Res_bind]. unfold storeOrder.
  by destruct (allocOrder _ _) as [[o pl]|f].
Qed.

Lemma leaves_range a bk G s cid coid tid price moid qty other lv ev :
  refines_by bk G a → 0 ≤ qty < 2 ^ 32 →
  match_side cid coid tid s price moid (sb_side a (opp s)) qty = (other, lv, ev) →
  0 ≤ lv < 2 ^ 32.
Proof.
  intros HG Hq E. pose proof (opp_tradable s) as Hos.
  destruct (match_side_leaves _ _ _ _ _ _ _ _ _ _ _ (side_nonempty _ _ _ _ HG) E);
    [lia| |lia].
  rewrite <-(refines_side _ _ _ _ HG Hos), level_orders_abs.
  intros d (p & -> & Hp)%list_elem_of_fmap. apply (info_qty_range _ _ p (rf_rep _ _ _ HG)).
  rewrite (glevels_perm G _ Hos), gorders_app. set_solver + Hp.
Qed.

Lemma add_spec bk a out cid coid tid s price qty :
  refines bk a → valid_new a cid coid s price qty →
  ∃ bk', add bk out cid coid tid s price qty =
           Ok (bk', out ++ (spec_add a cid coid tid s price qty).2) ∧
         refines bk' (spec_add a cid coid tid s price qty).1.
Proof.
  intros [G HG] Hv. pose proof Hv as (Hs & Hc & Hi & Hq & _ & _ & Hcap & _).
  destruct (match_side cid coid tid s price (u32 (sb_next_id a)) (sb_side a (opp s)) qty)
    as [[other lv] ev] eqn:Em.
  rewrite add_eq, (spec_add_eq _ _ _ _ _ _ _ _ _ _ Em), (rf_next _ _ _ HG). cbv zeta.
  set (acc := SendResponse _). set (bk0 := with_next_id bk _).
  assert (me_rep bk0 G) as Hrep0 by (destruct (rf_rep _ _ _ HG); by split).
  rewrite (refines_orders _ _ _ HG), length_fmap in Hcap.
  destruct (checkForMatch_spec bk0 G (out ++ [acc]) cid coid tid s price qty (sb_next_id a)
    other lv ev Hs Hrep0 Hq Hcap) as (bk1 & G1 & -> & Hrep1 & Ho1 & Hs1 & Hn1).
  { rewrite <-Em. f_equal. apply (refines_side _ _ _ _ HG), opp_tradable. }
  assert (refines_by bk1 G1 (spec_matched a s other)) as HG1.
  { apply (refines_of _ _ _ s); try done.
    - rewrite spec_matched_same, Hs1 by done. by apply (refines_side _ _ _ _ HG).
    - by rewrite spec_matched_opp. }
  pose proof (leaves_range _ _ _ _ _ _ _ _ _ _ _ _ _ HG Hq Em) as Hlv.
  cbn [mbind Res_bind]. destruct (lv =? 0) eqn:E0; [|apply Z.eqb_neq in E0].
  { exists bk1. split; [by rewrite <-app_assoc|by exists G1]. }
  pose proof (λ g, matched_level _ _ _ _ _ _ _ _ _ HG Hv _ _ _ _ Em _ _ HG1 g E0) as Hidx.
  destruct (matched_room _ _ _ _ _ _ _ _ _ HG Hv _ _ _ _ Em _ _ HG1) as [Hcap1 Hlcap1].
  rewrite (getNextPriority_spec bk1 G1 s) by done.
  rewrite (refines_side _ _ _ s HG1 Hs). cbn [mbind Res_bind].
  set (prio := next_priority _ _). set (t := mkMEOrder _ _ _ _ _ _ _ _ _ _).
  destruct (storeOrder_spec bk1 G1 t (me_info t) s) as (bk2 & G2 & -> & Hrep2 & Hs2 & Ho2 & Hn2);
    try done.
  { by apply (matched_fresh _ _ _ _ _ _ _ _ _ HG Hv _ _ _ _ Em _ _ HG1). }
  cbn [mbind Res_bind]. exists bk2. split; [by rewrite <-!app_assoc|]. exists G2.
  cbn [fst snd]. apply (refines_of _ _ _ s); [done|done| | |].
  - by rewrite sb_side_set, Hs2, (refines_side _ _ _ s HG1 Hs).
  - rewrite sb_side_set_opp, Ho2 by done. apply (refines_side _ _ _ _ HG1), opp_tradable.
  - rewrite sb_next_set, Hn2. apply (rf_next _ _ _ HG1).
Qed.

(** ** [cancel] *)
Section Cancel.
Context (cid : ClientId) (oid : OrderId).
Implicit Types (ds : list OrderInfo) (l k : list (Price * list OrderInfo)).

Lemma find_order_None a :
  (∀ d, d ∈ sb_orders a → ¬ is_order cid oid d) → find_order a cid oid = None.
Proof.
  intros Hd. unfold find_order. rewrite fmap_None. apply list_find_None.
  by apply Forall_forall.
Qed.
Lemma find_order_Some a d :
  d ∈ sb_orders a → is_order cid oid d →
  (∀ d', d' ∈ sb_orders a → is_order cid oid d' → d' = d) →
  find_order a cid oid = Some d.
Proof.
  intros Hd Hi Hu. unfold find_order.
  destruct (list_find (is_order cid oid) (sb_orders a)) as [[i d']|] eqn:E.
  - apply list_find_Some in E as (Hd' & Hi' & _). simpl. f_equal.
    apply Hu; [by eapply list_elem_of_lookup_2|done].
  - apply list_find_None in E. rewrite Forall_forall in E. by destruct (E d Hd).
Qed.
End Cancel.

Lemma refines_find bk G a cid oid :
  refines_by bk G a → client_ok cid → oid_ok oid →
  find_order a cid oid = (odata (ob_levels bk)) <$> cid_get bk cid oid.
Proof.
  intros HG Hc Hi. pose proof (rf_rep _ _ _ HG) as Hrep.
  destruct (cid_get bk cid oid) as [p|] eqn:Ep; simpl.
  - apply (mr_cid _ _ Hrep) in Ep as [Hp Hpi]; [|done..].
    apply find_order_Some; rewrite ?(refines_orders _ _ _ HG).
    + by apply list_elem_of_fmap_2.
    + done.
    + intros d' (p' & -> & Hp')%list_elem_of_fmap Hpi'. f_equal.
      assert (cid_get bk cid oid = Some p') as E1 by by apply (mr_cid _ _ Hrep).
      assert (cid_get bk cid oid = Some p) as E2 by by apply (mr_cid _ _ Hrep).
      congruence.
  - apply find_order_None. rewrite (refines_orders _ _ _ HG).
    intros d (p & -> & Hp)%list_elem_of_fmap Hpi.
    assert (cid_get bk cid oid = Some p) by by apply (mr_cid _ _ Hrep). congruence.
Qed.

Lemma cid_at_get bk G cid oid :
  me_rep bk G → client_ok cid → oid_ok oid →
  cid_at (cid_oid_to_order_ bk) cid oid = Ok (cid_get bk cid oid).
Proof. intros Hrep Hc Hi. by apply cid_at_Ok; [apply (mr_wf _ _ Hrep)|..]. Qed.

(** A client id beyond the order-id map has no order. *)
Lemma refines_find_out bk G a cid oid :
  refines_by bk G a → ¬ client_ok cid → find_order a cid oid = None.
Proof.
  intros HG Hc. apply find_order_None. rewrite (refines_orders _ _ _ HG).
  intros d (p & -> & Hp)%list_elem_of_fmap [<- _]. apply Hc.
  by destruct (mr_data _ _ (rf_rep _ _ _ HG) p Hp).
Qed.

Lemma cancel_spec bk a out cid oid tid :
  refines bk a → 0 ≤ cid → oid_ok oid →
  ∃ bk', cancel bk out cid oid tid = Ok (bk', out ++ (spec_cancel a cid oid tid).2) ∧
         refines bk' (spec_cancel a cid oid tid).1.
Proof.
  intros [G HG] Hc0 Hi. pose proof (rf_rep _ _ _ HG) as Hrep.
  unfold cancel, spec_cancel. rewrite (mr_len _ _ Hrep).
  destruct (cid <? ME_MAX_NUM_CLIENTS) eqn:Ec; [apply Z.ltb_lt in Ec|apply Z.ltb_ge in Ec].
  2: { rewrite (refines_find_out _ _ _ _ _ HG) by (unfold client_ok; lia).
       exists bk. split; [done|by exists G]. }
  assert (client_ok cid) as Hc by done.
  rewrite (cid_at_get _ _ _ _ Hrep Hc Hi), (refines_find _ _ _ _ _ HG Hc Hi).
  cbn [mbind Res_bind]. destruct (cid_get bk cid oid) as [o|] eqn:Ep; simpl.
  2: { exists bk. split; [done|by exists G]. }
  pose proof (proj1 (mr_cid _ _ Hrep cid oid o Hc Hi) Ep) as [Hin Hio].
  assert (∃ s, tradable s ∧ o ∈ gorders (gside G s)) as (s & Hs & Hos).
  { rewrite (glevels_perm G Side.BUY), gorders_app, elem_of_app in Hin by by left.
    destruct Hin; [by exists Side.BUY; split; [left|]|by exists Side.SELL; split; [right|]]. }
  destruct (elem_of_gorders_split G s o Hs Hos) as (l1 & g & l2 & k1 & k2 & E & Ek).
  destruct (removeOrder_spec _ _ _ _ _ _ _ _ _ Hs Hrep E Ek) as (bk' & Hr & Hrep' & Hd & Hn).
  rewrite Hr. simpl. exists bk'. split; [done|].
  destruct (abs_remove (ob_levels bk) (ob_levels bk') G s l1 g l2 k1 o k2 (is_order cid oid))
    as [H1 H2]; try done; [apply (mr_book _ _ Hrep)| |].
  { intros x Hx Hix. assert (cid_get bk cid oid = Some x) by by apply (mr_cid _ _ Hrep).
    congruence. }
  eexists. apply (refines_of _ _ _ s); [done|exact Hrep'| | |].
  - rewrite H1, (refines_side _ _ _ s HG Hs). by destruct Hs as [->| ->].
  - rewrite H2, (refines_side _ _ _ _ HG (opp_tradable s)). by destruct Hs as [->| ->].
  - rewrite Hn. apply (rf_next _ _ _ HG).
Qed.
