(* ===== verification/BookProps.v ===== *)
(** * BookProps: what the exchange's matching promises to its market

    The limit price, conservation of quantity and the uncrossed book, proved once on the reference book and transferred to the program
    with [add_spec] and [cancel_spec]. *)
From S2P Require Import Prelude Types MemPool Ring PriceLevels BookInv LevelsAbs MEOrderBook.
From S2P Require Import BookSpec BookMatch MEBookRefine MEBookSpec.

(** ** Reading the messages of a request *)

Definition update_of (e : Event) : option MEMarketUpdate :=
  match e with SendUpdate u => Some u | SendResponse _ => None end.
Definition response_of (e : Event) : option MEClientResponse :=
  match e with SendResponse r => Some r | SendUpdate _ => None end.

Definition is_trade (u : MEMarketUpdate) : Prop := mu_type u = MarketUpdateType.TRADE.
Definition is_book_change (u : MEMarketUpdate) : Prop :=
  mu_type u = MarketUpdateType.CANCEL ∨ mu_type u = MarketUpdateType.MODIFY.
#[export] Instance is_trade_dec u : Decision (is_trade u).
Proof. unfold is_trade. apply _. Defined.
#[export] Instance is_book_change_dec u : Decision (is_book_change u).
Proof. unfold is_book_change. apply _. Defined.

Definition updates (ev : list Event) : list MEMarketUpdate := omap update_of ev.
Definition trades (ev : list Event) : list MEMarketUpdate := filter is_trade (updates ev).
(** The resting orders a request executed against, in the order it did. *)
Definition hits (ev : list Event) : list OrderId :=
  mu_order_id <$> filter is_book_change (updates ev).
Definition traded_qty (ev : list Event) : Z := sumZ (mu_qty <$> trades ev).

(** What client [c] is told was executed under its order id [i]. *)
Definition filled_qty (c : ClientId) (i : OrderId) (ev : list Event) : Z :=
  sumZ (rs_exec_qty <$> filter (λ r, rs_type r = ClientResponseType.FILLED ∧
    rs_client_id r = c ∧ rs_client_order_id r = i) (omap response_of ev)).

Lemma updates_app ev ev' : updates (ev ++ ev') = updates ev ++ updates ev'.
Proof. apply omap_app. Qed.
Lemma trades_app ev ev' : trades (ev ++ ev') = trades ev ++ trades ev'.
Proof. unfold trades. by rewrite updates_app, filter_app. Qed.
Lemma hits_app ev ev' : hits (ev ++ ev') = hits ev ++ hits ev'.
Proof. unfold hits. by rewrite updates_app, filter_app, fmap_app. Qed.
Lemma traded_qty_app ev ev' : traded_qty (ev ++ ev') = traded_qty ev + traded_qty ev'.
Proof.
  unfold traded_qty. by rewrite trades_app, fmap_app, sumZ_app.
Qed.
Lemma filled_qty_app c i ev ev' :
  filled_qty c i (ev ++ ev') = filled_qty c i ev + filled_qty c i ev'.
Proof. unfold filled_qty. by rewrite omap_app, filter_app, fmap_app, sumZ_app. Qed.

Section Fill.
Context (cid : ClientId) (coid : OrderId) (tid : TickerId) (s : Side.t) (price : Price)
  (moid : OrderId).
Implicit Types (l : list (Price * list OrderInfo)) (d : OrderInfo).
Abbreviation mside := (match_side cid coid tid s price moid).
Abbreviation fevents := (fill_events cid coid tid s moid).

Lemma trades_fill d q rest lv :
  trades (fevents d q rest lv) =
  [mkMEMarketUpdate MarketUpdateType.TRADE OrderId_INVALID tid s (oi_price d) q
     Priority_INVALID].
Proof. unfold trades, updates, fill_events. simpl. by destruct (rest =? 0). Qed.
Lemma hits_fill d q rest lv : hits (fevents d q rest lv) = [oi_market_order_id d].
Proof. unfold hits, updates, fill_events. simpl. by destruct (rest =? 0). Qed.
Lemma traded_fill d q rest lv : traded_qty (fevents d q rest lv) = q.
Proof. unfold traded_qty. rewrite trades_fill. simpl. lia. Qed.

(** What leaves the incoming order is what leaves the side, and what is printed. *)
Lemma match_side_conserve l lv l' lv' ev :
  Forall (λ pd, pd.2 ≠ []) l → mside l lv = (l', lv', ev) →
  total_qty (level_orders l) = total_qty (level_orders l') + (lv - lv') ∧
  traded_qty ev = lv - lv'.
Proof.
  revert l lv l' lv' ev.
  apply (match_side_ind _ _ _ _ _ _ (λ l lv l' lv' ev,
    total_qty (level_orders l) = total_qty (level_orders l') + (lv - lv') ∧
    traded_qty ev = lv - lv')).
  - intros l lv _. change (traded_qty []) with 0. lia.
  - intros p d ds l lv l' lv' ev _ _ _ _ [IH1 IH2]. rewrite traded_qty_app, traded_fill.
    rewrite level_orders_app, level_orders_some in IH1. rewrite level_orders_cons.
    cbn [app]. rewrite total_qty_cons. lia.
  - intros p d ds l lv _ _ _. rewrite traded_fill, !level_orders_cons.
    cbn [app]. rewrite !total_qty_cons. simpl. lia.
Qed.

(** Every trade is at a resting price the incoming limit accepts. *)
Lemma match_side_limit l lv l' lv' ev :
  Forall (λ pd, pd.2 ≠ []) l → mside l lv = (l', lv', ev) →
  Forall (λ pd, Forall (λ d, oi_price d = pd.1) pd.2) l →
  Forall (λ u, crosses s price (mu_price u) = true) (trades ev).
Proof.
  revert l lv l' lv' ev.
  apply (match_side_ind _ _ _ _ _ _ (λ l lv l' lv' ev,
    Forall (λ pd, Forall (λ d, oi_price d = pd.1) pd.2) l →
    Forall (λ u, crosses s price (mu_price u) = true) (trades ev))).
  - constructor.
  - intros p d ds l lv l' lv' ev _ Hc _ _ IH [Hd Hl]%Forall_cons. simpl in Hd.
    apply Forall_cons in Hd as [Hp Hd].
    rewrite trades_app, trades_fill. apply Forall_app. split.
    + constructor; [|done]. simpl. by rewrite Hp.
    + apply IH, Forall_app. split; [|done]. destruct ds; [done|by constructor].
  - intros p d ds l lv _ Hc _ [Hd _]%Forall_cons. simpl in Hd.
    apply Forall_cons in Hd as [Hp _]. rewrite trades_fill.
    constructor; [|done]. simpl. by rewrite Hp.
Qed.

(** Positive quantities stay positive. *)
Lemma match_side_positive l lv l' lv' ev :
  Forall (λ pd, pd.2 ≠ []) l → mside l lv = (l', lv', ev) →
  (∀ d, d ∈ level_orders l → 0 < oi_qty d) → ∀ d, d ∈ level_orders l' → 0 < oi_qty d.
Proof.
  revert l lv l' lv' ev.
  apply (match_side_ind _ _ _ _ _ _ (λ l _ l' _ _,
    (∀ d, d ∈ level_orders l → 0 < oi_qty d) →
    ∀ d, d ∈ level_orders l' → 0 < oi_qty d)).
  - auto.
  - intros p d ds l lv l' lv' ev _ _ _ _ IH Hd. apply IH. intros x Hx. apply Hd.
    rewrite level_orders_app, level_orders_some in Hx. rewrite level_orders_cons. by right.
  - intros p d ds l lv _ _ Hq Hd x. rewrite !level_orders_cons in *. simpl in *.
    rewrite elem_of_cons. intros [->|Hx]; [simpl; lia|]. apply Hd. by right.
Qed.
End Fill.

(** ** Insertion *)
(** ** The book between two requests *)
Definition uncrossed (a : SpecBook) : Prop :=
  ∀ b k, b ∈ (sb_bids a).*1 → k ∈ (sb_asks a).*1 → b < k.
Definition positive (a : SpecBook) : Prop := ∀ d, d ∈ sb_orders a → 0 < oi_qty d.
Definition book_ok (a : SpecBook) : Prop := uncrossed a ∧ positive a.

Lemma uncrossed_side a s : tradable s →
  uncrossed a ↔
  ∀ p q, p ∈ (sb_side a s).*1 → q ∈ (sb_side a (opp s)).*1 → crosses s p q = false.
Proof.
  unfold uncrossed. intros [->| ->]; unfold sb_side, opp; simpl; setoid_rewrite Z.leb_gt;
    naive_solver.
Qed.
Lemma positive_side a s : tradable s →
  positive a ↔
  (∀ d, d ∈ level_orders (sb_side a s) → 0 < oi_qty d) ∧
  (∀ d, d ∈ level_orders (sb_side a (opp s)) → 0 < oi_qty d).
Proof.
  intros Hs. unfold positive, sb_orders.
  setoid_rewrite (level_orders_perm _ _ (sb_levels_perm a s Hs)).
  rewrite level_orders_app. setoid_rewrite elem_of_app. naive_solver.
Qed.

Lemma sb_side_orders a s d : d ∈ level_orders (sb_side a s) → d ∈ sb_orders a.
Proof.
  unfold sb_orders, sb_levels, sb_side. rewrite level_orders_app.
  case_bool_decide; set_solver.
Qed.

(** A book that the program can hold is sorted, and its levels are well formed. *)
Lemma refines_level_prices bk a s : refines bk a → tradable s →
  Forall (λ pd, Forall (λ d, oi_price d = pd.1 ∧ oi_side d = s) pd.2) (sb_side a s) ∧
  Forall (λ pd, pd.2 ≠ []) (sb_side a s) ∧
  StronglySorted (better s) (sb_side a s).*1.
Proof.
  intros [G HG] Hs. pose proof (rf_rep _ _ _ HG) as Hrep.
  destruct (abs_level_ok _ _ _ s Hs (mr_book _ _ Hrep)) as [Hok Hsort].
  pose proof (book_levels_nonempty bk G s Hs Hrep) as Hne.
  rewrite (refines_side _ _ _ s HG Hs) in Hok, Hsort, Hne. by split_and!.
Qed.

Lemma crosses_better s price p q :
  tradable s → crosses s price p = false → better (opp s) p q → crosses s price q = false.
Proof. intros [->| ->]; simpl; rewrite !Z.leb_gt; lia. Qed.

(** Nothing that is left on the other side crosses what is left of the order. *)
Lemma match_side_uncrossed cid coid tid s price moid l lv l' lv' ev :
  tradable s → Forall (λ pd, pd.2 ≠ []) l → StronglySorted (better (opp s)) l.*1 →
  match_side cid coid tid s price moid l lv = (l', lv', ev) → lv' ≠ 0 →
  ∀ q, q ∈ l'.*1 → crosses s price q = false.
Proof.
  intros Hs Hne Hsort E Hlv q Hq.
  destruct (match_side_suffix _ _ _ _ _ _ oi_side _ _ _ _ _ (λ _ _, eq_refl) Hne E) as [[k Ek] _].
  rewrite Ek in Hsort. clear Ek.
  assert (StronglySorted (better (opp s)) l'.*1) as Hsort'.
  { induction k as [|x k IH]; [done|]. by apply IH; inversion Hsort. }
  destruct l' as [|[p ds] l']; [by apply elem_of_nil in Hq|].
  pose proof (match_side_head _ _ _ _ _ _ _ _ _ _ _ Hne E Hlv _ _ _ eq_refl) as Hc.
  simpl in *. inversion Hsort' as [|? ? _ Hall]; subst. rewrite Forall_forall in Hall.
  apply elem_of_cons in Hq as [->|Hq]; [done|]. by eapply crosses_better, Hall.
Qed.

Lemma spec_add_ok bk a cid coid tid s price qty :
  refines bk a → valid_new a cid coid s price qty → book_ok a →
  book_ok (spec_add a cid coid tid s price qty).1.
Proof.
  intros Href Hv [Hu Hp]. pose proof Hv as (Hs & _ & _ & Hq & _).
  pose proof (opp_tradable s) as Hos.
  destruct (match_side cid coid tid s price (u32 (sb_next_id a)) (sb_side a (opp s)) qty)
    as [[other lv] ev] eqn:Em.
  rewrite (spec_add_eq _ _ _ _ _ _ _ _ _ _ Em). cbv zeta.
  destruct (refines_level_prices bk a (opp s) Href Hos) as (_ & Hne & Hsort).
  destruct (match_side_suffix _ _ _ _ _ _ oi_side _ _ _ _ _ (λ _ _, eq_refl) Hne Em) as [[k Ek] _].
  pose proof (match_side_positive _ _ _ _ _ _ _ _ _ _ _ Hne Em) as Hpos.
  rewrite (uncrossed_side _ s Hs), Ek in Hu. setoid_rewrite elem_of_app in Hu.
  rewrite (positive_side _ s Hs) in Hp. destruct Hp as [Hp1 Hp2].
  destruct (lv =? 0) eqn:E0; [|apply Z.eqb_neq in E0]; cbn [fst]; split.
  - rewrite (uncrossed_side _ s Hs), spec_matched_same, spec_matched_opp by done.
    naive_solver.
  - rewrite (positive_side _ s Hs), spec_matched_same, spec_matched_opp by done. auto.
  - rewrite (uncrossed_side _ s Hs), sb_side_set, sb_side_set_opp by done.
    rewrite spec_matched_same, spec_matched_opp by done.
    intros p q [->|Hpin]%insert_order_prices Hqin; [|by apply Hu; auto].
    by eapply match_side_uncrossed.
  - rewrite (positive_side _ s Hs), sb_side_set, sb_side_set_opp by done.
    rewrite spec_matched_same, spec_matched_opp by done. split; [|by auto].
    intros d. rewrite insert_order_orders, elem_of_cons. intros [->|Hd]; [|by auto].
    simpl. destruct (match_side_leaves _ _ _ _ _ _ _ _ _ _ _ Hne Em); [lia| |lia].
    intros x Hx. specialize (Hp2 x Hx). lia.
Qed.

Lemma spec_cancel_ok a cid oid tid : book_ok a → book_ok (spec_cancel a cid oid tid).1.
Proof.
  intros [Hu Hp]. unfold spec_cancel. destruct (find_order a cid oid); [|done]. simpl. split.
  - intros b k Hb Hk. apply Hu; by eapply remove_where_sub.
  - intros d. unfold sb_orders, sb_levels. simpl. rewrite level_orders_app, elem_of_app.
    intros Hd. apply Hp. unfold sb_orders, sb_levels. rewrite level_orders_app, elem_of_app.
    destruct Hd as [[? _]%remove_where_sub|[? _]%remove_where_sub]; auto.
Qed.

(** ** Sequences of requests *)
Inductive BookRequest :=
  | ReqNew (client_id : ClientId) (order_id : OrderId) (side : Side.t) (price : Price)
      (qty : Qty)
  | ReqCancel (client_id : ClientId) (order_id : OrderId).

Definition book_step (tid : TickerId) (bk : MEOrderBook) (out : list Event) (r : BookRequest)
  : Res (MEOrderBook * list Event) :=
  match r with
  | ReqNew c i s p q => add bk out c i tid s p q
  | ReqCancel c i => cancel bk out c i tid
  end.
Fixpoint book_run (tid : TickerId) (bk : MEOrderBook) (out : list Event)
    (rs : list BookRequest) : Res (MEOrderBook * list Event) :=
  match rs with
  | [] => Ok (bk, out)
  | r :: rs => '(bk, out) ← book_step tid bk out r; book_run tid bk out rs
  end.

Definition spec_step (tid : TickerId) (a : SpecBook) (r : BookRequest)
  : SpecBook * list Event :=
  match r with
  | ReqNew c i s p q => spec_add a c i tid s p q
  | ReqCancel c i => spec_cancel a c i tid
  end.
Fixpoint spec_run (tid : TickerId) (a : SpecBook) (rs : list BookRequest)
  : SpecBook * list Event :=
  match rs with
  | [] => (a, [])
  | r :: rs =>
      let '(a1, ev1) := spec_step tid a r in
      let '(a2, ev2) := spec_run tid a1 rs in (a2, ev1 ++ ev2)
  end.

Definition valid_req (a : SpecBook) (r : BookRequest) : Prop :=
  match r with
  | ReqNew c i s p q => valid_new a c i s p q
  | ReqCancel c i => 0 ≤ c ∧ oid_ok i
  end.
#[export] Instance valid_req_dec a r : Decision (valid_req a r).
Proof. destruct r; simpl; unfold oid_ok; apply _. Defined.

Fixpoint valid_run (tid : TickerId) (a : SpecBook) (rs : list BookRequest) : Prop :=
  match rs with
  | [] => True
  | r :: rs => valid_req a r ∧ valid_run tid (spec_step tid a r).1 rs
  end.
#[export] Instance valid_run_dec tid a rs : Decision (valid_run tid a rs).
Proof. revert a. induction rs as [|r rs IH]; intros a; simpl; apply _. Defined.

Lemma book_step_spec tid bk a out r :
  refines bk a → valid_req a r →
  ∃ bk', book_step tid bk out r = Ok (bk', out ++ (spec_step tid a r).2) ∧
         refines bk' (spec_step tid a r).1.
Proof.
  destruct r; simpl; intros Href Hv; [by apply add_spec|].
  destruct Hv. by apply cancel_spec.
Qed.

Lemma spec_step_ok tid bk a r :
  refines bk a → valid_req a r → book_ok a → book_ok (spec_step tid a r).1.
Proof. destruct r; simpl; intros; [by eapply spec_add_ok|by apply spec_cancel_ok]. Qed.

Lemma book_ok_new : book_ok SpecBook_new.
Proof. split; intros ?; unfold sb_orders, level_orders; simpl; set_solver. Qed.

Lemma book_run_spec tid bk a out rs :
  refines bk a → book_ok a → valid_run tid a rs →
  ∃ bk', book_run tid bk out rs = Ok (bk', out ++ (spec_run tid a rs).2) ∧
         refines bk' (spec_run tid a rs).1 ∧ book_ok (spec_run tid a rs).1.
Proof.
  revert bk a out. induction rs as [|r rs IH]; intros bk a out Href Hok Hv; simpl.
  - exists bk. rewrite app_nil_r. done.
  - destruct Hv as [Hr Hv]. destruct (book_step_spec tid bk a out r Href Hr) as (bk1 & -> & Href1).
    pose proof (spec_step_ok tid bk a r Href Hr Hok) as Hok1. cbn [mbind Res_bind].
    destruct (spec_step tid a r) as [a1 ev1]. simpl in *.
    destruct (IH bk1 a1 (out ++ ev1) Href1 Hok1 Hv) as (bk2 & -> & Href2 & Hok2).
    destruct (spec_run tid a1 rs) as [a2 ev2]. exists bk2. by rewrite <-app_assoc.
Qed.

Lemma spec_run_snoc t a rs br :
  spec_run t a (rs ++ [br]) =
  ((spec_step t (spec_run t a rs).1 br).1,
   (spec_run t a rs).2 ++ (spec_step t (spec_run t a rs).1 br).2).
Proof.
  revert a. induction rs as [|x rs IH]; intros a; cbn [app spec_run].
  - cbn [fst snd app]. destruct (spec_step t a br). by rewrite app_nil_r.
  - destruct (spec_step t a x) as [a1 ev1]. rewrite IH.
    destruct (spec_run t a1 rs) as [a2 ev2]. cbn [fst snd]. by rewrite app_assoc.
Qed.

Lemma valid_run_app t a rs rs' :
  valid_run t a (rs ++ rs') ↔ valid_run t a rs ∧ valid_run t (spec_run t a rs).1 rs'.
Proof.
  revert a. induction rs as [|r rs IH]; intros a; cbn [app valid_run spec_run]; [simpl; tauto|].
  rewrite IH. destruct (spec_step t a r) as [a1 ev1]. cbn [fst].
  destruct (spec_run t a1 rs). cbn [fst]. tauto.
Qed.
