(* ===== verification/Sessions.v ===== *)
(** * Sessions: traffic that the exchange's book is built for

    [valid_run] asks of every request that the book can take it in the state it meets.
    [tame] asks only about the requests themselves — identifiers in range, order ids used
    once, prices in a narrow band, not too many orders — and implies [valid_run] whatever
    the requests do to the book. *)
From S2P Require Import Prelude Types PriceLevels BookInv LevelListSpec LevelsAbs MEOrderBook.
From S2P Require Import BookSpec BookMatch MEBookRefine MEBookSpec BookProps.

(** ** What a request adds to the book *)
Lemma spec_add_sub bk a cid coid tid s price qty :
  refines bk a → valid_new a cid coid s price qty →
  let a' := (spec_add a cid coid tid s price qty).1 in
  (∀ p, p ∈ (sb_levels a').*1 → p = price ∨ p ∈ (sb_levels a).*1) ∧
  (order_key <$> sb_orders a') ⊆+ (cid, coid) :: (order_key <$> sb_orders a).
Proof.
  intros [G HG] Hv. pose proof Hv as (Hs & _).
  destruct (match_side cid coid tid s price (u32 (sb_next_id a)) (sb_side a (opp s)) qty)
    as [[other lv] ev] eqn:Em.
  destruct (matched_sub bk G a cid coid tid s price qty HG Hv other lv ev _ Em order_key
    (λ _ _, eq_refl)) as [Hlev Hord].
  rewrite (spec_add_eq _ _ _ _ _ _ _ _ _ _ Em). cbv zeta.
  set (a1 := spec_matched a s other) in *.
  assert (∀ p, p ∈ (sb_levels a1).*1 → p ∈ (sb_levels a).*1) as Hlev'.
  { intros p Hp. by eapply elem_of_submseteq. }
  destruct (lv =? 0); cbn [fst]; [split; [auto|by apply submseteq_cons]|].
  set (d := mkOrderInfo _ _ _ _ _ _ _ _). split.
  - intros p. rewrite (sb_levels_perm _ s Hs), sb_side_set, sb_side_set_opp by done.
    rewrite fmap_app, elem_of_app. intros [[->|Hp]%insert_order_prices|Hp]; [by left|..];
      right; apply Hlev'; rewrite (sb_levels_perm _ s Hs), fmap_app, elem_of_app; auto.
  - unfold sb_orders.
    rewrite (level_orders_perm _ _ (sb_levels_perm _ s Hs)), sb_side_set, sb_side_set_opp by done.
    rewrite level_orders_app, insert_order_orders. cbn [fmap list_fmap app].
    apply submseteq_skip. rewrite <-level_orders_app.
    rewrite <-(level_orders_perm _ _ (sb_levels_perm a1 s Hs)). exact Hord.
Qed.

Lemma next_priority_range p l : 0 ≤ next_priority p l < 2 ^ 64.
Proof.
  unfold next_priority. destruct (list_find _ _) as [[? [? ds]]|]; [|done].
  destruct (last ds); [apply u64_range|done].
Qed.

Lemma insert_into_book a s d : tradable s →
  sb_orders (sb_set a s (insert_order s d (sb_side a s))) ≡ₚ d :: sb_orders a.
Proof.
  intros Hs. unfold sb_orders.
  rewrite (level_orders_perm _ _ (sb_levels_perm _ s Hs)), sb_side_set, sb_side_set_opp by done.
  rewrite level_orders_app, insert_order_orders. cbn [app]. apply Permutation_skip.
  by rewrite <-level_orders_app, <-(level_orders_perm _ _ (sb_levels_perm a s Hs)).
Qed.

(** The orders of the book after a NEW request: those of before, some with less left, and
    perhaps the new one. *)
Lemma spec_add_orders bk a c i t s p q d :
  refines bk a → valid_new a c i s p q → d ∈ sb_orders (spec_add a c i t s p q).1 →
  (∃ d0, d0 ∈ sb_orders a ∧ oi_set_qty 0 d = oi_set_qty 0 d0) ∨
  ∃ lv prio, d = mkOrderInfo t c i (sb_next_id a) s p lv prio ∧ 0 ≤ prio < 2 ^ 64.
Proof.
  intros [G HG] Hv. pose proof Hv as (Hs & _).
  destruct (match_side c i t s p (u32 (sb_next_id a)) (sb_side a (opp s)) q)
    as [[other lv] ev] eqn:Em.
  destruct (matched_sub bk G a c i t s p q HG Hv other lv ev _ Em (oi_set_qty 0)) as [_ Hsub];
    [done|].
  assert (∀ d', d' ∈ sb_orders (spec_matched a s other) →
    ∃ d0, d0 ∈ sb_orders a ∧ oi_set_qty 0 d' = oi_set_qty 0 d0) as Hold.
  { intros d' Hd'. apply (list_elem_of_fmap_2 (oi_set_qty 0)) in Hd'.
    apply (elem_of_submseteq _ _ _ Hd') in Hsub. apply list_elem_of_fmap in Hsub as (d0 & ? & ?).
    by exists d0. }
  rewrite (spec_add_eq _ _ _ _ _ _ _ _ _ _ Em). cbv zeta.
  destruct (lv =? 0); cbn [fst]; [by left; apply Hold|].
  rewrite insert_into_book by done. intros [->|Hd]%elem_of_cons; [right|left; by apply Hold].
  eexists _, _. split; [reflexivity|apply next_priority_range].
Qed.

Lemma spec_cancel_sub a cid oid tid :
  let a' := (spec_cancel a cid oid tid).1 in
  (∀ p, p ∈ (sb_levels a').*1 → p ∈ (sb_levels a).*1) ∧
  (order_key <$> sb_orders a') ⊆+ (order_key <$> sb_orders a).
Proof.
  unfold spec_cancel. destruct (find_order a cid oid); cbn [fst]; [|done]. split.
  - intros p. unfold sb_levels. cbn [sb_bids sb_asks]. rewrite !fmap_app, !elem_of_app.
    intros [Hp|Hp]; [left|right]; by eapply remove_where_sub.
  - unfold sb_orders, sb_levels. cbn [sb_bids sb_asks]. rewrite !level_orders_app, !fmap_app.
    apply submseteq_app; apply remove_where_ids.
Qed.

(** ** Counting levels *)
Lemma better_sorted_NoDup s (l : list Z) : StronglySorted (better s) l → NoDup l.
Proof.
  induction 1 as [|x l _ IH Hx]; constructor; [|done].
  intros Hin. rewrite Forall_forall in Hx. specialize (Hx x Hin). by eapply better_asym.
Qed.

Lemma NoDup_in_range (l : list Z) lo hi :
  NoDup l → (∀ x, x ∈ l → lo ≤ x ≤ hi) → lo ≤ hi → Z.of_nat (length l) ≤ hi - lo + 1.
Proof.
  intros Hnd Hl Hlh. assert (l ⊆+ seqZ lo (hi - lo + 1)) as Hsub%submseteq_length.
  { apply NoDup_submseteq; [done|]. intros x Hx. apply elem_of_seqZ. specialize (Hl x Hx). lia. }
  rewrite length_seqZ in Hsub. lia.
Qed.

(** A band of at most 127 non-negative prices: two sides of it fit the 255 levels of the
    pool, and no two of its prices share an index. *)
Definition band (lo hi : Price) : Prop := 0 ≤ lo ∧ lo ≤ hi ∧ hi < lo + 127 ∧ hi < 2 ^ 63.

Lemma band_index lo hi p q :
  band lo hi → lo ≤ p ≤ hi → lo ≤ q ≤ hi → priceToIndex p = priceToIndex q → p = q.
Proof.
  intros (H0 & _ & Hw & Hb) Hp Hq. unfold priceToIndex, ME_MAX_PRICE_LEVELS.
  rewrite !u64_id by lia. pose proof (Z.div_mod p 256). pose proof (Z.div_mod q 256). lia.
Qed.

Lemma band_levels bk a lo hi :
  refines bk a → band lo hi → (∀ p, p ∈ (sb_levels a).*1 → lo ≤ p ≤ hi) →
  Z.of_nat (length (sb_levels a)) + 2 ≤ ME_MAX_PRICE_LEVELS.
Proof.
  intros Href (H0 & Hlh & Hw & _) Hp.
  assert (∀ s, tradable s → Z.of_nat (length (sb_side a s)) ≤ 127) as Hside.
  { intros s Hs. destruct (refines_level_prices bk a s Href Hs) as (_ & _ & Hsort).
    rewrite <-(length_fmap fst).
    pose proof (NoDup_in_range _ lo hi (better_sorted_NoDup s _ Hsort)) as H. simpl in H.
    assert (Z.of_nat (length (sb_side a s).*1) ≤ hi - lo + 1); [|lia]. apply H; [|done].
    intros x Hx. apply Hp. rewrite (sb_levels_perm a s Hs), fmap_app, elem_of_app. by left. }
  pose proof (Hside Side.BUY (or_introl eq_refl)). pose proof (Hside Side.SELL (or_intror eq_refl)).
  unfold sb_levels, ME_MAX_PRICE_LEVELS, sb_side in *. simpl in *. rewrite length_app. lia.
Qed.

(** ** Tame sessions *)
Definition new_key (r : BookRequest) : option (ClientId * OrderId) :=
  match r with ReqNew c i _ _ _ => Some (c, i) | ReqCancel _ _ => None end.
Definition new_keys (rs : list BookRequest) : list (ClientId * OrderId) := omap new_key rs.

Definition request_ok (lo hi : Price) (r : BookRequest) : Prop :=
  match r with
  | ReqNew c i s p q =>
      tradable s ∧ client_ok c ∧ oid_ok i ∧ 0 ≤ q < 2 ^ 32 ∧ lo ≤ p ≤ hi
  | ReqCancel c i => 0 ≤ c ∧ oid_ok i
  end.

#[export] Instance request_ok_dec lo hi r : Decision (request_ok lo hi r).
Proof. destruct r; unfold request_ok, tradable, client_ok, oid_ok; apply _. Defined.

Record tame (lo hi : Price) (rs : list BookRequest) : Prop := {
  tm_band : band lo hi;
  tm_ok : Forall (request_ok lo hi) rs;
  tm_once : NoDup (new_keys rs);
  tm_few : Z.of_nat (length (new_keys rs)) + 2 ≤ ME_MAX_ORDER_IDS
}.

(** Requests are taken one by one from any book whose orders are among [seen]. *)
Lemma tame_valid_from lo hi tid bk a seen rs :
  band lo hi → refines bk a → (∀ p, p ∈ (sb_levels a).*1 → lo ≤ p ≤ hi) →
  (order_key <$> sb_orders a) ⊆+ seen → NoDup (seen ++ new_keys rs) →
  Z.of_nat (length (seen ++ new_keys rs)) + 2 ≤ ME_MAX_ORDER_IDS →
  Forall (request_ok lo hi) rs → valid_run tid a rs.
Proof.
  intros Hband. revert bk a seen. induction rs as [|r rs IH]; intros bk a seen Href Hp Hk Hnd Hn Hok;
    [done|]. apply Forall_cons in Hok as [Hr Hok].
  assert (valid_req a r) as Hv.
  { destruct r as [c i s p q|c i]; [|done]. destruct Hr as (Hs & Hc & Hi & Hq & Hpr).
    change (new_keys (ReqNew c i s p q :: rs)) with ((c, i) :: new_keys rs) in *.
    rewrite length_app in Hn. simpl in Hn.
    refine (conj Hs (conj Hc (conj Hi (conj Hq (conj _ (conj _ (conj _ _)))))));
      [| | |by apply (band_levels bk a lo hi)].
    - intros Hin. apply NoDup_app in Hnd as (_ & Hnd & _). apply (Hnd (c, i)); [|by left].
      by eapply elem_of_submseteq.
    - apply Forall_forall. intros p' Hp'. apply (band_index lo hi); auto.
    - apply submseteq_length in Hk. rewrite length_fmap in Hk. unfold ME_MAX_ORDER_IDS in *. lia. }
  split; [done|]. destruct (book_step_spec tid bk a [] r Href Hv) as (bk' & _ & Href').
  destruct r as [c i s p q|c i]; cbn [spec_step] in *.
  - destruct (spec_add_sub bk a c i tid s p q Href Hv) as [Hlev Hord].
    apply (IH bk' _ ((c, i) :: seen)); try done.
    + intros p' Hp'. destruct (Hlev p' Hp') as [->|]; [apply Hr|by apply Hp].
    + rewrite Hord. by apply submseteq_skip.
    + rewrite <-app_comm_cons, Permutation_middle. exact Hnd.
    + rewrite <-app_comm_cons, Permutation_middle. exact Hn.
  - destruct (spec_cancel_sub a c i tid) as [Hlev Hord].
    apply (IH bk' _ seen); try done; [auto|]. by rewrite Hord.
Qed.

Lemma tame_valid lo hi tid rs : tame lo hi rs → valid_run tid SpecBook_new rs.
Proof.
  intros [Hb Hok Hnd Hn]. apply (tame_valid_from lo hi tid (MEOrderBook_new tid) _ []); try done.
  - apply MEOrderBook_new_refines.
  - intros p Hp. by apply elem_of_nil in Hp.
Qed.

(** Only the requests matter, not their order. *)
Lemma tame_perm lo hi rs rs' : rs ≡ₚ rs' → tame lo hi rs → tame lo hi rs'.
Proof. intros E [Hb Hok Hnd Hn]. unfold new_keys in *. rewrite E in *. by split. Qed.
