(* ===== verification/BookTheorems.v ===== *)
(** * BookTheorems: the theorems about the exchange's order book

    Each theorem is about [MEOrderBook]'s [add] and [cancel] as the program runs them;
    the proofs combine the refinement of [MEBookSpec] with [BookProps]. *)
From S2P Require Import Prelude Types MemPool Ring PriceLevels BookInv LevelsAbs MEOrderBook.
From S2P Require Import BookSpec BookMatch MEBookRefine MEBookSpec BookProps.

(** A concrete session: two sellers at two prices, a second order behind the first,
    a buyer that takes one and a half of them, and a cancel. *)
Definition demo : list BookRequest :=
  [ReqNew 1 10 Side.SELL 101 5; ReqNew 2 20 Side.SELL 101 7; ReqNew 3 30 Side.SELL 100 4;
   ReqNew 4 40 Side.BUY 101 6; ReqCancel 2 20; ReqCancel 9 9].

Lemma demo_valid n : valid_run 0 SpecBook_new (take n demo).
Proof.
  assert (valid_run 0 SpecBook_new demo) as H by (apply (bool_decide_unpack _); by vm_compute).
  revert H. generalize SpecBook_new. revert n.
  induction demo as [|r rs IH]; intros [|n] a; simpl; [done..|]. intros [Hr H]. auto.
Qed.

(** A book reached by a run from the empty book. *)
Lemma demo_reached n :
  ∃ bk, refines bk (spec_run 0 SpecBook_new (take n demo)).1 ∧
        book_ok (spec_run 0 SpecBook_new (take n demo)).1.
Proof.
  destruct (book_run_spec 0 (MEOrderBook_new 0) SpecBook_new [] (take n demo))
    as (bk & _ & H); eauto using MEOrderBook_new_refines, demo_valid.
  split; intros ?; unfold sb_orders, level_orders; simpl; set_solver.
Qed.

(** C1: [MEOrderBook::add] implements the reference book: on every request the book is
    built for it succeeds, sends exactly the accept, fill, trade, cancel, modify and add
    messages of [spec_add] in that order, and leaves a well-formed book (rings, hash map,
    order-id map and pools included) that holds the reference book after [spec_add]. *)
Theorem add_refines bk a out cid coid tid s price qty :
  refines bk a → valid_new a cid coid s price qty →
  ∃ bk', add bk out cid coid tid s price qty =
           Ok (bk', out ++ (spec_add a cid coid tid s price qty).2) ∧
         refines bk' (spec_add a cid coid tid s price qty).1.
Proof. apply add_spec. Qed.

Lemma add_refines_witness :
  ∃ bk bk', refines bk (spec_run 0 SpecBook_new (take 3 demo)).1 ∧
    add bk [] 4 40 0 Side.BUY 101 6 =
      Ok (bk', [] ++ (spec_add (spec_run 0 SpecBook_new (take 3 demo)).1 4 40 0
                        Side.BUY 101 6).2).
Proof.
  destruct (demo_reached 3) as (bk & Hbk & _).
  destruct (add_refines bk _ [] 4 40 0 Side.BUY 101 6 Hbk) as (bk' & H & _).
  - apply (bool_decide_unpack _). by vm_compute.
  - by exists bk, bk'.
Defined.

(** C25: [MEOrderBook::cancel] implements the reference book: it answers every cancel
    whose order id indexes the order-id map (any client id), rejects it when the client
    has no such live order, and otherwise removes exactly that order, frees its block and
    its level if it was the last one there, and reports its open quantity. *)
Theorem cancel_refines bk a out cid oid tid :
  refines bk a → 0 ≤ cid → oid_ok oid →
  ∃ bk', cancel bk out cid oid tid = Ok (bk', out ++ (spec_cancel a cid oid tid).2) ∧
         refines bk' (spec_cancel a cid oid tid).1.
Proof. apply cancel_spec. Qed.

Lemma cancel_refines_witness :
  ∃ bk bk', refines bk (spec_run 0 SpecBook_new (take 4 demo)).1 ∧
    cancel bk [] 2 20 0 = Ok (bk', [] ++ (spec_cancel (spec_run 0 SpecBook_new
                                            (take 4 demo)).1 2 20 0).2).
Proof.
  destruct (demo_reached 4) as (bk & Hbk & _).
  destruct (cancel_refines bk _ [] 2 20 0 Hbk) as (bk' & H & _).
  - lia.
  - by vm_compute.
  - by exists bk, bk'.
Defined.

(** C2: A session: from the empty book, any sequence of requests that the book is built
    for runs without a fault, sends exactly the messages of the reference book, and ends
    in a well-formed book that is not crossed (every bid is below every ask) and in which
    every resting order has a positive quantity. *)
Theorem book_session tid rs :
  valid_run tid SpecBook_new rs →
  ∃ bk', book_run tid (MEOrderBook_new tid) [] rs =
           Ok (bk', (spec_run tid SpecBook_new rs).2) ∧
    refines bk' (spec_run tid SpecBook_new rs).1 ∧
    uncrossed (spec_run tid SpecBook_new rs).1 ∧
    positive (spec_run tid SpecBook_new rs).1.
Proof.
  intros Hv. destruct (book_run_spec tid (MEOrderBook_new tid) SpecBook_new [] rs)
    as (bk' & H & Href & []); eauto 10 using MEOrderBook_new_refines.
  split; intros ?; unfold sb_orders, level_orders; simpl; set_solver.
Qed.

Lemma book_session_witness :
  ∃ bk', book_run 0 (MEOrderBook_new 0) [] demo =
           Ok (bk', (spec_run 0 SpecBook_new demo).2) ∧
    refines bk' (spec_run 0 SpecBook_new demo).1 ∧
    uncrossed (spec_run 0 SpecBook_new demo).1 ∧
    positive (spec_run 0 SpecBook_new demo).1.
Proof. apply (book_session 0 demo). exact (demo_valid 6). Defined.

(** Everything the next theorems need about one [add]. *)
Lemma add_matched bk a out cid coid tid s price qty :
  refines bk a → valid_new a cid coid s price qty →
  ∃ bk' other lv ev,
    add bk out cid coid tid s price qty =
      Ok (bk', out ++ (spec_add a cid coid tid s price qty).2) ∧
    match_side cid coid tid s price (u32 (sb_next_id a)) (sb_side a (opp s)) qty
      = (other, lv, ev) ∧
    Forall (λ pd, pd.2 ≠ []) (sb_side a (opp s)) ∧ tradable s.
Proof.
  intros Href Hv. pose proof Hv as [Hs _].
  destruct (add_spec bk a out cid coid tid s price qty Href Hv) as (bk' & H & _).
  destruct (match_side _ _ _ _ _ _ _ _) as [[other lv] ev] eqn:Em.
  destruct (refines_level_prices bk a (opp s) Href (opp_tradable s)) as (_ & Hne & _).
  by exists bk', other, lv, ev.
Qed.

Lemma hits_add a cid coid tid s price qty other lv ev :
  match_side cid coid tid s price (u32 (sb_next_id a)) (sb_side a (opp s)) qty
    = (other, lv, ev) →
  hits (spec_add a cid coid tid s price qty).2 = hits ev ∧
  trades (spec_add a cid coid tid s price qty).2 = trades ev.
Proof.
  intros Em. rewrite (spec_add_eq _ _ _ _ _ _ _ _ _ _ Em). cbv zeta.
  set (acc := SendResponse _).
  assert (∀ ev', hits (acc :: ev') = hits ev' ∧ trades (acc :: ev') = trades ev') as Hacc.
  { done. }
  destruct (lv =? 0); cbn [snd]; [apply Hacc|].
  destruct (Hacc (ev ++ [SendUpdate (mkMEMarketUpdate MarketUpdateType.ADD (sb_next_id a) tid s
    price lv (next_priority price (sb_side (spec_matched a s other) s)))])) as [-> ->].
  rewrite hits_app, trades_app. split; by rewrite <-(app_nil_r (_ ev)) at 2.
Qed.

(** No trade through a limit: every execution an [add] prints is at the price of a
    resting order that the incoming limit accepts, for a positive quantity, and together
    the prints are at most the quantity of the request. *)
Theorem trades_within_limit bk a out cid coid tid s price qty :
  refines bk a → valid_new a cid coid s price qty →
  ∃ bk' ev, add bk out cid coid tid s price qty = Ok (bk', out ++ ev) ∧
    Forall (λ u, crosses s price (mu_price u) = true) (trades ev) ∧
    0 ≤ traded_qty ev ≤ qty.
Proof.
  intros Href Hv. pose proof Hv as (_ & _ & _ & Hq & _).
  destruct (add_matched bk a out cid coid tid s price qty Href Hv)
    as (bk' & other & lv & ev & Hadd & Em & Hne & Hs).
  do 2 eexists. split; [exact Hadd|]. unfold traded_qty.
  destruct (hits_add _ _ _ _ _ _ _ _ _ _ Em) as [_ ->].
  destruct (refines_level_prices bk a _ Href (opp_tradable s)) as (Hp & _ & _).
  split.
  - eapply match_side_limit; [done..|]. eapply Forall_impl; [exact Hp|]. intros pd Hpd.
    eapply Forall_impl; [exact Hpd|]. by intros d [? _].
  - destruct (match_side_conserve _ _ _ _ _ _ _ _ _ _ _ Hne Em) as [_ Ht].
    unfold traded_qty in Ht. rewrite Ht.
    destruct Href as [G HG].
    destruct (leaves_range _ _ _ _ _ _ _ _ _ _ _ _ _ HG Hq Em).
    destruct (match_side_leaves _ _ _ _ _ _ _ _ _ _ _ Hne Em); [lia| |lia].
    rewrite <-(refines_side _ _ _ _ HG (opp_tradable s)), level_orders_abs.
    intros d (p & -> & Hpin)%list_elem_of_fmap.
    apply (info_qty_range _ _ p (rf_rep _ _ _ HG)).
    rewrite (glevels_perm G _ (opp_tradable s)), gorders_app. set_solver + Hpin.
Qed.

Lemma trades_within_limit_witness :
  ∃ bk bk' ev, refines bk (spec_run 0 SpecBook_new (take 3 demo)).1 ∧
    add bk [] 4 40 0 Side.BUY 101 6 = Ok (bk', [] ++ ev) ∧ 0 ≤ traded_qty ev ≤ 6.
Proof.
  destruct (demo_reached 3) as (bk & Hbk & _).
  destruct (trades_within_limit bk _ [] 4 40 0 Side.BUY 101 6 Hbk) as (bk' & ev & H & _ & Hp).
  - apply (bool_decide_unpack _). by vm_compute.
  - by exists bk, bk', ev.
Defined.

(** C30: Conservation: an [add] neither creates nor destroys quantity. What rests on the
    two sides afterwards, plus twice what was traded (once for the incoming order and
    once for the resting ones), is what rested before plus the incoming quantity. *)
Theorem quantity_conserved bk a out cid coid tid s price qty :
  refines bk a → valid_new a cid coid s price qty →
  ∃ bk' a' ev, add bk out cid coid tid s price qty = Ok (bk', out ++ ev) ∧ refines bk' a' ∧
    total_qty (sb_orders a') + 2 * traded_qty ev = total_qty (sb_orders a) + qty.
Proof.
  intros Href Hv. pose proof Hv as [Hs _].
  destruct (add_spec bk a out cid coid tid s price qty Href Hv) as (bk' & H & Href').
  exists bk', (spec_add a cid coid tid s price qty).1, (spec_add a cid coid tid s price qty).2.
  split; [exact H|]. split; [exact Href'|].
  destruct (match_side cid coid tid s price (u32 (sb_next_id a)) (sb_side a (opp s)) qty)
    as [[other lv] ev] eqn:Em.
  unfold traded_qty. destruct (hits_add _ _ _ _ _ _ _ _ _ _ Em) as [_ ->].
  rewrite (spec_add_eq _ _ _ _ _ _ _ _ _ _ Em). cbv zeta.
  destruct (refines_level_prices bk a (opp s) Href (opp_tradable s)) as (_ & Hne & _).
  destruct (match_side_conserve _ _ _ _ _ _ _ _ _ _ _ Hne Em) as [Hc Ht].
  unfold traded_qty in Ht. unfold sb_orders.
  rewrite !(level_orders_perm _ _ (sb_levels_perm _ s Hs)).
  destruct (lv =? 0) eqn:E0; [apply Z.eqb_eq in E0|]; cbn [fst];
    rewrite ?sb_side_set, ?sb_side_set_opp, spec_matched_same, spec_matched_opp by done;
    rewrite !level_orders_app, !total_qty_app, ?insert_order_orders, ?total_qty_cons;
    simpl; lia.
Qed.

Lemma quantity_conserved_witness :
  ∃ bk bk' a' ev, refines bk (spec_run 0 SpecBook_new (take 3 demo)).1 ∧
    add bk [] 4 40 0 Side.BUY 101 6 = Ok (bk', [] ++ ev) ∧
    total_qty (sb_orders a') + 2 * traded_qty ev = 16 + 6.
Proof.
  destruct (demo_reached 3) as (bk & Hbk & _).
  destruct (quantity_conserved bk _ [] 4 40 0 Side.BUY 101 6 Hbk)
    as (bk' & a' & ev & H & _ & Hp).
  - apply (bool_decide_unpack _). by vm_compute.
  - exists bk, bk', a', ev. split; [exact Hbk|]. split; [exact H|]. exact Hp.
Defined.

(** ** Where the book departs from its reference

    The hypotheses of [valid_new] are needed: here are runs that break one of them. *)

(** Two prices 256 apart share a cell of the hash map.  The second sell joins the level
    of the first one, and the rest of a buy at the first price joins the sell side. *)
Definition collision : list BookRequest :=
  [ReqNew 1 10 Side.SELL 100 5; ReqNew 2 20 Side.SELL 356 5; ReqNew 3 30 Side.BUY 100 10].

Definition fills (ev : list Event) : list MEClientResponse :=
  filter (λ r, rs_type r = ClientResponseType.FILLED) (omap response_of ev).

(** Hash collision: after a sell at 100, a sell at 356 and a buy of twice the first
    quantity at 100, the remaining buy of 5 at 100 rests where no sell will find it: the
    book has no bid, and a new sell at 100 is not executed. *)
Theorem price_index_collision :
  priceToIndex 100 = priceToIndex 356 ∧
  ∃ bk ev, book_run 0 (MEOrderBook_new 0) [] collision = Ok (bk, ev) ∧
    bids_by_price_ (ob_levels bk) = None ∧
    last (updates ev) = Some (mkMEMarketUpdate MarketUpdateType.ADD 3 0 Side.BUY 100 5 3) ∧
    ∃ bk' ev', book_step 0 bk [] (ReqNew 4 40 Side.SELL 100 5) = Ok (bk', ev') ∧
      fills ev' = [].
Proof.
  split; [done|].
  assert (match book_run 0 (MEOrderBook_new 0) [] collision with
    | Ok (bk, ev) => bids_by_price_ (ob_levels bk) = None ∧
        last (updates ev) = Some (mkMEMarketUpdate MarketUpdateType.ADD 3 0 Side.BUY 100 5 3) ∧
        match book_step 0 bk [] (ReqNew 4 40 Side.SELL 100 5) with
        | Ok (_, ev') => fills ev' = [] | Err _ => False end
    | Err _ => False end) as H by (vm_compute; done).
  destruct (book_run _ _ _ _) as [[bk ev]|]; [|done]. destruct H as (H1 & H2 & H3).
  destruct (book_step _ _ _ _) as [[bk' ev']|] eqn:E; [|done]. eauto 10.
Qed.

(** The market order id is 64 bits wide, but [checkForMatch] takes it as a [Qty]:
    with [next_market_order_id_ = 2^32 + 5] the incoming order is accepted under
    [2^32 + 5] and its execution is reported under the id [5]. *)
Theorem market_order_id_truncated :
  ∃ bk bk' ev r1 r2 r3,
    book_step 0 (with_next_id (MEOrderBook_new 0) (2 ^ 32 + 4)) []
      (ReqNew 1 10 Side.SELL 100 5) = Ok (bk, [r1; r2]) ∧
    book_step 0 bk [] (ReqNew 2 20 Side.BUY 100 5) = Ok (bk', SendResponse r3 :: ev) ∧
    rs_type r3 = ClientResponseType.ACCEPTED ∧ rs_market_order_id r3 = 2 ^ 32 + 5 ∧
    rs_market_order_id <$> fills ev = [5; 2 ^ 32 + 4].
Proof.
  assert (match book_step 0 (with_next_id (MEOrderBook_new 0) (2 ^ 32 + 4)) []
                  (ReqNew 1 10 Side.SELL 100 5) with
    | Ok (bk, [_; _]) =>
        match book_step 0 bk [] (ReqNew 2 20 Side.BUY 100 5) with
        | Ok (_, SendResponse r3 :: ev) =>
            rs_type r3 = ClientResponseType.ACCEPTED ∧ rs_market_order_id r3 = 2 ^ 32 + 5 ∧
            rs_market_order_id <$> fills ev = [5; 2 ^ 32 + 4]
        | _ => False end
    | _ => False end) as H by (vm_compute; done).
  destruct (book_step _ (with_next_id _ _) _ _) as [[bk [|r1 [|r2 [|]]]]|]; try done.
  destruct (book_step _ bk _ _) as [[bk' [|[r3|] ev]]|] eqn:E; try done.
  destruct H as (? & ? & ?). eexists bk, bk', ev, r1, r2, r3. by split_and!.
Qed.

(** C40: An order id outside the order-id map: [cancel] checks the client id but not the
    order id, so a known client's cancel with such an id ends the process with an
    out-of-range exception, while an unknown client's is rejected. *)
Theorem unchecked_identifiers bk a out cid oid tid :
  refines bk a → ME_MAX_ORDER_IDS ≤ oid →
  (client_ok cid → cancel bk out cid oid tid = Err OutOfRange) ∧
  (ME_MAX_NUM_CLIENTS ≤ cid →
   cancel bk out cid oid tid =
     Ok (bk, out ++ [SendResponse (mkMEClientResponse ClientResponseType.CANCEL_REJECTED cid
       tid oid OrderId_INVALID Side.INVALID Price_INVALID Qty_INVALID Qty_INVALID)])).
Proof.
  intros [G HG] Hi. pose proof (rf_rep _ _ _ HG) as Hrep.
  unfold cancel. rewrite (mr_len _ _ Hrep). split.
  - intros Hc. rewrite (proj2 (Z.ltb_lt _ _)) by apply Hc. unfold cid_at.
    rewrite arr_at_Ok by by rewrite (mr_len _ _ Hrep). cbn [mbind Res_bind].
    rewrite arr_at_out; [done|]. rewrite (mr_row _ _ Hrep cid Hc). lia.
  - intros Hc. by rewrite (proj2 (Z.ltb_ge _ _)) by lia.
Qed.

Lemma unchecked_identifiers_witness :
  ∃ bk, refines bk (spec_run 0 SpecBook_new (take 3 demo)).1 ∧
    cancel bk [] 1 (2 ^ 20) 0 = Err OutOfRange.
Proof.
  destruct (demo_reached 3) as (bk & Hbk & _). exists bk. split; [exact Hbk|].
  apply (unchecked_identifiers bk _ [] 1 (2 ^ 20) 0 Hbk); unfold client_ok;
    unfold ME_MAX_ORDER_IDS, ME_MAX_NUM_CLIENTS; lia.
Defined.
