(* ===== verification/PriceTime.v ===== *)
(** * PriceTime: who is executed first

    An order's market order id is the position of its request among the new orders of the
    session, so it says when the order came in.  Every side of the book, read level by level,
    is sorted by price first and by this id second, and [MEOrderBook::add] executes against
    that queue from the front, giving every order all it can until nothing is left or the
    next price is not acceptable. *)
From S2P Require Import Prelude Types MemPool Ring PriceLevels BookInv LevelsAbs MEOrderBook.
From S2P Require Import BookSpec BookMatch MEBookRefine MEBookSpec BookProps Sessions BookTheorems.

(** ** Arrival *)
Definition is_new (r : BookRequest) : bool :=
  match r with ReqNew _ _ _ _ _ => true | ReqCancel _ _ => false end.
Definition new_orders (rs : list BookRequest) : list BookRequest :=
  filter (λ r, is_new r = true) rs.

(** The order [d] is (what is left of) the new order that came in as number
    [oi_market_order_id d] of the session [rs]. *)
Definition arrived (rs : list BookRequest) (d : OrderInfo) : Prop :=
  1 ≤ oi_market_order_id d ∧
  ∃ qty, new_orders rs !! Z.to_nat (oi_market_order_id d - 1) =
    Some (ReqNew (oi_client_id d) (oi_client_order_id d) (oi_side d) (oi_price d) qty).

(** A better price goes first, and at one price the order that came in earlier. *)
Definition ahead (s : Side.t) (d e : OrderInfo) : Prop :=
  better s (oi_price d) (oi_price e) ∨
  oi_price d = oi_price e ∧ oi_market_order_id d < oi_market_order_id e.

(** What an incoming order for [qty] units at [price] takes from the front of a queue: the
    orders it is executed against, and with how many units. *)
Fixpoint walk (s : Side.t) (price : Price) (queue : list OrderInfo) (qty : Qty)
  : list (OrderInfo * Qty) :=
  match queue with
  | [] => []
  | d :: queue =>
      if (qty =? 0) || negb (crosses s price (oi_price d)) then []
      else (d, qty `min` oi_qty d) :: walk s price queue (qty - qty `min` oi_qty d)
  end.

(** ** The queue *)
Section Queue.
Context (s : Side.t) (Hs : tradable s).
Implicit Types (l : side_levels OrderInfo) (d e : OrderInfo).

Definition price_id d : Price * OrderId := (oi_price d, oi_market_order_id d).
Definition ahead_key (x y : Price * OrderId) : Prop :=
  better s x.1 y.1 ∨ x.1 = y.1 ∧ x.2 < y.2.

Lemma ahead_keys (ds : list OrderInfo) :
  StronglySorted (ahead s) ds ↔ StronglySorted ahead_key (price_id <$> ds).
Proof.
  induction ds as [|d ds IH]; cbn [fmap list_fmap]; [split; constructor|].
  rewrite !StronglySorted_cons, IH, Forall_fmap. reflexivity.
Qed.

Lemma ahead_filter P `{∀ d, Decision (P d)} (ds : list OrderInfo) :
  StronglySorted (ahead s) ds → StronglySorted (ahead s) (filter P ds).
Proof.
  induction 1 as [|d ds Hds IH Hd]; [constructor|]. rewrite filter_cons. case_decide; [|done].
  constructor; [done|]. rewrite Forall_forall in Hd |- *. intros e [_ He]%list_elem_of_filter.
  by apply Hd.
Qed.

Lemma better_other p q : p ≠ q → ¬ better s p q → better s q p.
Proof. destruct Hs as [->| ->]; cbn [better]; lia. Qed.
Lemma better_trans p q r : better s p q → better s q r → better s p r.
Proof. destruct Hs as [->| ->]; cbn [better]; lia. Qed.

(** The order that comes in last goes behind the orders of its price and before those of
    the next. *)
Lemma insert_order_ahead d l :
  Forall (λ pd, Forall (λ e, oi_price e = pd.1) pd.2) l → StronglySorted (better s) l.*1 →
  StronglySorted (ahead s) (level_orders l) →
  (∀ e, e ∈ level_orders l → oi_market_order_id e < oi_market_order_id d) →
  StronglySorted (ahead s) (level_orders (insert_order s d l)).
Proof.
  induction l as [|[p ds] l IH]; intros Hp Hb Hl Hid; cbn [insert_order].
  { cbn. by repeat constructor. }
  rewrite level_orders_cons in Hl, Hid. apply Forall_cons in Hp as [Hds Hp]. cbn [fst snd] in Hds.
  apply StronglySorted_app in Hl as (Hdl & Hsd & Hsl).
  cbn [fmap list_fmap fst] in Hb. apply StronglySorted_cons in Hb as [Hb Hbl].
  rewrite Forall_forall in Hds. rewrite Forall_forall in Hb.
  assert (∀ e, e ∈ level_orders l → better s p (oi_price e)) as Hworse.
  { intros e (q & es & Hpd & He)%elem_of_level_orders. rewrite Forall_forall in Hp.
    pose proof (Hp _ Hpd) as Hpe. rewrite Forall_forall in Hpe. rewrite (Hpe e He).
    apply Hb, list_elem_of_fmap. by exists (q, es). }
  case_bool_decide as Ep; [|case_bool_decide as Eb]; rewrite !level_orders_cons.
  - change (d_price d) with (oi_price d) in Ep. subst p.
    rewrite <-app_assoc. cbn [app]. apply StronglySorted_app_2; [|done|].
    + intros e e' He [->|He']%elem_of_cons.
      * right. split; [by apply Hds|]. apply Hid, elem_of_app. by left.
      * by apply Hdl.
    + apply StronglySorted_cons. split; [|done]. apply Forall_forall. intros e He.
      left. by apply Hworse.
  - apply StronglySorted_app_2; [|done|].
    + intros e e' He He'. rewrite insert_order_orders in He'.
      apply elem_of_cons in He' as [->|He']; [|by apply Hdl].
      left. by rewrite (Hds e He).
    + apply IH; try done. intros e He. apply Hid, elem_of_app. by right.
  - cbn [app]. apply StronglySorted_cons. split; [|by apply StronglySorted_app_2].
    pose proof (better_other _ _ Ep Eb) as Hbd. apply Forall_forall.
    intros e [He|He]%elem_of_app; left.
    + by rewrite (Hds e He).
    + eapply better_trans; [exact Hbd|by apply Hworse].
Qed.
End Queue.

(** ** Sessions *)
Record time_ordered (rs : list BookRequest) (a : SpecBook) : Prop := {
  to_next : sb_next_id a = 1 + Z.of_nat (length (new_orders rs));
  to_arrived : ∀ d, d ∈ sb_orders a → arrived rs d;
  to_sorted : ∀ s, tradable s → StronglySorted (ahead s) (level_orders (sb_side a s))
}.

Lemma time_ordered_new : time_ordered [] SpecBook_new.
Proof.
  split; [done|by intros d ?%elem_of_nil|]. intros s [->| ->]; constructor.
Qed.

Lemma new_orders_app rs rs' : new_orders (rs ++ rs') = new_orders rs ++ new_orders rs'.
Proof. apply filter_app. Qed.

Lemma arrived_more rs rs' d : arrived rs d → arrived (rs ++ rs') d.
Proof.
  intros (H1 & qty & H). split; [done|]. exists qty. rewrite new_orders_app.
  by apply lookup_app_l_Some.
Qed.

(** Who an order is, whatever is left of it. *)
Definition ident (d : OrderInfo) : ClientId * OrderId * Side.t * Price * OrderId :=
  (oi_client_id d, oi_client_order_id d, oi_side d, oi_price d, oi_market_order_id d).

Lemma arrived_ident rs d e : ident d = ident e → arrived rs d → arrived rs e.
Proof. unfold ident, arrived. intros [= -> -> -> -> ->]. done. Qed.

Section Step.
Context (tid : TickerId) (rs : list BookRequest) (a : SpecBook) (bk : MEOrderBook).
Context (Hto : time_ordered rs a) (Href : refines bk a).

Lemma arrived_before d : d ∈ sb_orders a → oi_market_order_id d < sb_next_id a.
Proof.
  intros Hd. destruct (to_arrived _ _ Hto d Hd) as (H1 & qty & Hl).
  apply lookup_lt_Some in Hl. rewrite (to_next _ _ Hto). lia.
Qed.

(** Matching takes orders from the front of the other side. *)
Lemma matched_ordered cid coid s price moid qty other lv ev :
  tradable s →
  match_side cid coid tid s price moid (sb_side a (opp s)) qty = (other, lv, ev) →
  ∀ t, tradable t → StronglySorted (ahead t) (level_orders (sb_side (spec_matched a s other) t)).
Proof.
  intros Hs Em t Ht.
  destruct (refines_level_prices bk a _ Href (opp_tradable s)) as (_ & Hne & _).
  assert (t = s ∨ t = opp s) as [->| ->] by (destruct Hs as [->| ->], Ht as [->| ->]; auto).
  - rewrite spec_matched_same by done. by apply Hto.
  - rewrite spec_matched_opp by done. apply ahead_keys.
    destruct (match_side_suffix _ _ _ _ _ _ price_id _ _ _ _ _ (λ _ _, eq_refl) Hne Em)
      as [_ [k E]].
    apply (StronglySorted_app_1_r _ k). rewrite <-E. apply ahead_keys, Hto, opp_tradable.
Qed.

Lemma add_sorted cid coid s price qty t :
  valid_new a cid coid s price qty → tradable t →
  StronglySorted (ahead t) (level_orders (sb_side (spec_add a cid coid tid s price qty).1 t)).
Proof.
  intros Hv Ht. pose proof Hv as (Hs & _).
  destruct (match_side cid coid tid s price (u32 (sb_next_id a)) (sb_side a (opp s)) qty)
    as [[other lv] ev] eqn:Em.
  pose proof (matched_ordered _ _ _ _ _ _ _ _ _ Hs Em) as Hm.
  rewrite (spec_add_eq _ _ _ _ _ _ _ _ _ _ Em). cbv zeta.
  destruct (lv =? 0); cbn [fst]; [by apply Hm|].
  assert (t = s ∨ t = opp s) as [->| ->] by (destruct Hs as [->| ->], Ht as [->| ->]; auto).
  2: { rewrite sb_side_set_opp by done. by apply Hm. }
  destruct (refines_level_prices bk a s Href Hs) as (Hp & _ & Hb).
  rewrite sb_side_set, spec_matched_same by done. apply insert_order_ahead; try done.
  - eapply Forall_impl; [exact Hp|]. intros pd Hpd. eapply Forall_impl; [exact Hpd|]. by intros d [].
  - by apply Hto.
  - intros e He%sb_side_orders. by apply arrived_before.
Qed.

Lemma step_ordered r : valid_req a r → Z.of_nat (length rs) < 2 ^ 64 - 2 →
  time_ordered (rs ++ [r]) (spec_step tid a r).1.
Proof.
  intros Hv Hn.
  assert (Z.of_nat (length (new_orders rs)) ≤ Z.of_nat (length rs)) as Hlen
    by apply inj_le, length_filter.
  pose proof (to_next _ _ Hto) as Hnext. destruct r as [c i s p q|c i]; cbn [spec_step valid_req] in *.
  - split.
    + rewrite new_orders_app, length_app.
      change (length (new_orders [ReqNew c i s p q])) with 1%nat.
      unfold spec_add. destruct (match_side _ _ _ _ _ _ _ _) as [[other lv] ev].
      destruct (lv =? 0); cbn [fst]; rewrite ?sb_next_set; cbn [sb_next_id]; rewrite u64_id; lia.
    + intros d Hd. destruct (spec_add_orders bk a c i tid s p q d Href Hv Hd)
        as [(d0 & Hd0 & E)|(lv & prio & -> & _)].
      * apply arrived_more. destruct d, d0. injection E as -> -> -> -> -> -> ->.
        exact (to_arrived _ _ Hto _ Hd0).
      * split; [cbn; lia|]. exists q. cbn. rewrite new_orders_app, Hnext.
        rewrite lookup_app_r by lia. by replace (_ - length (new_orders rs))%nat with 0%nat by lia.
    + intros t Ht. by apply add_sorted.
  - assert (new_orders (rs ++ [ReqCancel c i]) = new_orders rs) as E.
    { by rewrite new_orders_app, app_nil_r. }
    unfold spec_cancel. destruct (find_order a c i); cbn [fst].
    2: { split; [by rewrite E| |apply Hto]. intros d Hd. by apply arrived_more, Hto. }
    split; [by rewrite E| |].
    + intros d Hd. apply arrived_more, Hto. revert Hd. unfold sb_orders, sb_levels, remove_from.
      cbn [sb_bids sb_asks]. rewrite !level_orders_app, !remove_where_orders.
      rewrite !elem_of_app, !list_elem_of_filter. tauto.
    + intros t Ht. pose proof (to_sorted _ _ Hto t Ht) as Hsort. unfold remove_from.
      unfold sb_side in *. cbn [sb_bids sb_asks] in *.
      case_bool_decide; rewrite remove_where_orders; by apply ahead_filter.
Qed.
End Step.

(** Every book a session leads to. *)
Lemma session_ordered tid rs :
  valid_run tid SpecBook_new rs → Z.of_nat (length rs) < 2 ^ 64 - 1 →
  time_ordered rs (spec_run tid SpecBook_new rs).1.
Proof.
  induction rs as [|r rs IH] using rev_ind; intros Hv Hn; [apply time_ordered_new|].
  apply valid_run_app in Hv as [Hv [Hr _]]. rewrite length_app in Hn. cbn [length] in Hn.
  rewrite spec_run_snoc. cbn [fst].
  destruct (book_run_spec tid (MEOrderBook_new tid) SpecBook_new [] rs)
    as (bk & _ & Href & _); [apply MEOrderBook_new_refines|apply book_ok_new|done|].
  apply (step_ordered tid rs _ bk); [apply IH; [done|lia]|done|done|lia].
Qed.

(** ** Executions *)

(** Matching is a walk along the queue. *)
Lemma match_side_walk cid coid tid s price moid l lv l' lv' ev :
  Forall (λ pd, pd.2 ≠ []) l →
  match_side cid coid tid s price moid l lv = (l', lv', ev) →
  Forall (λ pd, pd.2 ≠ [] ∧ Forall (λ d, oi_price d = pd.1) pd.2) l →
  hits ev = (λ x, oi_market_order_id x.1) <$> walk s price (level_orders l) lv ∧
  (λ u, (mu_price u, mu_qty u)) <$> trades ev =
    (λ x, (oi_price x.1, x.2)) <$> walk s price (level_orders l) lv.
Proof.
  revert l lv l' lv' ev. apply (match_side_ind _ _ _ _ _ _ (λ l lv l' lv' ev,
    Forall (λ pd, pd.2 ≠ [] ∧ Forall (λ d, oi_price d = pd.1) pd.2) l →
    hits ev = (λ x, oi_market_order_id x.1) <$> walk s price (level_orders l) lv ∧
    (λ u, (mu_price u, mu_qty u)) <$> trades ev =
      (λ x, (oi_price x.1, x.2)) <$> walk s price (level_orders l) lv)).
  - intros l lv Hstop Hp. assert (walk s price (level_orders l) lv = []) as ->; [|done].
    destruct l as [|[p [|d ds]] l]; [done|by apply Forall_cons in Hp as [[] _]|].
    rewrite level_orders_cons. cbn [app walk]. destruct Hstop as [->|Hstop]; [done|].
    apply Forall_cons in Hp as [[_ [Hd _]%Forall_cons] _].
    cbn [fst] in Hd. by rewrite Hd, (Hstop p (d :: ds) l eq_refl), orb_true_r.
  - intros p d ds l lv l' lv' ev H0 Hc Hle _ IH [[_ Hd] Hl]%Forall_cons. cbn [fst snd] in Hd.
    apply Forall_cons in Hd as [Hp Hd].
    destruct IH as [IH1 IH2].
    { apply Forall_app. split; [|done]. destruct ds; [by constructor|]. by apply Forall_singleton. }
    rewrite level_orders_app, level_orders_some in IH1, IH2. rewrite level_orders_cons.
    cbn [app walk]. rewrite Hp, Hc, (proj2 (Z.eqb_neq _ _) H0), Z.min_r by done.
    cbn [orb negb fmap list_fmap fst snd]. rewrite hits_app, hits_fill, trades_app, trades_fill.
    rewrite fmap_app, IH1, IH2. cbn. by rewrite Hp.
  - intros p d ds l lv H0 Hc Hlt [[_ Hd] Hl]%Forall_cons. cbn [fst snd] in Hd.
    apply Forall_cons in Hd as [Hp Hd]. rewrite level_orders_cons, hits_fill, trades_fill.
    cbn [app walk]. rewrite Hp, Hc, (proj2 (Z.eqb_neq _ _) H0), Z.min_l by lia.
    rewrite Z.sub_diag. cbn [orb negb]. assert (∀ q, walk s price q 0 = []) as -> by by intros [|? ?].
    cbn. by rewrite Hp.
Qed.

(** ** Theorems *)

(** C19: Price-time priority, over whole sessions.  After any session of valid requests
    [rs] from the empty book, the program's book lists every side in priority order: better
    prices first and, at one price, the order whose request came in earlier first, a resting
    order's market order id being the position of its request among the session's new
    orders.  The next [add] executes against the other side exactly along this list: it
    takes from every order in turn as much as it can get, never passes one over, and stops
    only when nothing of it is left or the next order's price is not acceptable ([walk]);
    the orders it reports as hit and the prices and quantities it prints are those of the
    walk. *)
Theorem price_time_priority tid rs out cid coid s price qty :
  valid_run tid SpecBook_new rs → Z.of_nat (length rs) < 2 ^ 64 - 1 →
  let a := (spec_run tid SpecBook_new rs).1 in
  valid_new a cid coid s price qty →
  (∀ t, tradable t → StronglySorted (ahead t) (level_orders (sb_side a t))) ∧
  (∀ d, d ∈ sb_orders a → arrived rs d) ∧
  ∃ bk bk' ev,
    book_run tid (MEOrderBook_new tid) [] rs = Ok (bk, (spec_run tid SpecBook_new rs).2) ∧
    refines bk a ∧ add bk out cid coid tid s price qty = Ok (bk', out ++ ev) ∧
    let executed := walk s price (level_orders (sb_side a (opp s))) qty in
    hits ev = (λ x, oi_market_order_id x.1) <$> executed ∧
    (λ u, (mu_price u, mu_qty u)) <$> trades ev = (λ x, (oi_price x.1, x.2)) <$> executed.
Proof.
  cbn zeta. intros Hrun Hn Hv. pose proof (session_ordered tid rs Hrun Hn) as [_ Harr Hsort].
  split; [exact Hsort|]. split; [exact Harr|].
  destruct (book_run_spec tid (MEOrderBook_new tid) SpecBook_new [] rs)
    as (bk & Hbk & Href & _); [apply MEOrderBook_new_refines|apply book_ok_new|done|].
  destruct (add_matched bk _ out cid coid tid s price qty Href Hv)
    as (bk' & other & lv & ev & Hadd & Em & Hne & Hs).
  eexists bk, bk', _. split; [exact Hbk|]. split; [done|]. split; [exact Hadd|].
  destruct (hits_add _ _ _ _ _ _ _ _ _ _ Em) as [-> ->].
  apply (match_side_walk _ _ _ _ _ _ _ _ _ _ _ Hne Em).
  destruct (refines_level_prices bk _ _ Href (opp_tradable s)) as (Hp & _ & _).
  apply Forall_and. split; [done|]. eapply Forall_impl; [exact Hp|]. intros pd Hpd.
  eapply Forall_impl; [exact Hpd|]. by intros d [].
Qed.

(** A buyer of 11 at 101: first the order at 100, then the two at 101 as they came in, the
    second of them in part. *)
Lemma price_time_priority_witness :
  ∃ bk bk' ev, book_run 0 (MEOrderBook_new 0) [] (take 3 demo) =
      Ok (bk, (spec_run 0 SpecBook_new (take 3 demo)).2) ∧
    add bk [] 4 40 0 Side.BUY 101 11 = Ok (bk', [] ++ ev) ∧
    hits ev = [3; 1; 2] ∧ (λ u, (mu_price u, mu_qty u)) <$> trades ev = [(100, 4); (101, 5); (101, 2)].
Proof.
  destruct (price_time_priority 0 (take 3 demo) [] 4 40 Side.BUY 101 11)
    as (_ & _ & bk & bk' & ev & H1 & _ & H2 & H3 & H4).
  - exact (demo_valid 3).
  - by vm_compute.
  - apply (bool_decide_unpack _). by vm_compute.
  - exists bk, bk', ev. split; [exact H1|]. split; [exact H2|]. split; [exact H3|exact H4].
Defined.
