(* ===== verification/MarketOrderBook.v ===== *)
(** * MarketOrderBook: the trading client's copy of the order book

    [trading/strategy/market_order.h], [market_order_book.h] and
    [market_order_book.cpp].  The structure of price levels is the one of the exchange
    ([PriceLevels]); the order-id map, the best bid and offer and the handling of market
    updates are this book's own.  The book ends every update with one call on its trade
    engine, which [onMarketUpdate] returns. *)
From S2P Require Import Prelude Types MemPool Ring PriceLevels.

(** ** Data *)

(** [struct MarketOrder]. *)
Record MarketOrder := mkMarketOrder {
  mo_order_id : OrderId;
  mo_side : Side.t;
  mo_price : Price;
  mo_qty : Qty;
  mo_priority : Priority;
  mo_prev_order : option ptr;
  mo_next_order : option ptr
}.

Definition MarketOrder_default : MarketOrder :=
  mkMarketOrder OrderId_INVALID Side.INVALID Price_INVALID Qty_INVALID Priority_INVALID
    None None.

(** An order without its links. *)
Record MarketInfo := mkMarketInfo {
  mi_order_id : OrderId;
  mi_side : Side.t;
  mi_price : Price;
  mi_qty : Qty;
  mi_priority : Priority
}.

#[export] Instance MarketInfo_eq_dec : EqDecision MarketInfo.
Proof. solve_decision. Defined.

Definition mo_info (o : MarketOrder) : MarketInfo :=
  mkMarketInfo (mo_order_id o) (mo_side o) (mo_price o) (mo_qty o) (mo_priority o).
Definition mi_set_qty (q : Qty) (d : MarketInfo) : MarketInfo :=
  mkMarketInfo (mi_order_id d) (mi_side d) (mi_price d) q (mi_priority d).

Definition mo_set_prev (p : option ptr) (o : MarketOrder) : MarketOrder :=
  mkMarketOrder (mo_order_id o) (mo_side o) (mo_price o) (mo_qty o) (mo_priority o)
    p (mo_next_order o).
Definition mo_set_next (p : option ptr) (o : MarketOrder) : MarketOrder :=
  mkMarketOrder (mo_order_id o) (mo_side o) (mo_price o) (mo_qty o) (mo_priority o)
    (mo_prev_order o) p.
Definition mo_set_qty (q : Qty) (o : MarketOrder) : MarketOrder :=
  mkMarketOrder (mo_order_id o) (mo_side o) (mo_price o) q (mo_priority o)
    (mo_prev_order o) (mo_next_order o).

#[export] Instance MarketInfo_data : OrderData MarketInfo :=
  {| d_side := mi_side; d_price := mi_price |}.
#[export, refine] Instance MarketOrder_node : OrderNode MarketOrder MarketInfo :=
  {| o_data := mo_info; o_prev := mo_prev_order; o_next := mo_next_order;
     set_prev := mo_set_prev; set_next := mo_set_next |}.
Proof. all: done. Defined.

(** [struct BBO]. *)
Record BBO := mkBBO {
  bid_price_ : Price;
  ask_price_ : Price;
  bid_qty_ : Qty;
  ask_qty_ : Qty
}.
Definition BBO_default : BBO := mkBBO Price_INVALID Price_INVALID Qty_INVALID Qty_INVALID.

#[export] Instance BBO_eq_dec : EqDecision BBO.
Proof. solve_decision. Defined.

(** The calls on the trade engine. *)
Inductive BookCall :=
  | OnTradeUpdate (u : MEMarketUpdate)
  | OnOrderBookUpdate (ticker_id : TickerId) (price : Price) (side : Side.t).

#[export] Instance BookCall_eq_dec : EqDecision BookCall.
Proof. solve_decision. Defined.

(** [class MarketOrderBook]. *)
Record MarketOrderBook := mkMarketOrderBook {
  mb_ticker_id : TickerId;
  oid_to_order_ : arr (option ptr);
  mb_levels : PriceLevels MarketOrder;
  bbo_ : BBO
}.

(** The constructor; as in the exchange, the two maps start out null here. *)
Definition MarketOrderBook_new (ticker_id : TickerId) : MarketOrderBook :=
  mkMarketOrderBook ticker_id (arr_new ME_MAX_ORDER_IDS None)
    (PriceLevels_new MarketOrder_default) BBO_default.

Definition mb_with_levels (bk : MarketOrderBook) (pl : PriceLevels MarketOrder) :=
  mkMarketOrderBook (mb_ticker_id bk) (oid_to_order_ bk) pl (bbo_ bk).
Definition mb_with_oid (bk : MarketOrderBook) (m : arr (option ptr)) :=
  mkMarketOrderBook (mb_ticker_id bk) m (mb_levels bk) (bbo_ bk).
Definition mb_with_bbo (bk : MarketOrderBook) (b : BBO) :=
  mkMarketOrderBook (mb_ticker_id bk) (oid_to_order_ bk) (mb_levels bk) b.

(** ** The price levels: the code of [PriceLevels] over [MarketOrder] *)
Definition mb_addOrdersAtPrice : PriceLevels MarketOrder → ptr → Res (PriceLevels MarketOrder) :=
  addOrdersAtPrice.
Definition mb_removeOrdersAtPrice
  : PriceLevels MarketOrder → Side.t → Price → Res (PriceLevels MarketOrder) :=
  removeOrdersAtPrice.
Definition mb_getOrdersAtPrice : PriceLevels MarketOrder → Price → Res (option ptr) :=
  getOrdersAtPrice.

(** Remove and de-allocate an order from the containers. *)
Definition mb_removeOrder (bk : MarketOrderBook) (order : ptr) : Res MarketOrderBook :=
  pl ← unlinkOrder (mb_levels bk) order;
  m ← arr_at_set (oid_to_order_ bk) (mo_order_id (ord pl order)) None;
  pl ← deallocOrder pl order;
  Ok (mb_with_oid (mb_with_levels bk pl) m).

(** Add an order at the end of the queue of its price. *)
Definition mb_addOrder (bk : MarketOrderBook) (order : ptr) : Res MarketOrderBook :=
  pl ← linkOrder (mb_levels bk) order;
  m ← arr_at_set (oid_to_order_ bk) (mo_order_id (ord pl order)) (Some order);
  Ok (mb_with_oid (mb_with_levels bk pl) m).

(** ** The best bid and offer *)

(** [for (order = first->next; order != first; order = order->next) qty += order->qty]. *)
Definition level_qty_step (pl : PriceLevels MarketOrder) (first : ptr) (st : ptr * Qty)
  : Res ((ptr * Qty) + Qty) :=
  let '(order, qty) := st in
  if order =? first then Ok (inr qty)
  else
    next ← deref (mo_next_order (ord pl order));
    Ok (inl (next, u32 (qty + mo_qty (ord pl order)))).

Definition level_qty (pl : PriceLevels MarketOrder) (level : ptr) : Res Qty :=
  first ← deref (oap_first (lvl pl level));
  next ← deref (mo_next_order (ord pl first));
  loop (level_qty_step pl first) (Z.to_pos (ME_MAX_ORDER_IDS + 1))
       (next, mo_qty (ord pl first)).

Definition updateBBO (bk : MarketOrderBook) (update_bid update_ask : bool)
  : Res MarketOrderBook :=
  let pl := mb_levels bk in
  bk ← (if update_bid then
          match bids_by_price_ pl with
          | Some level =>
              qty ← level_qty pl level;
              Ok (mb_with_bbo bk (mkBBO (oap_price (lvl pl level)) (ask_price_ (bbo_ bk))
                                  qty (ask_qty_ (bbo_ bk))))
          | None =>
              Ok (mb_with_bbo bk (mkBBO Price_INVALID (ask_price_ (bbo_ bk))
                                  Qty_INVALID (ask_qty_ (bbo_ bk))))
          end
        else Ok bk);
  if update_ask then
    match asks_by_price_ pl with
    | Some level =>
        qty ← level_qty pl level;
        Ok (mb_with_bbo bk (mkBBO (bid_price_ (bbo_ bk)) (oap_price (lvl pl level))
                            (bid_qty_ (bbo_ bk)) qty))
    | None =>
        Ok (mb_with_bbo bk (mkBBO (bid_price_ (bbo_ bk)) Price_INVALID
                            (bid_qty_ (bbo_ bk)) Qty_INVALID))
    end
  else Ok bk.

Definition getBBO (bk : MarketOrderBook) : BBO := bbo_ bk.

(** ** Market updates *)

(** CLEAR, first loop: free every order of the order-id map. *)
Definition clear_orders (m : arr (option ptr)) (pool : MemPool MarketOrder)
  : Res (MemPool MarketOrder) :=
  for_range (λ i pool, match arr_get m i with
                       | Some order => deallocate pool order
                       | None => Ok pool end)
    (arr_len m) pool.

(** CLEAR, second and third loop: free the levels after the best one, then that one. *)
Definition clear_side_step (best : ptr) (st : ptr * MemPool OrdersAtPrice)
  : Res ((ptr * MemPool OrdersAtPrice) + MemPool OrdersAtPrice) :=
  let '(level, pool) := st in
  if level =? best then Ok (inr pool)
  else
    pool ← deallocate pool level;
    next ← deref (oap_next (pool_get pool level));
    Ok (inl (next, pool)).

Definition clear_side (best : option ptr) (pool : MemPool OrdersAtPrice)
  : Res (MemPool OrdersAtPrice) :=
  match best with
  | None => Ok pool
  | Some best =>
      next ← deref (oap_next (pool_get pool best));
      pool ← loop (clear_side_step best) (Z.to_pos (ME_MAX_PRICE_LEVELS + 1)) (next, pool);
      deallocate pool best
  end.

Definition clear_book (bk : MarketOrderBook) : Res MarketOrderBook :=
  let pl := mb_levels bk in
  orders ← clear_orders (oid_to_order_ bk) (order_pool_ pl);
  levels ← clear_side (bids_by_price_ pl) (orders_at_price_pool_ pl);
  levels ← clear_side (asks_by_price_ pl) levels;
  Ok (mkMarketOrderBook (mb_ticker_id bk) (arr_fill (oid_to_order_ bk) None)
        (mkPriceLevels levels None None (price_orders_at_price_ pl) orders) (bbo_ bk)).

(** Does the update concern the best price of its side, or improve on it? *)
Definition bid_updated (bk : MarketOrderBook) (u : MEMarketUpdate) : bool :=
  match bids_by_price_ (mb_levels bk) with
  | Some level => bool_decide (mu_side u = Side.BUY) &&
                  (mu_price u >=? oap_price (lvl (mb_levels bk) level))
  | None => false
  end.
Definition ask_updated (bk : MarketOrderBook) (u : MEMarketUpdate) : bool :=
  match asks_by_price_ (mb_levels bk) with
  | Some level => bool_decide (mu_side u = Side.SELL) &&
                  (mu_price u <=? oap_price (lvl (mb_levels bk) level))
  | None => false
  end.

(** The [switch] of [onMarketUpdate], without its TRADE case. *)
Definition apply_update (bk : MarketOrderBook) (u : MEMarketUpdate) : Res MarketOrderBook :=
  match mu_type u with
  | MarketUpdateType.ADD =>
      '(order, pl) ← allocOrder (mb_levels bk)
        (mkMarketOrder (mu_order_id u) (mu_side u) (mu_price u) (mu_qty u) (mu_priority u)
           None None);
      mb_addOrder (mb_with_levels bk pl) order
  | MarketUpdateType.MODIFY =>
      order ← arr_at (oid_to_order_ bk) (mu_order_id u);
      order ← deref order;
      Ok (mb_with_levels bk (ord_upd (mb_levels bk) order (mo_set_qty (mu_qty u))))
  | MarketUpdateType.CANCEL =>
      order ← arr_at (oid_to_order_ bk) (mu_order_id u);
      order ← deref order;
      mb_removeOrder bk order
  | MarketUpdateType.CLEAR => clear_book bk
  | _ => Ok bk
  end.

(** Process a market update; the second component is the call on the trade engine. *)
Definition onMarketUpdate (bk : MarketOrderBook) (u : MEMarketUpdate)
  : Res (MarketOrderBook * BookCall) :=
  let update_bid := bid_updated bk u in
  let update_ask := ask_updated bk u in
  if bool_decide (mu_type u = MarketUpdateType.TRADE) then Ok (bk, OnTradeUpdate u)
  else
    bk ← apply_update bk u;
    bk ← updateBBO bk update_bid update_ask;
    Ok (bk, OnOrderBookUpdate (mu_ticker_id u) (mu_price u) (mu_side u)).

(** A sequence of updates, with the calls they make. *)
Fixpoint onMarketUpdates (bk : MarketOrderBook) (us : list MEMarketUpdate)
  : Res (MarketOrderBook * list BookCall) :=
  match us with
  | [] => Ok (bk, [])
  | u :: us =>
      '(bk, c) ← onMarketUpdate bk u;
      '(bk, cs) ← onMarketUpdates bk us;
      Ok (bk, c :: cs)
  end.
