(* ===== verification/MarketBookSpec.v ===== *)
(** * MarketBookSpec: the trading client's book refines a pointer-free book

    [SpecMarket] is the book as lists, [sm_apply] what an ADD, MODIFY, CANCEL or TRADE
    update does to it, and [valid_update] when the client's program does exactly that.
    CLEAR is treated apart, since the program does not clear its hash map. *)
From S2P Require Import Prelude Types MemPool Ring PriceLevels BookInv PriceLevelsSpec.
From S2P Require Import LevelListSpec LinkSpec StoreSpec LevelsAbs MarketOrderBook.

#[local] Arguments odata : simpl never.
Abbreviation mdata bk := (odata (mb_levels bk)).

Record SpecMarket := mkSpecMarket {
  sm_bids : side_levels MarketInfo;
  sm_asks : side_levels MarketInfo
}.

Definition sm_side (b : SpecMarket) (s : Side.t) : side_levels MarketInfo :=
  if bool_decide (s = Side.BUY) then sm_bids b else sm_asks b.
Definition sm_set (b : SpecMarket) (s : Side.t) (l : side_levels MarketInfo) : SpecMarket :=
  if bool_decide (s = Side.BUY) then mkSpecMarket l (sm_asks b)
  else mkSpecMarket (sm_bids b) l.
Definition sm_levels (b : SpecMarket) : side_levels MarketInfo := sm_bids b ++ sm_asks b.
Definition sm_orders (b : SpecMarket) : list MarketInfo := level_orders (sm_levels b).
Definition SpecMarket_new : SpecMarket := mkSpecMarket [] [].

Definition has_id (i : OrderId) (d : MarketInfo) : Prop := mi_order_id d = i.
#[export] Instance has_id_dec i d : Decision (has_id i d).
Proof. unfold has_id. apply _. Defined.

Definition update_info (u : MEMarketUpdate) : MarketInfo :=
  mkMarketInfo (mu_order_id u) (mu_side u) (mu_price u) (mu_qty u) (mu_priority u).

Definition sm_apply (b : SpecMarket) (u : MEMarketUpdate) : SpecMarket :=
  match mu_type u with
  | MarketUpdateType.ADD =>
      sm_set b (mu_side u) (insert_order (mu_side u) (update_info u) (sm_side b (mu_side u)))
  | MarketUpdateType.MODIFY =>
      mkSpecMarket (update_where (has_id (mu_order_id u)) (mi_set_qty (mu_qty u)) (sm_bids b))
        (update_where (has_id (mu_order_id u)) (mi_set_qty (mu_qty u)) (sm_asks b))
  | MarketUpdateType.CANCEL =>
      mkSpecMarket (remove_where (has_id (mu_order_id u)) (sm_bids b))
        (remove_where (has_id (mu_order_id u)) (sm_asks b))
  | _ => b
  end.

(** What an update must satisfy for the program to follow [sm_apply]. *)
Definition market_id_ok (i : OrderId) : Prop := 0 ≤ i < ME_MAX_ORDER_IDS.
Definition level_free (ps : list Price) (price : Price) : Prop :=
  Forall (λ p, priceToIndex p = priceToIndex price → p = price) ps.

Definition valid_update (b : SpecMarket) (u : MEMarketUpdate) : Prop :=
  match mu_type u with
  | MarketUpdateType.ADD =>
      tradable (mu_side u) ∧ market_id_ok (mu_order_id u) ∧ 0 ≤ mu_qty u < 2 ^ 32 ∧
      (mu_order_id u ∉ (mi_order_id <$> sm_orders b)) ∧
      level_free (sm_levels b).*1 (mu_price u) ∧
      (mu_price u ∉ (sm_side b (opp (mu_side u))).*1) ∧
      Z.of_nat (length (sm_orders b)) + 2 ≤ ME_MAX_ORDER_IDS ∧
      Z.of_nat (length (sm_levels b)) + 2 ≤ ME_MAX_PRICE_LEVELS
  | MarketUpdateType.MODIFY =>
      0 ≤ mu_qty u < 2 ^ 32 ∧ mu_order_id u ∈ (mi_order_id <$> sm_orders b)
  | MarketUpdateType.CANCEL => mu_order_id u ∈ (mi_order_id <$> sm_orders b)
  | MarketUpdateType.CLEAR => False
  | _ => True
  end.

#[export] Instance valid_update_dec b u : Decision (valid_update b u).
Proof.
  unfold valid_update, tradable, market_id_ok, level_free.
  destruct (mu_type u); apply _.
Defined.

Fixpoint valid_updates (b : SpecMarket) (us : list MEMarketUpdate) : Prop :=
  match us with
  | [] => True
  | u :: us => valid_update b u ∧ valid_updates (sm_apply b u) us
  end.
#[export] Instance valid_updates_dec b us : Decision (valid_updates b us).
Proof. revert b. induction us as [|u us IH]; intros b; simpl; apply _. Defined.

Definition sm_run (b : SpecMarket) (us : list MEMarketUpdate) : SpecMarket :=
  foldl sm_apply b us.

(** ** Representation *)
Record mk_rep (bk : MarketOrderBook) (G : ghost) : Prop := {
  mk_book : book_rep (mb_levels bk) [] G;
  mk_len : arr_len (oid_to_order_ bk) = ME_MAX_ORDER_IDS;
  mk_oid : ∀ i p, market_id_ok i →
    arr_get (oid_to_order_ bk) i = Some p ↔
    p ∈ gorders (glevels G) ∧ mi_order_id (mdata bk p) = i;
  mk_data : ∀ p, p ∈ gorders (glevels G) →
    market_id_ok (mi_order_id (mdata bk p)) ∧ 0 ≤ mi_qty (mdata bk p) < 2 ^ 32
}.

Record mk_refines_by (bk : MarketOrderBook) (G : ghost) (b : SpecMarket) : Prop := {
  mkr_rep : mk_rep bk G;
  mkr_bids : abs_side (mb_levels bk) (g_bids G) = sm_bids b;
  mkr_asks : abs_side (mb_levels bk) (g_asks G) = sm_asks b
}.
Definition mk_refines (bk : MarketOrderBook) (b : SpecMarket) : Prop :=
  ∃ G, mk_refines_by bk G b.

Section Sides.
Implicit Types (b : SpecMarket) (s : Side.t) (bk : MarketOrderBook) (G : ghost).

Lemma sm_side_set b s l : sm_side (sm_set b s l) s = l.
Proof. unfold sm_side, sm_set. by case_bool_decide. Qed.
Lemma sm_side_set_opp b s l : tradable s → sm_side (sm_set b s l) (opp s) = sm_side b (opp s).
Proof. by intros [->| ->]. Qed.
Lemma sm_levels_perm b s : tradable s → sm_levels b ≡ₚ sm_side b s ++ sm_side b (opp s).
Proof.
  intros [->| ->]; unfold sm_levels, sm_side; simpl; [done|]. apply Permutation_app_comm.
Qed.

Lemma mk_refines_side bk G b s : mk_refines_by bk G b → tradable s →
  abs_side (mb_levels bk) (gside G s) = sm_side b s.
Proof. intros [] [->| ->]; done. Qed.
Lemma mk_refines_of bk G b s :
  tradable s → mk_rep bk G →
  abs_side (mb_levels bk) (gside G s) = sm_side b s →
  abs_side (mb_levels bk) (gside G (opp s)) = sm_side b (opp s) →
  mk_refines_by bk G b.
Proof. intros [->| ->]; by split. Qed.
Lemma mk_refines_orders bk G b :
  mk_refines_by bk G b → sm_orders b = mdata bk <$> gorders (glevels G).
Proof.
  intros [_ Hb Ha]. unfold sm_orders, sm_levels, glevels.
  rewrite <-Hb, <-Ha, <-abs_side_app. apply level_orders_abs.
Qed.
Lemma mk_refines_prices bk G b :
  mk_refines_by bk G b → (sm_levels b).*1 = g_price <$> glevels G.
Proof.
  intros [_ Hb Ha]. unfold sm_levels, glevels.
  rewrite <-Hb, <-Ha, <-abs_side_app. apply prices_abs.
Qed.
End Sides.

Lemma MarketOrderBook_new_refines tid : mk_refines (MarketOrderBook_new tid) SpecMarket_new.
Proof.
  exists (mkGhost [] []). split; [|done..]. split; simpl; try done.
  - apply PriceLevels_new_rep.
  - intros i p Hi. unfold MarketOrderBook_new. simpl. rewrite arr_get_new.
    split; [done|]. intros [Hp _]. by apply not_elem_of_nil in Hp.
  - intros p Hp. by apply not_elem_of_nil in Hp.
Qed.

(** The live order with an id. *)
Lemma mk_lookup bk G b i :
  mk_refines_by bk G b → i ∈ (mi_order_id <$> sm_orders b) →
  ∃ p, arr_at (oid_to_order_ bk) i = Ok (Some p) ∧ p ∈ gorders (glevels G) ∧
    (∀ x, x ∈ gorders (glevels G) → has_id i (mdata bk x) ↔ x = p).
Proof.
  intros HG Hi. pose proof (mkr_rep _ _ _ HG) as Hrep.
  rewrite (mk_refines_orders _ _ _ HG) in Hi.
  apply list_elem_of_fmap in Hi as (d & -> & (p & -> & Hp)%list_elem_of_fmap).
  destruct (mk_data _ _ Hrep p Hp) as [Hok _]. exists p.
  assert (∀ x, x ∈ gorders (glevels G) → has_id (mi_order_id (mdata bk p)) (mdata bk x) →
          arr_get (oid_to_order_ bk) (mi_order_id (mdata bk p)) = Some x) as Hget.
  { intros x Hx Hid. by apply (mk_oid _ _ Hrep). }
  split_and!; [|done|].
  - rewrite arr_at_Ok by by rewrite (mk_len _ _ Hrep). by rewrite (Hget p).
  - intros x Hx. split; [|by intros ->]. intros Hid.
    pose proof (Hget x Hx Hid). pose proof (Hget p Hp eq_refl). congruence.
Qed.

(** ** ADD *)
Lemma mb_store_spec bk G b u :
  mk_refines_by bk G b → mu_type u = MarketUpdateType.ADD → valid_update b u →
  ∃ bk' G', apply_update bk u = Ok bk' ∧ mk_refines_by bk' G' (sm_apply b u) ∧
            bbo_ bk' = bbo_ bk.
Proof.
  intros HG Ht. unfold valid_update, sm_apply, apply_update. rewrite Ht.
  intros (Hs & Hi & Hq & Hfresh & Hfit & Hopp & Hcap & Hlcap).
  pose proof (mkr_rep _ _ _ HG) as Hrep. set (s := mu_side u) in *. set (d := update_info u).
  rewrite (mk_refines_orders _ _ _ HG), length_fmap in Hcap.
  rewrite <-(length_fmap fst), (mk_refines_prices _ _ _ HG), length_fmap in Hlcap.
  rewrite <-(mk_refines_side _ _ _ _ HG (opp_tradable s)), prices_abs in Hopp.
  unfold level_free in Hfit. rewrite (mk_refines_prices _ _ _ HG), Forall_fmap, Forall_forall in Hfit.
  destruct (store_order (mb_levels bk) G (mkMarketOrder (mu_order_id u) s (mu_price u) (mu_qty u)
    (mu_priority u) None None) d s)
    as (o & pl1 & pl2 & G' & -> & Hli & [Hrep2 Hno Hod Hd Hperm Hside Hothers]);
    [done|done|done|apply (mk_book _ _ Hrep)| |done|done|].
  { intros g Hg Hx. assert (g_price g = mu_price u) as Hp by by apply Hfit.
    split; [done|]. rewrite (glevels_perm G s Hs), elem_of_app in Hg. destruct Hg as [Hg|Hg].
    - destruct (br_side _ _ _ (mk_book _ _ Hrep) s Hs) as (_ & _ & _ & Hsd).
      rewrite Forall_forall in Hsd. by apply Hsd.
    - destruct Hopp. rewrite <-Hp. by apply list_elem_of_fmap_2. }
  cbn [mbind Res_bind].
  unfold mb_addOrder. cbn [mb_levels mb_with_levels]. rewrite Hli. cbn [mbind Res_bind].
  change (mo_order_id (ord pl2 o)) with (mi_order_id (odata pl2 o)). rewrite Hod.
  cbn [oid_to_order_ mb_with_levels]. rewrite arr_at_set_Ok by by rewrite (mk_len _ _ Hrep).
  cbn [mbind Res_bind]. eexists _, G'. split; [done|]. split; [|done].
  apply (mk_refines_of _ _ _ s Hs).
  - split; [exact Hrep2|apply (mk_len _ _ Hrep)| |].
    + intros i p Hi'. cbn [oid_to_order_ mb_with_oid]. rewrite arr_get_set, Hperm, elem_of_cons.
      pose proof (mk_oid _ _ Hrep i p Hi') as Hoid.
      change (mdata _ p) with (odata pl2 p).
      destruct (decide (p = o)) as [->|Hpo].
      * rewrite Hod. case_decide as Heq; [by split; auto|].
        rewrite Hoid. split; [by intros [? _]|by intros [_ ?]].
      * case_decide as Heq.
        { split; [congruence|]. intros [[->|Hp] Hpi]; [done|]. rewrite Hd in Hpi by done.
          destruct Hfresh. rewrite (mk_refines_orders _ _ _ HG), <-list_fmap_compose.
          apply list_elem_of_fmap. exists p. split; [|done].
          etrans; [exact Heq|by symmetry]. }
        rewrite Hoid. split; intros [Hp Hp']; (split; [naive_solver|]).
        { by rewrite Hd. }
        { rewrite Hd in Hp'; [done|naive_solver]. }
    + intros p. rewrite Hperm, elem_of_cons. change (mdata _ p) with (odata pl2 p).
      intros [->|Hp]; [by rewrite Hod|]. rewrite Hd by done. by apply (mk_data _ _ Hrep).
  - rewrite sm_side_set, <-(mk_refines_side _ _ _ s HG Hs). exact Hside.
  - rewrite sm_side_set_opp by done. rewrite <-(mk_refines_side _ _ _ _ HG (opp_tradable s)).
    exact Hothers.
Qed.

(** ** MODIFY *)
Lemma mb_modify_spec bk G b u :
  mk_refines_by bk G b → mu_type u = MarketUpdateType.MODIFY → valid_update b u →
  ∃ bk' G', apply_update bk u = Ok bk' ∧ mk_refines_by bk' G' (sm_apply b u) ∧
            bbo_ bk' = bbo_ bk.
Proof.
  intros HG Ht. unfold valid_update, sm_apply, apply_update. rewrite Ht. intros [Hq Hi].
  pose proof (mkr_rep _ _ _ HG) as Hrep.
  destruct (mk_lookup _ _ _ _ HG Hi) as (o & -> & Ho & Hu). cbn [mbind Res_bind deref].
  eexists _, G. split; [done|]. split; [|done].
  assert (∀ x, odata (ord_upd (mb_levels bk) o (mo_set_qty (mu_qty u))) x =
    if decide (o = x) then mi_set_qty (mu_qty u) (mdata bk o) else mdata bk x) as Hd.
  { intros x. unfold odata. autorewrite with trading. by case_decide. }
  assert (∀ s, tradable s → ∀ x, x ∈ gorders (gside G s) → x ∈ gorders (glevels G)) as Hin.
  { intros s Hs x Hx. rewrite (glevels_perm G s Hs), gorders_app. set_solver + Hx. }
  destruct HG as [_ Hb Ha]. split.
  - split.
    + apply ord_upd_rep; [apply (mk_book _ _ Hrep)|done..].
    + apply (mk_len _ _ Hrep).
    + intros i p Hi'. change (mdata _ p) with (odata (ord_upd (mb_levels bk) o
        (mo_set_qty (mu_qty u))) p). rewrite Hd.
      etrans; [by apply (mk_oid _ _ Hrep)|]. case_decide; [subst|]; done.
    + intros p Hp. change (mdata _ p) with (odata (ord_upd (mb_levels bk) o
        (mo_set_qty (mu_qty u))) p). rewrite Hd.
      pose proof (mk_data _ _ Hrep p Hp) as [Hok Hpq].
      case_decide; [subst; done|done].
  - cbn [sm_bids mb_levels mb_with_levels]. rewrite <-Hb.
    apply (abs_update _ _ _ o); [by intros x _; apply Hd|].
    intros x Hx. apply Hu. by apply (Hin Side.BUY); [left|].
  - cbn [sm_asks mb_levels mb_with_levels]. rewrite <-Ha.
    apply (abs_update _ _ _ o); [by intros x _; apply Hd|].
    intros x Hx. apply Hu. by apply (Hin Side.SELL); [right|].
Qed.

(** ** CANCEL *)
Lemma mb_removeOrder_spec bk G s l1 g l2 k1 o k2 :
  tradable s → mk_rep bk G → gside G s = l1 ++ g :: l2 → g_orders g = k1 ++ o :: k2 →
  ∃ bk', mb_removeOrder bk o = Ok bk' ∧
    mk_rep bk' (gset G s (l1 ++ level_with g (k1 ++ k2) ++ l2)) ∧
    (∀ x, mdata bk' x = mdata bk x) ∧ bbo_ bk' = bbo_ bk.
Proof.
  intros Hs Hrep E Ek. pose proof (gorders_remove _ _ _ _ _ _ _ _ Hs E Ek) as Hperm.
  pose proof (book_rep_nodup _ _ (mk_book _ _ Hrep)) as Hnd. rewrite Hperm in Hnd.
  apply NoDup_cons in Hnd as [Hno _].
  destruct (unlinkOrder_spec _ _ _ _ _ _ _ _ _ Hs (mk_book _ _ Hrep) E Ek)
    as (pl1 & Hun & Hrep1 & Hd1).
  destruct (deallocOrder_spec _ _ _ Hrep1) as (pl2 & Hde & Hrep2 & Hd2).
  assert (o ∈ gorders (glevels G)) as Hoin by (rewrite Hperm; by left).
  destruct (mk_data _ _ Hrep o Hoin) as [Hi _].
  assert (∀ x, odata pl2 x = mdata bk x) as Hd.
  { intros x. unfold odata. rewrite Hd2. apply Hd1. }
  exists (mb_with_oid (mb_with_levels bk pl2)
    (arr_set (oid_to_order_ bk) (mi_order_id (mdata bk o)) None)).
  split; [|split; [|split; [exact Hd|done]]].
  - unfold mb_removeOrder. rewrite Hun. cbn [mbind Res_bind].
    change (mo_order_id (ord pl1 o)) with (mi_order_id (odata pl1 o)). rewrite Hd1.
    rewrite arr_at_set_Ok by by rewrite (mk_len _ _ Hrep).
    cbn [mbind Res_bind]. by rewrite Hde.
  - split; [exact Hrep2|apply (mk_len _ _ Hrep)| |].
    + intros i p Hi'. cbn [oid_to_order_ mb_with_oid]. change (mdata _ p) with (odata pl2 p).
      rewrite arr_get_set, Hd.
      pose proof (mk_oid _ _ Hrep i p Hi') as Hoid. rewrite Hperm, elem_of_cons in Hoid.
      case_decide as Heq.
      * split; [done|]. intros [Hp Hpi].
        assert (arr_get (oid_to_order_ bk) i = Some p) as E1 by (apply Hoid; auto).
        assert (arr_get (oid_to_order_ bk) i = Some o) as E2.
        { apply (mk_oid _ _ Hrep); [done|]. rewrite Hperm. split; [by left|done]. }
        congruence.
      * rewrite Hoid. split; [intros [[->|Hp] Hpi]; done|naive_solver].
    + intros p Hp. change (mdata _ p) with (odata pl2 p). rewrite Hd.
      apply (mk_data _ _ Hrep). rewrite Hperm. by right.
Qed.

Lemma mb_cancel_spec bk G b u :
  mk_refines_by bk G b → mu_type u = MarketUpdateType.CANCEL → valid_update b u →
  ∃ bk' G', apply_update bk u = Ok bk' ∧ mk_refines_by bk' G' (sm_apply b u) ∧
            bbo_ bk' = bbo_ bk.
Proof.
  intros HG Ht. unfold valid_update, sm_apply, apply_update. rewrite Ht. intros Hi.
  pose proof (mkr_rep _ _ _ HG) as Hrep.
  destruct (mk_lookup _ _ _ _ HG Hi) as (o & -> & Hin & Hu). cbn [mbind Res_bind deref].
  assert (∃ s, tradable s ∧ o ∈ gorders (gside G s)) as (s & Hs & Hos).
  { rewrite (glevels_perm G Side.BUY), gorders_app, elem_of_app in Hin by by left.
    destruct Hin; [by exists Side.BUY; split; [left|]|by exists Side.SELL; split; [right|]]. }
  destruct (elem_of_gorders_split G s o Hs Hos) as (l1 & g & l2 & k1 & k2 & E & Ek).
  destruct (mb_removeOrder_spec _ _ _ _ _ _ _ _ _ Hs Hrep E Ek) as (bk' & Hr & Hrep' & Hd & Hn).
  eexists bk', _. split; [done|]. split; [|done].
  destruct (abs_remove (mb_levels bk) (mb_levels bk') G s l1 g l2 k1 o k2
    (has_id (mu_order_id u))) as [H1 H2]; try done.
  { apply (mk_book _ _ Hrep). }
  { by apply Hu. }
  { intros x Hx Hxi. by apply Hu. }
  apply (mk_refines_of _ _ _ s); [done|exact Hrep'| |].
  - rewrite H1, (mk_refines_side _ _ _ s HG Hs). by destruct Hs as [->| ->].
  - rewrite H2, (mk_refines_side _ _ _ _ HG (opp_tradable s)). by destruct Hs as [->| ->].
Qed.

Lemma apply_update_spec bk b u :
  mk_refines bk b → valid_update b u →
  ∃ bk', apply_update bk u = Ok bk' ∧ mk_refines bk' (sm_apply b u) ∧ bbo_ bk' = bbo_ bk.
Proof.
  intros [G HG] Hv. destruct (mu_type u) eqn:Ht.
  3: { destruct (mb_store_spec _ _ _ _ HG Ht Hv) as (bk' & G' & ? & ? & ?). exists bk'.
       split_and!; [done|by exists G'|done]. }
  3: { destruct (mb_modify_spec _ _ _ _ HG Ht Hv) as (bk' & G' & ? & ? & ?). exists bk'.
       split_and!; [done|by exists G'|done]. }
  3: { destruct (mb_cancel_spec _ _ _ _ HG Ht Hv) as (bk' & G' & ? & ? & ?). exists bk'.
       split_and!; [done|by exists G'|done]. }
  2: { unfold valid_update in Hv. by rewrite Ht in Hv. }
  all: exists bk; unfold apply_update, sm_apply; rewrite Ht;
    split_and!; [done|by exists G|done].
Qed.
