(* ===== verification/MarketBBO.v ===== *)
(** * MarketBBO: the best bid and offer of the trading client's book

    What [updateBBO] computes, what [onMarketUpdate] does as a whole, and when the
    summary tracks the book. *)
From S2P Require Import Prelude Types MemPool Ring PriceLevels BookInv PriceLevelsSpec.
From S2P Require Import LevelListSpec LinkSpec StoreSpec LevelsAbs MarketOrderBook MarketBookSpec.

#[local] Arguments odata : simpl never.

(** Price and total quantity of the most aggressive level. *)
Definition top (l : side_levels MarketInfo) : Price * Qty :=
  match l with
  | [] => (Price_INVALID, Qty_INVALID)
  | (p, ds) :: _ => (p, u32 (sumZ (mi_qty <$> ds)))
  end.
Definition bbo_side (b : BBO) (s : Side.t) : Price * Qty :=
  if bool_decide (s = Side.BUY) then (bid_price_ b, bid_qty_ b)
  else (ask_price_ b, ask_qty_ b).

(** ** The walk over the orders of a level *)
Section LevelQty.
Context (pl : PriceLevels MarketOrder) (o : ptr) (k : list ptr).
Context (Hring : ring (onext pl) (oprev pl) (o :: k)).
Abbreviation qty x := (mi_qty (odata pl x)).

Lemma level_qty_walk n k1 k2 acc :
  k = k1 ++ k2 → (length k2 < n)%nat → 0 ≤ acc < 2 ^ 32 →
  loop_nat (level_qty_step pl o) n (default o (head k2), acc) =
  Ok (inr (u32 (acc + sumZ ((λ x, qty x) <$> k2)))).
Proof.
  revert k1 k2 acc. induction n as [|n IH]; intros k1 k2 acc Ek Hn Hacc; [lia|].
  destruct k2 as [|x k2]; cbn [loop_nat head default id from_option level_qty_step].
  - rewrite Z.eqb_refl. cbn. by rewrite Z.add_0_r, u32_id.
  - pose proof (ring_NoDup _ _ _ Hring) as Hnd. rewrite Ek in Hnd.
    apply NoDup_cons in Hnd as [Hno _].
    rewrite (proj2 (Z.eqb_neq x o)) by (intros ->; set_solver + Hno).
    assert (onext pl x = Some (default o (head k2))) as Hnx.
    { destruct k2 as [|y k2].
      - destruct (ring_head _ _ _ _ Hring) as [Hl _]. by rewrite Ek, last_snoc in Hl.
      - pose proof Hring as Hr. rewrite Ek in Hr.
        by apply (ring_next _ _ (o :: k1) x y k2) in Hr as [? _]. }
    change (mo_next_order (ord pl x)) with (onext pl x). rewrite Hnx.
    cbn [deref mbind Res_bind and_then].
    change (mo_qty (ord pl x)) with (qty x).
    rewrite (IH (k1 ++ [x]) k2) by
      (rewrite <-?app_assoc; simpl in *; done || lia || apply u32_range).
    cbn [fmap list_fmap]. rewrite sumZ_cons. unfold u32.
    by rewrite Zplus_mod_idemp_l, Z.add_assoc.
Qed.
End LevelQty.

Lemma level_qty_spec bk G g :
  mk_rep bk G → g ∈ glevels G →
  level_qty (mb_levels bk) (g_ptr g) =
  Ok (u32 (sumZ (mi_qty <$> (odata (mb_levels bk) <$> g_orders g)))).
Proof.
  intros Hrep Hg. pose proof (mk_book _ _ Hrep) as Hb.
  pose proof (br_levels _ _ _ Hb) as Hl. rewrite Forall_forall in Hl.
  destruct (Hl g Hg) as (_ & _ & Hf & Hne & Hr & _).
  assert (∀ x, x ∈ g_orders g → x ∈ gorders (glevels G)) as Hin.
  { intros x Hx. apply elem_of_gorders. eauto. }
  assert (length (g_orders g) <= Z.to_nat ME_MAX_ORDER_IDS)%nat as Hlen.
  { destruct (br_opool _ _ _ Hb) as (_ & _ & Hall).
    rewrite <-(length_seqZ 0 ME_MAX_ORDER_IDS). apply submseteq_length.
    apply NoDup_submseteq; [by eapply ring_NoDup|]. intros x Hx%Hin. apply elem_of_seqZ.
    apply Hall in Hx as [Hx _]. rewrite (br_osize _ _ _ Hb) in Hx. lia. }
  unfold level_qty. destruct (g_orders g) as [|o k]; [done|]. rewrite Hf.
  cbn [head deref mbind Res_bind].
  change (mo_next_order (ord (mb_levels bk) o)) with (onext (mb_levels bk) o).
  rewrite (ring_next_head _ _ _ _ Hr). cbn [deref].
  change (mo_qty (ord (mb_levels bk) o)) with (mi_qty (odata (mb_levels bk) o)).
  cbn [mbind Res_bind]. rewrite loop_unfold_nat, (level_qty_walk _ _ _ Hr _ [] k);
    [|done|unfold ME_MAX_ORDER_IDS in *; simpl in Hlen; lia|].
  2: { apply (mk_data _ _ Hrep), Hin. by left. }
  cbn [mbind Res_bind]. rewrite !fmap_cons, sumZ_cons. by rewrite <-list_fmap_compose.
Qed.

Lemma best_level_qty bk G b s :
  mk_refines_by bk G b → tradable s →
  match best (mb_levels bk) s with
  | Some level => ∃ ds l,
      sm_side b s = (oap_price (lvl (mb_levels bk) level), ds) :: l ∧
      level_qty (mb_levels bk) level = Ok (u32 (sumZ (mi_qty <$> ds)))
  | None => sm_side b s = []
  end.
Proof.
  intros HG Hs. pose proof (mkr_rep _ _ _ HG) as Hrep. pose proof (mk_book _ _ Hrep) as Hb.
  destruct (br_side _ _ _ Hb s Hs) as (Hbest & _).
  rewrite <-(mk_refines_side _ _ _ s HG Hs), Hbest.
  destruct (gside G s) as [|g l] eqn:E; [done|]. cbn [fmap list_fmap head].
  assert (g ∈ glevels G) as Hg by (apply (gside_elem G s); [done|rewrite E; by left]).
  pose proof (br_levels _ _ _ Hb) as Hl. rewrite Forall_forall in Hl.
  destruct (Hl g Hg) as (_ & Hp & _).
  eexists _, _. split; [|by apply (level_qty_spec bk G)].
  rewrite abs_side_cons. unfold abs_level. by rewrite Hp.
Qed.

(** The summary [updateBBO] computes from the book. *)
Definition bbo_after (b : SpecMarket) (old : BBO) (update_bid update_ask : bool) : BBO :=
  let '(bp, bq) := if update_bid then top (sm_bids b) else (bid_price_ old, bid_qty_ old) in
  let '(ap, aq) := if update_ask then top (sm_asks b) else (ask_price_ old, ask_qty_ old) in
  mkBBO bp ap bq aq.

Lemma updateBBO_spec bk b update_bid update_ask :
  mk_refines bk b →
  ∃ bk', updateBBO bk update_bid update_ask = Ok bk' ∧ mk_refines bk' b ∧
         bbo_ bk' = bbo_after b (bbo_ bk) update_bid update_ask.
Proof.
  intros [G HG].
  pose proof (best_level_qty _ _ _ Side.BUY HG (or_introl eq_refl)) as Hbid.
  pose proof (best_level_qty _ _ _ Side.SELL HG (or_intror eq_refl)) as Hask.
  change (best (mb_levels bk) Side.BUY) with (bids_by_price_ (mb_levels bk)) in Hbid.
  change (best (mb_levels bk) Side.SELL) with (asks_by_price_ (mb_levels bk)) in Hask.
  change (sm_side b Side.BUY) with (sm_bids b) in Hbid.
  change (sm_side b Side.SELL) with (sm_asks b) in Hask.
  assert (∀ x, mk_refines (mb_with_bbo bk x) b) as Hw.
  { intros x. exists G. destruct HG as [[] ? ?]. by split. }
  assert (mk_refines bk b) as Hself by (by exists G).
  unfold updateBBO, bbo_after.
  destruct (bids_by_price_ (mb_levels bk)) as [lb|];
    [destruct Hbid as (dsb & lsb & -> & ->)|rewrite Hbid];
    (destruct (asks_by_price_ (mb_levels bk)) as [la|];
      [destruct Hask as (dsa & lsa & -> & ->)|rewrite Hask]);
    destruct update_bid, update_ask; cbn [mbind Res_bind top];
    eexists; (split; [reflexivity|]); (split; [apply Hw || done|]); simpl;
    by destruct (bbo_ bk).
Qed.

(** ** [onMarketUpdate] as a whole *)
Definition call_of (u : MEMarketUpdate) : BookCall :=
  if bool_decide (mu_type u = MarketUpdateType.TRADE) then OnTradeUpdate u
  else OnOrderBookUpdate (mu_ticker_id u) (mu_price u) (mu_side u).

(** The flags of [onMarketUpdate], read on the reference book. *)
Definition side_touched (b : SpecMarket) (u : MEMarketUpdate) (s : Side.t) : bool :=
  match sm_side b s with
  | [] => false
  | (p, _) :: _ => bool_decide (mu_side u = s) && negb (bool_decide (better s p (mu_price u)))
  end.

Lemma touched_spec bk b u :
  mk_refines bk b →
  bid_updated bk u = side_touched b u Side.BUY ∧ ask_updated bk u = side_touched b u Side.SELL.
Proof.
  intros [G HG].
  pose proof (best_level_qty _ _ _ Side.BUY HG (or_introl eq_refl)) as Hbid.
  pose proof (best_level_qty _ _ _ Side.SELL HG (or_intror eq_refl)) as Hask.
  unfold bid_updated, ask_updated, side_touched.
  change (bids_by_price_ (mb_levels bk)) with (best (mb_levels bk) Side.BUY).
  change (asks_by_price_ (mb_levels bk)) with (best (mb_levels bk) Side.SELL).
  split.
  - destruct (best (mb_levels bk) Side.BUY) as [lb|]; [|by rewrite Hbid].
    destruct Hbid as (ds & l & -> & _). f_equal. rewrite Z.geb_leb.
    simpl. case_bool_decide; simpl; [apply Z.leb_gt|apply Z.leb_le]; lia.
  - destruct (best (mb_levels bk) Side.SELL) as [la|]; [|by rewrite Hask].
    destruct Hask as (ds & l & -> & _). f_equal.
    simpl. case_bool_decide; simpl; [apply Z.leb_gt|apply Z.leb_le]; lia.
Qed.

(** The summary after an update. *)
Definition bbo_next (b : SpecMarket) (old : BBO) (u : MEMarketUpdate) : BBO :=
  if bool_decide (mu_type u = MarketUpdateType.TRADE) then old
  else bbo_after (sm_apply b u) old (side_touched b u Side.BUY) (side_touched b u Side.SELL).

Lemma onMarketUpdate_spec bk b u :
  mk_refines bk b → valid_update b u →
  ∃ bk', onMarketUpdate bk u = Ok (bk', call_of u) ∧ mk_refines bk' (sm_apply b u) ∧
         bbo_ bk' = bbo_next b (bbo_ bk) u.
Proof.
  intros Href Hv. destruct (touched_spec bk b u Href) as [Ebid Eask].
  unfold onMarketUpdate, call_of, bbo_next. case_bool_decide as Ht.
  - exists bk. unfold sm_apply. rewrite Ht. by split_and!.
  - destruct (apply_update_spec bk b u Href Hv) as (bk1 & -> & Href1 & Hb1).
    cbn [mbind Res_bind].
    destruct (updateBBO_spec bk1 _ (bid_updated bk u) (ask_updated bk u) Href1)
      as (bk2 & -> & Href2 & Hb2).
    cbn [mbind Res_bind]. exists bk2. split_and!; [done|done|].
    by rewrite Hb2, Hb1, Ebid, Eask.
Qed.

Lemma onMarketUpdates_spec bk b us :
  mk_refines bk b → valid_updates b us →
  ∃ bk', onMarketUpdates bk us = Ok (bk', call_of <$> us) ∧ mk_refines bk' (sm_run b us).
Proof.
  revert bk b. induction us as [|u us IH]; intros bk b Href Hv; simpl.
  - by exists bk.
  - destruct Hv as [Hu Hv]. destruct (onMarketUpdate_spec bk b u Href Hu) as (bk1 & -> & Href1 & _).
    cbn [mbind Res_bind]. destruct (IH bk1 _ Href1 Hv) as (bk2 & -> & Href2).
    cbn [mbind Res_bind]. by exists bk2.
Qed.

(** ** When the summary tracks the book *)
Definition bbo_tracks (b : SpecMarket) (x : BBO) (s : Side.t) : Prop :=
  bbo_side x s = top (sm_side b s).

(** MODIFY and CANCEL updates carry the side and price of the order they name. *)
Definition consistent (b : SpecMarket) (u : MEMarketUpdate) : Prop :=
  (mu_type u = MarketUpdateType.MODIFY ∨ mu_type u = MarketUpdateType.CANCEL) →
  Forall (λ d, mi_order_id d = mu_order_id u →
               mi_side d = mu_side u ∧ mi_price d = mu_price u) (sm_orders b).
#[export] Instance consistent_dec b u : Decision (consistent b u).
Proof. unfold consistent. apply _. Defined.

(** The id of a new order is above those of the book. *)
Definition fresh_above (b : SpecMarket) (u : MEMarketUpdate) : Prop :=
  Forall (λ i, i < mu_order_id u) (mi_order_id <$> sm_orders b).
#[export] Instance fresh_above_dec b u : Decision (fresh_above b u).
Proof. unfold fresh_above. apply _. Defined.

(** An instrument's feed as the exchange sends it: every update is valid, MODIFY and CANCEL
    carry the side and price of their order, and ids of new orders grow. *)
Fixpoint feed_ok (b : SpecMarket) (us : list MEMarketUpdate) : Prop :=
  match us with
  | [] => True
  | u :: us => valid_update b u ∧ consistent b u ∧
      (mu_type u = MarketUpdateType.ADD → fresh_above b u) ∧ feed_ok (sm_apply b u) us
  end.
#[export] Instance feed_ok_dec b us : Decision (feed_ok b us).
Proof. revert b. induction us as [|u us IH]; intros b; simpl; apply _. Defined.

Lemma feed_ok_valid b us : feed_ok b us → valid_updates b us.
Proof.
  revert b. induction us as [|u us IH]; intros b; [done|]. intros (H1 & _ & _ & H2).
  split; [done|by apply IH].
Qed.
Lemma feed_ok_app b us vs : feed_ok b (us ++ vs) ↔ feed_ok b us ∧ feed_ok (sm_run b us) vs.
Proof.
  revert b. induction us as [|u us IH]; intros b; [simpl; tauto|].
  cbn [app feed_ok]. rewrite IH. change (sm_run b (u :: us)) with (sm_run (sm_apply b u) us).
  tauto.
Qed.

Lemma bbo_after_side b old s ub ua :
  tradable s →
  bbo_side (bbo_after b old ub ua) s =
  if (if bool_decide (s = Side.BUY) then ub else ua) then top (sm_side b s)
  else bbo_side old s.
Proof.
  unfold bbo_after, bbo_side, sm_side.
  intros [->| ->]; simpl; destruct ub, ua; destruct (top (sm_bids b)), (top (sm_asks b)); done.
Qed.

(** An update away from the best price names no order of the best level. *)
Lemma best_level_unnamed bk b u s p ds l :
  mk_refines bk b → consistent b u → tradable s → sm_side b s = (p, ds) :: l →
  (mu_side u = s → better s p (mu_price u)) →
  mu_type u = MarketUpdateType.MODIFY ∨ mu_type u = MarketUpdateType.CANCEL →
  ∀ d, d ∈ ds → ¬ has_id (mu_order_id u) d.
Proof.
  intros [G HG] Hc Hs E Hbet Hty d Hd Hid.
  pose proof (abs_level_ok _ _ _ s Hs (mk_book _ _ (mkr_rep _ _ _ HG))) as [Hok _].
  rewrite (mk_refines_side _ _ _ s HG Hs), E in Hok.
  apply Forall_cons in Hok as [Hds _]. simpl in Hds. rewrite Forall_forall in Hds.
  destruct (Hds d Hd) as [Hdp Hdsd]. pose proof (Hc Hty) as Hcd. rewrite Forall_forall in Hcd.
  destruct (Hcd d) as [H1 H2]; [|done|].
  { unfold sm_orders. rewrite (level_orders_perm _ _ (sm_levels_perm b s Hs)),
      level_orders_app, E, level_orders_cons. set_solver + Hd. }
  simpl in Hdp, Hdsd. rewrite H2 in Hdp. rewrite H1 in Hdsd.
  specialize (Hbet Hdsd). rewrite Hdp in Hbet. destruct s; simpl in Hbet; lia.
Qed.

(** An update away from the best price leaves the top of a side alone. *)
Lemma top_untouched bk b u s :
  mk_refines bk b → valid_update b u → consistent b u → tradable s →
  sm_side b s ≠ [] → side_touched b u s = false →
  top (sm_side (sm_apply b u) s) = top (sm_side b s).
Proof.
  intros Hr Hv Hc Hs Hne Ht. pose proof (best_level_unnamed bk b u s) as Hno.
  pose proof Hr as [G HG].
  pose proof (abs_nonempty _ _ _ s Hs (mk_book _ _ (mkr_rep _ _ _ HG))) as Hnes.
  rewrite (mk_refines_side _ _ _ s HG Hs) in Hnes.
  unfold side_touched in Ht. destruct (sm_side b s) as [|[p ds] l] eqn:E; [done|].
  apply Forall_cons in Hnes as [Hne1 _]. simpl in Hne1.
  assert (mu_side u = s → better s p (mu_price u)) as Hbet.
  { intros <-. rewrite bool_decide_eq_true_2 in Ht by done. simpl in Ht.
    by case_bool_decide. }
  specialize (Hno p ds l Hr Hc Hs eq_refl Hbet).
  assert (∀ f, top (update_where (has_id (mu_order_id u)) f ((p, ds) :: l)) = top ((p, ds) :: l) ∨
     ¬ (mu_type u = MarketUpdateType.MODIFY)) as Hupd.
  { intros f. destruct (decide (mu_type u = MarketUpdateType.MODIFY)) as [Hm|]; [left|by right].
    change ((p, ds) :: l) with ([(p, ds)] ++ l).
    unfold update_where. rewrite fmap_app.
    change ((λ pd : Price * list MarketInfo, (pd.1, (λ d, if decide (has_id (mu_order_id u) d)
      then f d else d) <$> pd.2)) <$> [(p, ds)]) with
      (update_where (has_id (mu_order_id u)) f [(p, ds)]).
    rewrite update_where_others; [done|]. intros d. rewrite level_orders_cons.
    rewrite elem_of_app. intros [Hd|Hd%elem_of_nil]; [|done]. by apply Hno; [left|]. }
  unfold sm_apply. destruct (mu_type u) eqn:Ety; try by rewrite E.
  - unfold valid_update in Hv. rewrite Ety in Hv. destruct Hv as (Hus & _).
    destruct (tradable_cases _ _ Hus Hs) as [Heq|Heq].
    + rewrite Heq, sm_side_set, <-Heq, E. simpl.
      specialize (Hbet (eq_sym Heq)). rewrite bool_decide_eq_false_2.
      2: { intros ->. destruct s; simpl in Hbet; lia. }
      by rewrite bool_decide_eq_true_2.
    + rewrite Heq, sm_side_set_opp, <-Heq, E by done. done.
  - destruct (Hupd (mi_set_qty (mu_qty u))) as [Hu|Hu]; [|done]. rewrite <-Hu, <-E.
    by destruct Hs as [->| ->].
  - assert (sm_side (mkSpecMarket (remove_where (has_id (mu_order_id u)) (sm_bids b))
      (remove_where (has_id (mu_order_id u)) (sm_asks b))) s =
      remove_where (has_id (mu_order_id u)) (sm_side b s)) as -> by by destruct Hs as [->| ->].
    rewrite E, remove_where_cons, filter_others by (apply Hno; by right).
    by destruct ds.
Qed.

Lemma bbo_tracks_step bk b u s :
  mk_refines bk b → valid_update b u → consistent b u → tradable s →
  sm_side b s ≠ [] → bbo_tracks b (bbo_ bk) s →
  bbo_tracks (sm_apply b u) (bbo_next b (bbo_ bk) u) s.
Proof.
  intros Href Hv Hc Hs Hne Htr. unfold bbo_tracks, bbo_next. case_bool_decide as Ht.
  { unfold sm_apply. by rewrite Ht. }
  rewrite bbo_after_side by done.
  assert ((if bool_decide (s = Side.BUY) then side_touched b u Side.BUY
           else side_touched b u Side.SELL) = side_touched b u s) as ->.
  { by destruct Hs as [->| ->]. }
  destruct (side_touched b u s) eqn:E; [done|].
  rewrite (top_untouched bk b u s Href Hv Hc Hs Hne E). exact Htr.
Qed.
