(* ===== verification/FeedMirror.v ===== *)
(** * FeedMirror: the market data feed carries the book

    The exchange's book and the trading client's book are two programs; what connects
    them is the stream of market updates.  [proj] forgets what the feed does not carry
    (clients and their order ids).  The updates of every request take the projected book
    before it to the projected book after it, and each of them is one the client's
    program handles. *)
From S2P Require Import Prelude Types MemPool Ring PriceLevels BookInv LevelsAbs MEOrderBook.
From S2P Require Import BookSpec BookMatch MEBookRefine MEBookSpec BookProps MarketOrderBook.
From S2P Require Import MarketBookSpec MarketBBO.

#[local] Arguments odata : simpl never.

Definition proj (d : OrderInfo) : MarketInfo :=
  mkMarketInfo (oi_market_order_id d) (oi_side d) (oi_price d) (oi_qty d) (oi_priority d).
Definition proj_side (l : side_levels OrderInfo) : side_levels MarketInfo :=
  (λ pd : Price * list OrderInfo, (pd.1, proj <$> pd.2)) <$> l.
Definition proj_book (a : SpecBook) : SpecMarket :=
  mkSpecMarket (proj_side (sb_bids a)) (proj_side (sb_asks a)).

Definition moids (l : side_levels OrderInfo) : list OrderId :=
  oi_market_order_id <$> level_orders l.

Section Proj.
Implicit Types (l k : side_levels OrderInfo) (d : OrderInfo) (a : SpecBook) (s : Side.t).

Lemma proj_side_cons p ds l : proj_side ((p, ds) :: l) = (p, proj <$> ds) :: proj_side l.
Proof. done. Qed.
Lemma proj_side_app l k : proj_side (l ++ k) = proj_side l ++ proj_side k.
Proof. apply fmap_app. Qed.
Lemma proj_some p ds : proj_side (some_level p ds) = some_level p (proj <$> ds).
Proof. by destruct ds. Qed.
Lemma proj_prices l : (proj_side l).*1 = l.*1.
Proof. unfold proj_side. by rewrite <-list_fmap_compose. Qed.
Lemma proj_orders l : level_orders (proj_side l) = proj <$> level_orders l.
Proof.
  induction l as [|[p ds] l IH]; [done|].
  by rewrite proj_side_cons, !level_orders_cons, fmap_app, IH.
Qed.
Lemma proj_ids l : mi_order_id <$> level_orders (proj_side l) = moids l.
Proof. rewrite proj_orders, <-list_fmap_compose. done. Qed.
Lemma proj_book_side a s : sm_side (proj_book a) s = proj_side (sb_side a s).
Proof. unfold sm_side, sb_side. by case_bool_decide. Qed.
Lemma proj_book_levels a : sm_levels (proj_book a) = proj_side (sb_levels a).
Proof. unfold sm_levels, sb_levels. by rewrite proj_side_app. Qed.
Lemma proj_book_orders a : sm_orders (proj_book a) = proj <$> sb_orders a.
Proof. unfold sm_orders. by rewrite proj_book_levels, proj_orders. Qed.
Lemma proj_book_ids a :
  mi_order_id <$> sm_orders (proj_book a) = oi_market_order_id <$> sb_orders a.
Proof. by rewrite proj_book_orders, <-list_fmap_compose. Qed.
Lemma moids_perm a s :
  tradable s → oi_market_order_id <$> sb_orders a ≡ₚ
  moids (sb_side a s) ++ moids (sb_side a (opp s)).
Proof.
  intros Hs. unfold moids, sb_orders.
  by rewrite (level_orders_perm _ _ (sb_levels_perm a s Hs)), level_orders_app, fmap_app.
Qed.

Lemma proj_insert s d l :
  insert_order s (proj d) (proj_side l) = proj_side (insert_order s d l).
Proof.
  induction l as [|[p ds] l IH]; [done|]. rewrite proj_side_cons. simpl.
  change (d_price (proj d)) with (oi_price d). change (d_price d) with (oi_price d).
  case_bool_decide; [|case_bool_decide].
  - rewrite proj_side_cons, fmap_app. done.
  - rewrite proj_side_cons, IH. done.
  - done.
Qed.

Lemma proj_remove i (P : OrderInfo → Prop) `{∀ d, Decision (P d)} l :
  (∀ d, d ∈ level_orders l → P d ↔ oi_market_order_id d = i) →
  remove_where (has_id i) (proj_side l) = proj_side (remove_where P l).
Proof.
  induction l as [|[p ds] l IH]; intros HP; [done|].
  rewrite proj_side_cons, !remove_where_cons, proj_side_app, proj_some.
  rewrite level_orders_cons in HP. rewrite IH by (intros; apply HP; set_solver).
  f_equal. f_equal. clear IH.
  assert (∀ d, d ∈ ds → P d ↔ oi_market_order_id d = i) as HP' by (intros; apply HP; set_solver).
  clear HP. induction ds as [|d ds IH]; [done|]. rewrite fmap_cons.
  pose proof (HP' d ltac:(by left)) as Hd.
  destruct (decide (P d)) as [Hpd|Hpd].
  - rewrite !filter_cons_False by (unfold has_id; simpl; tauto).
    apply IH. intros x Hx. apply HP'. by right.
  - rewrite !filter_cons_True by (unfold has_id; simpl; tauto).
    rewrite fmap_cons. f_equal. apply IH. intros x Hx. apply HP'. by right.
Qed.

Lemma has_id_elem i d (ds : list OrderInfo) :
  has_id i (proj d) → d ∈ ds → i ∈ oi_market_order_id <$> ds.
Proof. intros <- Hd. by apply (list_elem_of_fmap_2 oi_market_order_id). Qed.

(** A side that has no order with an id does not change when that id is updated. *)
Lemma remove_id_others i l :
  Forall (λ pd, pd.2 ≠ []) l → i ∉ moids l → remove_where (has_id i) (proj_side l) = proj_side l.
Proof.
  intros Hne Hi. apply remove_where_others.
  - apply Forall_fmap. eapply Forall_impl; [exact Hne|]. intros [p ds] Hds. simpl in *.
    by destruct ds.
  - rewrite proj_orders. intros d (x & -> & Hx)%list_elem_of_fmap Hid. apply Hi.
    by apply (has_id_elem i x).
Qed.
Lemma update_id_others i f l :
  i ∉ moids l → update_where (has_id i) f (proj_side l) = proj_side l.
Proof.
  intros Hi. apply update_where_others. rewrite proj_orders.
  intros d (x & -> & Hx)%list_elem_of_fmap Hid. apply Hi.
  by apply (has_id_elem i x).
Qed.

(** The first order of a side, removed or reduced. *)
Lemma remove_id_head p d ds l :
  Forall (λ pd, pd.2 ≠ []) l → NoDup (moids ((p, d :: ds) :: l)) →
  remove_where (has_id (oi_market_order_id d)) (proj_side ((p, d :: ds) :: l)) =
  proj_side (some_level p ds ++ l).
Proof.
  intros Hne Hnd. unfold moids in Hnd. rewrite level_orders_cons in Hnd. cbn [app] in Hnd.
  rewrite fmap_cons in Hnd. apply NoDup_cons in Hnd as [Hno _].
  rewrite proj_side_cons, remove_where_cons, fmap_cons, filter_cons_False by
    (unfold has_id; simpl; tauto).
  rewrite fmap_app, not_elem_of_app in Hno. destruct Hno as [Hno1 Hno2].
  rewrite filter_others, remove_id_others by
    (done || (intros x (y & -> & Hy)%list_elem_of_fmap Hid; apply Hno1;
              by apply (has_id_elem _ y))).
  by rewrite proj_side_app, proj_some.
Qed.
Lemma update_id_head p d ds l q :
  NoDup (moids ((p, d :: ds) :: l)) →
  update_where (has_id (oi_market_order_id d)) (mi_set_qty q) (proj_side ((p, d :: ds) :: l)) =
  proj_side ((p, oi_set_qty q d :: ds) :: l).
Proof.
  intros Hnd. unfold moids in Hnd. rewrite level_orders_cons in Hnd. cbn [app] in Hnd.
  rewrite fmap_cons in Hnd. apply NoDup_cons in Hnd as [Hno _].
  rewrite fmap_app, not_elem_of_app in Hno. destruct Hno as [Hno1 Hno2].
  rewrite !proj_side_cons. rewrite <-(update_id_others _ (mi_set_qty q) l Hno2) at 2.
  unfold update_where. rewrite fmap_cons. f_equal. simpl. rewrite decide_True by done.
  do 2 f_equal. rewrite <-list_fmap_compose. apply list_fmap_ext. intros i x Hx. simpl.
  rewrite decide_False; [done|]. intros Hid. apply Hno1.
  apply (has_id_elem _ x); [done|]. by eapply list_elem_of_lookup_2.
Qed.

Lemma sm_eq b b' s :
  tradable s → sm_side b s = sm_side b' s → sm_side b (opp s) = sm_side b' (opp s) → b = b'.
Proof. destruct b, b'. intros [->| ->]; unfold sm_side; simpl; intros -> ->; done. Qed.
End Proj.

Lemma submseteq_NoDup {A} (l k : list A) : l ⊆+ k → NoDup k → NoDup l.
Proof.
  intros (m & ->)%submseteq_Permutation Hnd. by apply NoDup_app in Hnd as [? _].
Qed.

Lemma sm_run_app b us us' : sm_run b (us ++ us') = sm_run (sm_run b us) us'.
Proof. apply foldl_app. Qed.

(** One order has the id that an update names, so its side and price are the update's. *)
Lemma NoDup_fmap_elem {A B} (g : A → B) (l : list A) x y :
  NoDup (g <$> l) → x ∈ l → y ∈ l → g x = g y → x = y.
Proof.
  intros Hnd (i & Hi)%list_elem_of_lookup (j & Hj)%list_elem_of_lookup E.
  assert (i = j) as ->; [|congruence]. apply (NoDup_lookup (g <$> l) i j (g x)); [done|..].
  - by rewrite list_lookup_fmap, Hi.
  - by rewrite list_lookup_fmap, Hj, E.
Qed.

Lemma consistent_one b x u :
  NoDup (mi_order_id <$> sm_orders b) → x ∈ sm_orders b → mi_order_id x = mu_order_id u →
  mi_side x = mu_side u → mi_price x = mu_price u → consistent b u.
Proof.
  intros Hnd Hx Hid Hs Hp _. apply Forall_forall. intros d Hd E.
  by rewrite (NoDup_fmap_elem _ _ d x Hnd Hd Hx) by congruence.
Qed.

(** ** Matching *)
Section Match.
Context (cid : ClientId) (coid : OrderId) (tid : TickerId) (s : Side.t) (price : Price)
  (moid : OrderId) (Hs : tradable s).
Context (own : side_levels OrderInfo) (Hown : Forall (λ pd, pd.2 ≠ []) own).
Abbreviation mside := (match_side cid coid tid s price moid).
Abbreviation fevents := (fill_events cid coid tid s moid).
Implicit Types (l : side_levels OrderInfo) (d : OrderInfo) (b : SpecMarket).

(** The client's book holds [l] on the other side and [own] on this one. *)
Definition holds b l : Prop :=
  sm_side b (opp s) = proj_side l ∧ sm_side b s = proj_side own.

Lemma holds_ids b l : holds b l →
  mi_order_id <$> sm_orders b ≡ₚ moids l ++ moids own.
Proof.
  intros [H1 H2]. unfold sm_orders.
  rewrite (level_orders_perm _ _ (sm_levels_perm b s Hs)), H1, H2, level_orders_app, fmap_app.
  rewrite !proj_ids. apply Permutation_app_comm.
Qed.

Lemma holds_set b l l' (F : side_levels MarketInfo → side_levels MarketInfo) :
  holds b l → F (proj_side l) = proj_side l' → F (proj_side own) = proj_side own →
  holds (mkSpecMarket (F (sm_bids b)) (F (sm_asks b))) l'.
Proof.
  intros [H1 H2] E1 E2. unfold holds.
  destruct Hs as [->| ->]; unfold sm_side in *; simpl in *; by rewrite H1, H2.
Qed.

(** The order in front is in the client's book. *)
Lemma holds_head b p d ds l : holds b ((p, d :: ds) :: l) → proj d ∈ sm_orders b.
Proof.
  intros [H _]. unfold sm_orders.
  rewrite (level_orders_perm _ _ (sm_levels_perm b s Hs)), H, level_orders_app, proj_orders.
  rewrite level_orders_cons. set_solver.
Qed.

(** The two updates of an execution against the order in front. *)
Lemma fill_feed b p d ds l u us :
  holds b ((p, d :: ds) :: l) → NoDup (moids ((p, d :: ds) :: l) ++ moids own) →
  mu_type u = MarketUpdateType.TRADE →
  (∀ v, us = [v] → valid_update b v ∧ mu_type v ≠ MarketUpdateType.ADD ∧
     mu_order_id v = oi_market_order_id d ∧ mu_side v = oi_side d ∧ mu_price v = oi_price d) →
  length us = 1%nat → feed_ok b (u :: us).
Proof.
  intros Hb Hnd Hu Hv Hl. destruct us as [|v [|]]; try done.
  destruct (Hv v eq_refl) as (Hval & Hty & Hid & Hsd & Hpr). cbn [feed_ok].
  assert (sm_apply b u = b) as -> by (unfold sm_apply; by rewrite Hu).
  split; [unfold valid_update; by rewrite Hu|].
  split; [intros [E|E]; congruence|]. split; [by rewrite Hu|]. split; [done|].
  split; [|by split].
  apply (consistent_one b (proj d)); [by rewrite (holds_ids _ _ Hb)|by eapply holds_head|..];
    by symmetry.
Qed.

Lemma fill_full b p d ds l lv :
  Forall (λ pd, pd.2 ≠ []) l → NoDup (moids ((p, d :: ds) :: l) ++ moids own) →
  holds b ((p, d :: ds) :: l) →
  feed_ok b (updates (fevents d (oi_qty d) 0 lv)) ∧
  holds (sm_run b (updates (fevents d (oi_qty d) 0 lv))) (some_level p ds ++ l).
Proof.
  intros Hne Hnd Hb. pose proof (holds_ids _ _ Hb) as Hids.
  pose proof Hnd as Hnd'. apply NoDup_app in Hnd' as (Hnd1 & Hnd2 & _).
  assert (oi_market_order_id d ∈ moids ((p, d :: ds) :: l)) as Hin.
  { unfold moids. rewrite level_orders_cons. by left. }
  unfold updates, fill_events, sm_run. cbn [Z.eqb omap list_omap update_of foldl].
  split; [|].
  - eapply fill_feed; [exact Hb|exact Hnd|done| |done].
    intros v [= <-]. split; [|done]. unfold valid_update. simpl. rewrite Hids. set_solver + Hin.
  - unfold sm_apply. simpl.
    apply (holds_set b _ _ (remove_where (has_id (oi_market_order_id d))) Hb).
    + by apply remove_id_head.
    + apply remove_id_others; [done|]. by apply Hnd2.
Qed.

Lemma fill_part b p d ds l lv :
  0 < oi_qty d - lv < 2 ^ 32 → NoDup (moids ((p, d :: ds) :: l) ++ moids own) →
  holds b ((p, d :: ds) :: l) →
  feed_ok b (updates (fevents d lv (oi_qty d - lv) 0)) ∧
  holds (sm_run b (updates (fevents d lv (oi_qty d - lv) 0)))
    ((p, oi_set_qty (oi_qty d - lv) d :: ds) :: l).
Proof.
  intros Hq Hnd Hb. pose proof (holds_ids _ _ Hb) as Hids.
  pose proof Hnd as Hnd'. apply NoDup_app in Hnd' as (Hnd1 & Hnd2 & _).
  assert (oi_market_order_id d ∈ moids ((p, d :: ds) :: l)) as Hin.
  { unfold moids. rewrite level_orders_cons. by left. }
  unfold updates, fill_events, sm_run.
  rewrite (proj2 (Z.eqb_neq (oi_qty d - lv) 0)) by lia.
  cbn [omap list_omap update_of foldl]. split; [|].
  - eapply fill_feed; [exact Hb|exact Hnd|done| |done].
    intros v [= <-]. split; [|done]. unfold valid_update. simpl.
    rewrite Hids. split; [lia|set_solver + Hin].
  - unfold sm_apply. simpl.
    apply (holds_set b _ _ (update_where (has_id (oi_market_order_id d))
      (mi_set_qty (oi_qty d - lv))) Hb).
    + by apply update_id_head.
    + apply update_id_others. by apply Hnd2.
Qed.

Lemma match_mirror l lv l' lv' ev :
  Forall (λ pd, pd.2 ≠ []) l → mside l lv = (l', lv', ev) →
  Forall (λ pd, pd.2 ≠ []) l → NoDup (moids l ++ moids own) → 0 ≤ lv →
  (∀ d, d ∈ level_orders l → 0 ≤ oi_qty d < 2 ^ 32) →
  ∀ b, holds b l → feed_ok b (updates ev) ∧ holds (sm_run b (updates ev)) l'.
Proof.
  revert l lv l' lv' ev.
  apply (match_side_ind _ _ _ _ _ _ (λ l lv l' lv' ev,
    Forall (λ pd, pd.2 ≠ []) l → NoDup (moids l ++ moids own) → 0 ≤ lv →
    (∀ d, d ∈ level_orders l → 0 ≤ oi_qty d < 2 ^ 32) →
    ∀ b, holds b l → feed_ok b (updates ev) ∧ holds (sm_run b (updates ev)) l')).
  - done.
  - intros p d ds l lv l' lv' ev _ _ Hle _ IH Hne Hnd Hlv Hq b Hb.
    apply Forall_cons in Hne as [_ Hne].
    destruct (fill_full b p d ds l (lv - oi_qty d) Hne Hnd Hb) as [Hv1 Hb1].
    rewrite updates_app, feed_ok_app, sm_run_app.
    unfold moids in Hnd. rewrite level_orders_cons in Hnd. cbn [app] in Hnd.
    rewrite fmap_cons in Hnd. apply NoDup_cons in Hnd as [_ Hnd].
    rewrite level_orders_cons in Hq.
    destruct (IH (some_level_nonempty p ds l Hne)) with
      (b := sm_run b (updates (fevents d (oi_qty d) 0 (lv - oi_qty d)))) as [Hv2 Hb2].
    + unfold moids. rewrite level_orders_app, level_orders_some. done.
    + lia.
    + intros x Hx. apply Hq. right. by rewrite level_orders_app, level_orders_some in Hx.
    + done.
    + done.
  - intros p d ds l lv H0 _ Hlt Hne Hnd Hlv Hq b Hb.
    apply fill_part; [|done|done].
    specialize (Hq d). rewrite level_orders_cons in Hq. specialize (Hq ltac:(by left)). lia.
Qed.
End Match.

(** ** Requests *)

(** Market order ids are unique, and below the next one. *)
Definition ids_ok (a : SpecBook) : Prop :=
  NoDup (oi_market_order_id <$> sb_orders a) ∧ 0 ≤ sb_next_id a ∧
  ∀ i, i ∈ (oi_market_order_id <$> sb_orders a) → 0 ≤ i < sb_next_id a.

Definition mirror_step (a : SpecBook) (a' : SpecBook) (us : list MEMarketUpdate) : Prop :=
  feed_ok (proj_book a) us ∧ sm_run (proj_book a) us = proj_book a' ∧ ids_ok a' ∧
  sb_next_id a ≤ sb_next_id a' ≤ sb_next_id a + 1.

Section AddMirror.
Context (bk : MEOrderBook) (a : SpecBook) (cid : ClientId) (coid : OrderId)
  (tid : TickerId) (s : Side.t) (price : Price) (qty : Qty).
Context (Href : refines bk a) (Hvalid : valid_new a cid coid s price qty).
Context (Hids : ids_ok a) (Hnext : sb_next_id a < ME_MAX_ORDER_IDS).
Context (other : side_levels OrderInfo) (lv : Qty) (ev : list Event).
Context (Hmatch : match_side cid coid tid s price (u32 (sb_next_id a)) (sb_side a (opp s)) qty
                  = (other, lv, ev)).
Abbreviation a1 := (spec_matched a s other).

Lemma next_id_step : sb_next_id a1 = sb_next_id a + 1.
Proof. unfold spec_matched. simpl. apply u64_id. unfold ids_ok, ME_MAX_ORDER_IDS in *. lia. Qed.

Lemma matched_ids_ok : ids_ok a1 ∧
  ∀ i, i ∈ (oi_market_order_id <$> sb_orders a1) → 0 ≤ i < sb_next_id a.
Proof.
  destruct Href as [G HG]. destruct Hids as (Hnd & Hn0 & Hlt).
  destruct (matched_sub bk G a cid coid tid s price qty HG Hvalid _ _ _ _ Hmatch
    oi_market_order_id (λ _ _, eq_refl)) as [_ Hsub].
  assert (∀ i, i ∈ (oi_market_order_id <$> sb_orders a1) → 0 ≤ i < sb_next_id a) as Hin.
  { intros i Hi. apply Hlt. by eapply elem_of_submseteq. }
  split; [|done]. unfold ids_ok. rewrite next_id_step. split_and!.
  - by eapply submseteq_NoDup.
  - lia.
  - intros i Hi%Hin. lia.
Qed.

Lemma matched_mirror :
  feed_ok (proj_book a) (updates ev) ∧
  sm_run (proj_book a) (updates ev) = proj_book a1.
Proof.
  pose proof Hvalid as (Hs & _ & _ & Hq & _). pose proof (opp_tradable s) as Hos.
  destruct (refines_level_prices bk a _ Href Hos) as (_ & Hne & _).
  destruct (refines_level_prices bk a _ Href Hs) as (_ & Hown & _).
  destruct Hids as (Hnd & _ & _). rewrite (moids_perm a s Hs), Permutation_app_comm in Hnd.
  destruct (match_mirror cid coid tid s price (u32 (sb_next_id a)) Hs (sb_side a s) Hown
    _ _ _ _ _ Hne Hmatch Hne Hnd) with (b := proj_book a) as (Hv & H1 & H2); [lia| | |].
  - destruct Href as [G HG]. rewrite <-(refines_side _ _ _ _ HG Hos), level_orders_abs.
    intros d (p & -> & Hp)%list_elem_of_fmap. apply (info_qty_range _ _ p (rf_rep _ _ _ HG)).
    rewrite (glevels_perm G _ Hos), gorders_app. set_solver + Hp.
  - split; by rewrite proj_book_side.
  - split; [done|]. apply (sm_eq _ _ s Hs); rewrite proj_book_side.
    + by rewrite spec_matched_same.
    + by rewrite spec_matched_opp.
Qed.

(** What is left of the order can be added to the client's book. *)
Lemma rest_valid prio :
  lv ≠ 0 →
  valid_update (proj_book a1) (mkMEMarketUpdate MarketUpdateType.ADD (sb_next_id a) tid s
                                 price lv prio).
Proof.
  intros Hlv. pose proof Hvalid as (Hs & _ & _ & Hq & _ & Hfit & Hcap & Hlcap).
  destruct Href as [G HG].
  destruct (matched_sub bk G a cid coid tid s price qty HG Hvalid _ _ _ _ Hmatch
    oi_market_order_id (λ _ _, eq_refl)) as [Hsub1 Hsub2].
  destruct matched_ids_ok as [_ Hids1].
  unfold valid_update. simpl. split_and!.
  - done.
  - unfold market_id_ok. destruct Hids as (_ & ? & _). lia.
  - by eapply leaves_range.
  - by eapply leaves_range.
  - rewrite proj_book_ids. intros Hi%Hids1. lia.
  - rewrite proj_book_levels, proj_prices. unfold level_free.
    rewrite Forall_forall in *. intros p Hp. apply Hfit. by eapply elem_of_submseteq.
  - rewrite proj_book_side, proj_prices, spec_matched_opp by done. intros Hp.
    destruct (refines_level_prices bk a _ Href (opp_tradable s)) as (_ & Hne & Hsort).
    pose proof (match_side_uncrossed _ _ _ _ _ _ _ _ _ _ _ Hs Hne Hsort Hmatch Hlv _ Hp) as Hx.
    destruct Hs as [->| ->]; simpl in Hx; apply Z.leb_gt in Hx; lia.
  - apply submseteq_length in Hsub2. rewrite !length_fmap in Hsub2.
    rewrite proj_book_orders, length_fmap. lia.
  - apply submseteq_length in Hsub1. rewrite !length_fmap in Hsub1.
    rewrite proj_book_levels. unfold proj_side. rewrite length_fmap. lia.
Qed.
End AddMirror.

Lemma ids_ok_insert a s d :
  tradable s → ids_ok a → oi_market_order_id d ∉ (oi_market_order_id <$> sb_orders a) →
  0 ≤ oi_market_order_id d < sb_next_id a →
  ids_ok (sb_set a s (insert_order s d (sb_side a s))).
Proof.
  intros Hs (Hnd & Hn0 & Hlt) Hno Hd.
  assert (oi_market_order_id <$> sb_orders (sb_set a s (insert_order s d (sb_side a s))) ≡ₚ
    oi_market_order_id d :: (oi_market_order_id <$> sb_orders a)) as Hperm.
  { rewrite !(moids_perm _ s Hs), sb_side_set, sb_side_set_opp by done.
    unfold moids at 1. by rewrite insert_order_orders. }
  unfold ids_ok. rewrite Hperm, sb_next_set. split_and!; [by constructor|done|].
  setoid_rewrite Hperm. intros i. rewrite elem_of_cons. intros [->|Hi]; auto.
Qed.

Lemma add_mirror bk a cid coid tid s price qty :
  refines bk a → valid_new a cid coid s price qty → ids_ok a →
  sb_next_id a < ME_MAX_ORDER_IDS →
  mirror_step a (spec_add a cid coid tid s price qty).1
    (updates (spec_add a cid coid tid s price qty).2).
Proof.
  intros Href Hv Hids Hnext. pose proof Hv as (Hs & _).
  destruct (match_side cid coid tid s price (u32 (sb_next_id a)) (sb_side a (opp s)) qty)
    as [[other lv] ev] eqn:Em.
  rewrite (spec_add_eq _ _ _ _ _ _ _ _ _ _ Em). cbv zeta.
  destruct (matched_mirror bk _ _ _ _ _ _ _ Href Hv Hids _ _ _ Em) as [Hv1 Hr1].
  destruct (matched_ids_ok bk _ _ _ _ _ _ _ Href Hv Hids Hnext _ _ _ Em) as [Hids1 Hlt1].
  pose proof (next_id_step _ s Hids Hnext other) as Hn1.
  destruct (lv =? 0) eqn:E0; [|apply Z.eqb_neq in E0]; unfold mirror_step; cbn [fst snd].
  - split_and!; try done; lia.
  - set (prio := next_priority _ _).
    set (u := mkMEMarketUpdate MarketUpdateType.ADD (sb_next_id a) tid s price lv prio).
    change (updates (_ :: ev ++ [SendUpdate u])) with (updates (ev ++ [SendUpdate u])).
    rewrite updates_app, feed_ok_app, sm_run_app, Hr1.
    set (d := mkOrderInfo tid cid coid (sb_next_id a) s price lv prio).
    pose proof (rest_valid bk _ _ _ _ _ _ _ Href Hv Hids Hnext _ _ _ Em prio E0) as Hvu.
    assert (fresh_above (proj_book (spec_matched a s other)) u) as Hfr.
    { unfold fresh_above. rewrite proj_book_ids, Forall_forall. intros i Hi%Hlt1. simpl. lia. }
    split_and!; [done|by split_and!; [|intros [?|?]| |]| | | |].
    + change (sm_run (proj_book (spec_matched a s other)) (updates [SendUpdate u])) with
        (sm_apply (proj_book (spec_matched a s other)) u).
      unfold sm_apply. simpl. change (update_info u) with (proj d).
      rewrite proj_book_side, proj_insert.
      apply (sm_eq _ _ s Hs); rewrite proj_book_side.
      * by rewrite sm_side_set, sb_side_set.
      * by rewrite sm_side_set_opp, sb_side_set_opp, proj_book_side.
    + apply ids_ok_insert; [done|done| |].
      * intros Hi%Hlt1. simpl in Hi. lia.
      * change (oi_market_order_id d) with (sb_next_id a). rewrite Hn1. destruct Hids as (_ & ? & _). lia.
    + rewrite sb_next_set. lia.
    + rewrite sb_next_set. lia.
Qed.

(** The live order of a key is the only one with its market order id. *)
Lemma find_order_unique bk a cid oid d :
  refines bk a → client_ok cid → oid_ok oid → ids_ok a → find_order a cid oid = Some d →
  d ∈ sb_orders a ∧
  ∀ d', d' ∈ sb_orders a → is_order cid oid d' ↔ oi_market_order_id d' = oi_market_order_id d.
Proof.
  intros [G HG] Hc Hi (Hnd & _) Hf. pose proof (rf_rep _ _ _ HG) as Hrep.
  rewrite (refines_find _ _ _ _ _ HG Hc Hi) in Hf.
  destruct (cid_get bk cid oid) as [o|] eqn:Eo; [|done]. simpl in Hf. injection Hf as <-.
  apply (mr_cid _ _ Hrep) in Eo as Ho; [|done..]. destruct Ho as [Hin Hio].
  rewrite (refines_orders _ _ _ HG) in Hnd |- *.
  split; [by apply (list_elem_of_fmap_2 (odata (ob_levels bk)))|]. intros d' (x & -> & Hx)%list_elem_of_fmap. split.
  - intros Hxi. assert (cid_get bk cid oid = Some x) by by apply (mr_cid _ _ Hrep). congruence.
  - intros Heq. rewrite <-list_fmap_compose in Hnd.
    assert (x = o) as ->; [|done]. by eapply NoDup_fmap_elem.
Qed.

Lemma cancel_mirror bk a cid oid tid :
  refines bk a → 0 ≤ cid → oid_ok oid → ids_ok a →
  mirror_step a (spec_cancel a cid oid tid).1 (updates (spec_cancel a cid oid tid).2).
Proof.
  intros Href Hc Hi Hids. unfold spec_cancel.
  destruct (find_order a cid oid) as [d|] eqn:Ef; unfold mirror_step; cbn [fst snd].
  2: { split_and!; [done|done|done|lia|lia]. }
  assert (client_ok cid) as Hcok.
  { destruct Href as [G HG]. destruct (decide (client_ok cid)) as [|Hno]; [done|].
    by rewrite (refines_find_out _ _ _ _ _ HG Hno) in Ef. }
  destruct (find_order_unique _ _ _ _ _ Href Hcok Hi Hids Ef) as [Hd Hu].
  pose proof Hids as (Hnd & Hn0 & Hlt).
  assert (∀ s, tradable s → ∀ x, x ∈ level_orders (sb_side a s) → x ∈ sb_orders a) as Hin.
  { intros s Hs x Hx. unfold sb_orders.
    rewrite (level_orders_perm _ _ (sb_levels_perm a s Hs)), level_orders_app. set_solver + Hx. }
  set (a' := mkSpecBook _ _ _).
  assert (oi_market_order_id <$> sb_orders a' ⊆+ oi_market_order_id <$> sb_orders a) as Hsub.
  { unfold sb_orders, sb_levels, a'. simpl. rewrite !level_orders_app, !fmap_app.
    apply submseteq_app; apply remove_where_ids. }
  split_and!; [| | |simpl; lia|simpl; lia].
  - split_and!; [|apply (consistent_one _ (proj d))| |]; try done.
    + unfold valid_update. simpl. rewrite proj_book_ids.
      by apply (list_elem_of_fmap_2 oi_market_order_id).
    + by rewrite proj_book_ids.
    + rewrite proj_book_orders. by apply (list_elem_of_fmap_2 proj).
  - unfold sm_run, sm_apply, proj_book. simpl. f_equal; apply proj_remove.
    + intros x Hx. apply Hu. by apply (Hin Side.BUY); [left|].
    + intros x Hx. apply Hu. by apply (Hin Side.SELL); [right|].
  - unfold ids_ok. split_and!; [by eapply submseteq_NoDup|done|].
    intros i Hi'. apply Hlt. by eapply elem_of_submseteq.
Qed.

Lemma step_mirror tid bk a r :
  refines bk a → valid_req a r → ids_ok a → sb_next_id a < ME_MAX_ORDER_IDS →
  mirror_step a (spec_step tid a r).1 (updates (spec_step tid a r).2).
Proof.
  destruct r; simpl; intros; [by eapply add_mirror|]. destruct_and!. by eapply cancel_mirror.
Qed.

Lemma run_mirror tid bk a rs :
  refines bk a → book_ok a → valid_run tid a rs → ids_ok a →
  sb_next_id a + Z.of_nat (length rs) ≤ ME_MAX_ORDER_IDS →
  feed_ok (proj_book a) (updates (spec_run tid a rs).2) ∧
  sm_run (proj_book a) (updates (spec_run tid a rs).2) = proj_book (spec_run tid a rs).1.
Proof.
  revert bk a. induction rs as [|r rs IH]; intros bk a Href Hok Hv Hids Hn; [done|].
  destruct Hv as [Hr Hv]. simpl in Hn |- *.
  destruct (step_mirror tid bk a r Href Hr Hids ltac:(lia)) as (Hv1 & Hr1 & Hids1 & Hn1).
  destruct (book_step_spec tid bk a [] r Href Hr) as (bk1 & _ & Href1).
  pose proof (spec_step_ok tid bk a r Href Hr Hok) as Hok1.
  destruct (spec_step tid a r) as [a1 ev1]. simpl in *.
  destruct (IH bk1 a1 Href1 Hok1 Hv Hids1 ltac:(lia)) as [Hv2 Hr2].
  destruct (spec_run tid a1 rs) as [a2 ev2]. simpl in *.
  by rewrite updates_app, feed_ok_app, sm_run_app, Hr1.
Qed.

Lemma ids_ok_new : ids_ok SpecBook_new.
Proof.
  unfold ids_ok, SpecBook_new, sb_orders. simpl. split_and!; [constructor|done|].
  intros i Hi. by apply elem_of_nil in Hi.
Qed.

(** ** A session and its feed *)
Lemma feed_mirrors tid rs :
  valid_run tid SpecBook_new rs → Z.of_nat (length rs) < ME_MAX_ORDER_IDS →
  ∃ bk ev a mbk,
    book_run tid (MEOrderBook_new tid) [] rs = Ok (bk, ev) ∧ refines bk a ∧ book_ok a ∧
    onMarketUpdates (MarketOrderBook_new tid) (updates ev) =
      Ok (mbk, call_of <$> updates ev) ∧
    mk_refines mbk (proj_book a).
Proof.
  intros Hv Hn. pose proof (MEOrderBook_new_refines tid) as Hnew.
  pose proof book_ok_new as Hok.
  destruct (book_run_spec tid _ _ [] rs Hnew Hok Hv) as (bk & Hrun & Href & Hok').
  destruct (run_mirror tid _ _ rs Hnew Hok Hv ids_ok_new) as [Hvu Hsm]; [simpl; lia|].
  destruct (onMarketUpdates_spec _ _ _ (MarketOrderBook_new_refines tid) (feed_ok_valid _ _ Hvu)) as (mbk & Hm & Hmr).
  exists bk, (spec_run tid SpecBook_new rs).2, (spec_run tid SpecBook_new rs).1, mbk.
  split_and!; [exact Hrun|exact Href|exact Hok'|exact Hm|]. rewrite <-Hsm. exact Hmr.
Qed.
