(* ===== verification/FeedTheorems.v ===== *)
(** * FeedTheorems: the theorems about the client's copy of the book *)
From S2P Require Import Prelude Types MemPool Ring PriceLevels BookInv LevelsAbs MEOrderBook.
From S2P Require Import BookSpec BookMatch MEBookRefine MEBookSpec BookProps BookTheorems.
From S2P Require Import MarketOrderBook MarketBookSpec MarketBBO FeedMirror.

(** C16: The feed carries the book: run any valid session on the exchange's book and give
    every market update it sends, in order, to the trading client's book: the client's
    program handles all of them without a fault, and ends with exactly the exchange's
    levels, each with the same orders (market order id, side, price, quantity, priority)
    in the same order. *)
Theorem feed_mirrors_book tid rs :
  valid_run tid SpecBook_new rs → Z.of_nat (length rs) < ME_MAX_ORDER_IDS →
  ∃ bk ev a mbk,
    book_run tid (MEOrderBook_new tid) [] rs = Ok (bk, ev) ∧ refines bk a ∧
    onMarketUpdates (MarketOrderBook_new tid) (updates ev) =
      Ok (mbk, call_of <$> updates ev) ∧
    mk_refines mbk (proj_book a).
Proof.
  intros Hv Hn. destruct (feed_mirrors tid rs Hv Hn) as (bk & ev & a & mbk & H1 & H2 & _ & H3 & H4).
  by exists bk, ev, a, mbk.
Qed.

Lemma feed_mirrors_book_witness :
  ∃ bk ev a mbk,
    book_run 0 (MEOrderBook_new 0) [] demo = Ok (bk, ev) ∧ refines bk a ∧
    onMarketUpdates (MarketOrderBook_new 0) (updates ev) = Ok (mbk, call_of <$> updates ev) ∧
    mk_refines mbk (proj_book a).
Proof.
  apply (feed_mirrors_book 0 demo); [exact (demo_valid 6)|by vm_compute].
Defined.

(** The client's book after the first two updates of a session. *)
Definition two_sells : list MEMarketUpdate :=
  [mkMEMarketUpdate MarketUpdateType.ADD 1 0 Side.SELL 101 5 1;
   mkMEMarketUpdate MarketUpdateType.ADD 2 0 Side.SELL 103 7 1].
Definition sells_book : SpecMarket := sm_run SpecMarket_new two_sells.

Lemma sells_reached :
  ∃ bk, onMarketUpdates (MarketOrderBook_new 0) two_sells = Ok (bk, call_of <$> two_sells) ∧
        mk_refines bk sells_book.
Proof.
  apply onMarketUpdates_spec; [apply MarketOrderBook_new_refines|].
  apply (bool_decide_unpack _). by vm_compute.
Qed.

(** C26: [MarketOrderBook::onMarketUpdate] on ADD, MODIFY, CANCEL, TRADE and the types it
    ignores: it succeeds, the book becomes what [sm_apply] says (rings, hash map, order-id
    map and pools included), a TRADE is reported with [onTradeUpdate] and changes nothing,
    anything else is reported with [onOrderBookUpdate], and the best bid and offer are
    recomputed on exactly the side whose best price the update reaches. *)
Theorem market_update_refines bk b u :
  mk_refines bk b → valid_update b u →
  ∃ bk', onMarketUpdate bk u = Ok (bk', call_of u) ∧ mk_refines bk' (sm_apply b u) ∧
         bbo_ bk' = bbo_next b (bbo_ bk) u.
Proof. apply onMarketUpdate_spec. Qed.

Lemma market_update_refines_witness :
  ∃ bk bk', mk_refines bk sells_book ∧
    onMarketUpdate bk (mkMEMarketUpdate MarketUpdateType.CANCEL 1 0 Side.SELL 101 5 1) =
      Ok (bk', OnOrderBookUpdate 0 101 Side.SELL) ∧
    bbo_side (bbo_ bk') Side.SELL = (103, 7).
Proof.
  destruct sells_reached as (bk & _ & Hbk).
  destruct (market_update_refines bk sells_book
    (mkMEMarketUpdate MarketUpdateType.CANCEL 1 0 Side.SELL 101 5 1) Hbk)
    as (bk' & H & _ & Hb).
  - apply (bool_decide_unpack _). by vm_compute.
  - exists bk, bk'. split; [exact Hbk|]. split; [exact H|]. rewrite Hb. by vm_compute.
Defined.

(** The best bid and offer track the book: if a side has orders and the summary shows
    its best price and that price's total quantity (modulo 2^32), then after any ADD,
    MODIFY, CANCEL or TRADE that carries the side and price of the order it names the
    summary shows them again, also when the update does not touch the best price. *)
Theorem bbo_tracks_book bk b u s :
  mk_refines bk b → valid_update b u → consistent b u → tradable s →
  sm_side b s ≠ [] → bbo_tracks b (bbo_ bk) s →
  ∃ bk', onMarketUpdate bk u = Ok (bk', call_of u) ∧ mk_refines bk' (sm_apply b u) ∧
         bbo_tracks (sm_apply b u) (getBBO bk') s.
Proof.
  intros Href Hv Hc Hs Hne Htr.
  destruct (onMarketUpdate_spec bk b u Href Hv) as (bk' & H & Href' & Hb).
  exists bk'. split_and!; [done|done|]. unfold getBBO. rewrite Hb.
  by apply bbo_tracks_step.
Qed.

Lemma bbo_tracks_book_witness :
  ∃ bk bk', mk_refines bk (sm_apply sells_book
      (mkMEMarketUpdate MarketUpdateType.ADD 3 0 Side.SELL 101 2 2)) ∧
    onMarketUpdate bk (mkMEMarketUpdate MarketUpdateType.CANCEL 2 0 Side.SELL 103 7 1) =
      Ok (bk', OnOrderBookUpdate 0 103 Side.SELL) ∧
    bbo_side (getBBO bk') Side.SELL = (101, 7).
Proof.
  destruct sells_reached as (bk0 & _ & Hbk0).
  destruct (onMarketUpdate_spec bk0 _ (mkMEMarketUpdate MarketUpdateType.ADD 3 0 Side.SELL 101 2 2)
    Hbk0) as (bk & _ & Hbk & Hb).
  { apply (bool_decide_unpack _). by vm_compute. }
  destruct (bbo_tracks_book bk _ (mkMEMarketUpdate MarketUpdateType.CANCEL 2 0 Side.SELL 103 7 1)
    Side.SELL Hbk) as (bk' & H & _ & Htr).
  - apply (bool_decide_unpack _). by vm_compute.
  - apply (bool_decide_unpack _). by vm_compute.
  - by right.
  - done.
  - unfold bbo_tracks. rewrite Hb. by vm_compute.
  - exists bk, bk'. split; [exact Hbk|]. split; [exact H|]. rewrite Htr. by vm_compute.
Defined.

(** The first order of an empty side does not reach the summary: after an ADD on an
    empty book the book has a best ask, but the summary still shows no price. *)
Theorem bbo_misses_first_order :
  ∃ bk, onMarketUpdate (MarketOrderBook_new 0)
      (mkMEMarketUpdate MarketUpdateType.ADD 1 0 Side.SELL 101 5 1) =
        Ok (bk, OnOrderBookUpdate 0 101 Side.SELL) ∧
    mk_refines bk (mkSpecMarket [] [(101, [mkMarketInfo 1 Side.SELL 101 5 1])]) ∧
    getBBO bk = BBO_default.
Proof.
  destruct (onMarketUpdate_spec (MarketOrderBook_new 0) SpecMarket_new
    (mkMEMarketUpdate MarketUpdateType.ADD 1 0 Side.SELL 101 5 1)) as (bk & H & Href & Hb).
  - apply MarketOrderBook_new_refines.
  - apply (bool_decide_unpack _). by vm_compute.
  - exists bk. split; [exact H|]. split; [exact Href|].
    unfold getBBO. by rewrite Hb.
Qed.

(** CLEAR leaves the hash map behind: after a CLEAR the next order at an old price is
    linked to a freed level, so the book shows an order in the order-id map but no ask. *)
Theorem clear_leaves_hash_map :
  ∃ bk cs, onMarketUpdates (MarketOrderBook_new 0)
      [mkMEMarketUpdate MarketUpdateType.ADD 1 0 Side.SELL 101 5 1;
       mkMEMarketUpdate MarketUpdateType.CLEAR OrderId_INVALID 0 Side.INVALID Price_INVALID
         Qty_INVALID Priority_INVALID;
       mkMEMarketUpdate MarketUpdateType.ADD 2 0 Side.SELL 101 7 1] = Ok (bk, cs) ∧
    asks_by_price_ (mb_levels bk) = None ∧ bids_by_price_ (mb_levels bk) = None ∧
    arr_at (oid_to_order_ bk) 2 = Ok (Some 1).
Proof.
  assert (match onMarketUpdates (MarketOrderBook_new 0)
      [mkMEMarketUpdate MarketUpdateType.ADD 1 0 Side.SELL 101 5 1;
       mkMEMarketUpdate MarketUpdateType.CLEAR OrderId_INVALID 0 Side.INVALID Price_INVALID
         Qty_INVALID Priority_INVALID;
       mkMEMarketUpdate MarketUpdateType.ADD 2 0 Side.SELL 101 7 1] with
    | Ok (bk, _) => asks_by_price_ (mb_levels bk) = None ∧ bids_by_price_ (mb_levels bk) = None ∧
                    arr_at (oid_to_order_ bk) 2 = Ok (Some 1)
    | Err _ => False end) as H by (vm_compute; done).
  destruct (onMarketUpdates _ _) as [[bk cs]|]; [|done]. by exists bk, cs.
Qed.
