(* ===== verification/Wire.v ===== *)
(** * Wire: the packed binary messages and their framing

    The message structures are [#pragma pack(1)] structures copied to and from socket
    buffers: little-endian fields, one after the other, no padding.  A byte is a [Z] in
    [0, 256).  [frames] is the loop with which [OrderServer], [OrderGateway] and
    [MarketDataConsumer] cut a receive buffer into messages. *)
From S2P Require Import Prelude Types.

Abbreviation bytes := (list Z) (only parsing).

(** ** Little-endian integers *)
Fixpoint le_encode (n : nat) (z : Z) : bytes :=
  match n with
  | O => []
  | S n => z mod 256 :: le_encode n (z / 256)
  end.
Fixpoint le_decode (l : bytes) : Z :=
  match l with
  | [] => 0
  | b :: l => b + 256 * le_decode l
  end.

Lemma le_encode_length n z : length (le_encode n z) = n.
Proof. revert z. induction n as [|n IH]; intros z; simpl; [done|]. by rewrite IH. Qed.

Lemma le_decode_encode n z : 0 ≤ z < 256 ^ Z.of_nat n → le_decode (le_encode n z) = z.
Proof.
  revert z. induction n as [|n IH]; intros z Hz; [simpl in *; lia|].
  cbn [le_encode le_decode]. rewrite Nat2Z.inj_succ, Z.pow_succ_r in Hz by lia.
  rewrite IH; [pose proof (Z_div_mod_eq_full z 256); lia|].
  split; [apply Z.div_pos; lia|apply Z.div_lt_upper_bound; lia].
Qed.

(** ** Codecs

    What a field type promises to the message that contains it: a fixed size, and that
    decoding the front of a buffer gives back what was encoded there. *)
Class Codec (A : Type) := {
  c_size : nat;
  c_enc : A → bytes;
  c_dec : bytes → option A;
  c_ok : A → Prop;
  c_enc_length a : length (c_enc a) = c_size;
  c_dec_enc a rest : c_ok a → c_dec (c_enc a ++ rest) = Some a
}.
Arguments c_size A {_}.

(** Sequencing two fields. *)
Section Pair.
Context {A B : Type} (CA : Codec A) (CB : Codec B).

Definition pair_enc (p : A * B) : bytes := c_enc p.1 ++ c_enc p.2.
Definition pair_dec (l : bytes) : option (A * B) :=
  a ← c_dec l; b ← c_dec (drop (c_size A) l); Some (a, b).

#[refine] Definition pair_codec : Codec (A * B) :=
  {| c_size := c_size A + c_size B; c_enc := pair_enc; c_dec := pair_dec;
     c_ok := λ p, c_ok p.1 ∧ c_ok p.2 |}.
Proof.
  - intros [a b]. unfold pair_enc. by rewrite length_app, !c_enc_length.
  - intros [a b] rest [Ha Hb]. unfold pair_dec, pair_enc. simpl in *.
    rewrite <-app_assoc, c_dec_enc by done. simpl.
    rewrite drop_app_length' by by rewrite c_enc_length. by rewrite c_dec_enc.
Defined.
End Pair.

(** A structure laid out as the tuple of its fields. *)
Section Map.
Context {A B : Type} (CA : Codec A) (f : A → B) (g : B → A) (Hfg : ∀ b, f (g b) = b).

#[refine] Definition map_codec : Codec B :=
  {| c_size := c_size A; c_enc := λ b, c_enc (g b); c_dec := λ l, f <$> c_dec l;
     c_ok := λ b, c_ok (g b) |}.
Proof.
  - intros b. apply c_enc_length.
  - intros b rest Hb. rewrite c_dec_enc by done. simpl. by rewrite Hfg.
Defined.
End Map.

(** Unsigned and signed integers of [n] bytes, and enumerations in one byte. *)
#[refine] Definition uint_codec (n : nat) : Codec Z :=
  {| c_size := n; c_enc := le_encode n; c_dec := λ l, Some (le_decode (take n l));
     c_ok := λ z, 0 ≤ z < 256 ^ Z.of_nat n |}.
Proof.
  - apply le_encode_length.
  - intros z rest Hz. rewrite take_app_length' by by rewrite le_encode_length.
    by rewrite le_decode_encode.
Defined.

Definition i64_enc (z : Z) : bytes := le_encode 8 (u64 z).
Definition i64_dec (l : bytes) : Z := i64 (le_decode (take 8 l)).
#[refine] Definition i64_codec : Codec Z :=
  {| c_size := 8; c_enc := i64_enc; c_dec := λ l, Some (i64_dec l);
     c_ok := λ z, - 2 ^ 63 ≤ z < 2 ^ 63 |}.
Proof.
  - intros z. apply le_encode_length.
  - intros z rest Hz. unfold i64_dec, i64_enc.
    rewrite take_app_length' by by rewrite le_encode_length.
    pose proof (u64_range z). rewrite le_decode_encode by done.
    f_equal. unfold i64, u64. rewrite Zplus_mod_idemp_l, Z.mod_small; lia.
Defined.

Definition enum_dec {E : Type} (of_byte : Z → option E) (l : bytes) : option E :=
  match l with b :: _ => of_byte b | [] => None end.
#[refine] Definition enum_codec {E : Type} (to_byte : E → Z) (of_byte : Z → option E)
    (H : ∀ e, of_byte (to_byte e) = Some e) : Codec E :=
  {| c_size := 1; c_enc := λ e, [to_byte e]; c_dec := enum_dec of_byte; c_ok := λ _, True |}.
Proof.
  - done.
  - intros e rest _. apply H.
Defined.

(** ** The enumerations on the wire *)
Definition side_byte (s : Side.t) : Z := u8 (sideToValue s).
Definition side_of_byte (b : Z) : option Side.t :=
  if b =? 0 then Some Side.INVALID else if b =? 1 then Some Side.BUY
  else if b =? 255 then Some Side.SELL else if b =? 2 then Some Side.MAX else None.
Definition request_type_byte (t : ClientRequestType.t) : Z :=
  match t with
  | ClientRequestType.INVALID => 0 | ClientRequestType.NEW => 1
  | ClientRequestType.CANCEL => 2
  end.
Definition request_type_of_byte (b : Z) : option ClientRequestType.t :=
  if b =? 0 then Some ClientRequestType.INVALID else if b =? 1 then Some ClientRequestType.NEW
  else if b =? 2 then Some ClientRequestType.CANCEL else None.
Definition response_type_byte (t : ClientResponseType.t) : Z :=
  match t with
  | ClientResponseType.INVALID => 0 | ClientResponseType.ACCEPTED => 1
  | ClientResponseType.CANCELED => 2 | ClientResponseType.FILLED => 3
  | ClientResponseType.CANCEL_REJECTED => 4
  end.
Definition response_type_of_byte (b : Z) : option ClientResponseType.t :=
  if b =? 0 then Some ClientResponseType.INVALID
  else if b =? 1 then Some ClientResponseType.ACCEPTED
  else if b =? 2 then Some ClientResponseType.CANCELED
  else if b =? 3 then Some ClientResponseType.FILLED
  else if b =? 4 then Some ClientResponseType.CANCEL_REJECTED else None.
Definition update_type_byte (t : MarketUpdateType.t) : Z :=
  match t with
  | MarketUpdateType.INVALID => 0 | MarketUpdateType.CLEAR => 1 | MarketUpdateType.ADD => 2
  | MarketUpdateType.MODIFY => 3 | MarketUpdateType.CANCEL => 4 | MarketUpdateType.TRADE => 5
  | MarketUpdateType.SNAPSHOT_START => 6 | MarketUpdateType.SNAPSHOT_END => 7
  end.
Definition update_type_of_byte (b : Z) : option MarketUpdateType.t :=
  if b =? 0 then Some MarketUpdateType.INVALID else if b =? 1 then Some MarketUpdateType.CLEAR
  else if b =? 2 then Some MarketUpdateType.ADD else if b =? 3 then Some MarketUpdateType.MODIFY
  else if b =? 4 then Some MarketUpdateType.CANCEL else if b =? 5 then Some MarketUpdateType.TRADE
  else if b =? 6 then Some MarketUpdateType.SNAPSHOT_START
  else if b =? 7 then Some MarketUpdateType.SNAPSHOT_END else None.

#[export] Instance side_codec : Codec Side.t :=
  enum_codec side_byte side_of_byte ltac:(by intros []).
#[export] Instance request_type_codec : Codec ClientRequestType.t :=
  enum_codec request_type_byte request_type_of_byte ltac:(by intros []).
#[export] Instance response_type_codec : Codec ClientResponseType.t :=
  enum_codec response_type_byte response_type_of_byte ltac:(by intros []).
#[export] Instance update_type_codec : Codec MarketUpdateType.t :=
  enum_codec update_type_byte update_type_of_byte ltac:(by intros []).

Definition c_u32 : Codec Z := uint_codec 4.
Definition c_u64 : Codec Z := uint_codec 8.
Infix "&&&" := pair_codec (at level 40, left associativity).

(** ** The messages, in the order of their fields *)
#[export] Instance MEClientRequest_codec : Codec MEClientRequest :=
  map_codec (request_type_codec &&& c_u32 &&& c_u32 &&& c_u64 &&& side_codec &&& i64_codec
             &&& c_u32)
    (λ '(t, c, tk, o, s, p, q), mkMEClientRequest t c tk o s p q)
    (λ r, (rq_type r, rq_client_id r, rq_ticker_id r, rq_order_id r, rq_side r, rq_price r,
           rq_qty r))
    ltac:(by intros []).
#[export] Instance OMClientRequest_codec : Codec OMClientRequest :=
  map_codec (c_u64 &&& MEClientRequest_codec) (λ '(n, r), mkOMClientRequest n r)
    (λ r, (omrq_seq_num r, omrq_request r)) ltac:(by intros []).

#[export] Instance MEClientResponse_codec : Codec MEClientResponse :=
  map_codec (response_type_codec &&& c_u32 &&& c_u32 &&& c_u64 &&& c_u64 &&& side_codec
             &&& i64_codec &&& c_u32 &&& c_u32)
    (λ '(t, c, tk, o, m, s, p, e, l), mkMEClientResponse t c tk o m s p e l)
    (λ r, (rs_type r, rs_client_id r, rs_ticker_id r, rs_client_order_id r,
           rs_market_order_id r, rs_side r, rs_price r, rs_exec_qty r, rs_leaves_qty r))
    ltac:(by intros []).
#[export] Instance OMClientResponse_codec : Codec OMClientResponse :=
  map_codec (c_u64 &&& MEClientResponse_codec) (λ '(n, r), mkOMClientResponse n r)
    (λ r, (omrs_seq_num r, omrs_response r)) ltac:(by intros []).

#[export] Instance MEMarketUpdate_codec : Codec MEMarketUpdate :=
  map_codec (update_type_codec &&& c_u64 &&& c_u32 &&& side_codec &&& i64_codec &&& c_u32
             &&& c_u64)
    (λ '(t, o, tk, s, p, q, pr), mkMEMarketUpdate t o tk s p q pr)
    (λ u, (mu_type u, mu_order_id u, mu_ticker_id u, mu_side u, mu_price u, mu_qty u,
           mu_priority u))
    ltac:(by intros []).
#[export] Instance MDPMarketUpdate_codec : Codec MDPMarketUpdate :=
  map_codec (c_u64 &&& MEMarketUpdate_codec) (λ '(n, u), mkMDPMarketUpdate n u)
    (λ u, (mdp_seq_num u, mdp_update u)) ltac:(by intros []).

(** ** Framing *)
Section Frames.
Context (size : nat) (Hsize : (0 < size)%nat).

(** [for (i = 0; i + size <= valid; i += size)]: the frames and the bytes left, which
    the code moves to the front of the buffer. *)
Fixpoint frames_aux (fuel : nat) (buf : bytes) : list bytes * bytes :=
  match fuel with
  | O => ([], buf)
  | S fuel =>
      if (size <=? length buf)%nat
      then let '(fs, rest) := frames_aux fuel (drop size buf) in (take size buf :: fs, rest)
      else ([], buf)
  end.
Definition frames (buf : bytes) : list bytes * bytes := frames_aux (length buf) buf.

Lemma frames_aux_fuel n m buf :
  (length buf ≤ n)%nat → (length buf ≤ m)%nat → frames_aux n buf = frames_aux m buf.
Proof.
  revert m buf. induction n as [|n IH]; intros [|m] buf Hn Hm; simpl; try done.
  - destruct buf; simpl in *; [|lia]. by destruct size; [lia|].
  - destruct buf; simpl in *; [|lia]. by destruct size; [lia|].
  - destruct (size <=? length buf)%nat eqn:E; [|done]. apply Nat.leb_le in E.
    rewrite (IH m); [done|..]; rewrite length_drop; lia.
Qed.

Lemma frames_cons buf :
  frames buf =
  if (size <=? length buf)%nat
  then let '(fs, rest) := frames (drop size buf) in (take size buf :: fs, rest)
  else ([], buf).
Proof.
  unfold frames at 1. destruct buf as [|b buf]; simpl.
  - by rewrite (proj2 (Nat.leb_gt size 0)) by lia.
  - destruct (size <=? S (length buf))%nat eqn:E; [|done]. apply Nat.leb_le in E.
    unfold frames. rewrite (frames_aux_fuel _ (length (drop size (b :: buf)))); [done|..];
      rewrite length_drop; simpl; lia.
Qed.

Lemma frames_short buf : (length buf < size)%nat → frames buf = ([], buf).
Proof. intros H. rewrite frames_cons. by rewrite (proj2 (Nat.leb_gt _ _)). Qed.

Lemma frames_one f buf :
  length f = size →
  frames (f ++ buf) = let '(fs, rest) := frames buf in (f :: fs, rest).
Proof.
  intros Hf. rewrite frames_cons.
  rewrite (proj2 (Nat.leb_le _ _)) by (rewrite length_app; lia).
  rewrite drop_app_length' by done. rewrite take_app_length' by done. done.
Qed.

(** Framing does not depend on how the stream was cut into reads: the frames of a
    buffer followed by more data are its frames, then those of its rest followed by
    that data. *)
Lemma frames_app buf chunk :
  frames (buf ++ chunk) =
  let '(fs, rest) := frames buf in
  let '(fs', rest') := frames (rest ++ chunk) in (fs ++ fs', rest').
Proof.
  remember (length buf) as n eqn:En. revert buf En.
  induction n as [n IH] using lt_wf_ind. intros buf ->.
  destruct (decide (length buf < size)%nat) as [Hs|Hs].
  - rewrite (frames_short buf Hs). simpl. by destruct (frames (buf ++ chunk)).
  - rewrite <-(take_drop size buf), <-app_assoc.
    assert (length (take size buf) = size) as Hl by (rewrite length_take; lia).
    rewrite (frames_one _ (drop size buf ++ chunk)), (frames_one _ (drop size buf)) by done.
    rewrite (IH (length (drop size buf))) by (rewrite ?length_drop; lia).
    destruct (frames (drop size buf)) as [fs rest].
    by destruct (frames (rest ++ chunk)).
Qed.

(** What stays in the buffer is less than one message, so the [memcpy] that moves it to
    the front never overlaps: it happens only after at least one whole message. *)
Lemma frames_rest buf fs rest :
  frames buf = (fs, rest) →
  (length rest < size)%nat ∧ buf = concat fs ++ rest ∧ Forall (λ f, length f = size) fs.
Proof.
  remember (length buf) as n eqn:En. revert buf fs rest En.
  induction n as [n IH] using lt_wf_ind. intros buf fs rest -> E. rewrite frames_cons in E.
  destruct (size <=? length buf)%nat eqn:Es.
  - apply Nat.leb_le in Es. destruct (frames (drop size buf)) as [fs' rest'] eqn:E'.
    simplify_eq. destruct (IH (length (drop size buf))) with (buf := drop size buf)
      (fs := fs') (rest := rest) as (H1 & H2 & H3); try done.
    { rewrite length_drop. lia. }
    split; [done|]. split.
    + simpl. rewrite <-app_assoc, <-H2. by rewrite take_drop.
    + constructor; [rewrite length_take; lia|done].
  - apply Nat.leb_gt in Es. simplify_eq. done.
Qed.

Lemma frames_concat fs rest :
  Forall (λ f, length f = size) fs → (length rest < size)%nat →
  frames (concat fs ++ rest) = (fs, rest).
Proof.
  induction 1 as [|f fs Hf _ IH]; intros Hr; simpl; [by apply frames_short|].
  rewrite <-app_assoc, frames_one by done. by rewrite IH.
Qed.
End Frames.

(** ** Streams of messages *)
Section Stream.
Context {A : Type} `{Codec A} (Hpos : (0 < c_size A)%nat).
Implicit Types (ms : list A) (buf : bytes).

Definition encode_all ms : bytes := concat (c_enc <$> ms).

(** The whole messages at the front of a buffer, and the rest. *)
Definition recv_messages buf : Res (list A) * bytes :=
  let '(fs, rest) := frames (c_size A) buf in
  (of_option BadEnum (mapM c_dec fs), rest).

Lemma encode_all_app ms ms' : encode_all (ms ++ ms') = encode_all ms ++ encode_all ms'.
Proof. unfold encode_all. by rewrite fmap_app, concat_app. Qed.

Lemma decode_one m : c_ok m → c_dec (c_enc m) = Some m.
Proof. intros Hm. rewrite <-(app_nil_r (c_enc m)). by apply c_dec_enc. Qed.

Lemma decode_all ms : Forall c_ok ms → mapM c_dec (c_enc <$> ms) = Some ms.
Proof.
  induction 1 as [|m ms Hm _ IH]; [done|]. cbn [fmap list_fmap mapM].
  rewrite (decode_one _ Hm). simpl. by rewrite IH.
Qed.

(** A buffer that is the front of an encoded stream. *)
Lemma recv_prefix ms buf future :
  Forall c_ok ms → encode_all ms = buf ++ future →
  ∃ ms1 ms2 rest, ms = ms1 ++ ms2 ∧ recv_messages buf = (Ok ms1, rest) ∧
    encode_all ms2 = rest ++ future.
Proof.
  intros Hok. revert buf. induction Hok as [|m ms Hm Hok IH]; intros buf E.
  - symmetry in E. apply app_nil in E as [-> ->]. exists [], [], [].
    unfold recv_messages. rewrite frames_short by done. done.
  - destruct (decide (length buf < c_size A)%nat) as [Hs|Hs].
    + exists [], (m :: ms), buf. unfold recv_messages. by rewrite frames_short.
    + unfold encode_all in E. rewrite fmap_cons in E. cbn [concat] in E.
      assert (∃ buf', buf = c_enc m ++ buf') as [buf' ->].
      { exists (drop (c_size A) buf). rewrite <-(take_drop (c_size A) buf) at 1. f_equal.
        rewrite <-(take_app_le buf future) by lia. rewrite <-E.
        by rewrite take_app_length' by by rewrite c_enc_length. }
      rewrite <-app_assoc in E. apply app_inv_head in E.
      destruct (IH buf' E) as (ms1 & ms2 & rest & -> & Hr & He).
      exists (m :: ms1), ms2, rest. split_and!; [done| |done].
      unfold recv_messages in *. rewrite frames_one by (done || apply c_enc_length).
      destruct (frames (c_size A) buf') as [fs r]. injection Hr as Hd ->. f_equal.
      cbn [mapM]. rewrite decode_one by done. simpl.
      destruct (mapM c_dec fs); [|done]. simpl in *. by injection Hd as ->.
Qed.
End Stream.

(** ** Theorems *)

(** The bytes of the structures that travel, field by field in the order of their
    declarations: 38, 50 and 42 of them.  The sender writes the sequence number and the
    structure behind it with two calls of [send]. *)
Theorem messages_layout :
  (∀ n t c k o s p q, c_enc (mkOMClientRequest n (mkMEClientRequest t c k o s p q)) =
     le_encode 8 n ++ [request_type_byte t] ++ le_encode 4 c ++ le_encode 4 k ++
     le_encode 8 o ++ [side_byte s] ++ le_encode 8 (u64 p) ++ le_encode 4 q) ∧
  (∀ n t c k o m s p e l, c_enc (mkOMClientResponse n (mkMEClientResponse t c k o m s p e l)) =
     le_encode 8 n ++ [response_type_byte t] ++ le_encode 4 c ++ le_encode 4 k ++
     le_encode 8 o ++ le_encode 8 m ++ [side_byte s] ++ le_encode 8 (u64 p) ++
     le_encode 4 e ++ le_encode 4 l) ∧
  (∀ n t o k s p q r, c_enc (mkMDPMarketUpdate n (mkMEMarketUpdate t o k s p q r)) =
     le_encode 8 n ++ [update_type_byte t] ++ le_encode 8 o ++ le_encode 4 k ++
     [side_byte s] ++ le_encode 8 (u64 p) ++ le_encode 4 q ++ le_encode 8 r).
Proof. done. Qed.

(** Framing is independent of how TCP cuts the stream, and what is left of a buffer is
    shorter than a message, so moving it to the front is a copy without overlap. *)
Theorem framing_any_chunks (size : nat) (buf chunk : bytes) :
  (0 < size)%nat →
  frames size (buf ++ chunk) =
    (let '(fs, rest) := frames size buf in
     let '(fs', rest') := frames size (rest ++ chunk) in (fs ++ fs', rest')) ∧
  let '(fs, rest) := frames size buf in
  buf = concat fs ++ rest ∧ (length rest < size)%nat ∧
  (fs ≠ [] → (length rest < length (concat fs))%nat).
Proof.
  intros Hs. split; [by apply frames_app|].
  destruct (frames size buf) as [fs rest] eqn:E.
  destruct (frames_rest size Hs _ _ _ E) as (H1 & H2 & H3). split_and!; [done|done|].
  intros Hne. destruct H3 as [|f fs Hf _]; [done|]. simpl. rewrite length_app. lia.
Qed.

Lemma framing_any_chunks_witness :
  frames 2 ([1; 2; 3] ++ [4; 5]) = ([[1; 2]; [3; 4]], [5]).
Proof.
  rewrite (proj1 (framing_any_chunks 2 [1; 2; 3] [4; 5] ltac:(lia))). reflexivity.
Defined.
