(* ===== verification/Sockets.v ===== *)
(** * Sockets: the user-space buffers of the TCP and multicast sockets

    [common/tcp_socket.h], [tcp_socket.cpp], [mcast_socket.h], [mcast_socket.cpp].  The
    system calls are outside the program: what [recvmsg] delivered and how many bytes
    [send] accepted are arguments.  A buffer is the list of its valid bytes. *)
From S2P Require Import Prelude Types Wire.

Definition TCPBufferSize : Z := 64 * 1024 * 1024.
Definition McastBufferSize : Z := 64 * 1024 * 1024.

Record Socket := mkSocket {
  socket_fd_ : Z;
  outbound_data_ : bytes;
  inbound_data_ : bytes
}.
Definition Socket_new (fd : Z) : Socket := mkSocket fd [] [].

Definition next_send_valid_index_ (s : Socket) : Z := Z.of_nat (length (outbound_data_ s)).
Definition next_rcv_valid_index_ (s : Socket) : Z := Z.of_nat (length (inbound_data_ s)).

Definition with_inbound (s : Socket) (b : bytes) : Socket :=
  mkSocket (socket_fd_ s) (outbound_data_ s) b.
Definition with_outbound (s : Socket) (b : bytes) : Socket :=
  mkSocket (socket_fd_ s) b (inbound_data_ s).

(** [TCPSocket::send]: a [memcpy] without a bounds check. *)
Definition tcp_send (s : Socket) (data : bytes) : Res Socket :=
  if next_send_valid_index_ s + Z.of_nat (length data) <=? TCPBufferSize
  then Ok (with_outbound s (outbound_data_ s ++ data))
  else Err BadIndex.

(** [McastSocket::send]: the check comes after the copy, and wants one byte free. *)
Definition mcast_send (s : Socket) (data : bytes) : Res Socket :=
  let n := next_send_valid_index_ s + Z.of_nat (length data) in
  if n <=? McastBufferSize
  then _ ← ASSERT (n <? McastBufferSize); Ok (with_outbound s (outbound_data_ s ++ data))
  else Err BadIndex.

(** The receiving half of [sendAndRecv]: the system call delivers at most the free space;
    the callback runs when it delivered something. *)
Definition socket_recv (size : Z) (s : Socket) (delivered : bytes) : Socket * bool :=
  let room := size - next_rcv_valid_index_ s in
  let chunk := take (Z.to_nat (Z.min room (Z.of_nat (length delivered)))) delivered in
  (with_inbound s (inbound_data_ s ++ chunk), negb (bool_decide (chunk = []))).

(** The sending half: one [send] of the whole buffer; the kernel takes [accepted] bytes,
    and the buffer is emptied whatever it took. *)
Definition socket_flush (s : Socket) (accepted : nat) : Socket * bytes :=
  (with_outbound s [], take accepted (outbound_data_ s)).

Lemma tcp_send_ok s data :
  next_send_valid_index_ s + Z.of_nat (length data) ≤ TCPBufferSize →
  tcp_send s data = Ok (with_outbound s (outbound_data_ s ++ data)).
Proof. intros H. unfold tcp_send. by rewrite (proj2 (Z.leb_le _ _)). Qed.

(** ** Theorems *)

(** A short write loses data: whatever the kernel did not accept is dropped from the
    send buffer and never sent, so the stream the peer sees loses its alignment unless
    every [send] takes the whole buffer. *)
Theorem flush_drops_rest s accepted :
  let '(s', sent) := socket_flush s accepted in
  outbound_data_ s' = [] ∧
  outbound_data_ s = sent ++ drop accepted (outbound_data_ s) ∧
  (sent = outbound_data_ s ↔ (length (outbound_data_ s) ≤ accepted)%nat).
Proof.
  simpl. split_and!; [done|by rewrite take_drop|].
  split; [|apply take_ge]. intros H. apply (f_equal length) in H. rewrite length_take in H. lia.
Qed.

(** The multicast send buffer: a message is accepted exactly when at least one byte
    stays free behind it; the process exits when the buffer becomes exactly full, and a
    larger message is written past its end before the check. *)
Theorem mcast_send_bounds s data :
  let n := next_send_valid_index_ s + Z.of_nat (length data) in
  (n < McastBufferSize → mcast_send s data = Ok (with_outbound s (outbound_data_ s ++ data))) ∧
  (n = McastBufferSize → mcast_send s data = Err AssertFailed) ∧
  (McastBufferSize < n → mcast_send s data = Err BadIndex).
Proof.
  cbn zeta. unfold mcast_send. split_and!; intros H.
  - rewrite (proj2 (Z.leb_le _ _)) by lia. by rewrite (proj2 (Z.ltb_lt _ _)).
  - rewrite (proj2 (Z.leb_le _ _)) by lia. by rewrite (proj2 (Z.ltb_ge _ _)) by lia.
  - by rewrite (proj2 (Z.leb_gt _ _)).
Qed.
