(* ===== verification/LFQueue.v ===== *)
(** * LFQueue: the single-producer single-consumer ring buffer

    [common/lf_queue.h].  The sequential operations first, with the list of elements
    they implement; then the two threads of a queue as a step relation over its atomic
    accesses. *)
From S2P Require Import Prelude.

Record LFQueue (T : Type) := mkLFQueue {
  lfq_store : arr T;
  next_write_index_ : Z;
  next_read_index_ : Z;
  num_elements_ : Z
}.
Arguments mkLFQueue {T} _ _ _ _.
Arguments lfq_store {T} _.
Arguments next_write_index_ {T} _.
Arguments next_read_index_ {T} _.
Arguments num_elements_ {T} _.

Section Ops.
Context {T : Type}.
Implicit Types (q : LFQueue T) (x : T).

Definition LFQueue_new (num_elems : Z) (t : T) : LFQueue T :=
  mkLFQueue (arr_new num_elems t) 0 0 0.

(** [&store_[next_write_index_]], as the index of the slot. *)
Definition getNextToWriteTo q : Z := next_write_index_ q.
(** [*slot = x]. *)
Definition write_slot q (slot : Z) x : LFQueue T :=
  mkLFQueue (arr_set (lfq_store q) slot x) (next_write_index_ q) (next_read_index_ q)
    (num_elements_ q).
Definition updateWriteIndex q : LFQueue T :=
  mkLFQueue (lfq_store q) ((next_write_index_ q + 1) mod arr_len (lfq_store q))
    (next_read_index_ q) (u64 (num_elements_ q + 1)).

Definition lfq_size q : Z := num_elements_ q.
Definition getNextToRead q : option Z :=
  if lfq_size q =? 0 then None else Some (next_read_index_ q).
Definition read_slot q (slot : Z) : T := arr_get (lfq_store q) slot.
Definition updateReadIndex q : Res (LFQueue T) :=
  let r := (next_read_index_ q + 1) mod arr_len (lfq_store q) in
  _ ← ASSERT (negb (num_elements_ q =? 0));
  Ok (mkLFQueue (lfq_store q) (next_write_index_ q) r (u64 (num_elements_ q - 1))).

(** The way every producer and every consumer of the program uses them. *)
Definition lfq_push q x : LFQueue T := updateWriteIndex (write_slot q (getNextToWriteTo q) x).
Definition lfq_pop q : Res (option (T * LFQueue T)) :=
  match getNextToRead q with
  | None => Ok None
  | Some slot => q' ← updateReadIndex q; Ok (Some (read_slot q slot, q'))
  end.
Definition lfq_push_all q (xs : list T) : LFQueue T := foldl lfq_push q xs.
(** The elements a consumer's loop reads until the queue is empty. *)
Fixpoint lfq_drain (fuel : nat) q : Res (list T) :=
  match fuel with
  | O => Err OutOfFuel
  | S fuel =>
      r ← lfq_pop q;
      match r with
      | None => Ok []
      | Some (x, q) => xs ← lfq_drain fuel q; Ok (x :: xs)
      end
  end.
End Ops.

(** ** The list a queue holds *)
Section Rep.
Context {T : Type}.
Implicit Types (q : LFQueue T) (x : T) (l : list T).

Definition lfq_cap q : Z := arr_len (lfq_store q).

Record lfq_rep q l : Prop := {
  lq_cap : 0 < lfq_cap q < 2 ^ 63;
  lq_read : 0 ≤ next_read_index_ q < lfq_cap q;
  lq_num : num_elements_ q = Z.of_nat (length l);
  lq_fits : Z.of_nat (length l) ≤ lfq_cap q;
  lq_write : next_write_index_ q = (next_read_index_ q + Z.of_nat (length l)) mod lfq_cap q;
  lq_cells : ∀ i x, l !! i = Some x →
    arr_get (lfq_store q) ((next_read_index_ q + Z.of_nat i) mod lfq_cap q) = x
}.

Lemma LFQueue_new_rep n t : 0 < n < 2 ^ 63 → lfq_rep (LFQueue_new n t) [].
Proof. intros Hn. split; unfold lfq_cap; simpl; try lia; done. Qed.

(** Two positions less than a lap apart are different cells. *)
Lemma mod_lap_ne (n a b : Z) : 0 < n → a < b < a + n → a mod n ≠ b mod n.
Proof.
  intros Hn Hab E. pose proof (Z_div_mod_eq_full a n). pose proof (Z_div_mod_eq_full b n).
  rewrite E in *. assert (n * (b / n - a / n) = b - a) by lia.
  assert (0 < b / n - a / n < 1) by nia. lia.
Qed.

Lemma lfq_push_rep q l x :
  lfq_rep q l → Z.of_nat (length l) < lfq_cap q → lfq_rep (lfq_push q x) (l ++ [x]).
Proof.
  intros [Hc Hr Hn Hf Hw Hcells] Hroom.
  split; unfold lfq_cap, lfq_push, getNextToWriteTo in *; simpl in *;
    rewrite ?length_app; simpl.
  - done.
  - done.
  - rewrite Hn, u64_id; lia.
  - lia.
  - rewrite Hw, Zplus_mod_idemp_l. f_equal. lia.
  - intros i y Hi. rewrite arr_get_set. apply lookup_snoc_Some in Hi as [[Hi Hy]|[-> ->]].
    + rewrite decide_False; [by apply Hcells|]. rewrite Hw.
      intros E. symmetry in E. revert E. apply mod_lap_ne; lia.
    + rewrite Hw. by rewrite decide_True.
Qed.

Lemma lfq_push_all_rep q l xs :
  lfq_rep q l → Z.of_nat (length l + length xs) ≤ lfq_cap q →
  lfq_rep (lfq_push_all q xs) (l ++ xs) ∧ lfq_cap (lfq_push_all q xs) = lfq_cap q.
Proof.
  revert q l. induction xs as [|x xs IH]; intros q l Hq Hlen; simpl in *.
  - by rewrite app_nil_r.
  - destruct (IH (lfq_push q x) (l ++ [x])) as [H1 H2].
    + apply lfq_push_rep; [done|lia].
    + change (lfq_cap (lfq_push q x)) with (lfq_cap q). rewrite length_app. simpl. lia.
    + rewrite <-app_assoc in H1. done.
Qed.

Lemma lfq_pop_rep q l :
  lfq_rep q l →
  match l with
  | [] => lfq_pop q = Ok None
  | x :: l' => ∃ q', lfq_pop q = Ok (Some (x, q')) ∧ lfq_rep q' l' ∧ lfq_cap q' = lfq_cap q
  end.
Proof.
  intros [Hc Hr Hn Hf Hw Hcells]. unfold lfq_pop, getNextToRead, lfq_size.
  destruct l as [|x l]; [by rewrite Hn|].
  rewrite (proj2 (Z.eqb_neq _ _)) by (rewrite Hn; simpl; lia).
  unfold updateReadIndex. rewrite (proj2 (Z.eqb_neq _ _)) by (rewrite Hn; simpl; lia).
  cbn [negb ASSERT mbind Res_bind]. unfold read_slot, lfq_cap in *.
  assert (arr_get (lfq_store q) (next_read_index_ q) = x) as ->.
  { rewrite <-(Hcells 0%nat x eq_refl). by rewrite Z.add_0_r, Z.mod_small. }
  eexists. split; [done|split; [|done]].
  - split; unfold lfq_cap; simpl in *.
    + done.
    + apply Z.mod_pos_bound. lia.
    + rewrite u64_id; lia.
    + lia.
    + rewrite Hw, Zplus_mod_idemp_l. f_equal. lia.
    + intros i y Hi. rewrite <-(Hcells (S i) y Hi), Zplus_mod_idemp_l. do 2 f_equal. lia.
Qed.

(** No operation checks for a full queue: one element too many takes the place of the
    oldest one. *)
Lemma lfq_overrun q x l y :
  lfq_rep q (x :: l) → Z.of_nat (length (x :: l)) = lfq_cap q →
  ∃ q', lfq_pop (lfq_push q y) = Ok (Some (y, q')) ∧
        num_elements_ q' = lfq_cap q.
Proof.
  intros [Hc Hr Hn Hf Hw Hcells] Hfull.
  assert (next_write_index_ q = next_read_index_ q) as Heq.
  { rewrite Hw, Hfull. rewrite <-(Z.mul_1_l (lfq_cap q)) at 1.
    rewrite Z.mod_add by lia. by rewrite Z.mod_small. }
  unfold lfq_pop, getNextToRead, lfq_size, updateReadIndex, lfq_push, getNextToWriteTo.
  simpl num_elements_. rewrite u64_id by lia.
  rewrite (proj2 (Z.eqb_neq _ _)) by lia. cbn [negb ASSERT mbind Res_bind].
  unfold read_slot. simpl. rewrite Heq, arr_get_set_eq.
  eexists. split; [done|]. simpl. rewrite u64_id; lia.
Qed.
End Rep.

(** ** The two threads

    One producer and one consumer, interleaved at their accesses to shared memory: the
    write and the read of a slot, and the loads and stores of the atomic members.  The
    producer starts a write only while less than a lap of elements is outstanding; the
    code leaves this to its callers. *)
Section Threads.
Context {T : Type}.
Implicit Types (q : LFQueue T) (x : T).

(** Where the producer is: outside, after [*slot = x], after the index update. *)
Inductive ppc := PIdle | PWritten | PIndexed.
(** Where the consumer is: outside, holding a slot that [getNextToRead] returned, done
    with the slot, after the index update of [updateReadIndex]. *)
Inductive cpc := CIdle | CHolds (slot : Z) | CDone | CIndexed.

Record threads := mkThreads {
  t_queue : LFQueue T;
  t_prod : ppc;
  t_cons : cpc;
  t_written : list T;
  t_seen : list T;
  t_released : nat;
  t_failed : bool
}.

Definition set_write q i := mkLFQueue (lfq_store q) i (next_read_index_ q) (num_elements_ q).
Definition set_read q i := mkLFQueue (lfq_store q) (next_write_index_ q) i (num_elements_ q).
Definition set_num q i := mkLFQueue (lfq_store q) (next_write_index_ q) (next_read_index_ q) i.

Inductive spsc_step : threads → threads → Prop :=
  | p_write q c w s r x :
      Z.of_nat (length w) - Z.of_nat r < lfq_cap q →
      spsc_step (mkThreads q PIdle c w s r false)
        (mkThreads (write_slot q (getNextToWriteTo q) x) PWritten c (w ++ [x]) s r false)
  | p_index q c w s r :
      spsc_step (mkThreads q PWritten c w s r false)
        (mkThreads (set_write q ((next_write_index_ q + 1) mod lfq_cap q)) PIndexed c w s r
           false)
  | p_count q c w s r :
      spsc_step (mkThreads q PIndexed c w s r false)
        (mkThreads (set_num q (u64 (num_elements_ q + 1))) PIdle c w s r false)
  | c_peek q p w s r slot :
      getNextToRead q = Some slot →
      spsc_step (mkThreads q p CIdle w s r false) (mkThreads q p (CHolds slot) w s r false)
  | c_read q p w s r slot :
      spsc_step (mkThreads q p (CHolds slot) w s r false)
        (mkThreads q p CDone w (s ++ [read_slot q slot]) r false)
  | c_index q p w s r :
      spsc_step (mkThreads q p CDone w s r false)
        (mkThreads (set_read q ((next_read_index_ q + 1) mod lfq_cap q)) p CIndexed w s r
           false)
  | c_count q p w s r :
      num_elements_ q ≠ 0 →
      spsc_step (mkThreads q p CIndexed w s r false)
        (mkThreads (set_num q (u64 (num_elements_ q - 1))) p CIdle w s (S r) false)
  | c_assert q p w s r :
      num_elements_ q = 0 →
      spsc_step (mkThreads q p CIndexed w s r false) (mkThreads q p CIndexed w s r true).

Definition threads_new (n : Z) (t : T) : threads :=
  mkThreads (LFQueue_new n t) PIdle CIdle [] [] 0 false.

Inductive spsc_reachable (n : Z) (t : T) : threads → Prop :=
  | spsc_init : spsc_reachable n t (threads_new n t)
  | spsc_next s s' : spsc_reachable n t s → spsc_step s s' → spsc_reachable n t s'.

(** Published elements: the counter lags the write until the producer is idle. *)
Definition pending (p : ppc) : Z := match p with PIdle => 0 | _ => 1 end.
Definition unindexed (p : ppc) : Z := match p with PWritten => 1 | _ => 0 end.
Definition taken (c : cpc) : nat := match c with CIdle | CHolds _ => 0 | _ => 1 end.
Definition stepped (c : cpc) : Z := match c with CIndexed => 1 | _ => 0 end.

Record spsc_inv (n : Z) (st : threads) : Prop := {
  si_cap : lfq_cap (t_queue st) = n;
  si_num : num_elements_ (t_queue st) =
           Z.of_nat (length (t_written st)) - pending (t_prod st) - Z.of_nat (t_released st);
  si_lap : pending (t_prod st) ≤
           Z.of_nat (length (t_written st)) - Z.of_nat (t_released st) ≤ n;
  si_write : next_write_index_ (t_queue st) =
             (Z.of_nat (length (t_written st)) - unindexed (t_prod st)) mod n;
  si_read : next_read_index_ (t_queue st) =
            (Z.of_nat (t_released st) + stepped (t_cons st)) mod n;
  si_seen : t_seen st = take (t_released st + taken (t_cons st)) (t_written st);
  si_some : t_cons st ≠ CIdle → 1 ≤ num_elements_ (t_queue st);
  si_slot : ∀ slot, t_cons st = CHolds slot → slot = Z.of_nat (t_released st) mod n;
  si_cells : ∀ j x, (t_released st ≤ j)%nat → t_written st !! j = Some x →
    arr_get (lfq_store (t_queue st)) (Z.of_nat j mod n) = x;
  si_ok : t_failed st = false
}.

Lemma spsc_inv_new n t : 0 < n → spsc_inv n (threads_new n t).
Proof. intros Hn. split; simpl; try done; lia. Qed.

Lemma take_snoc_lookup (w : list T) k x :
  w !! k = Some x → take (k + 1) w = take k w ++ [x].
Proof. intros H. replace (k + 1)%nat with (S k) by lia. by apply take_S_r. Qed.

Lemma spsc_inv_step n st st' :
  0 < n < 2 ^ 63 → spsc_inv n st → spsc_step st st' → spsc_inv n st'.
Proof.
  intros Hn [Hcap Hnum Hlap Hw Hr Hseen Hsome Hslot Hcells Hok] Hstep.
  destruct Hstep as [q c w s r x Hroom|q c w s r|q c w s r|q p w s r slot Hpk|
    q p w s r slot|q p w s r|q p w s r Hne|q p w s r He]; simpl in *; subst.
  - unfold lfq_cap in *. split; simpl in *; rewrite ?length_app; simpl; try done; try lia.
    + rewrite Hw. f_equal. lia.
    + rewrite take_app_le; [done|]. destruct c; simpl in *; try lia.
      all: specialize (Hsome ltac:(done)); lia.
    + intros j y Hj Hy. rewrite arr_get_set. unfold getNextToWriteTo. rewrite Hw, Z.sub_0_r.
      apply lookup_snoc_Some in Hy as [[Hl Hy]|[-> ->]]; [|by rewrite decide_True].
      rewrite decide_False; [by apply Hcells|]. intros E. symmetry in E. revert E.
      apply mod_lap_ne; lia.
  - unfold lfq_cap in *. split; simpl in *; try done; try lia.
    rewrite Hw, Zplus_mod_idemp_l. f_equal. lia.
  - unfold lfq_cap in *. split; simpl in *; try done; rewrite ?u64_id; try lia.
  - unfold getNextToRead, lfq_size in Hpk. destruct (num_elements_ q =? 0) eqn:E; [done|].
    apply Z.eqb_neq in E. simplify_eq. split; simpl in *; try done; try lia.
    + intros slot [= <-]. by rewrite Hr, Z.add_0_r.
  - specialize (Hsome ltac:(done)). rewrite (Hslot slot eq_refl).
    assert (∃ x, w !! r = Some x) as [x Hx].
    { apply lookup_lt_is_Some. destruct p; simpl in *; lia. }
    split; simpl in *; try done; try lia.
    rewrite Nat.add_0_r, (take_snoc_lookup _ _ _ Hx). unfold read_slot.
    by rewrite (Hcells r x ltac:(lia) Hx).
  - unfold lfq_cap in *. split; simpl in *; try done; try lia.
    + rewrite Hr, Z.add_0_r, Zplus_mod_idemp_l. done.
    + intros _. by apply Hsome.
  - specialize (Hsome ltac:(done)). split; simpl in *; try done; rewrite ?u64_id; try lia.
    + destruct p; simpl in *; lia.
    + rewrite Hr. f_equal. lia.
    + f_equal. lia.
    + intros j y Hj. apply Hcells. lia.
  - specialize (Hsome ltac:(done)). lia.
Qed.

Lemma spsc_reachable_inv n t st :
  0 < n < 2 ^ 63 → spsc_reachable n t st → spsc_inv n st.
Proof.
  intros Hn. induction 1; [apply spsc_inv_new; lia|]. by eapply spsc_inv_step.
Qed.
End Threads.

(** ** Theorems *)

(** The queue is a FIFO: whatever is pushed while there is room comes out in order;
    popping after pushing [xs] on a queue that holds [x :: l] gives [x] and leaves
    [l ++ xs]. *)
Theorem lfq_fifo {T} (q : LFQueue T) x l xs :
  lfq_rep q (x :: l) → Z.of_nat (length (x :: l) + length xs) ≤ lfq_cap q →
  ∃ q', lfq_pop (lfq_push_all q xs) = Ok (Some (x, q')) ∧ lfq_rep q' (l ++ xs).
Proof.
  intros Hq Hlen. destruct (lfq_push_all_rep q (x :: l) xs Hq Hlen) as [H _].
  destruct (lfq_pop_rep _ _ H) as (q' & H1 & H2 & _). eauto.
Qed.

Lemma lfq_fifo_witness :
  ∃ q', lfq_pop (lfq_push_all (lfq_push (LFQueue_new 4 0) 7) [8; 9]) = Ok (Some (7, q')) ∧
        lfq_rep q' [8; 9].
Proof.
  apply (lfq_fifo (lfq_push (LFQueue_new 4 0) 7) 7 [] [8; 9]); [|by vm_compute].
  apply (lfq_push_rep _ []); [apply LFQueue_new_rep; lia|by vm_compute].
Defined.

(** A full queue is not protected: [updateWriteIndex] has no check, so a push on a full
    queue replaces the oldest element; the reader then gets the newest element first, and
    the counter claims more elements than were kept. *)
Theorem lfq_overwrites_when_full {T} (q : LFQueue T) x l y :
  lfq_rep q (x :: l) → Z.of_nat (length (x :: l)) = lfq_cap q →
  ∃ q', lfq_pop (lfq_push q y) = Ok (Some (y, q')) ∧ lfq_size q' = lfq_cap q.
Proof. apply lfq_overrun. Qed.

Lemma lfq_overwrites_when_full_witness :
  ∃ q', lfq_pop (lfq_push (lfq_push_all (LFQueue_new 2 0) [1; 2]) 3) = Ok (Some (3, q')) ∧
        lfq_size q' = 2.
Proof.
  apply (lfq_overwrites_when_full (lfq_push_all (LFQueue_new 2 0) [1; 2]) 1 [2] 3);
    [|by vm_compute].
  apply (lfq_push_all_rep (LFQueue_new 2 0) [] [1; 2]); [apply LFQueue_new_rep; lia|].
  by vm_compute.
Defined.

(** C28: One producer thread and one consumer thread, interleaved at every access to shared
    memory, with less than a lap outstanding when a write starts: in every reachable state
    what the consumer has read is a prefix of what the producer wrote, the assertion in
    [updateReadIndex] has not failed, and the consumer never holds the slot that the
    producer is free to write next. *)
Theorem spsc_fifo {T} (n : Z) (t : T) st :
  0 < n < 2 ^ 63 → spsc_reachable n t st →
  t_seen st `prefix_of` t_written st ∧ t_failed st = false ∧
  (∀ slot, t_cons st = CHolds slot → t_prod st = PIdle →
   Z.of_nat (length (t_written st)) - Z.of_nat (t_released st) < n →
   getNextToWriteTo (t_queue st) ≠ slot).
Proof.
  intros Hn Hreach.
  destruct (spsc_reachable_inv n t st Hn Hreach)
    as [Hcap Hnum Hlap Hw Hr Hseen Hsome Hslot Hcells Hok].
  split_and!; [|done|].
  - rewrite Hseen. exists (drop (t_released st + taken (t_cons st)) (t_written st)).
    by rewrite take_drop.
  - intros slot Hc Hp Hroom. rewrite (Hslot slot Hc). unfold getNextToWriteTo.
    rewrite Hw, Hp. simpl. intros E. symmetry in E. revert E. apply mod_lap_ne; [lia|].
    specialize (Hsome ltac:(by rewrite Hc)). rewrite Hp in Hnum. simpl in Hnum. lia.
Qed.

Lemma spsc_fifo_witness :
  ∃ st, spsc_reachable 2 0 st ∧ t_seen st = [5] ∧ t_seen st `prefix_of` t_written st.
Proof.
  assert (∃ st, spsc_reachable 2 0 st ∧ t_seen st = [5]) as (st & Hst & Hs).
  { pose proof (spsc_next _ _ _ _ (spsc_init 2 0)
      (p_write (LFQueue_new 2 0) CIdle [] [] 0%nat 5 eq_refl)) as H1.
    pose proof (spsc_next _ _ _ _ H1 (p_index _ _ _ _ _)) as H2.
    pose proof (spsc_next _ _ _ _ H2 (p_count _ _ _ _ _)) as H3.
    unshelve epose proof (spsc_next _ _ _ _ H3 (c_peek _ _ _ _ _ 0 _)) as H4; [reflexivity|].
    pose proof (spsc_next _ _ _ _ H4 (c_read _ _ _ _ _ _)) as H5.
    eexists. split; [exact H5|done]. }
  exists st. split; [exact Hst|]. split; [exact Hs|]. by apply (spsc_fifo 2 0 st).
Defined.
