(* ===== verification/FIFOSequencer.v ===== *)
(** * FIFOSequencer: requests of all clients in the order they were received

    [exchange/order_server/fifo_sequencer.h].  [std::sort] is known by its contract only:
    the result is a sorted permutation, and nothing is said about equal keys. *)
From S2P Require Import Prelude Types LFQueue.

Definition ME_MAX_PENDING_REQUESTS : Z := 1024.

(** [struct RecvTimeClientRequest] and its [operator<]. *)
Record RecvTimeClientRequest := mkRecvTimeClientRequest {
  recv_time_ : Nanos;
  request_ : MEClientRequest
}.
Definition rt_lt (a b : RecvTimeClientRequest) : bool := recv_time_ a <? recv_time_ b.
Definition rt_le (a b : RecvTimeClientRequest) : Prop := recv_time_ a ≤ recv_time_ b.
#[export] Instance RecvTimeClientRequest_eq_dec : EqDecision RecvTimeClientRequest.
Proof. solve_decision. Defined.
#[export] Instance rt_le_dec a b : Decision (rt_le a b).
Proof. unfold rt_le. apply _. Defined.

(** What the language promises of [std::sort] on this order. *)
Class StdSort := {
  std_sort : list RecvTimeClientRequest → list RecvTimeClientRequest;
  std_sort_perm l : std_sort l ≡ₚ l;
  std_sort_sorted l : Sorted rt_le (std_sort l)
}.

#[refine] Definition merge_sort_std : StdSort := {| std_sort := merge_sort rt_le |}.
Proof.
  - intros l. apply merge_sort_Permutation.
  - intros l. apply Sorted_merge_sort. intros x y. unfold rt_le. lia.
Defined.

(** The pending requests are the first [pending_size_] cells of the array. *)
Record FIFOSequencer := mkFIFOSequencer {
  fs_incoming_requests_ : LFQueue MEClientRequest;
  pending_client_requests_ : list RecvTimeClientRequest
}.
Definition FIFOSequencer_new (q : LFQueue MEClientRequest) : FIFOSequencer :=
  mkFIFOSequencer q [].
Definition pending_size_ (fs : FIFOSequencer) : Z :=
  Z.of_nat (length (pending_client_requests_ fs)).

Definition addClientRequest (fs : FIFOSequencer) (rx_time : Nanos) (request : MEClientRequest)
  : Res FIFOSequencer :=
  if pending_size_ fs >=? ME_MAX_PENDING_REQUESTS then FATAL
  else Ok (mkFIFOSequencer (fs_incoming_requests_ fs)
             (pending_client_requests_ fs ++ [mkRecvTimeClientRequest rx_time request])).

Definition sequenceAndPublish `{StdSort} (fs : FIFOSequencer) : FIFOSequencer :=
  if pending_size_ fs =? 0 then fs
  else
    mkFIFOSequencer
      (lfq_push_all (fs_incoming_requests_ fs) (request_ <$> std_sort (pending_client_requests_ fs)))
      [].

Lemma addClientRequest_ok fs t r :
  pending_size_ fs < ME_MAX_PENDING_REQUESTS →
  addClientRequest fs t r =
  Ok (mkFIFOSequencer (fs_incoming_requests_ fs)
        (pending_client_requests_ fs ++ [mkRecvTimeClientRequest t r])).
Proof. intros H. unfold addClientRequest. by rewrite Z.geb_leb, (proj2 (Z.leb_gt _ _)). Qed.

Lemma sequence_rep `{StdSort} fs l :
  lfq_rep (fs_incoming_requests_ fs) l →
  Z.of_nat (length l) + pending_size_ fs ≤ lfq_cap (fs_incoming_requests_ fs) →
  ∃ batch, batch ≡ₚ pending_client_requests_ fs ∧ Sorted rt_le batch ∧
    lfq_rep (fs_incoming_requests_ (sequenceAndPublish fs)) (l ++ (request_ <$> batch)) ∧
    lfq_cap (fs_incoming_requests_ (sequenceAndPublish fs)) =
      lfq_cap (fs_incoming_requests_ fs) ∧
    pending_client_requests_ (sequenceAndPublish fs) = [].
Proof.
  intros Hl Hroom. unfold sequenceAndPublish, pending_size_ in *.
  destruct (_ =? 0) eqn:E.
  - apply Z.eqb_eq in E. destruct (pending_client_requests_ fs) eqn:Ep; [|done].
    exists []. rewrite app_nil_r. split_and!; [done|constructor|done|done|done].
  - exists (std_sort (pending_client_requests_ fs)). simpl.
    pose proof (std_sort_perm (pending_client_requests_ fs)) as Hp.
    destruct (lfq_push_all_rep _ l (request_ <$> std_sort (pending_client_requests_ fs)) Hl)
      as [H1 H2].
    { rewrite length_fmap, Hp. lia. }
    split_and!; [done|apply std_sort_sorted|done|done|done].
Qed.

(** Requests of distinct receive times come out in one order only. *)
Lemma sorted_unique (l k : list RecvTimeClientRequest) :
  l ≡ₚ k → Sorted rt_le l → Sorted rt_le k → NoDup (recv_time_ <$> l) → l = k.
Proof.
  intros Hp Hl Hk Hnd.
  assert (Transitive rt_le) as Htr by (intros x y z; unfold rt_le; lia).
  apply Sorted_StronglySorted in Hl; [|done]. apply Sorted_StronglySorted in Hk; [|done].
  revert k Hp Hk. induction Hl as [|x l Hl IH Hx]; intros k Hp Hk.
  - by apply Permutation_nil_l in Hp.
  - destruct k as [|y k]; [by apply Permutation_nil_r in Hp|].
    inversion Hk as [|? ? Hk' Hy]; subst. rewrite Forall_forall in Hx, Hy.
    rewrite fmap_cons in Hnd. apply NoDup_cons in Hnd as [Hno Hnd].
    assert (x = y) as <-.
    { assert (y ∈ x :: l) as Hyin by (rewrite Hp; by left).
      assert (x ∈ y :: k) as Hxin by (rewrite <-Hp; by left).
      apply elem_of_cons in Hyin as [->|Hyl]; [done|].
      apply elem_of_cons in Hxin as [->|Hxk]; [done|].
      exfalso. apply Hno. apply list_elem_of_fmap. exists y. split; [|done].
      specialize (Hx y Hyl). specialize (Hy x Hxk). unfold rt_le in *. lia. }
    f_equal. apply IH; [done|by apply Permutation_cons_inv in Hp|done].
Qed.

(** ** Theorems *)

(** A round of the sequencer: it publishes every pending request exactly once, behind
    what the queue already held, in non-decreasing order of receive time, and keeps none;
    when the receive times differ, this order is the only one that any [std::sort] can
    produce. *)
Theorem sequencer_publishes_in_time_order `{StdSort} fs l :
  lfq_rep (fs_incoming_requests_ fs) l →
  Z.of_nat (length l) + pending_size_ fs ≤ lfq_cap (fs_incoming_requests_ fs) →
  ∃ batch, lfq_rep (fs_incoming_requests_ (sequenceAndPublish fs)) (l ++ (request_ <$> batch)) ∧
    pending_size_ (sequenceAndPublish fs) = 0 ∧
    batch ≡ₚ pending_client_requests_ fs ∧ Sorted rt_le batch ∧
    (NoDup (recv_time_ <$> pending_client_requests_ fs) →
     ∀ k, k ≡ₚ pending_client_requests_ fs → Sorted rt_le k → k = batch).
Proof.
  intros Hl Hroom. destruct (sequence_rep fs l Hl Hroom) as (b & Hp & Hs & Hrep & _ & Hn).
  exists b. split_and!; [done| |done|done|].
  - unfold pending_size_. by rewrite Hn.
  - intros Hnd k Hk Hks. apply sorted_unique; [by rewrite Hk|done|done|by rewrite Hk].
Qed.

Definition seq_demo (t : Nanos) : RecvTimeClientRequest :=
  mkRecvTimeClientRequest t
    (mkMEClientRequest ClientRequestType.NEW 1 0 t Side.BUY 100 1).

Lemma sequencer_publishes_in_time_order_witness :
  ∃ batch, batch ≡ₚ [seq_demo 5; seq_demo 3] ∧ Sorted rt_le batch.
Proof.
  destruct (@sequencer_publishes_in_time_order merge_sort_std
    (mkFIFOSequencer (LFQueue_new 8 MEClientRequest_default) [seq_demo 5; seq_demo 3]) [])
    as (batch & _ & _ & Hp & Hs & _).
  - apply LFQueue_new_rep; lia.
  - by vm_compute.
  - exists batch. split; [exact Hp|exact Hs].
Defined.

(** The sequencer holds 1024 requests: one more in the same round ends the process. *)
Theorem sequencer_overflow fs rx_time request :
  (pending_size_ fs < ME_MAX_PENDING_REQUESTS →
   ∃ fs', addClientRequest fs rx_time request = Ok fs' ∧
          pending_size_ fs' = pending_size_ fs + 1) ∧
  (ME_MAX_PENDING_REQUESTS ≤ pending_size_ fs →
   addClientRequest fs rx_time request = Err FatalExit).
Proof.
  split; intros H.
  - rewrite addClientRequest_ok by done. eexists. split; [done|].
    unfold pending_size_. simpl. rewrite length_app. simpl. lia.
  - unfold addClientRequest. by rewrite Z.geb_leb, (proj2 (Z.leb_le _ _)).
Qed.
