(* ===== verification/OrderServer.v ===== *)
(** * OrderServer: the exchange's end of the order connections

    [exchange/order_server/order_server.h] and [order_server.cpp].  A socket is a pointer;
    the sockets of the TCP server are kept in a map from pointers.  The arrays of the
    server are indexed by the client id of a message without a check. *)
From S2P Require Import Prelude Types Wire Sockets LFQueue FIFOSequencer.

Record OrderServer := mkOrderServer {
  os_outgoing_responses_ : LFQueue MEClientResponse;
  cid_next_outgoing_seq_num_ : arr Z;
  cid_next_exp_seq_num_ : arr Z;
  cid_tcp_socket_ : arr (option Z);
  os_sockets : gmap Z Socket;
  fifo_sequencer_ : FIFOSequencer
}.

(** The constructor: all sequence numbers start at 1, no client has a socket. *)
Definition OrderServer_new (client_requests : LFQueue MEClientRequest)
    (client_responses : LFQueue MEClientResponse) : OrderServer :=
  mkOrderServer client_responses (arr_new ME_MAX_NUM_CLIENTS 1) (arr_new ME_MAX_NUM_CLIENTS 1)
    (arr_new ME_MAX_NUM_CLIENTS None) ∅ (FIFOSequencer_new client_requests).

Definition socket_at (sv : OrderServer) (socket : Z) : Socket :=
  default (Socket_new (-1)) (os_sockets sv !! socket).
Definition set_socket (sv : OrderServer) (socket : Z) (s : Socket) : OrderServer :=
  mkOrderServer (os_outgoing_responses_ sv) (cid_next_outgoing_seq_num_ sv)
    (cid_next_exp_seq_num_ sv) (cid_tcp_socket_ sv) (<[socket := s]> (os_sockets sv))
    (fifo_sequencer_ sv).

(** The body of the loop of [recvCallback]. *)
Definition on_request (socket : Z) (rx_time : Nanos) (sv : OrderServer)
    (request : OMClientRequest) : Res OrderServer :=
  let c := rq_client_id (omrq_request request) in
  bound ← arr_idx (cid_tcp_socket_ sv) c;
  let sockets := if bool_decide (bound = None)
                 then arr_set (cid_tcp_socket_ sv) c (Some socket)
                 else cid_tcp_socket_ sv in
  let sv := mkOrderServer (os_outgoing_responses_ sv) (cid_next_outgoing_seq_num_ sv)
    (cid_next_exp_seq_num_ sv) sockets (os_sockets sv) (fifo_sequencer_ sv) in
  if negb (bool_decide (arr_get sockets c = Some socket)) then Ok sv
  else
    next_exp_seq_num ← arr_idx (cid_next_exp_seq_num_ sv) c;
    if negb (omrq_seq_num request =? next_exp_seq_num) then Ok sv
    else
      fifo ← addClientRequest (fifo_sequencer_ sv) rx_time (omrq_request request);
      Ok (mkOrderServer (os_outgoing_responses_ sv) (cid_next_outgoing_seq_num_ sv)
            (arr_set (cid_next_exp_seq_num_ sv) c (u64 (next_exp_seq_num + 1)))
            (cid_tcp_socket_ sv) (os_sockets sv) fifo).

(** Handle the whole messages of the receive buffer and move the rest to its front. *)
Definition os_recvCallback (sv : OrderServer) (socket : Z) (rx_time : Nanos) : Res OrderServer :=
  let s := socket_at sv socket in
  if next_rcv_valid_index_ s <? Z.of_nat (c_size OMClientRequest) then Ok sv
  else
    let '(requests, rest) := recv_messages (A := OMClientRequest) (inbound_data_ s) in
    requests ← requests;
    sv ← fold_res (on_request socket rx_time) sv requests;
    Ok (set_socket sv socket (with_inbound (socket_at sv socket) rest)).

Definition recvFinishedCallback `{StdSort} (sv : OrderServer) : OrderServer :=
  mkOrderServer (os_outgoing_responses_ sv) (cid_next_outgoing_seq_num_ sv)
    (cid_next_exp_seq_num_ sv) (cid_tcp_socket_ sv) (os_sockets sv)
    (sequenceAndPublish (fifo_sequencer_ sv)).

(** The socket read [chunk], and the callback ran. *)
Definition os_receive (sv : OrderServer) (socket : Z) (rx_time : Nanos) (chunk : bytes)
  : Res OrderServer :=
  let '(s, called) := socket_recv TCPBufferSize (socket_at sv socket) chunk in
  let sv := set_socket sv socket s in
  if (called : bool) then os_recvCallback sv socket rx_time else Ok sv.

(** The body of the loop of [run] over the outgoing responses: the sequence number and the
    response go into the send buffer of the client's socket. *)
Definition os_send_response (sv : OrderServer) : Res (option OrderServer) :=
  match getNextToRead (os_outgoing_responses_ sv) with
  | None => Ok None
  | Some slot =>
      let client_response := read_slot (os_outgoing_responses_ sv) slot in
      let c := rs_client_id client_response in
      next_outgoing_seq_num ← arr_idx (cid_next_outgoing_seq_num_ sv) c;
      socket ← arr_idx (cid_tcp_socket_ sv) c;
      _ ← ASSERT (negb (bool_decide (socket = None)));
      socket ← deref socket;
      s ← tcp_send (socket_at sv socket) (le_encode 8 next_outgoing_seq_num);
      s ← tcp_send s (c_enc client_response);
      q ← updateReadIndex (os_outgoing_responses_ sv);
      Ok (Some (mkOrderServer q
            (arr_set (cid_next_outgoing_seq_num_ sv) c (u64 (next_outgoing_seq_num + 1)))
            (cid_next_exp_seq_num_ sv) (cid_tcp_socket_ sv) (<[socket := s]> (os_sockets sv))
            (fifo_sequencer_ sv)))
  end.

(** ** What the server accepts *)
Definition client_of (r : OMClientRequest) : ClientId := rq_client_id (omrq_request r).

(** Which requests the guards of [on_request] let through, given the sequence numbers
    expected and the sockets bound; the same two maps afterwards. *)
Definition accept_one (socket : Z) (st : (ClientId → Z) * (ClientId → option Z))
    (r : OMClientRequest) : bool * ((ClientId → Z) * (ClientId → option Z)) :=
  let '(exp, bound) := st in
  let c := client_of r in
  let bound' := λ c', if decide (c' = c)
                      then match bound c with None => Some socket | b => b end
                      else bound c' in
  if bool_decide (bound' c = Some socket) && (omrq_seq_num r =? exp c)
  then (true, ((λ c', if decide (c' = c) then u64 (exp c + 1) else exp c'), bound'))
  else (false, (exp, bound')).

Fixpoint accepted (socket : Z) (st : (ClientId → Z) * (ClientId → option Z))
    (rs : list OMClientRequest) : list OMClientRequest :=
  match rs with
  | [] => []
  | r :: rs =>
      let '(b, st') := accept_one socket st r in
      if (b : bool) then r :: accepted socket st' rs else accepted socket st' rs
  end.

(** The two maps after a stream. *)
Definition state_after (socket : Z) (st : (ClientId → Z) * (ClientId → option Z))
    (rs : list OMClientRequest) : (ClientId → Z) * (ClientId → option Z) :=
  foldl (λ st r, (accept_one socket st r).2) st rs.

(** Two states of the maps with the same entries. *)
Definition same_state (st st' : (ClientId → Z) * (ClientId → option Z)) : Prop :=
  (∀ c, st.1 c = st'.1 c) ∧ (∀ c, st.2 c = st'.2 c).
#[export] Instance same_state_equivalence : Equivalence same_state.
Proof.
  split; [by split|by intros ?? [? ?]; split|].
  intros x y z [H1 H2] [H3 H4]. split; intros c; by rewrite ?H1, ?H2.
Qed.

Record os_rep (sv : OrderServer) : Prop := {
  or_out : arr_len (cid_next_outgoing_seq_num_ sv) = ME_MAX_NUM_CLIENTS;
  or_exp : arr_len (cid_next_exp_seq_num_ sv) = ME_MAX_NUM_CLIENTS;
  or_sock : arr_len (cid_tcp_socket_ sv) = ME_MAX_NUM_CLIENTS
}.
Definition os_state (sv : OrderServer) : (ClientId → Z) * (ClientId → option Z) :=
  (arr_get (cid_next_exp_seq_num_ sv), arr_get (cid_tcp_socket_ sv)).
Definition known_client (r : OMClientRequest) : Prop :=
  0 ≤ client_of r < ME_MAX_NUM_CLIENTS.
#[export] Instance known_client_dec r : Decision (known_client r).
Proof. unfold known_client. apply _. Defined.

Definition pending (sv : OrderServer) : list RecvTimeClientRequest :=
  pending_client_requests_ (fifo_sequencer_ sv).
Definition stamp (rx_time : Nanos) (r : OMClientRequest) : RecvTimeClientRequest :=
  mkRecvTimeClientRequest rx_time (omrq_request r).

Lemma on_request_spec socket rx sv r :
  os_rep sv → known_client r →
  pending_size_ (fifo_sequencer_ sv) < ME_MAX_PENDING_REQUESTS →
  ∃ sv', on_request socket rx sv r = Ok sv' ∧ os_rep sv' ∧
    pending sv' = pending sv ++
      (if (accept_one socket (os_state sv) r).1 then [stamp rx r] else []) ∧
    (∀ c, (os_state sv').1 c = (accept_one socket (os_state sv) r).2.1 c) ∧
    (∀ c, (os_state sv').2 c = (accept_one socket (os_state sv) r).2.2 c) ∧
    os_sockets sv' = os_sockets sv ∧
    fs_incoming_requests_ (fifo_sequencer_ sv') = fs_incoming_requests_ (fifo_sequencer_ sv) ∧
    cid_next_outgoing_seq_num_ sv' = cid_next_outgoing_seq_num_ sv ∧
    os_outgoing_responses_ sv' = os_outgoing_responses_ sv.
Proof.
  intros [Ho He Hs] Hk Hroom. unfold on_request, accept_one, os_state.
  change (rq_client_id (omrq_request r)) with (client_of r). set (c := client_of r) in *.
  rewrite arr_idx_Ok by by rewrite Hs. cbn [mbind Res_bind].
  set (sockets := if bool_decide _ then _ else _).
  assert (arr_len sockets = ME_MAX_NUM_CLIENTS) as Hsl by (unfold sockets; by case_bool_decide).
  assert (∀ c', arr_get sockets c' = if decide (c' = c)
            then match arr_get (cid_tcp_socket_ sv) c with None => Some socket | b => b end
            else arr_get (cid_tcp_socket_ sv) c') as Hget.
  { intros c'. unfold sockets.
    destruct (arr_get (cid_tcp_socket_ sv) c) as [b|] eqn:E; simpl.
    - case_decide; [by subst|done].
    - rewrite arr_get_set. repeat case_decide; subst; congruence. }
  cbn [cid_next_exp_seq_num_ fifo_sequencer_ cid_tcp_socket_]. rewrite <-Hget.
  case_bool_decide as Eb; cbn [negb andb].
  2: { eexists. split; [done|]. cbn. rewrite app_nil_r. split_and!; try done. }
  rewrite arr_idx_Ok by by rewrite He. cbn [mbind Res_bind].
  destruct (omrq_seq_num r =? arr_get (cid_next_exp_seq_num_ sv) c) eqn:Eq; cbn [negb andb].
  2: { eexists. split; [done|]. cbn. rewrite app_nil_r. split_and!; try done. }
  rewrite addClientRequest_ok by done. cbn [mbind Res_bind].
  eexists. split; [done|]. cbn. split_and!; try done.
  intros c'. rewrite arr_get_set. repeat case_decide; subst; try done; congruence.
Qed.

(** [accept_one] only looks at the two maps pointwise. *)
#[export] Instance accept_one_proper socket :
  Proper (same_state ==> eq ==> λ x y, x.1 = y.1 ∧ same_state x.2 y.2) (accept_one socket).
Proof.
  intros [e b] [e' b'] [He Hb] r _ <-. unfold accept_one, same_state in *. simpl in *.
  rewrite !decide_True, Hb, He by done.
  destruct (bool_decide _ && _); simpl; (split; [done|]); split; intros c; try done;
    case_decide; congruence.
Qed.

#[export] Instance state_after_proper socket :
  Proper (same_state ==> eq ==> same_state) (state_after socket).
Proof.
  intros st st' E rs _ <-. revert st st' E. induction rs as [|r rs IH]; intros st st' E; [done|].
  cbn [state_after foldl]. apply IH. by apply accept_one_proper.
Qed.

#[export] Instance accepted_proper socket :
  Proper (same_state ==> eq ==> eq) (accepted socket).
Proof.
  intros st st' E rs _ <-. revert st st' E. induction rs as [|r rs IH]; intros st st' E; [done|].
  cbn [accepted]. destruct (accept_one_proper socket st st' E r r eq_refl) as [E1 E2].
  destruct (accept_one socket st r) as [b1 st1], (accept_one socket st' r) as [b2 st2].
  simpl in *. subst b2. by rewrite (IH _ _ E2).
Qed.

Lemma accepted_app socket st rs rs' :
  accepted socket st (rs ++ rs') =
  accepted socket st rs ++ accepted socket (state_after socket st rs) rs'.
Proof.
  revert st. induction rs as [|r rs IH]; intros st; [done|].
  cbn [app accepted]. change (state_after socket st (r :: rs)) with
    (state_after socket (accept_one socket st r).2 rs).
  destruct (accept_one socket st r) as [[] st']; cbn [snd]; by rewrite IH.
Qed.

Lemma accepted_length socket st rs : (length (accepted socket st rs) ≤ length rs)%nat.
Proof.
  revert st. induction rs as [|r rs IH]; intros st; simpl; [lia|].
  destruct (accept_one socket st r) as [[] st']; simpl; specialize (IH st'); lia.
Qed.

(** Receiving leaves the sending side and the sequencer's queue alone. *)
Record same_outgoing (sv sv' : OrderServer) : Prop := {
  so_seq : cid_next_outgoing_seq_num_ sv' = cid_next_outgoing_seq_num_ sv;
  so_responses : os_outgoing_responses_ sv' = os_outgoing_responses_ sv;
  so_requests : fs_incoming_requests_ (fifo_sequencer_ sv') =
                fs_incoming_requests_ (fifo_sequencer_ sv)
}.
#[export] Instance same_outgoing_preorder : PreOrder same_outgoing.
Proof. split; [by split|]. intros x y z [] []. split; congruence. Qed.

Lemma on_requests_spec socket rx sv rs :
  os_rep sv → Forall known_client rs →
  pending_size_ (fifo_sequencer_ sv) + Z.of_nat (length rs) ≤ ME_MAX_PENDING_REQUESTS →
  ∃ sv', fold_res (on_request socket rx) sv rs = Ok sv' ∧ os_rep sv' ∧
    pending sv' = pending sv ++ (stamp rx <$> accepted socket (os_state sv) rs) ∧
    same_state (os_state sv') (state_after socket (os_state sv) rs) ∧
    os_sockets sv' = os_sockets sv ∧ same_outgoing sv sv'.
Proof.
  intros Hrep Hk. revert sv Hrep. induction Hk as [|r rs Hr Hk IH]; intros sv Hrep Hroom.
  - exists sv. by rewrite app_nil_r.
  - cbn [length] in Hroom. cbn [fold_res].
    destruct (on_request_spec socket rx sv r Hrep Hr ltac:(lia))
      as (sv1 & -> & Hrep1 & Hp1 & He1 & Hb1 & Hs1 & Hq1 & Ho1 & Hr1).
    assert (pending_size_ (fifo_sequencer_ sv1) ≤ pending_size_ (fifo_sequencer_ sv) + 1) as Hps.
    { unfold pending_size_. unfold pending in Hp1. rewrite Hp1, length_app.
      destruct (accept_one _ _ _).1; simpl; lia. }
    cbn [mbind Res_bind].
    destruct (IH sv1 Hrep1 ltac:(lia)) as (sv2 & -> & Hrep2 & Hp2 & Ha2 & Hs2 & Hq2).
    assert (same_state (os_state sv1) (accept_one socket (os_state sv) r).2) as Hst by by split.
    exists sv2. split; [done|]. split; [done|]. split_and!; [| |congruence|].
    + rewrite Hp2, Hp1. cbn [accepted]. rewrite Hst.
      destruct (accept_one socket (os_state sv) r) as [[] st']; simpl.
      * by rewrite <-app_assoc.
      * by rewrite app_nil_r.
    + cbn [state_after foldl]. rewrite Ha2. by rewrite Hst.
    + etrans; [by split|done].
Qed.

(** ** A stream of requests on one socket *)

(** The bytes a socket receives, in the chunks the network made of them, each with the
    time it was received. *)
Definition os_feed (socket : Z) (sv : OrderServer) (chunks : list (Nanos * bytes))
  : Res OrderServer :=
  fold_res (λ sv tc, os_receive sv socket tc.1 tc.2) sv chunks.

Definition inbound (sv : OrderServer) (socket : Z) : bytes := inbound_data_ (socket_at sv socket).

Lemma socket_at_set sv socket s : socket_at (set_socket sv socket s) socket = s.
Proof. unfold socket_at, set_socket. simpl. by rewrite lookup_insert_eq. Qed.

Lemma OMClientRequest_size : c_size OMClientRequest = 38%nat.
Proof. done. Qed.

Lemma encode_all_length (ms : list OMClientRequest) :
  length (encode_all ms) = (38 * length ms)%nat.
Proof.
  induction ms as [|m ms IH]; [done|]. unfold encode_all in *. rewrite fmap_cons.
  cbn [concat length]. rewrite length_app, c_enc_length, IH, OMClientRequest_size. lia.
Qed.

(** This many requests are complete when [n] bytes are in the buffer. *)
Definition whole_requests (n : nat) : Z := Z.of_nat n / 38.

(** Reading a chunk handles exactly the requests it completes, one after the other. *)
Lemma os_receive_eq sv socket rx chunk ms future :
  Forall c_ok ms → encode_all ms = inbound sv socket ++ chunk ++ future →
  Z.of_nat (length (inbound sv socket) + length chunk) ≤ TCPBufferSize → chunk ≠ [] →
  ∃ sv0 ms1 ms2 rest, ms = ms1 ++ ms2 ∧
    sv0 = set_socket sv socket (with_inbound (socket_at sv socket) (inbound sv socket ++ chunk)) ∧
    os_receive sv socket rx chunk =
      (sv1 ← fold_res (on_request socket rx) sv0 ms1;
       Ok (set_socket sv1 socket (with_inbound (socket_at sv1 socket) rest))) ∧
    encode_all ms2 = rest ++ future ∧ (length rest < 38)%nat ∧
    Z.of_nat (length ms1) = whole_requests (length (inbound sv socket) + length chunk).
Proof.
  intros Hok E Hfits Hne. unfold inbound in *.
  unfold os_receive, socket_recv, next_rcv_valid_index_.
  rewrite take_ge by lia. rewrite bool_decide_eq_false_2 by done. cbn [negb].
  rewrite <-length_app.
  set (buf := inbound_data_ (socket_at sv socket) ++ chunk) in *. rewrite app_assoc in E.
  destruct (recv_prefix ltac:(rewrite OMClientRequest_size; lia) ms buf future Hok E)
    as (ms1 & ms2 & rest & -> & Hrecv & Hfut).
  set (sv0 := set_socket sv socket _).
  assert ((length rest < 38)%nat) as Hrest.
  { unfold recv_messages in Hrecv. destruct (frames _ buf) as [fs r] eqn:Ef.
    apply frames_rest in Ef as (Hl & _); [|rewrite OMClientRequest_size; lia].
    apply (f_equal snd) in Hrecv. cbn [snd] in Hrecv. rewrite <-Hrecv.
    by rewrite OMClientRequest_size in Hl. }
  assert (Z.of_nat (length ms1) = whole_requests (length buf)) as Hcount.
  { rewrite encode_all_app, Hfut in E. apply (f_equal length) in E.
    rewrite !length_app, encode_all_length in E. unfold whole_requests, buf.
    rewrite length_app. apply Z.div_unique with (Z.of_nat (length rest)); lia. }
  exists sv0, ms1, ms2, rest. split_and!; try done.
  unfold os_recvCallback, sv0, next_rcv_valid_index_. rewrite socket_at_set.
  cbn [inbound_data_ with_inbound]. fold buf. destruct (_ <? _) eqn:Elt.
  - (* not a whole message yet *)
    apply Z.ltb_lt in Elt.
    assert (ms1 = [] ∧ rest = buf) as [-> ->].
    { unfold recv_messages in Hrecv. rewrite frames_short in Hrecv by lia.
      by injection Hrecv as <- <-. }
    cbn [fold_res mbind Res_bind]. rewrite socket_at_set. unfold set_socket. cbn [os_sockets].
    by rewrite insert_insert_eq.
  - by rewrite Hrecv.
Qed.

Lemma os_receive_spec sv socket rx chunk ms future :
  os_rep sv → Forall c_ok ms → Forall known_client ms →
  encode_all ms = inbound sv socket ++ chunk ++ future →
  Z.of_nat (length (inbound sv socket) + length chunk) ≤ TCPBufferSize → chunk ≠ [] →
  pending_size_ (fifo_sequencer_ sv) +
    whole_requests (length (inbound sv socket) + length chunk) ≤ ME_MAX_PENDING_REQUESTS →
  ∃ sv' ms1 ms2, ms = ms1 ++ ms2 ∧ os_receive sv socket rx chunk = Ok sv' ∧ os_rep sv' ∧
    pending sv' = pending sv ++ (stamp rx <$> accepted socket (os_state sv) ms1) ∧
    same_state (os_state sv') (state_after socket (os_state sv) ms1) ∧
    encode_all ms2 = inbound sv' socket ++ future ∧
    same_outgoing sv sv' ∧ (length (inbound sv' socket) < c_size OMClientRequest)%nat ∧
    Z.of_nat (length ms1) = whole_requests (length (inbound sv socket) + length chunk) ∧
    os_sockets sv' = <[socket := with_inbound (socket_at sv socket) (inbound sv' socket)]>
                       (os_sockets sv).
Proof.
  intros Hrep Hok Hk E Hfits Hne Hroom.
  destruct (os_receive_eq sv socket rx chunk ms future Hok E Hfits Hne)
    as (sv0 & ms1 & ms2 & rest & -> & Esv0 & Hrecv & Hfut & Hrest & Hcount).
  apply Forall_app in Hk as [Hk1 _].
  assert (os_rep sv0) as Hrep0.
  { subst sv0. destruct Hrep as [H1 H2 H3]. exact (Build_os_rep (set_socket sv _ _) H1 H2 H3). }
  destruct (on_requests_spec socket rx sv0 ms1 Hrep0 Hk1)
    as (sv1 & Hon & Hrep1 & Hp1 & Ha1 & Hs1 & Hq1).
  { subst sv0. change (fifo_sequencer_ (set_socket sv _ _)) with (fifo_sequencer_ sv). lia. }
  rewrite Hon in Hrecv. cbn [mbind Res_bind] in Hrecv. rewrite Esv0 in Hp1, Ha1, Hs1, Hq1.
  set (sv2 := set_socket sv1 socket _) in Hrecv.
  assert (inbound sv2 socket = rest) as Hin by (unfold inbound, sv2; by rewrite socket_at_set).
  exists sv2, ms1, ms2. rewrite Hin. split; [done|]. split; [exact Hrecv|].
  split; [destruct Hrep1 as [H1 H2 H3]; exact (Build_os_rep (set_socket sv1 _ _) H1 H2 H3)|].
  split; [exact Hp1|]. split; [exact Ha1|]. split; [exact Hfut|].
  split; [by destruct Hq1; split|]. split; [exact Hrest|]. split; [exact Hcount|].
  unfold sv2, set_socket at 1. cbn [os_sockets]. rewrite Hs1. cbn [set_socket os_sockets].
  rewrite insert_insert_eq. f_equal. unfold socket_at at 1. rewrite Hs1.
  cbn [set_socket os_sockets]. by rewrite lookup_insert_eq.
Qed.

(** One request too many: the sequencer ends the process. *)
Lemma on_request_full socket rx sv r :
  os_rep sv → known_client r → (accept_one socket (os_state sv) r).1 = true →
  ME_MAX_PENDING_REQUESTS ≤ pending_size_ (fifo_sequencer_ sv) →
  on_request socket rx sv r = Err FatalExit.
Proof.
  intros [Ho He Hs] Hk Ha Hfull. unfold on_request, accept_one, os_state in *.
  change (rq_client_id (omrq_request r)) with (client_of r). set (c := client_of r) in *.
  rewrite arr_idx_Ok by by rewrite Hs. cbn [mbind Res_bind].
  set (sockets := if bool_decide _ then _ else _).
  assert (arr_get sockets c =
    match arr_get (cid_tcp_socket_ sv) c with None => Some socket | b => b end) as Hget.
  { unfold sockets. destruct (arr_get (cid_tcp_socket_ sv) c) as [b|] eqn:E; [done|].
    cbn [bool_decide decide_rel]. rewrite bool_decide_eq_true_2 by done.
    by rewrite arr_get_set, decide_True. }
  cbn [cid_next_exp_seq_num_ fifo_sequencer_ cid_tcp_socket_]. rewrite Hget.
  rewrite decide_True in Ha by done.
  destruct (bool_decide _ && (_ =? _)) eqn:Eb; [|done]. apply andb_true_iff in Eb as [-> Eq].
  cbn [negb]. rewrite arr_idx_Ok by by rewrite He. cbn [mbind Res_bind]. rewrite Eq. cbn [negb].
  unfold addClientRequest. by rewrite Z.geb_leb, (proj2 (Z.leb_le _ _)).
Qed.

Lemma on_requests_overflow socket rx sv rs :
  os_rep sv → Forall known_client rs → accepted socket (os_state sv) rs = rs →
  pending_size_ (fifo_sequencer_ sv) ≤ ME_MAX_PENDING_REQUESTS <
    pending_size_ (fifo_sequencer_ sv) + Z.of_nat (length rs) →
  fold_res (on_request socket rx) sv rs = Err FatalExit.
Proof.
  intros Hrep Hk. revert sv Hrep. induction Hk as [|r rs Hr Hk IH]; intros sv Hrep Hacc Hroom;
    cbn [length] in Hroom; [lia|]. cbn [fold_res].
  assert ((accept_one socket (os_state sv) r).1 = true ∧
    accepted socket (accept_one socket (os_state sv) r).2 rs = rs) as [Ha Hacc'].
  { cbn [accepted] in Hacc. pose proof (accepted_length socket (accept_one socket (os_state sv) r).2 rs) as Hl.
    destruct (accept_one socket (os_state sv) r) as [[] st]; cbn [fst snd] in *.
    - by injection Hacc.
    - rewrite Hacc in Hl. cbn [length] in Hl. lia. }
  destruct (decide (ME_MAX_PENDING_REQUESTS ≤ pending_size_ (fifo_sequencer_ sv))) as [Hfull|Hlt].
  { by rewrite on_request_full. }
  destruct (on_request_spec socket rx sv r Hrep Hr ltac:(lia))
    as (sv1 & -> & Hrep1 & Hp1 & He1 & Hb1 & _). cbn [mbind Res_bind].
  assert (same_state (os_state sv1) (accept_one socket (os_state sv) r).2) as Hst by by split.
  apply IH; [done|by rewrite Hst|]. unfold pending_size_. unfold pending in Hp1.
  rewrite Hp1, Ha, length_app. unfold pending_size_ in *. cbn [length]. lia.
Qed.

Lemma os_receive_overflow sv socket rx chunk ms future :
  os_rep sv → Forall c_ok ms → Forall known_client ms →
  encode_all ms = inbound sv socket ++ chunk ++ future →
  Z.of_nat (length (inbound sv socket) + length chunk) ≤ TCPBufferSize → chunk ≠ [] →
  (∀ n, (n ≤ length ms)%nat → accepted socket (os_state sv) (take n ms) = take n ms) →
  pending_size_ (fifo_sequencer_ sv) ≤ ME_MAX_PENDING_REQUESTS <
    pending_size_ (fifo_sequencer_ sv) +
    whole_requests (length (inbound sv socket) + length chunk) →
  os_receive sv socket rx chunk = Err FatalExit.
Proof.
  intros Hrep Hok Hk E Hfits Hne Hacc Hroom.
  destruct (os_receive_eq sv socket rx chunk ms future Hok E Hfits Hne)
    as (sv0 & ms1 & ms2 & rest & -> & Esv0 & Hrecv & Hfut & Hrest & Hcount).
  apply Forall_app in Hk as [Hk1 _]. rewrite Hrecv, on_requests_overflow; subst sv0; try done.
  - destruct Hrep as [H1 H2 H3]. exact (Build_os_rep (set_socket sv _ _) H1 H2 H3).
  - specialize (Hacc (length ms1)). rewrite take_app_length, length_app in Hacc.
    apply Hacc. lia.
  - change (fifo_sequencer_ (set_socket sv _ _)) with (fifo_sequencer_ sv). lia.
Qed.

Lemma os_feed_spec socket chunks : ∀ sv ms,
  os_rep sv → Forall c_ok ms → Forall known_client ms →
  encode_all ms = inbound sv socket ++ concat chunks.*2 →
  Forall (λ tc, tc.2 ≠ [] ∧
    Z.of_nat (c_size OMClientRequest + length tc.2) ≤ TCPBufferSize) chunks →
  (length (inbound sv socket) < c_size OMClientRequest)%nat →
  pending_size_ (fifo_sequencer_ sv) + Z.of_nat (length ms) ≤ ME_MAX_PENDING_REQUESTS →
  ∃ sv', os_feed socket sv chunks = Ok sv' ∧ os_rep sv' ∧
    request_ <$> pending sv' =
      (request_ <$> pending sv) ++ (omrq_request <$> accepted socket (os_state sv) ms) ∧
    inbound sv' socket = [] ∧
    fs_incoming_requests_ (fifo_sequencer_ sv') = fs_incoming_requests_ (fifo_sequencer_ sv).
Proof.
  induction chunks as [|[rx chunk] chunks IH]; intros sv ms Hrep Hok Hk E Hch Hin Hroom.
  - cbn [fmap list_fmap concat] in E. rewrite app_nil_r in E.
    destruct (recv_prefix ltac:(rewrite OMClientRequest_size; lia) ms (inbound sv socket) [] Hok)
      as (ms1 & ms2 & rest & -> & Hrecv & Hfut); [by rewrite app_nil_r|].
    destruct (ms1 ++ ms2) as [|m ms] eqn:Em.
    + exists sv. cbn [accepted fmap list_fmap]. rewrite app_nil_r.
      split_and!; done.
    + exfalso. unfold encode_all in E. rewrite fmap_cons in E. cbn [concat] in E.
      apply (f_equal length) in E. rewrite length_app, c_enc_length in E. lia.
  - apply Forall_cons in Hch as [[Hne Hfit] Hch]. cbn [fmap list_fmap concat snd] in E, Hne, Hfit.
    destruct (os_receive_spec sv socket rx chunk ms (concat chunks.*2) Hrep Hok Hk)
      as (sv1 & ms1 & ms2 & -> & Hr & Hrep1 & Hp1 & Ha1 & Hf1 & Hq1 & Hin1 & _); try done; [lia| |].
    { apply (f_equal length) in E. rewrite !length_app, encode_all_length in E.
      unfold whole_requests.
      assert (Z.of_nat (length (inbound sv socket) + length chunk) / 38 ≤ Z.of_nat (length ms));
        [|lia].
      transitivity (38 * Z.of_nat (length ms) / 38); [apply Z.div_le_mono; lia|].
      rewrite Z.mul_comm, Z.div_mul; lia. }
    apply Forall_app in Hok as [_ Hok2], Hk as [_ Hk2]. rewrite length_app in Hroom.
    destruct (IH sv1 ms2) as (sv2 & Hfeed & Hrep2 & Hp2 & Hin2 & Hq2); try done.
    { unfold pending_size_. change (pending_client_requests_ (fifo_sequencer_ sv1)) with (pending sv1).
      rewrite Hp1, length_app, length_fmap. unfold pending_size_, pending in *.
      pose proof (accepted_length socket (os_state sv) ms1). lia. }
    exists sv2. unfold os_feed in *. cbn [fold_res fst snd]. rewrite Hr. cbn [mbind Res_bind].
    split_and!; [done|done| |done|by rewrite Hq2, (so_requests _ _ Hq1)].
    rewrite Hp2, Hp1, accepted_app, <-Ha1, !fmap_app, <-app_assoc. f_equal. f_equal.
    rewrite <-list_fmap_compose. by apply list_fmap_ext.
Qed.

(** ** Sequence numbers *)

Lemma accept_one_seq socket st r :
  match accept_one socket st r with
  | (true, st') => omrq_seq_num r = st.1 (client_of r) ∧
      ∀ c, st'.1 c = if decide (c = client_of r) then u64 (st.1 (client_of r) + 1) else st.1 c
  | (false, st') => st'.1 = st.1
  end.
Proof.
  destruct st as [e b]. unfold accept_one.
  destruct (bool_decide _ && (_ =? _)) eqn:Eb; [|done].
  apply andb_true_iff in Eb as [_ Eq%Z.eqb_eq]. done.
Qed.

Lemma accepted_consecutive socket st rs c :
  0 ≤ st.1 c → st.1 c + Z.of_nat (length rs) < 2 ^ 64 →
  let acc := filter (λ r, client_of r = c) (accepted socket st rs) in
  omrq_seq_num <$> acc = seqZ (st.1 c) (Z.of_nat (length acc)).
Proof.
  cbn zeta. revert st. induction rs as [|r rs IH]; intros st H0 Hlt; [done|].
  cbn [length accepted] in *. pose proof (accept_one_seq socket st r) as Ha.
  destruct (accept_one socket st r) as [[] st'].
  - destruct Ha as [Heq Hst].
    destruct (decide (client_of r = c)) as [<-|Hne].
    + specialize (Hst (client_of r)). rewrite decide_True, u64_id in Hst by (done || lia).
      rewrite filter_cons_True by done. cbn [length]. rewrite fmap_cons, IH by lia.
      by rewrite Nat2Z.inj_succ, (seqZ_cons (st.1 _)), Z.pred_succ, Heq, Hst, Z.add_1_r by lia.
    + specialize (Hst c). rewrite decide_False in Hst by done.
      rewrite filter_cons_False by done. by rewrite IH, Hst by lia.
  - by rewrite IH, Ha by (rewrite Ha; lia).
Qed.

Lemma accepted_all socket e b rs c :
  (b c = None ∨ b c = Some socket) → Forall (λ r, client_of r = c) rs →
  0 ≤ e c → e c + Z.of_nat (length rs) < 2 ^ 64 →
  omrq_seq_num <$> rs = seqZ (e c) (Z.of_nat (length rs)) →
  accepted socket (e, b) rs = rs.
Proof.
  intros Hb Hc. revert e b Hb. induction Hc as [|r rs Hr Hc IH]; intros e b Hb H0 Hlt Hseq; [done|].
  cbn [length] in *. rewrite Nat2Z.inj_succ, seqZ_cons in Hseq by lia.
  rewrite fmap_cons in Hseq. injection Hseq as Hs1 Hs2. rewrite Z.pred_succ in Hs2.
  cbn [accepted accept_one]. rewrite Hr.
  assert ((if decide (c = c) then match b c with None => Some socket | b0 => b0 end else b c)
          = Some socket) as Hbc.
  { rewrite decide_True by done. by destruct Hb as [-> | ->]. }
  rewrite Hbc, bool_decide_eq_true_2, Hs1, Z.eqb_refl by done. cbn [andb].
  f_equal. apply IH.
  - right. exact Hbc.
  - rewrite decide_True by done. rewrite u64_id; lia.
  - rewrite decide_True by done. rewrite u64_id; lia.
  - rewrite decide_True, u64_id by (done || lia). by rewrite Hs2, Z.add_1_r.
Qed.

Lemma accepted_sublist socket st rs : accepted socket st rs `sublist_of` rs.
Proof.
  revert st. induction rs as [|r rs IH]; intros st; [constructor|]. cbn [accepted].
  destruct (accept_one socket st r) as [[] st']; [apply sublist_skip|apply sublist_cons]; apply IH.
Qed.
