(* ===== verification/OrderGateway.v ===== *)
(** * OrderGateway: the trading client's end of the order connection

    [trading/order_gw/order_gateway.h] and [order_gateway.cpp], and what the two ends of
    the connection, this one and [OrderServer], promise together. *)
From S2P Require Import Prelude Types Wire Sockets LFQueue FIFOSequencer OrderServer.

Record OrderGateway := mkOrderGateway {
  gw_client_id_ : ClientId;
  gw_outgoing_requests_ : LFQueue MEClientRequest;
  gw_incoming_responses_ : LFQueue MEClientResponse;
  next_outgoing_seq_num_ : Z;
  next_exp_seq_num_ : Z;
  gw_tcp_socket_ : Socket
}.

Definition OrderGateway_new (client_id : ClientId) (client_requests : LFQueue MEClientRequest)
    (client_responses : LFQueue MEClientResponse) : OrderGateway :=
  mkOrderGateway client_id client_requests client_responses 1 1 (Socket_new (-1)).

(** The body of the loop of [run] over the outgoing requests. *)
Definition gw_send_request (g : OrderGateway) : Res (option OrderGateway) :=
  match getNextToRead (gw_outgoing_requests_ g) with
  | None => Ok None
  | Some slot =>
      let client_request := read_slot (gw_outgoing_requests_ g) slot in
      s ← tcp_send (gw_tcp_socket_ g) (le_encode 8 (next_outgoing_seq_num_ g));
      s ← tcp_send s (c_enc client_request);
      q ← updateReadIndex (gw_outgoing_requests_ g);
      Ok (Some (mkOrderGateway (gw_client_id_ g) q (gw_incoming_responses_ g)
            (u64 (next_outgoing_seq_num_ g + 1)) (next_exp_seq_num_ g) s))
  end.

(** The whole loop: at most [fuel] requests; the queue's size is enough. *)
Fixpoint gw_send_requests (fuel : nat) (g : OrderGateway) : Res OrderGateway :=
  match fuel with
  | O => match getNextToRead (gw_outgoing_requests_ g) with
         | None => Ok g | Some _ => Err OutOfFuel end
  | S fuel =>
      r ← gw_send_request g;
      match r with None => Ok g | Some g => gw_send_requests fuel g end
  end.

(** The body of the loop of [recvCallback]. *)
Definition on_response (g : OrderGateway) (response : OMClientResponse) : OrderGateway :=
  if negb (rs_client_id (omrs_response response) =? gw_client_id_ g) then g
  else if negb (omrs_seq_num response =? next_exp_seq_num_ g) then g
  else
    mkOrderGateway (gw_client_id_ g) (gw_outgoing_requests_ g)
      (lfq_push (gw_incoming_responses_ g) (omrs_response response))
      (next_outgoing_seq_num_ g) (u64 (next_exp_seq_num_ g + 1)) (gw_tcp_socket_ g).

Definition with_socket (g : OrderGateway) (s : Socket) : OrderGateway :=
  mkOrderGateway (gw_client_id_ g) (gw_outgoing_requests_ g) (gw_incoming_responses_ g)
    (next_outgoing_seq_num_ g) (next_exp_seq_num_ g) s.

Definition gw_recvCallback (g : OrderGateway) : Res OrderGateway :=
  let s := gw_tcp_socket_ g in
  if next_rcv_valid_index_ s <? Z.of_nat (c_size OMClientResponse) then Ok g
  else
    let '(responses, rest) := recv_messages (A := OMClientResponse) (inbound_data_ s) in
    responses ← responses;
    Ok (with_socket (foldl on_response g responses) (with_inbound s rest)).

Definition gw_receive (g : OrderGateway) (chunk : bytes) : Res OrderGateway :=
  let '(s, called) := socket_recv TCPBufferSize (gw_tcp_socket_ g) chunk in
  let g := with_socket g s in
  if (called : bool) then gw_recvCallback g else Ok g.

(** ** The send loop

    What the loop leaves in the send buffer: the requests of the queue, numbered. *)
Definition numbered_requests (n : Z) (rs : list MEClientRequest) : list OMClientRequest :=
  imap (λ i r, mkOMClientRequest (n + Z.of_nat i) r) rs.

Lemma c_enc_om n r : c_enc (mkOMClientRequest n r) = le_encode 8 n ++ c_enc r.
Proof. done. Qed.

Lemma numbered_cons n r rs :
  numbered_requests n (r :: rs) = mkOMClientRequest n r :: numbered_requests (n + 1) rs.
Proof.
  unfold numbered_requests. simpl. rewrite Z.add_0_r. f_equal.
  apply imap_ext. intros i x _. simpl. f_equal. lia.
Qed.

Lemma numbered_length n rs : length (numbered_requests n rs) = length rs.
Proof. apply length_imap. Qed.

Lemma numbered_seq n rs :
  omrq_seq_num <$> numbered_requests n rs = seqZ n (Z.of_nat (length rs)).
Proof.
  revert n. induction rs as [|r rs IH]; intros n; [done|].
  rewrite numbered_cons. cbn [length]. rewrite fmap_cons, Nat2Z.inj_succ, seqZ_cons by lia.
  by rewrite IH, Z.pred_succ, Z.add_1_r.
Qed.

Lemma numbered_request n rs : omrq_request <$> numbered_requests n rs = rs.
Proof.
  revert n. induction rs as [|r rs IH]; intros n; [done|].
  rewrite numbered_cons, fmap_cons. by rewrite IH.
Qed.

Lemma numbered_Forall (P : OMClientRequest → Prop) n rs :
  (∀ k r, n ≤ k < n + Z.of_nat (length rs) → r ∈ rs → P (mkOMClientRequest k r)) →
  Forall P (numbered_requests n rs).
Proof.
  revert n. induction rs as [|r rs IH]; intros n H; [constructor|].
  cbn [length] in H. rewrite numbered_cons. constructor.
  - apply H; [lia|by left].
  - apply IH. intros k x Hk Hx. apply H; [lia|by right].
Qed.

Lemma request_size : c_size MEClientRequest = 30%nat.
Proof. done. Qed.

Lemma tcp_send_two s a b :
  next_send_valid_index_ s + Z.of_nat (length a + length b) ≤ TCPBufferSize →
  (s' ← tcp_send s a; tcp_send s' b) = Ok (with_outbound s (outbound_data_ s ++ a ++ b)).
Proof.
  intros H. rewrite tcp_send_ok by lia. cbn [mbind Res_bind].
  rewrite tcp_send_ok.
  - unfold with_outbound. cbn [outbound_data_ socket_fd_ inbound_data_]. by rewrite <-app_assoc.
  - unfold next_send_valid_index_ in *. cbn [outbound_data_ with_outbound].
    rewrite length_app. lia.
Qed.

(** The queue read by the loop holds [rs]: they are all sent, in order, and the loop ends. *)
Lemma gw_send_requests_spec fuel g rs :
  lfq_rep (gw_outgoing_requests_ g) rs → (length rs ≤ fuel)%nat →
  next_send_valid_index_ (gw_tcp_socket_ g) + Z.of_nat (38 * length rs) ≤ TCPBufferSize →
  0 ≤ next_outgoing_seq_num_ g → next_outgoing_seq_num_ g + Z.of_nat (length rs) < 2 ^ 64 →
  ∃ g', gw_send_requests fuel g = Ok g' ∧ lfq_rep (gw_outgoing_requests_ g') [] ∧
    next_outgoing_seq_num_ g' = next_outgoing_seq_num_ g + Z.of_nat (length rs) ∧
    outbound_data_ (gw_tcp_socket_ g') = outbound_data_ (gw_tcp_socket_ g) ++
      encode_all (numbered_requests (next_outgoing_seq_num_ g) rs) ∧
    inbound_data_ (gw_tcp_socket_ g') = inbound_data_ (gw_tcp_socket_ g) ∧
    gw_client_id_ g' = gw_client_id_ g ∧
    next_exp_seq_num_ g' = next_exp_seq_num_ g ∧
    gw_incoming_responses_ g' = gw_incoming_responses_ g ∧
    lfq_cap (gw_outgoing_requests_ g') = lfq_cap (gw_outgoing_requests_ g).
Proof.
  revert g rs. induction fuel as [|fuel IH]; intros g [|r rs] Hq Hfuel Hfit H0 Hseq;
    cbn [length] in *; [|lia| |].
  1,2: pose proof (lfq_pop_rep _ _ Hq) as Hpop; unfold lfq_pop in Hpop;
    cbn [gw_send_requests]; unfold gw_send_request;
    destruct (getNextToRead _); [by destruct (updateReadIndex _)|];
    exists g; rewrite app_nil_r, Z.add_0_r; split_and!; done.
  destruct (lfq_pop_rep _ _ Hq) as (q' & Hpop & Hq' & Hcap). unfold lfq_pop in Hpop.
  cbn [gw_send_requests]. unfold gw_send_request.
  destruct (getNextToRead (gw_outgoing_requests_ g)) as [slot|]; [|done].
  destruct (updateReadIndex _) as [q1|] eqn:Eu; [|done].
  cbn [mbind Res_bind] in Hpop. injection Hpop as Hr ->.
  set (s1 := with_outbound (gw_tcp_socket_ g) (outbound_data_ (gw_tcp_socket_ g) ++
    le_encode 8 (next_outgoing_seq_num_ g) ++ c_enc r)).
  assert (∀ k : Socket → Res (option OrderGateway),
    (s ← tcp_send (gw_tcp_socket_ g) (le_encode 8 (next_outgoing_seq_num_ g));
     s ← tcp_send s (c_enc r); k s) = k s1) as Hsend.
  { intros k. pose proof (tcp_send_two (gw_tcp_socket_ g)
      (le_encode 8 (next_outgoing_seq_num_ g)) (c_enc r)) as Ht.
    rewrite le_encode_length, c_enc_length, request_size in Ht. specialize (Ht ltac:(lia)).
    destruct (tcp_send (gw_tcp_socket_ g) _) as [s'|]; [|done].
    cbn [mbind Res_bind] in *. by rewrite Ht. }
  rewrite Hr, Hsend. cbn [mbind Res_bind]. rewrite u64_id by lia.
  destruct (IH (mkOrderGateway (gw_client_id_ g) q' (gw_incoming_responses_ g)
    (next_outgoing_seq_num_ g + 1) (next_exp_seq_num_ g) s1) rs)
    as (g' & -> & Hq2 & Hn2 & Ho2 & Hi2 & Hc2 & He2 & Hr2 & Hcap2).
  { exact Hq'. }
  { lia. }
  { unfold next_send_valid_index_ in *. cbn [gw_tcp_socket_]. unfold s1.
    cbn [outbound_data_ with_outbound].
    rewrite !length_app, le_encode_length, c_enc_length, request_size. lia. }
  { cbn [next_outgoing_seq_num_]. lia. }
  { cbn [next_outgoing_seq_num_]. lia. }
  cbn [next_outgoing_seq_num_ gw_tcp_socket_ gw_client_id_ next_exp_seq_num_
       gw_incoming_responses_] in *.
  cbn [gw_outgoing_requests_] in Hcap2.
  exists g'. split_and!; [done|done|lia| |exact Hi2|done|done|done|by rewrite Hcap2].
  rewrite Ho2. unfold s1. cbn [outbound_data_ with_outbound]. rewrite numbered_cons.
  unfold encode_all. rewrite fmap_cons. cbn [concat]. rewrite c_enc_om.
  by rewrite <-!app_assoc.
Qed.
