(* ===== verification/OrderFlow.v ===== *)
(** * OrderFlow: the order connection from end to end

    [OrderGateway] and [OrderServer] with the byte stream between them: what one end sends
    the other end accepts, in order, exactly once, however TCP cuts the stream. *)
From S2P Require Import Prelude Types Wire Sockets LFQueue FIFOSequencer OrderServer OrderGateway.

(** ** The server's send loop *)

(** The messages made of a list of responses, with the counter of each client. *)
Fixpoint numbered_responses (n : ClientId → Z) (rs : list MEClientResponse)
  : list OMClientResponse :=
  match rs with
  | [] => []
  | r :: rs =>
      mkOMClientResponse (n (rs_client_id r)) r ::
      numbered_responses (λ c, if decide (c = rs_client_id r) then n c + 1 else n c) rs
  end.

Fixpoint os_send_responses (fuel : nat) (sv : OrderServer) : Res OrderServer :=
  match fuel with
  | O => match getNextToRead (os_outgoing_responses_ sv) with
         | None => Ok sv | Some _ => Err OutOfFuel end
  | S fuel =>
      r ← os_send_response sv;
      match r with None => Ok sv | Some sv => os_send_responses fuel sv end
  end.

Definition response_client (r : OMClientResponse) : ClientId := rs_client_id (omrs_response r).
Definition outbound (sv : OrderServer) (socket : Z) : bytes := outbound_data_ (socket_at sv socket).

Lemma numbered_responses_ext n n' rs :
  (∀ c, n c = n' c) → numbered_responses n rs = numbered_responses n' rs.
Proof.
  revert n n'. induction rs as [|r rs IH]; intros n n' E; [done|]. simpl. rewrite E. f_equal.
  apply IH. intros c. by rewrite E.
Qed.

Lemma response_size : c_size MEClientResponse = 42%nat.
Proof. done. Qed.

Lemma OMClientResponse_size : c_size OMClientResponse = 50%nat.
Proof. done. Qed.

Lemma c_enc_omr n r : c_enc (mkOMClientResponse n r) = le_encode 8 n ++ c_enc r.
Proof. done. Qed.

(** The client of a response has a socket, and its counter is in range. *)
Definition deliverable (sv : OrderServer) (r : MEClientResponse) : Prop :=
  0 ≤ rs_client_id r < ME_MAX_NUM_CLIENTS ∧
  is_Some (arr_get (cid_tcp_socket_ sv) (rs_client_id r)).

(** Sending leaves the receiving side alone. *)
Record same_receiving (sv sv' : OrderServer) : Prop := {
  sr_exp : cid_next_exp_seq_num_ sv' = cid_next_exp_seq_num_ sv;
  sr_bound : cid_tcp_socket_ sv' = cid_tcp_socket_ sv;
  sr_fifo : fifo_sequencer_ sv' = fifo_sequencer_ sv;
  sr_inbound : ∀ k, inbound sv' k = inbound sv k;
  sr_cap : lfq_cap (os_outgoing_responses_ sv') = lfq_cap (os_outgoing_responses_ sv)
}.
#[export] Instance same_receiving_preorder : PreOrder same_receiving.
Proof. split; [by split|]. intros x y z [] []. split; intros; congruence. Qed.

Lemma os_send_response_spec sv r rs :
  os_rep sv → lfq_rep (os_outgoing_responses_ sv) (r :: rs) → deliverable sv r →
  (∀ k, next_send_valid_index_ (socket_at sv k) + 50 ≤ TCPBufferSize) →
  0 ≤ arr_get (cid_next_outgoing_seq_num_ sv) (rs_client_id r) < 2 ^ 64 - 1 →
  ∃ sv', os_send_response sv = Ok (Some sv') ∧ os_rep sv' ∧
    lfq_rep (os_outgoing_responses_ sv') rs ∧
    cid_tcp_socket_ sv' = cid_tcp_socket_ sv ∧
    (∀ c, arr_get (cid_next_outgoing_seq_num_ sv') c =
          if decide (c = rs_client_id r) then arr_get (cid_next_outgoing_seq_num_ sv) c + 1
          else arr_get (cid_next_outgoing_seq_num_ sv) c) ∧
    (∀ k, outbound sv' k = outbound sv k ++
       if decide (arr_get (cid_tcp_socket_ sv) (rs_client_id r) = Some k)
       then c_enc (mkOMClientResponse
                     (arr_get (cid_next_outgoing_seq_num_ sv) (rs_client_id r)) r)
       else []) ∧
    same_receiving sv sv'.
Proof.
  intros [Ho He Hs] Hq [Hc [k0 Hk0]] Hfit Hn.
  destruct (lfq_pop_rep _ _ Hq) as (q' & Hpop & Hq' & Hcap). unfold lfq_pop in Hpop.
  unfold os_send_response.
  destruct (getNextToRead (os_outgoing_responses_ sv)) as [slot|]; [|done].
  destruct (updateReadIndex _) as [q1|]; [|done].
  cbn [mbind Res_bind] in Hpop. injection Hpop as Hr ->. rewrite Hr.
  rewrite (arr_idx_Ok (cid_next_outgoing_seq_num_ sv)) by by rewrite Ho. cbn [mbind Res_bind].
  rewrite (arr_idx_Ok (cid_tcp_socket_ sv)) by by rewrite Hs. cbn [mbind Res_bind]. rewrite Hk0.
  cbn [bool_decide negb ASSERT mbind Res_bind deref].
  set (n := arr_get (cid_next_outgoing_seq_num_ sv) (rs_client_id r)) in *.
  set (s1 := with_outbound (socket_at sv k0) (outbound sv k0 ++ le_encode 8 n ++ c_enc r)).
  pose proof (tcp_send_two (socket_at sv k0) (le_encode 8 n) (c_enc r)) as Ht.
  rewrite le_encode_length, c_enc_length, response_size in Ht.
  specialize (Ht (Hfit k0)). fold (outbound sv k0) s1 in Ht.
  destruct (tcp_send (socket_at sv k0) _) as [s'|]; [|done].
  cbn [mbind Res_bind] in Ht. cbn [mbind Res_bind]. rewrite Ht. cbn [mbind Res_bind].
  eexists. split; [reflexivity|]. split; [by split; [exact Ho|exact He|exact Hs]|].
  split; [exact Hq'|]. split; [reflexivity|]. split.
  - intros c. cbn [cid_next_outgoing_seq_num_]. rewrite arr_get_set.
    destruct (decide (rs_client_id r = c)) as [<-|Hne].
    + rewrite decide_True, u64_id by (done || lia). reflexivity.
    + rewrite decide_False by done. reflexivity.
  - split; [intros k; unfold outbound at 1, socket_at at 1; cbn [os_sockets];
      rewrite lookup_insert; destruct (decide (k0 = k)) as [<-|Hne]|].
    + rewrite decide_True by done. cbn [default]. unfold s1. cbn [outbound_data_ with_outbound].
      reflexivity.
    + rewrite decide_False by congruence. rewrite app_nil_r. reflexivity.
    + split; try reflexivity; [|exact Hcap]. intros k. unfold inbound, socket_at at 1.
      cbn [os_sockets]. rewrite lookup_insert. by destruct (decide (k0 = k)) as [<-|Hne].
Qed.

(** How many responses of a list go to a client. *)
Definition client_count (c : ClientId) (rs : list MEClientResponse) : Z :=
  Z.of_nat (length (filter (λ r, rs_client_id r = c) rs)).

(** All of them: what every socket is sent is the numbered responses of its clients. *)
Lemma os_send_responses_spec fuel sv rs :
  os_rep sv → lfq_rep (os_outgoing_responses_ sv) rs → Forall (deliverable sv) rs →
  (length rs ≤ fuel)%nat →
  (∀ k, next_send_valid_index_ (socket_at sv k) + Z.of_nat (50 * length rs) ≤ TCPBufferSize) →
  (∀ c, 0 ≤ arr_get (cid_next_outgoing_seq_num_ sv) c <
        2 ^ 64 - Z.of_nat (length rs)) →
  ∃ sv', os_send_responses fuel sv = Ok sv' ∧ lfq_rep (os_outgoing_responses_ sv') [] ∧
    (∀ k, outbound sv' k = outbound sv k ++
      encode_all (filter (λ m, arr_get (cid_tcp_socket_ sv) (response_client m) = Some k)
                    (numbered_responses (arr_get (cid_next_outgoing_seq_num_ sv)) rs))) ∧
    os_rep sv' ∧ same_receiving sv sv' ∧
    (∀ c, arr_get (cid_next_outgoing_seq_num_ sv') c =
          arr_get (cid_next_outgoing_seq_num_ sv) c + client_count c rs).
Proof.
  revert sv rs. induction fuel as [|fuel IH]; intros sv [|r rs] Hrep Hq Hd Hfuel Hfit Hn;
    cbn [length] in *; [|lia| |].
  1,2: pose proof (lfq_pop_rep _ _ Hq) as Hpop; unfold lfq_pop in Hpop;
    cbn [os_send_responses]; unfold os_send_response;
    destruct (getNextToRead _); [by destruct (updateReadIndex _)|];
    exists sv; split_and!; [done|done| |done|done|]; intros k;
    [by rewrite app_nil_r|unfold client_count; cbn; lia].
  apply Forall_cons in Hd as [Hr Hd].
  destruct (os_send_response_spec sv r rs Hrep Hq Hr)
    as (sv1 & Hs1 & Hrep1 & Hq1 & Hsk1 & Hn1 & Hout1 & Hfr1).
  { intros k. specialize (Hfit k). lia. }
  { specialize (Hn (rs_client_id r)). lia. }
  destruct (IH sv1 rs Hrep1 Hq1) as (sv2 & Hs2 & Hq2 & Hout2 & Hrep2 & Hfr2 & Hn2).
  { unfold deliverable. rewrite Hsk1. exact Hd. }
  { lia. }
  { intros k. specialize (Hfit k). unfold next_send_valid_index_ in *.
    fold (outbound sv1 k). fold (outbound sv k) in Hfit. rewrite Hout1, length_app.
    destruct (decide _); [rewrite c_enc_length, OMClientResponse_size|simpl]; lia. }
  { intros c. rewrite Hn1. specialize (Hn c). destruct (decide _); lia. }
  exists sv2. cbn [os_send_responses]. rewrite Hs1. cbn [mbind Res_bind].
  split; [exact Hs2|]. split; [exact Hq2|]. split; [|split; [exact Hrep2|split; [by etrans|]]].
  2: { intros c. rewrite Hn2, Hn1. unfold client_count. destruct (decide (c = rs_client_id r)) as [->|E].
       - rewrite filter_cons_True by done. cbn [length]. lia.
       - by rewrite filter_cons_False by congruence. }
  intros k. rewrite Hout2, Hout1, Hsk1.
  rewrite <-app_assoc. f_equal. cbn [numbered_responses].
  rewrite (numbered_responses_ext _ _ rs Hn1).
  set (m := mkOMClientResponse _ r).
  destruct (decide (arr_get (cid_tcp_socket_ sv) (rs_client_id r) = Some k)) as [E|E].
  - rewrite filter_cons_True by exact E. unfold encode_all. rewrite fmap_cons. reflexivity.
  - rewrite filter_cons_False by exact E. reflexivity.
Qed.

(** ** The gateway's receive side *)
Definition gw_feed (g : OrderGateway) (chunks : list bytes) : Res OrderGateway :=
  fold_res gw_receive g chunks.

Lemma on_response_socket g s rs :
  foldl on_response (with_socket g s) rs = with_socket (foldl on_response g rs) s.
Proof.
  revert g. induction rs as [|r rs IH]; intros g; [done|]. cbn [foldl].
  rewrite <-IH. f_equal. unfold on_response. cbn [gw_client_id_ next_exp_seq_num_ with_socket].
  destruct (negb _); [done|]. by destruct (negb _).
Qed.

Lemma gw_receive_spec g chunk ms future :
  let b := inbound_data_ (gw_tcp_socket_ g) in
  Forall c_ok ms → encode_all ms = b ++ chunk ++ future →
  Z.of_nat (length b + length chunk) ≤ TCPBufferSize → chunk ≠ [] →
  ∃ ms1 ms2 rest, ms = ms1 ++ ms2 ∧
    gw_receive g chunk =
      Ok (with_socket (foldl on_response g ms1) (with_inbound (gw_tcp_socket_ g) rest)) ∧
    encode_all ms2 = rest ++ future ∧ (length rest < c_size OMClientResponse)%nat.
Proof.
  cbn zeta. intros Hok E Hfits Hne. unfold gw_receive, socket_recv, next_rcv_valid_index_.
  rewrite take_ge by lia. rewrite bool_decide_eq_false_2 by done. cbn [negb].
  set (buf := inbound_data_ (gw_tcp_socket_ g) ++ chunk) in *. rewrite app_assoc in E.
  destruct (recv_prefix ltac:(rewrite OMClientResponse_size; lia) ms buf future Hok E)
    as (ms1 & ms2 & rest & -> & Hrecv & Hfut).
  assert ((length rest < c_size OMClientResponse)%nat) as Hrest.
  { unfold recv_messages in Hrecv. destruct (frames _ buf) as [fs r] eqn:Ef.
    apply frames_rest in Ef as (Hl & _); [|rewrite OMClientResponse_size; lia].
    apply (f_equal snd) in Hrecv. cbn [snd] in Hrecv. by rewrite <-Hrecv. }
  exists ms1, ms2, rest. split; [reflexivity|]. split; [|split; [exact Hfut|exact Hrest]].
  unfold gw_recvCallback, next_rcv_valid_index_. cbn [gw_tcp_socket_ with_socket].
  cbn [inbound_data_ with_inbound]. fold buf. destruct (_ <? _) eqn:Elt.
  - apply Z.ltb_lt in Elt.
    assert (ms1 = [] ∧ rest = buf) as [-> ->].
    { unfold recv_messages in Hrecv. rewrite frames_short in Hrecv by lia.
      by injection Hrecv as <- <-. }
    reflexivity.
  - rewrite Hrecv. cbn [mbind Res_bind]. rewrite on_response_socket. reflexivity.
Qed.

Lemma gw_feed_spec chunks : ∀ g ms,
  Forall c_ok ms →
  encode_all ms = inbound_data_ (gw_tcp_socket_ g) ++ concat chunks →
  Forall (λ b, b ≠ [] ∧ Z.of_nat (c_size OMClientResponse + length b) ≤ TCPBufferSize) chunks →
  (length (inbound_data_ (gw_tcp_socket_ g)) < c_size OMClientResponse)%nat →
  gw_feed g chunks =
    Ok (with_socket (foldl on_response g ms) (with_inbound (gw_tcp_socket_ g) [])).
Proof.
  induction chunks as [|chunk chunks IH]; intros g ms Hok E Hch Hin.
  - cbn [concat] in E. rewrite app_nil_r in E. destruct ms as [|m ms].
    + unfold encode_all in E. cbn [fmap list_fmap concat] in E.
      unfold gw_feed. cbn [fold_res foldl]. f_equal.
      destruct g as [? ? ? ? ? [? ? b]]. cbn [gw_tcp_socket_ inbound_data_] in E.
      by rewrite <-E.
    + exfalso. unfold encode_all in E. rewrite fmap_cons in E. cbn [concat] in E.
      apply (f_equal length) in E. rewrite length_app, c_enc_length in E. lia.
  - apply Forall_cons in Hch as [[Hne Hfit] Hch]. cbn [concat] in E.
    destruct (gw_receive_spec g chunk ms (concat chunks) Hok E ltac:(lia) Hne)
      as (ms1 & ms2 & rest & -> & Hr & Hf & Hrest).
    apply Forall_app in Hok as [_ Hok2]. unfold gw_feed in *. cbn [fold_res]. rewrite Hr.
    cbn [mbind Res_bind]. rewrite (IH _ ms2); [|exact Hok2|exact Hf|exact Hch|exact Hrest].
    by rewrite on_response_socket, foldl_app.
Qed.

(** Responses of the gateway's client with the expected numbers all go on. *)
Lemma on_responses_all g ms :
  Forall (λ m, response_client m = gw_client_id_ g) ms →
  0 ≤ next_exp_seq_num_ g → next_exp_seq_num_ g + Z.of_nat (length ms) < 2 ^ 64 →
  omrs_seq_num <$> ms = seqZ (next_exp_seq_num_ g) (Z.of_nat (length ms)) →
  gw_incoming_responses_ (foldl on_response g ms) =
    lfq_push_all (gw_incoming_responses_ g) (omrs_response <$> ms) ∧
  next_exp_seq_num_ (foldl on_response g ms) = next_exp_seq_num_ g + Z.of_nat (length ms).
Proof.
  revert g. induction ms as [|m ms IH]; intros g Hc H0 Hlt Hseq.
  - cbn [foldl length fmap list_fmap]. split; [done|lia].
  - apply Forall_cons in Hc as [Hm Hc]. cbn [length] in *.
    rewrite fmap_cons, Nat2Z.inj_succ, seqZ_cons in Hseq by lia. injection Hseq as Hs1 Hs2.
    rewrite Z.pred_succ in Hs2. cbn [foldl].
    set (g' := on_response g m).
    assert (g' = mkOrderGateway (gw_client_id_ g) (gw_outgoing_requests_ g)
      (lfq_push (gw_incoming_responses_ g) (omrs_response m))
      (next_outgoing_seq_num_ g) (next_exp_seq_num_ g + 1) (gw_tcp_socket_ g)) as Hg'.
    { unfold g', on_response. unfold response_client in Hm.
      by rewrite Hm, Hs1, !Z.eqb_refl, u64_id by lia. }
    destruct (IH g') as [H1 H2]; rewrite ?Hg'; cbn [gw_client_id_ next_exp_seq_num_];
      [exact Hc|lia|lia|by rewrite Hs2, Z.add_1_r| ].
    rewrite <-Hg'. split.
    + rewrite H1, Hg'. reflexivity.
    + rewrite H2, Hg'. cbn [next_exp_seq_num_]. lia.
Qed.

(** When one client alone is connected on a socket, its responses are what the socket is
    sent, with consecutive numbers. *)
Definition client_responses (c : ClientId) (rs : list MEClientResponse) : list MEClientResponse :=
  filter (λ r, rs_client_id r = c) rs.

Lemma numbered_responses_client n rs c :
  let ms := filter (λ m, response_client m = c) (numbered_responses n rs) in
  Forall (λ m, response_client m = c) ms ∧
  omrs_response <$> ms = client_responses c rs ∧
  omrs_seq_num <$> ms = seqZ (n c) (Z.of_nat (length ms)).
Proof.
  cbn zeta. split; [apply Forall_forall; intros m [H _]%list_elem_of_filter; exact H|].
  revert n. induction rs as [|r rs IH]; intros n; [done|].
  unfold client_responses in *. cbn [numbered_responses].
  set (n' := λ c, if decide (c = rs_client_id r) then _ else _).
  destruct (IH n') as [IH1 IH2]. destruct (decide (rs_client_id r = c)) as [<-|Hne].
  - rewrite !filter_cons_True by done. cbn [length]. rewrite !fmap_cons, IH1, IH2.
    split; [done|]. rewrite Nat2Z.inj_succ, (seqZ_cons (n _)), Z.pred_succ by lia.
    cbn [omrs_seq_num]. f_equal. f_equal. unfold n'. rewrite decide_True by done. lia.
  - rewrite !filter_cons_False by done. split; [done|]. rewrite IH2. f_equal. unfold n'.
    by rewrite decide_False.
Qed.

Lemma filter_socket_client (sock : ClientId → option Z) c k (ms : list OMClientResponse) :
  sock c = Some k → (∀ c', sock c' = Some k → c' = c) →
  filter (λ m, sock (response_client m) = Some k) ms = filter (λ m, response_client m = c) ms.
Proof.
  intros Hc Hu. apply list_filter_iff. intros m. split; [apply Hu|by intros ->].
Qed.

Lemma numbered_responses_ok n rs :
  (∀ c, 0 ≤ n c < 2 ^ 64 - Z.of_nat (length rs)) → Forall c_ok rs →
  Forall c_ok (numbered_responses n rs).
Proof.
  intros Hn Hok. revert n Hn. induction Hok as [|r rs Hr Hok IH]; intros n Hn; [constructor|].
  cbn [length] in Hn. cbn [numbered_responses]. constructor.
  - split; [|exact Hr]. specialize (Hn (rs_client_id r)).
    change (0 ≤ n (rs_client_id r) < 2 ^ 64). lia.
  - apply IH. intros c. specialize (Hn c). destruct (decide _); lia.
Qed.

(** ** Theorems *)

(** C23: A gateway's orders reach the sequencer in order, exactly once.  The gateway runs its
    send loop over the requests [rs] its strategy queued; the server has heard of the client
    on no other socket and expects the sequence number the gateway uses next.  However TCP
    cuts the bytes into reads, the server handles the stream without a fault, appends
    exactly [rs] to the pending requests, and leaves nothing in the receive buffer. *)
Theorem orders_reach_sequencer g sv socket rs chunks :
  lfq_rep (gw_outgoing_requests_ g) rs →
  Forall c_ok rs → Forall (λ r, rq_client_id r = gw_client_id_ g) rs →
  0 ≤ gw_client_id_ g < ME_MAX_NUM_CLIENTS →
  outbound_data_ (gw_tcp_socket_ g) = [] → Z.of_nat (38 * length rs) ≤ TCPBufferSize →
  0 ≤ next_outgoing_seq_num_ g → next_outgoing_seq_num_ g + Z.of_nat (length rs) < 2 ^ 64 →
  os_rep sv → inbound sv socket = [] →
  arr_get (cid_next_exp_seq_num_ sv) (gw_client_id_ g) = next_outgoing_seq_num_ g →
  (arr_get (cid_tcp_socket_ sv) (gw_client_id_ g) = None ∨
   arr_get (cid_tcp_socket_ sv) (gw_client_id_ g) = Some socket) →
  pending_size_ (fifo_sequencer_ sv) + Z.of_nat (length rs) ≤ ME_MAX_PENDING_REQUESTS →
  Forall (λ tc, tc.2 ≠ [] ∧
    Z.of_nat (c_size OMClientRequest + length tc.2) ≤ TCPBufferSize) chunks →
  ∃ g', gw_send_requests (length rs) g = Ok g' ∧ lfq_rep (gw_outgoing_requests_ g') [] ∧
    (concat chunks.*2 = outbound_data_ (gw_tcp_socket_ g') →
     ∃ sv', os_feed socket sv chunks = Ok sv' ∧ inbound sv' socket = [] ∧
       request_ <$> pending sv' = (request_ <$> pending sv) ++ rs).
Proof.
  intros Hq Hok Hcid Hc Hout Hfit H0 Hlt Hrep Hin Hexp Hsock Hroom Hch.
  destruct (gw_send_requests_spec (length rs) g rs) as (g' & Hs & Hq' & _ & Ho' & _);
    try done.
  { unfold next_send_valid_index_. rewrite Hout. cbn [length]. lia. }
  exists g'. split; [exact Hs|]. split; [exact Hq'|]. intros Hbytes.
  rewrite Hout in Ho'. cbn [app] in Ho'.
  set (ms := numbered_requests (next_outgoing_seq_num_ g) rs) in *.
  rewrite Forall_forall in Hcid, Hok.
  assert (Forall (λ r, client_of r = gw_client_id_ g) ms) as Hms.
  { apply numbered_Forall. intros k r _ Hr. exact (Hcid r Hr). }
  destruct (os_feed_spec socket chunks sv ms) as (sv' & Hf & _ & Hp & Hi & _).
  { exact Hrep. }
  { apply numbered_Forall. intros k r Hk Hr. split; [|exact (Hok r Hr)].
    change (0 ≤ k < 2 ^ 64). lia. }
  { eapply Forall_impl; [exact Hms|]. intros m Hm. unfold known_client. by rewrite Hm. }
  { by rewrite Hin, Hbytes, Ho'. }
  { exact Hch. }
  { rewrite Hin, OMClientRequest_size. cbn [length]. lia. }
  { unfold ms. by rewrite numbered_length. }
  exists sv'. split; [exact Hf|]. split; [exact Hi|]. rewrite Hp. f_equal. unfold os_state.
  rewrite (accepted_all socket _ _ ms (gw_client_id_ g)); rewrite ?Hexp; unfold ms;
    rewrite ?numbered_length, ?numbered_request, ?numbered_seq; done.
Qed.

(** C24: Responses reach the trading client in order, exactly once.  The server runs its send
    loop over the responses [rs] of all clients; the gateway's client has a socket of its
    own and the gateway expects the number the server uses next for it.  However TCP cuts
    the bytes, the gateway forwards to the trade engine exactly the client's own responses,
    in the order of the matching engine. *)
Theorem responses_reach_client g sv socket rs chunks :
  os_rep sv → lfq_rep (os_outgoing_responses_ sv) rs → Forall c_ok rs →
  Forall (deliverable sv) rs →
  (∀ k, next_send_valid_index_ (socket_at sv k) + Z.of_nat (50 * length rs) ≤ TCPBufferSize) →
  (∀ c, 0 ≤ arr_get (cid_next_outgoing_seq_num_ sv) c < 2 ^ 64 - Z.of_nat (length rs)) →
  outbound sv socket = [] →
  arr_get (cid_tcp_socket_ sv) (gw_client_id_ g) = Some socket →
  (∀ c, arr_get (cid_tcp_socket_ sv) c = Some socket → c = gw_client_id_ g) →
  next_exp_seq_num_ g = arr_get (cid_next_outgoing_seq_num_ sv) (gw_client_id_ g) →
  inbound_data_ (gw_tcp_socket_ g) = [] →
  Forall (λ b, b ≠ [] ∧ Z.of_nat (c_size OMClientResponse + length b) ≤ TCPBufferSize) chunks →
  ∃ sv', os_send_responses (length rs) sv = Ok sv' ∧ lfq_rep (os_outgoing_responses_ sv') [] ∧
    (concat chunks = outbound sv' socket →
     ∃ g', gw_feed g chunks = Ok g' ∧ inbound_data_ (gw_tcp_socket_ g') = [] ∧
       gw_incoming_responses_ g' = lfq_push_all (gw_incoming_responses_ g)
                                     (client_responses (gw_client_id_ g) rs)).
Proof.
  intros Hrep Hq Hok Hd Hfit Hn Hout Hsock Huniq Hexp Hin Hch.
  destruct (os_send_responses_spec (length rs) sv rs Hrep Hq Hd ltac:(lia) Hfit Hn)
    as (sv' & Hs & Hq' & Ho & _).
  exists sv'. split; [exact Hs|]. split; [exact Hq'|]. intros Hbytes.
  rewrite Ho, Hout, (filter_socket_client _ _ _ _ Hsock Huniq) in Hbytes. cbn [app] in Hbytes.
  set (all := numbered_responses _ rs) in *.
  set (ms := filter (λ m, response_client m = gw_client_id_ g) all) in *.
  destruct (numbered_responses_client (arr_get (cid_next_outgoing_seq_num_ sv)) rs
              (gw_client_id_ g)) as (Hm1 & Hm2 & Hm3). fold all ms in Hm1, Hm2, Hm3.
  assert (length ms ≤ length rs)%nat as Hlen.
  { rewrite <-(length_fmap omrs_response ms), Hm2. apply length_filter. }
  eexists. split; [apply (gw_feed_spec chunks g ms)|].
  { apply Forall_forall. intros m [_ Hm]%list_elem_of_filter. revert m Hm.
    apply Forall_forall. by apply numbered_responses_ok. }
  { by rewrite Hin, Hbytes. }
  { exact Hch. }
  { rewrite Hin, OMClientResponse_size. cbn [length]. lia. }
  split; [reflexivity|]. cbn [gw_incoming_responses_ with_socket].
  specialize (Hn (gw_client_id_ g)).
  destruct (on_responses_all g ms) as [H1 _].
  { exact Hm1. }
  { rewrite Hexp. lia. }
  { rewrite Hexp. lia. }
  { rewrite Hexp. exact Hm3. }
  by rewrite H1, Hm2.
Qed.

(** Whatever arrives on a socket — requests of several clients, repeated, with gaps, or
    from clients bound to another socket — the server never faults on known clients while
    the sequencer has room: it passes on a part of the stream, in stream order, and for
    every client the sequence numbers it passed on are consecutive from the expected one:
    no gap, no duplicate. *)
Theorem server_accepts_consecutive sv socket ms chunks :
  os_rep sv → Forall c_ok ms → Forall known_client ms →
  inbound sv socket = [] → concat chunks.*2 = encode_all ms →
  Forall (λ tc, tc.2 ≠ [] ∧
    Z.of_nat (c_size OMClientRequest + length tc.2) ≤ TCPBufferSize) chunks →
  pending_size_ (fifo_sequencer_ sv) + Z.of_nat (length ms) ≤ ME_MAX_PENDING_REQUESTS →
  (∀ c, 0 ≤ arr_get (cid_next_exp_seq_num_ sv) c < 2 ^ 63) →
  ∃ sv' acc, os_feed socket sv chunks = Ok sv' ∧
    request_ <$> pending sv' = (request_ <$> pending sv) ++ (omrq_request <$> acc) ∧
    acc `sublist_of` ms ∧
    ∀ c, let mine := filter (λ r, client_of r = c) acc in
      omrq_seq_num <$> mine =
      seqZ (arr_get (cid_next_exp_seq_num_ sv) c) (Z.of_nat (length mine)).
Proof.
  intros Hrep Hok Hk Hin Hbytes Hch Hroom Hexp.
  destruct (os_feed_spec socket chunks sv ms) as (sv' & Hf & _ & Hp & _); try done.
  { by rewrite Hin, Hbytes. }
  { rewrite Hin, OMClientRequest_size. cbn [length]. lia. }
  exists sv', (accepted socket (os_state sv) ms).
  split; [exact Hf|]. split; [exact Hp|]. split; [apply accepted_sublist|].
  intros c. apply accepted_consecutive; cbn [os_state fst]; specialize (Hexp c); [lia|].
  unfold pending_size_, ME_MAX_PENDING_REQUESTS in Hroom. lia.
Qed.

(** ** A connection *)
Definition flow_new : MEClientRequest :=
  mkMEClientRequest ClientRequestType.NEW 1 0 7 Side.BUY 100 5.
Definition flow_cancel : MEClientRequest :=
  mkMEClientRequest ClientRequestType.CANCEL 1 0 7 Side.INVALID Price_INVALID Qty_INVALID.
Definition flow_requests : list MEClientRequest := [flow_new; flow_cancel].
Definition flow_gateway : OrderGateway :=
  OrderGateway_new 1 (lfq_push_all (LFQueue_new 8 MEClientRequest_default) flow_requests)
    (LFQueue_new 8 MEClientResponse_default).
Definition flow_server : OrderServer :=
  OrderServer_new (LFQueue_new 8 MEClientRequest_default)
    (LFQueue_new 8 MEClientResponse_default).
Definition flow_bytes : bytes := encode_all (numbered_requests 1 flow_requests).
Definition flow_chunks : list (Nanos * bytes) :=
  [(5, take 10 flow_bytes); (6, take 40 (drop 10 flow_bytes)); (9, drop 50 flow_bytes)].

Lemma flow_server_rep : os_rep flow_server.
Proof. by split. Qed.

Lemma flow_requests_ok : Forall c_ok flow_requests.
Proof. repeat constructor; by vm_compute. Qed.

Lemma flow_chunks_ok : Forall (λ tc, tc.2 ≠ [] ∧
  Z.of_nat (c_size OMClientRequest + length tc.2) ≤ TCPBufferSize) flow_chunks.
Proof. repeat constructor; by vm_compute. Qed.

Lemma orders_reach_sequencer_witness :
  ∃ sv', os_feed 3 flow_server flow_chunks = Ok sv' ∧ request_ <$> pending sv' = flow_requests.
Proof.
  destruct (orders_reach_sequencer flow_gateway flow_server 3 flow_requests flow_chunks)
    as (g' & Hg & _ & H).
  - apply (lfq_push_all_rep (LFQueue_new 8 MEClientRequest_default) []);
      [apply LFQueue_new_rep; lia|by vm_compute].
  - exact flow_requests_ok.
  - by repeat constructor.
  - by vm_compute.
  - reflexivity.
  - by vm_compute.
  - by vm_compute.
  - by vm_compute.
  - exact flow_server_rep.
  - reflexivity.
  - reflexivity.
  - left. reflexivity.
  - by vm_compute.
  - exact flow_chunks_ok.
  - destruct H as (sv' & H1 & _ & H2).
    + assert (gw_send_requests (length flow_requests) flow_gateway = Ok g') as Hg' by exact Hg.
      vm_compute in Hg'. injection Hg' as <-. by vm_compute.
    + exists sv'. split; [exact H1|exact H2].
Defined.

Lemma server_accepts_consecutive_witness :
  ∃ sv' acc, os_feed 3 flow_server flow_chunks = Ok sv' ∧
    acc `sublist_of` numbered_requests 1 flow_requests.
Proof.
  destruct (server_accepts_consecutive flow_server 3 (numbered_requests 1 flow_requests)
    flow_chunks) as (sv' & acc & H1 & _ & H2 & _).
  - exact flow_server_rep.
  - repeat constructor; by vm_compute.
  - repeat constructor; by vm_compute.
  - reflexivity.
  - by vm_compute.
  - exact flow_chunks_ok.
  - by vm_compute.
  - intros c. unfold flow_server. cbn [OrderServer_new cid_next_exp_seq_num_].
    rewrite arr_get_new. lia.
  - exists sv', acc. split; [exact H1|exact H2].
Defined.

(** The response side: clients 1 and 2 are connected on sockets 3 and 4. *)
Definition flow_response (c : ClientId) (o : OrderId) : MEClientResponse :=
  mkMEClientResponse ClientResponseType.ACCEPTED c 0 o 1 Side.BUY 100 0 5.
Definition flow_responses : list MEClientResponse :=
  [flow_response 1 7; flow_response 2 7; flow_response 1 8].
Definition flow_server_out : OrderServer :=
  mkOrderServer (lfq_push_all (LFQueue_new 8 MEClientResponse_default) flow_responses)
    (arr_new ME_MAX_NUM_CLIENTS 1) (arr_new ME_MAX_NUM_CLIENTS 1)
    (arr_set (arr_set (arr_new ME_MAX_NUM_CLIENTS None) 1 (Some 3)) 2 (Some 4)) ∅
    (FIFOSequencer_new (LFQueue_new 8 MEClientRequest_default)).
Definition flow_bytes_out : bytes :=
  encode_all [mkOMClientResponse 1 (flow_response 1 7); mkOMClientResponse 2 (flow_response 1 8)].
Definition flow_chunks_out : list bytes := [take 70 flow_bytes_out; drop 70 flow_bytes_out].

Lemma responses_reach_client_witness :
  ∃ g', gw_feed flow_gateway flow_chunks_out = Ok g' ∧
    gw_incoming_responses_ g' =
      lfq_push_all (LFQueue_new 8 MEClientResponse_default) [flow_response 1 7; flow_response 1 8].
Proof.
  destruct (responses_reach_client flow_gateway flow_server_out 3 flow_responses flow_chunks_out)
    as (sv' & Hs & _ & H).
  - by split.
  - apply (lfq_push_all_rep (LFQueue_new 8 MEClientResponse_default) []);
      [apply LFQueue_new_rep; lia|by vm_compute].
  - repeat constructor; by vm_compute.
  - repeat (apply Forall_cons; split;
      [split; [by vm_compute|vm_compute; eexists; reflexivity]|]).
    apply Forall_nil. exact I.
  - intros k. by vm_compute.
  - intros c. unfold flow_server_out. cbn [cid_next_outgoing_seq_num_].
    rewrite arr_get_new. by vm_compute.
  - reflexivity.
  - reflexivity.
  - intros c. unfold flow_server_out. cbn [cid_tcp_socket_]. rewrite !arr_get_set, arr_get_new.
    repeat case_decide; [by intros|by intros|by intros].
  - reflexivity.
  - reflexivity.
  - repeat constructor; by vm_compute.
  - destruct H as (g' & H1 & _ & H2).
    + vm_compute in Hs. injection Hs as <-. by vm_compute.
    + exists g'. split; [exact H1|exact H2].
Defined.

(** A [std::sort] that the language allows: equal keys come out in the reverse order. *)
#[refine] Definition reversing_sort : StdSort :=
  {| std_sort := λ l, merge_sort rt_le (reverse l) |}.
Proof.
  - intros l. rewrite merge_sort_Permutation. by rewrite reverse_Permutation.
  - intros l. apply Sorted_merge_sort. intros x y. unfold rt_le. lia.
Defined.

(** Orders of one client can be swapped before they reach the matching engine.  All the
    requests of one read carry the same receive time, and [std::sort] promises no order
    among equal keys: with a conforming sort, a client's CANCEL that follows its NEW in the
    same read is published before it, although both were accepted in sequence. *)
Theorem same_read_reordered :
  ∃ sort : StdSort,
    (sv ← os_receive flow_server 3 5 flow_bytes; Ok (request_ <$> pending sv)) =
      Ok [flow_new; flow_cancel] ∧
    (sv ← os_receive flow_server 3 5 flow_bytes;
     lfq_drain 3 (fs_incoming_requests_ (fifo_sequencer_ (recvFinishedCallback sv)))) =
      Ok [flow_cancel; flow_new].
Proof. exists reversing_sort. split; vm_compute; reflexivity. Qed.
