(* ===== verification/MatchingEngine.v ===== *)
(** * MatchingEngine: requests in, responses and market updates out

    [exchange/matcher/matching_engine.h] and [matching_engine.cpp]: one book per
    instrument, and the three queues of the matching thread. *)
From S2P Require Import Prelude Types MemPool PriceLevels BookInv LevelsAbs MEOrderBook BookSpec.
From S2P Require Import BookMatch MEBookRefine MEBookSpec BookProps LFQueue.

Record MatchingEngine := mkMatchingEngine {
  ticker_order_book_ : arr MEOrderBook;
  incoming_requests_ : LFQueue MEClientRequest;
  outgoing_ogw_responses_ : LFQueue MEClientResponse;
  outgoing_md_updates_ : LFQueue MEMarketUpdate
}.

(** The constructor: a fresh book for every ticker id. *)
Definition MatchingEngine_new (client_requests : LFQueue MEClientRequest)
    (client_responses : LFQueue MEClientResponse) (market_updates : LFQueue MEMarketUpdate)
  : MatchingEngine :=
  mkMatchingEngine
    (foldl (λ books i, arr_set books i (MEOrderBook_new i))
       (arr_new ME_MAX_TICKERS (MEOrderBook_new 0)) (seqZ 0 ME_MAX_TICKERS))
    client_requests client_responses market_updates.

Definition with_books (e : MatchingEngine) (books : arr MEOrderBook) : MatchingEngine :=
  mkMatchingEngine books (incoming_requests_ e) (outgoing_ogw_responses_ e)
    (outgoing_md_updates_ e).
Definition with_incoming (e : MatchingEngine) (q : LFQueue MEClientRequest) : MatchingEngine :=
  mkMatchingEngine (ticker_order_book_ e) q (outgoing_ogw_responses_ e)
    (outgoing_md_updates_ e).

Definition sendClientResponse (e : MatchingEngine) (client_response : MEClientResponse)
  : MatchingEngine :=
  mkMatchingEngine (ticker_order_book_ e) (incoming_requests_ e)
    (lfq_push (outgoing_ogw_responses_ e) client_response) (outgoing_md_updates_ e).

Definition sendMarketUpdate (e : MatchingEngine) (market_update : MEMarketUpdate)
  : MatchingEngine :=
  mkMatchingEngine (ticker_order_book_ e) (incoming_requests_ e)
    (outgoing_ogw_responses_ e) (lfq_push (outgoing_md_updates_ e) market_update).

(** A call of a book on its engine. *)
Definition send_event (e : MatchingEngine) (ev : Event) : MatchingEngine :=
  match ev with
  | SendResponse r => sendClientResponse e r
  | SendUpdate u => sendMarketUpdate e u
  end.

(** The lookup is the unchecked [operator[]]. *)
Definition processClientRequest (e : MatchingEngine) (client_request : MEClientRequest)
  : Res MatchingEngine :=
  let ticker_id := rq_ticker_id client_request in
  order_book ← arr_idx (ticker_order_book_ e) ticker_id;
  '(order_book, events) ←
    match rq_type client_request with
    | ClientRequestType.NEW =>
        add order_book [] (rq_client_id client_request) (rq_order_id client_request) ticker_id
          (rq_side client_request) (rq_price client_request) (rq_qty client_request)
    | ClientRequestType.CANCEL =>
        cancel order_book [] (rq_client_id client_request) (rq_order_id client_request)
          ticker_id
    | ClientRequestType.INVALID => FATAL
    end;
  Ok (foldl send_event
        (with_books e (arr_set (ticker_order_book_ e) ticker_id order_book)) events).

(** One turn of the loop of [run]. *)
Definition engine_step (e : MatchingEngine) : Res MatchingEngine :=
  match getNextToRead (incoming_requests_ e) with
  | None => Ok e
  | Some slot =>
      e ← processClientRequest e (read_slot (incoming_requests_ e) slot);
      q ← updateReadIndex (incoming_requests_ e);
      Ok (with_incoming e q)
  end.

Fixpoint engine_run (n : nat) (e : MatchingEngine) : Res MatchingEngine :=
  match n with
  | O => Ok e
  | S n => e ← engine_step e; engine_run n e
  end.

(** ** The engine as one reference book per ticker *)

Definition book_request (r : MEClientRequest) : option BookRequest :=
  match rq_type r with
  | ClientRequestType.NEW =>
      Some (ReqNew (rq_client_id r) (rq_order_id r) (rq_side r) (rq_price r) (rq_qty r))
  | ClientRequestType.CANCEL => Some (ReqCancel (rq_client_id r) (rq_order_id r))
  | ClientRequestType.INVALID => None
  end.

(** The requests of one instrument, as its book sees them. *)
Definition ticker_request (t : TickerId) (r : MEClientRequest) : option BookRequest :=
  if decide (rq_ticker_id r = t) then book_request r else None.
Definition ticker_requests (t : TickerId) (rs : list MEClientRequest) : list BookRequest :=
  omap (ticker_request t) rs.

Lemma ticker_requests_length t rs : (length (ticker_requests t rs) ≤ length rs)%nat.
Proof.
  unfold ticker_requests. induction rs as [|r rs IH]; [done|]. cbn [omap list_omap].
  destruct (ticker_request t r); simpl in *; unfold omap in *; lia.
Qed.

Definition ticker_ok (t : TickerId) : Prop := 0 ≤ t < ME_MAX_TICKERS.

(** The reference engine: the books, and what has been sent. *)
Record SpecEngine := mkSpecEngine {
  se_books : TickerId → SpecBook;
  se_responses : list MEClientResponse;
  se_updates : list MEMarketUpdate
}.

Definition responses (ev : list Event) : list MEClientResponse := omap response_of ev.

Definition spec_process (s : SpecEngine) (r : MEClientRequest) : SpecEngine :=
  match book_request r with
  | None => s
  | Some br =>
      let t := rq_ticker_id r in
      let '(a, ev) := spec_step t (se_books s t) br in
      mkSpecEngine (λ t', if decide (t' = t) then a else se_books s t')
        (se_responses s ++ responses ev) (se_updates s ++ updates ev)
  end.

Definition valid_engine_req (s : SpecEngine) (r : MEClientRequest) : Prop :=
  ticker_ok (rq_ticker_id r) ∧
  match book_request r with
  | Some br => valid_req (se_books s (rq_ticker_id r)) br
  | None => False
  end.
#[export] Instance valid_engine_req_dec s r : Decision (valid_engine_req s r).
Proof. unfold valid_engine_req, ticker_ok. destruct (book_request r); apply _. Defined.

(** The messages still in the outgoing queues, on top of those already consumed. *)
Record engine_rep (e : MatchingEngine) (s : SpecEngine) (reqs : list MEClientRequest) : Prop := {
  er_len : arr_len (ticker_order_book_ e) = ME_MAX_TICKERS;
  er_books : ∀ t, ticker_ok t → refines (arr_get (ticker_order_book_ e) t) (se_books s t);
  er_in : lfq_rep (incoming_requests_ e) reqs;
  er_responses : lfq_rep (outgoing_ogw_responses_ e) (se_responses s);
  er_updates : lfq_rep (outgoing_md_updates_ e) (se_updates s)
}.

Definition has_room (e : MatchingEngine) (s : SpecEngine) : Prop :=
  Z.of_nat (length (se_responses s)) ≤ lfq_cap (outgoing_ogw_responses_ e) ∧
  Z.of_nat (length (se_updates s)) ≤ lfq_cap (outgoing_md_updates_ e).

Lemma send_events_spec e evs lr lu :
  lfq_rep (outgoing_ogw_responses_ e) lr → lfq_rep (outgoing_md_updates_ e) lu →
  Z.of_nat (length (lr ++ responses evs)) ≤ lfq_cap (outgoing_ogw_responses_ e) →
  Z.of_nat (length (lu ++ updates evs)) ≤ lfq_cap (outgoing_md_updates_ e) →
  let e' := foldl send_event e evs in
  lfq_rep (outgoing_ogw_responses_ e') (lr ++ responses evs) ∧
  lfq_rep (outgoing_md_updates_ e') (lu ++ updates evs) ∧
  ticker_order_book_ e' = ticker_order_book_ e ∧ incoming_requests_ e' = incoming_requests_ e ∧
  lfq_cap (outgoing_ogw_responses_ e') = lfq_cap (outgoing_ogw_responses_ e) ∧
  lfq_cap (outgoing_md_updates_ e') = lfq_cap (outgoing_md_updates_ e).
Proof.
  revert e lr lu. induction evs as [|[r|u] evs IH]; intros e lr lu Hr Hu Hcr Hcu; simpl in *.
  - by rewrite !app_nil_r.
  - change (responses (SendResponse r :: evs)) with (r :: responses evs) in *.
    change (updates (SendResponse r :: evs)) with (updates evs) in *.
    rewrite (cons_middle r lr), app_assoc in *.
    destruct (IH (sendClientResponse e r) (lr ++ [r]) lu) as (H1 & H2 & H3 & H4 & H5 & H6);
      try done.
    simpl. apply lfq_push_rep; [done|]. rewrite !length_app in Hcr. simpl in Hcr. lia.
  - change (responses (SendUpdate u :: evs)) with (responses evs) in *.
    change (updates (SendUpdate u :: evs)) with (u :: updates evs) in *.
    rewrite (cons_middle u lu), app_assoc in *.
    destruct (IH (sendMarketUpdate e u) lr (lu ++ [u])) as (H1 & H2 & H3 & H4 & H5 & H6);
      try done.
    simpl. apply lfq_push_rep; [done|]. rewrite !length_app in Hcu. simpl in Hcu. lia.
Qed.

Lemma processClientRequest_spec e s r reqs :
  engine_rep e s reqs → valid_engine_req s r → has_room e (spec_process s r) →
  ∃ e', processClientRequest e r = Ok e' ∧ engine_rep e' (spec_process s r) reqs ∧
    incoming_requests_ e' = incoming_requests_ e ∧
    lfq_cap (outgoing_ogw_responses_ e') = lfq_cap (outgoing_ogw_responses_ e) ∧
    lfq_cap (outgoing_md_updates_ e') = lfq_cap (outgoing_md_updates_ e).
Proof.
  intros [Hlen Hbooks Hin Hresp Hupd] [Ht Hv] [Hroom1 Hroom2].
  unfold spec_process in *. destruct (book_request r) as [br|] eqn:Ebr; [|done].
  set (t := rq_ticker_id r) in *.
  destruct (book_step_spec t _ _ [] br (Hbooks t Ht) Hv) as (bk' & Hstep & Href').
  unfold processClientRequest. fold t. rewrite arr_idx_Ok by by rewrite Hlen.
  cbn [mbind Res_bind].
  assert (match rq_type r with
    | ClientRequestType.INVALID => FATAL
    | ClientRequestType.NEW => add (arr_get (ticker_order_book_ e) t) [] (rq_client_id r)
        (rq_order_id r) t (rq_side r) (rq_price r) (rq_qty r)
    | ClientRequestType.CANCEL => cancel (arr_get (ticker_order_book_ e) t) [] (rq_client_id r)
        (rq_order_id r) t
    end = book_step t (arr_get (ticker_order_book_ e) t) [] br) as ->.
  { unfold book_request in Ebr. by destruct (rq_type r); simplify_eq. }
  rewrite Hstep. cbn [mbind Res_bind app].
  destruct (spec_step t (se_books s t) br) as [a ev]. simpl in Hroom1, Hroom2, Href' |- *.
  destruct (send_events_spec (with_books e (arr_set (ticker_order_book_ e) t bk')) ev
    (se_responses s) (se_updates s)) as (H1 & H2 & H3 & H4 & H5 & H6); try done.
  eexists. split; [done|]. split_and!; [|done|done|done]. split; simpl.
  - by rewrite H3.
  - intros t' Ht'. rewrite H3. simpl. rewrite arr_get_set.
    repeat case_decide; subst; try done; by apply Hbooks.
  - by rewrite H4.
  - done.
  - done.
Qed.

(** A sequence of requests each of which is valid when its turn comes, and whose
    messages fit in outgoing queues of [c1] and [c2] elements. *)
Fixpoint valid_engine_run (c1 c2 : Z) (s : SpecEngine) (reqs : list MEClientRequest) : Prop :=
  match reqs with
  | [] => True
  | r :: reqs =>
      let s' := spec_process s r in
      valid_engine_req s r ∧ Z.of_nat (length (se_responses s')) ≤ c1 ∧
      Z.of_nat (length (se_updates s')) ≤ c2 ∧ valid_engine_run c1 c2 s' reqs
  end.
#[export] Instance valid_engine_run_dec c1 c2 s reqs : Decision (valid_engine_run c1 c2 s reqs).
Proof. revert s. induction reqs as [|r reqs IH]; intros s; simpl; apply _. Defined.

(** One turn of the loop with a request in the queue. *)
Lemma engine_step_spec e s r reqs :
  engine_rep e s (r :: reqs) → valid_engine_req s r → has_room e (spec_process s r) →
  ∃ e', engine_step e = Ok e' ∧ engine_rep e' (spec_process s r) reqs ∧
    lfq_cap (outgoing_ogw_responses_ e') = lfq_cap (outgoing_ogw_responses_ e) ∧
    lfq_cap (outgoing_md_updates_ e') = lfq_cap (outgoing_md_updates_ e) ∧
    lfq_cap (incoming_requests_ e') = lfq_cap (incoming_requests_ e).
Proof.
  intros Hrep Hr Hroom. unfold engine_step.
  pose proof (lfq_pop_rep _ _ (er_in _ _ _ Hrep)) as (q' & Hpop & Hq' & Hcap).
  unfold lfq_pop in Hpop. destruct (getNextToRead (incoming_requests_ e)) as [slot|]; [|done].
  destruct (updateReadIndex (incoming_requests_ e)) as [q|] eqn:Eq; [|done].
  cbn [mbind Res_bind] in Hpop. simplify_eq.
  destruct (processClientRequest_spec e s (read_slot (incoming_requests_ e) slot)
    (read_slot (incoming_requests_ e) slot :: reqs) Hrep) as (e1 & -> & Hrep1 & Hin1 & Hc1 & Hc2);
    [done..|].
  cbn [mbind Res_bind]. rewrite Hin1, Eq. cbn [mbind Res_bind].
  eexists. split; [reflexivity|]. split; [destruct Hrep1; by split|]. done.
Qed.

(** Draining the incoming queue: every request is taken in order, once. *)
Lemma engine_run_spec e s reqs :
  engine_rep e s reqs →
  valid_engine_run (lfq_cap (outgoing_ogw_responses_ e)) (lfq_cap (outgoing_md_updates_ e))
    s reqs →
  ∃ e', engine_run (length reqs) e = Ok e' ∧
        engine_rep e' (foldl spec_process s reqs) [].
Proof.
  revert e s. induction reqs as [|r reqs IH]; intros e s Hrep Hv; [by exists e|].
  cbn [length engine_run]. destruct Hv as (Hr & Hroom1 & Hroom2 & Hv).
  destruct (engine_step_spec e s r reqs Hrep Hr (conj Hroom1 Hroom2))
    as (e1 & -> & Hrep1 & Hc1 & Hc2 & _).
  cbn [mbind Res_bind]. apply IH; [done|]. by rewrite Hc1, Hc2.
Qed.

(** A new engine holds empty books. *)
Definition SpecEngine_new : SpecEngine := mkSpecEngine (λ _, SpecBook_new) [] [].

Lemma MatchingEngine_new_rep cap2 cap3 reqs qin :
  0 < cap2 < 2 ^ 63 → 0 < cap3 < 2 ^ 63 → lfq_rep qin reqs →
  engine_rep (MatchingEngine_new qin (LFQueue_new cap2 MEClientResponse_default)
                (LFQueue_new cap3 MEMarketUpdate_default)) SpecEngine_new reqs.
Proof.
  intros H2 H3 Hin. split; [done| |done|by apply LFQueue_new_rep|by apply LFQueue_new_rep].
  intros t Ht. unfold MatchingEngine_new. cbn [ticker_order_book_ se_books SpecEngine_new].
  assert (∀ l books, (∀ t, t ∈ l → ticker_ok t) →
    (∀ t, refines (arr_get books t) SpecBook_new) →
    ∀ t, refines (arr_get (foldl (λ books i, arr_set books i (MEOrderBook_new i)) books l) t)
           SpecBook_new) as Hfold.
  { induction l as [|i l IH]; intros books Hl Hb t'; simpl; [done|]. apply IH.
    - intros j Hj. apply Hl. by right.
    - intros j. rewrite arr_get_set. case_decide; [apply MEOrderBook_new_refines|done]. }
  apply Hfold.
  - intros j Hj%elem_of_seqZ. unfold ticker_ok. lia.
  - intros j. rewrite arr_get_new. apply MEOrderBook_new_refines.
Qed.

(** ** Theorems *)

(** C22: The matching thread: it takes every queued request in order and exactly once,
    applies it to the book of its ticker and to no other, and leaves in the two outgoing
    queues, in order, exactly the responses and the market updates that the reference
    books send, as long as they fit. *)
Theorem engine_drains e s reqs :
  engine_rep e s reqs →
  valid_engine_run (lfq_cap (outgoing_ogw_responses_ e)) (lfq_cap (outgoing_md_updates_ e))
    s reqs →
  ∃ e', engine_run (length reqs) e = Ok e' ∧ engine_rep e' (foldl spec_process s reqs) [].
Proof. apply engine_run_spec. Qed.

(** Two instruments, interleaved; and one execution. *)
Definition engine_demo : list MEClientRequest :=
  [mkMEClientRequest ClientRequestType.NEW 1 0 10 Side.SELL 101 5;
   mkMEClientRequest ClientRequestType.NEW 1 7 11 Side.SELL 101 5;
   mkMEClientRequest ClientRequestType.NEW 2 0 20 Side.BUY 102 3;
   mkMEClientRequest ClientRequestType.CANCEL 1 7 11 Side.INVALID 0 0].
Definition engine_demo_start : MatchingEngine :=
  MatchingEngine_new (lfq_push_all (LFQueue_new 8 MEClientRequest_default) engine_demo)
    (LFQueue_new 16 MEClientResponse_default) (LFQueue_new 16 MEMarketUpdate_default).

Lemma engine_drains_witness :
  ∃ e', engine_run 4 engine_demo_start = Ok e' ∧
        engine_rep e' (foldl spec_process SpecEngine_new engine_demo) [].
Proof.
  apply (engine_drains engine_demo_start SpecEngine_new engine_demo).
  - apply MatchingEngine_new_rep; [lia|lia|].
    apply (lfq_push_all_rep (LFQueue_new 8 MEClientRequest_default) [] engine_demo);
      [apply LFQueue_new_rep; lia|by vm_compute].
  - apply (bool_decide_unpack _). by vm_compute.
Defined.

(** The requests the engine does not survive: an INVALID request type ends the process
    ([FATAL]) even for a good ticker, and a ticker id outside the array of books is used
    as an index without a check. *)
Theorem engine_bad_requests e s reqs r :
  engine_rep e s reqs →
  (ticker_ok (rq_ticker_id r) → rq_type r = ClientRequestType.INVALID →
   processClientRequest e r = Err FatalExit) ∧
  (ME_MAX_TICKERS ≤ rq_ticker_id r → processClientRequest e r = Err BadIndex).
Proof.
  intros [Hlen _ _ _ _]. unfold processClientRequest. split.
  - intros Ht E. rewrite arr_idx_Ok by by rewrite Hlen. cbn [mbind Res_bind]. by rewrite E.
  - intros Ht. unfold arr_idx. destruct (arr_in _ _) eqn:E; [|done].
    apply arr_in_spec in E. lia.
Qed.

Lemma engine_bad_requests_witness :
  processClientRequest engine_demo_start MEClientRequest_default = Err BadIndex.
Proof.
  apply (engine_bad_requests engine_demo_start SpecEngine_new engine_demo); [|by vm_compute].
  apply MatchingEngine_new_rep; [lia|lia|].
  apply (lfq_push_all_rep (LFQueue_new 8 MEClientRequest_default) [] engine_demo);
    [apply LFQueue_new_rep; lia|by vm_compute].
Defined.
