(* ===== verification/RandomClient.v ===== *)
(** * RandomClient: the random trading program against the exchange

    The RANDOM branch of [main] in [trading/trading_main.cpp].  The results of [rand()] are
    a stream, and so is what [silentSeconds] says at the end of each turn, where the loop ends
    early if the engine has been silent for a minute. *)
From S2P Require Import Prelude Types BookInv MEOrderBook BookSpec BookMatch MEBookRefine MEBookSpec.
From S2P Require Import BookProps Sessions LFQueue MatchingEngine MarketOrderBook MarketBookSpec.
From S2P Require Import MarketBBO FeedMirror.

Definition RAND_MAX : Z := 2 ^ 31 - 1.

Section Program.
Context (client_id : ClientId) (rand silent : nat → Z).

(** [ticker_base_price]: the first eight results. *)
Definition ticker_base_price : arr Price :=
  foldl (λ a i, arr_set a (Z.of_nat i) (Z.rem (rand i) 100 + 100)) (arr_new ME_MAX_TICKERS 0)
    (seq 0 8).

(** The NEW request of turn [i], from its first four results. *)
Definition random_new (i : nat) (order_id : OrderId) : Res MEClientRequest :=
  let k := (8 + 5 * i)%nat in
  let ticker_id := u64 (rand k) mod ME_MAX_TICKERS in
  base ← arr_idx ticker_base_price ticker_id;
  let price := base + Z.rem (rand (k + 1)%nat) 10 + 1 in
  let qty := 1 + Z.rem (rand (k + 2)%nat) 100 + 1 in
  let side := if Z.rem (rand (k + 3)%nat) 2 =? 0 then Side.SELL else Side.BUY in
  Ok (mkMEClientRequest ClientRequestType.NEW client_id ticker_id order_id side price qty).

Definition as_cancel (r : MEClientRequest) : MEClientRequest :=
  mkMEClientRequest ClientRequestType.CANCEL (rq_client_id r) (rq_ticker_id r) (rq_order_id r)
    (rq_side r) (rq_price r) (rq_qty r).

(** The loop, from turn [i] on: the requests it sends. *)
Fixpoint random_loop (n i : nat) (order_id : OrderId) (vec : list MEClientRequest)
  : Res (list MEClientRequest) :=
  match n with
  | O => Ok []
  | S n =>
      new_request ← random_new i order_id;
      let vec := vec ++ [new_request] in
      let cxl_index := u64 (rand (8 + 5 * i + 4)%nat) mod Z.of_nat (length vec) in
      chosen ← of_option BadIndex (vec !! Z.to_nat cxl_index);
      sent ← (if 60 <=? silent i then Ok [] else random_loop n (S i) (u64 (order_id + 1)) vec);
      Ok (new_request :: as_cancel chosen :: sent)
  end.

(** [client_id * 1000] is a product of 32-bit unsigned numbers. *)
Definition random_turns : nat := Z.to_nat 10000.
Definition random_session : Res (list MEClientRequest) :=
  random_loop random_turns 0 (u32 (client_id * 1000)) [].
End Program.

(** ** What it sends *)
Definition rand_ok (rand : nat → Z) : Prop := ∀ k, 0 ≤ rand k ≤ RAND_MAX.

(** Requests of a client, with order ids from [lo] on and below [hi]. *)
Definition random_request (c : ClientId) (lo hi : Z) (r : MEClientRequest) : Prop :=
  rq_client_id r = c ∧ 0 ≤ rq_ticker_id r < ME_MAX_TICKERS ∧ lo ≤ rq_order_id r < hi ∧
  tradable (rq_side r) ∧ 0 ≤ rq_qty r < 2 ^ 32 ∧ 101 ≤ rq_price r ≤ 209 ∧
  rq_type r ≠ ClientRequestType.INVALID.

Lemma base_price_get rand t :
  0 ≤ t < ME_MAX_TICKERS →
  arr_idx (ticker_base_price rand) t = Ok (Z.rem (rand (Z.to_nat t)) 100 + 100).
Proof.
  intros Ht. rewrite arr_idx_Ok by done. f_equal. unfold ME_MAX_TICKERS in Ht.
  assert (t = 0 ∨ t = 1 ∨ t = 2 ∨ t = 3 ∨ t = 4 ∨ t = 5 ∨ t = 6 ∨ t = 7) as Hcases by lia.
  destruct Hcases as [->|[->|[->|[->|[->|[->|[->| ->]]]]]]]; reflexivity.
Qed.

Lemma random_new_ok c rand i oid lo hi :
  rand_ok rand → lo ≤ oid < hi →
  ∃ r, random_new c rand i oid = Ok r ∧ random_request c lo hi r ∧
    rq_type r = ClientRequestType.NEW ∧ rq_order_id r = oid.
Proof.
  intros Hr Hoid. unfold random_new. pose proof (Hr (8 + 5 * i)%nat) as H0. unfold RAND_MAX in H0.
  rewrite (u64_id (rand _)) by lia.
  set (t := rand (8 + 5 * i)%nat mod ME_MAX_TICKERS).
  assert (0 ≤ t < ME_MAX_TICKERS) as Ht by (apply Z.mod_pos_bound; reflexivity).
  rewrite base_price_get by done. cbn [mbind Res_bind].
  eexists. split; [reflexivity|]. split; [|done].
  pose proof (Z.rem_bound_pos_pos (rand (Z.to_nat t)) 100 ltac:(lia) (proj1 (Hr _))).
  pose proof (Z.rem_bound_pos_pos (rand (8 + 5 * i + 1)%nat) 10 ltac:(lia) (proj1 (Hr _))).
  pose proof (Z.rem_bound_pos_pos (rand (8 + 5 * i + 2)%nat) 100 ltac:(lia) (proj1 (Hr _))).
  unfold random_request. cbn [rq_client_id rq_ticker_id rq_order_id rq_side rq_qty rq_price rq_type].
  split; [done|]. split; [done|]. split; [done|].
  split; [destruct (_ =? 0); [by right|by left]|]. split; [lia|]. split; [lia|done].
Qed.

(** The ids of the NEW requests, in order. *)
Definition new_id (r : MEClientRequest) : option (ClientId * OrderId) :=
  match rq_type r with
  | ClientRequestType.NEW => Some (rq_client_id r, rq_order_id r)
  | _ => None
  end.

(** The loop sends two requests in each of its turns, of which there are at most [n]. *)
Lemma random_loop_ok c rand silent n i oid lo hi vec :
  rand_ok rand → 0 ≤ lo ≤ oid → oid + Z.of_nat n ≤ hi → hi < 2 ^ 64 →
  Forall (random_request c lo hi) vec →
  ∃ sent turns, random_loop c rand silent n i oid vec = Ok sent ∧ (turns ≤ n)%nat ∧
    Forall (random_request c lo hi) sent ∧
    omap new_id sent = (λ k, (c, k)) <$> seqZ oid (Z.of_nat turns) ∧ length sent = (2 * turns)%nat.
Proof.
  intros Hr. revert i oid vec. induction n as [|n IH]; intros i oid vec Hlo Hhi Hb Hvec.
  { exists [], 0%nat. by split_and!. }
  cbn [random_loop].
  destruct (random_new_ok c rand i oid lo hi Hr) as (r & -> & Hreq & Hty & Hid); [lia|].
  cbn [mbind Res_bind].
  assert (Forall (random_request c lo hi) (vec ++ [r])) as Hvec' by by apply Forall_app; auto.
  destruct (lookup_lt_is_Some_2 (vec ++ [r])
    (Z.to_nat (u64 (rand (8 + 5 * i + 4)%nat) mod Z.of_nat (length (vec ++ [r]))))) as [x Hx].
  { assert (0 < Z.of_nat (length (vec ++ [r]))) as Hpos by (rewrite length_app; simpl; lia).
    pose proof (Z.mod_pos_bound (u64 (rand (8 + 5 * i + 4)%nat)) _ Hpos). lia. }
  rewrite Hx. cbn [of_option mbind Res_bind].
  assert (∃ sent turns, (if 60 <=? silent i then Ok []
      else random_loop c rand silent n (S i) (u64 (oid + 1)) (vec ++ [r])) = Ok sent ∧ (turns ≤ n)%nat ∧
    Forall (random_request c lo hi) sent ∧
    omap new_id sent = (λ k, (c, k)) <$> seqZ (u64 (oid + 1)) (Z.of_nat turns) ∧
    length sent = (2 * turns)%nat) as (sent & turns & -> & Hturns & Hsent & Hids & Hlen).
  { case_match; [exists [], 0%nat; split_and!; try done; lia|]. apply IH; [rewrite u64_id; lia..|lia|done]. }
  cbn [mbind Res_bind]. eexists _, (S turns). split; [reflexivity|]. split; [lia|].
  pose proof (proj1 (Forall_lookup _ _) Hvec' _ _ Hx) as (H1 & H2 & H3 & H4 & H5 & H6 & _).
  split; [|split].
  - constructor; [done|]. constructor; [|done].
    unfold random_request, as_cancel.
    cbn [rq_client_id rq_ticker_id rq_order_id rq_side rq_qty rq_price rq_type].
    by refine (conj H1 (conj H2 (conj H3 (conj H4 (conj H5 (conj H6 _)))))).
  - cbn [omap list_omap]. unfold new_id at 1 2. rewrite Hty. cbn [as_cancel rq_type].
    change (list_omap _ _ new_id sent) with (omap new_id sent). rewrite Hids, u64_id by lia.
    rewrite Nat2Z.inj_succ, (seqZ_cons oid) by lia. rewrite Z.pred_succ. cbn [fmap list_fmap].
    destruct Hreq as [-> _]. by rewrite Hid, Z.add_1_r.
  - simpl. lia.
Qed.

Lemma random_session_ok c rand silent :
  rand_ok rand → client_ok c →
  ∃ sent turns, random_session c rand silent = Ok sent ∧ (turns ≤ random_turns)%nat ∧
    Forall (random_request c 0 ME_MAX_ORDER_IDS) sent ∧
    omap new_id sent = (λ k, (c, k)) <$> seqZ (c * 1000) (Z.of_nat turns) ∧
    length sent = (2 * turns)%nat.
Proof.
  unfold client_ok, ME_MAX_NUM_CLIENTS, ME_MAX_ORDER_IDS. intros Hr Hc.
  unfold random_session. rewrite u32_id by lia.
  apply (random_loop_ok c rand silent random_turns 0 (c * 1000) 0 (1024 * 1024) []); try done;
    unfold random_turns; rewrite ?Z2Nat.id; lia.
Qed.

(** ** Several clients at one exchange *)
Record RandomClient := mkRandomClient {
  rc_id : ClientId;
  rc_rand : nat → Z;
  rc_silent : nat → Z
}.
Definition rc_ok (c : RandomClient) : Prop :=
  client_ok (rc_id c) ∧ rand_ok (rc_rand c).

(** The requests of each client, in the order of the list. *)
Fixpoint all_sessions (cs : list RandomClient) : Res (list MEClientRequest) :=
  match cs with
  | [] => Ok []
  | c :: cs =>
      s ← random_session (rc_id c) (rc_rand c) (rc_silent c);
      l ← all_sessions cs;
      Ok (s ++ l)
  end.

Lemma all_sessions_ok cs :
  Forall rc_ok cs → NoDup (rc_id <$> cs) →
  ∃ sent, all_sessions cs = Ok sent ∧
    Forall (λ r, random_request (rq_client_id r) 0 ME_MAX_ORDER_IDS r ∧
                 rq_client_id r ∈ (rc_id <$> cs)) sent ∧
    NoDup (omap new_id sent).
Proof.
  induction cs as [|c cs IH]; intros Hok Hnd; [by exists []; repeat constructor|].
  apply Forall_cons in Hok as [(Hc & Hr) Hok]. apply NoDup_cons in Hnd as [Hnin Hnd].
  destruct (random_session_ok (rc_id c) (rc_rand c) (rc_silent c) Hr Hc)
    as (s & turns & Hs & _ & Hall & Hids & _).
  destruct (IH Hok Hnd) as (l & Hl & Hall' & Hids').
  cbn [all_sessions]. rewrite Hs, Hl. cbn [mbind Res_bind]. eexists. split; [reflexivity|].
  split.
  - apply Forall_app. split.
    + eapply Forall_impl; [exact Hall|]. intros r Hreq. pose proof Hreq as [E _].
      cbn [fmap list_fmap]. rewrite E. split; [done|by left].
    + eapply Forall_impl; [exact Hall'|]. intros r [Hreq Hin]. split; [done|by right].
  - rewrite omap_app, Hids. apply NoDup_app. split; [|split; [|done]].
    + apply NoDup_fmap_2; [by intros x y [= ->]|apply NoDup_seqZ].
    + intros x (k & -> & _)%list_elem_of_fmap (r & Hin & Hx)%list_elem_of_omap.
      apply Hnin. rewrite Forall_forall in Hall'. destruct (Hall' r Hin) as [_ Hid].
      unfold new_id in Hx. destruct (rq_type r); try done. injection Hx as <- _. exact Hid.
Qed.

Lemma ticker_keys t rs : new_keys (ticker_requests t rs) `sublist_of` omap new_id rs.
Proof.
  unfold new_keys, ticker_requests. induction rs as [|r rs IH]; [done|].
  cbn [omap list_omap]. unfold ticker_request at 1, new_id at 1, book_request.
  case_decide; [|destruct (rq_type r); [done|by constructor|done]].
  destruct (rq_type r); [done|by constructor|done].
Qed.

Lemma ticker_requests_ok t rs cs :
  Forall rc_ok cs →
  Forall (λ r, random_request (rq_client_id r) 0 ME_MAX_ORDER_IDS r ∧
               rq_client_id r ∈ (rc_id <$> cs)) rs →
  Forall (request_ok 101 209) (ticker_requests t rs).
Proof.
  intros Hcs Hall. apply Forall_forall. intros b (r & Hin & Hb)%list_elem_of_omap.
  rewrite Forall_forall in Hall. destruct (Hall r Hin) as [(_ & _ & Hoid & Hs & Hq & Hp & Hty) Hid].
  apply list_elem_of_fmap in Hid as (c & Hc & Hcin).
  rewrite Forall_forall in Hcs. destruct (Hcs c Hcin) as [Hcok _]. rewrite <-Hc in Hcok.
  unfold ticker_request in Hb. case_decide; [|done]. unfold book_request in Hb.
  destruct (rq_type r); [done|..]; injection Hb as <-.
  - exact (conj Hs (conj Hcok (conj Hoid (conj Hq Hp)))).
  - exact (conj (proj1 Hcok) Hoid).
Qed.

(** Whatever the interleaving, each instrument gets a tame session. *)
Lemma random_tame cs sent rs t :
  Forall rc_ok cs → NoDup (rc_id <$> cs) → all_sessions cs = Ok sent → rs ≡ₚ sent →
  Z.of_nat (length rs) + 2 ≤ ME_MAX_ORDER_IDS → tame 101 209 (ticker_requests t rs).
Proof.
  intros Hcs Hnd Hsent Hperm Hlen.
  destruct (all_sessions_ok cs Hcs Hnd) as (sent' & Hs' & Hall & Hids).
  rewrite Hsent in Hs'. injection Hs' as <-. rewrite <-Hperm in Hall, Hids.
  pose proof (sublist_submseteq _ _ (ticker_keys t rs)) as Hsub.
  split.
  - unfold band. lia.
  - by apply (ticker_requests_ok t rs cs).
  - by eapply submseteq_NoDup.
  - assert (length (new_keys (ticker_requests t rs)) ≤ length rs)%nat; [|lia].
    transitivity (length (ticker_requests t rs)); [|apply ticker_requests_length].
    unfold new_keys. clear. induction (ticker_requests t rs) as [|b l IH]; [done|].
    cbn [omap list_omap]. destruct (new_key b); simpl in *; unfold omap in *; lia.
Qed.

(** ** Theorems *)

(** C20: Random clients cannot break the exchange: let up to 52 RANDOM programs with different
    client ids below 256 run their ten thousand turns, with any results of [rand()], or stop
    early at any turn, and let
    their requests reach the exchange in any order at all, even within a client.  Then every
    instrument's book takes its requests without a fault and ends uncrossed and with positive
    quantities, and a trading client that plays the updates ends with the same book. *)
Theorem random_clients_safe cs sent rs t :
  Forall rc_ok cs → NoDup (rc_id <$> cs) → all_sessions cs = Ok sent → rs ≡ₚ sent →
  Z.of_nat (length rs) + 2 ≤ ME_MAX_ORDER_IDS →
  ∃ bk ev a mbk,
    book_run t (MEOrderBook_new t) [] (ticker_requests t rs) = Ok (bk, ev) ∧
    refines bk a ∧ uncrossed a ∧ positive a ∧
    onMarketUpdates (MarketOrderBook_new t) (updates ev) = Ok (mbk, call_of <$> updates ev) ∧
    mk_refines mbk (proj_book a).
Proof.
  intros Hcs Hnd Hsent Hperm Hlen.
  pose proof (tame_valid 101 209 t _ (random_tame cs sent rs t Hcs Hnd Hsent Hperm Hlen)) as Hv.
  destruct (feed_mirrors t _ Hv) as (bk & ev & a & mbk & H1 & H2 & [H3 H4] & H5 & H6).
  - pose proof (ticker_requests_length t rs). lia.
  - by exists bk, ev, a, mbk.
Qed.

(** Two clients, silent after three turns. *)
Definition demo_rand (seed : Z) (k : nat) : Z := (seed * (Z.of_nat k + 3) * 7919) mod (2 ^ 31).
Definition demo_clients : list RandomClient :=
  [mkRandomClient 1 (demo_rand 12345) (λ i, if (i <? 2)%nat then 0 else 60);
   mkRandomClient 2 (demo_rand 777) (λ i, if (i <? 2)%nat then 0 else 61)].

Lemma random_clients_safe_witness :
  ∃ sent bk ev a, all_sessions demo_clients = Ok sent ∧ length sent = 12%nat ∧
    book_run 3 (MEOrderBook_new 3) [] (ticker_requests 3 sent) = Ok (bk, ev) ∧ refines bk a ∧
    uncrossed a.
Proof.
  assert (∃ sent, all_sessions demo_clients = Ok sent ∧ length sent = 12%nat) as (sent & Hs & Hl).
  { eexists. split; vm_compute; reflexivity. }
  destruct (random_clients_safe demo_clients sent sent 3) as (bk & ev & a & mbk & H1 & H2 & H3 & _).
  - assert (∀ z, rand_ok (demo_rand z)) as Hrand.
    { intros z k. unfold demo_rand, RAND_MAX.
      pose proof (Z.mod_pos_bound (z * (Z.of_nat k + 3) * 7919) (2 ^ 31) eq_refl). lia. }
    unfold demo_clients, rc_ok. rewrite !Forall_cons. cbn [rc_id rc_rand].
    split_and!; try apply Hrand; try (by constructor); by vm_compute.
  - apply (bool_decide_unpack _). by vm_compute.
  - exact Hs.
  - reflexivity.
  - rewrite Hl. by vm_compute.
  - exists sent, bk, ev, a. split; [exact Hs|]. split; [exact Hl|]. split; [exact H1|].
    split; [exact H2|exact H3].
Defined.
