(* ===== verification/SnapshotSynthesizer.v ===== *)
(** * SnapshotSynthesizer: the live orders of every instrument, published as snapshots

    [exchange/market_data/snapshot_synthesizer.h] and [snapshot_synthesizer.cpp].  The
    datagrams that [sendAndRecv] handed to the kernel are kept in [ss_sent]; the snapshot
    socket is not listening and receives nothing. *)
From S2P Require Import Prelude Types MemPool Wire Sockets LFQueue.

Record SnapshotSynthesizer := mkSnapshotSynthesizer {
  ss_snapshot_md_updates_ : LFQueue MDPMarketUpdate;
  snapshot_socket_ : Socket;
  ss_sent : list bytes;
  ticker_orders_ : arr (arr (option ptr));
  last_inc_seq_num_ : Z;
  last_snapshot_time_ : Nanos;
  ss_order_pool_ : MemPool MEMarketUpdate
}.

Definition SnapshotSynthesizer_new (market_updates : LFQueue MDPMarketUpdate)
  : SnapshotSynthesizer :=
  mkSnapshotSynthesizer market_updates (Socket_new (-1)) []
    (arr_new ME_MAX_TICKERS (arr_new ME_MAX_ORDER_IDS None)) 0 0
    (MemPool_new ME_MAX_ORDER_IDS MEMarketUpdate_default).

Definition ss_with_orders (ss : SnapshotSynthesizer) (orders : arr (arr (option ptr)))
    (pool : MemPool MEMarketUpdate) : SnapshotSynthesizer :=
  mkSnapshotSynthesizer (ss_snapshot_md_updates_ ss) (snapshot_socket_ ss) (ss_sent ss) orders
    (last_inc_seq_num_ ss) (last_snapshot_time_ ss) pool.
Definition ss_with_seq (ss : SnapshotSynthesizer) (n : Z) : SnapshotSynthesizer :=
  mkSnapshotSynthesizer (ss_snapshot_md_updates_ ss) (snapshot_socket_ ss) (ss_sent ss)
    (ticker_orders_ ss) n (last_snapshot_time_ ss) (ss_order_pool_ ss).
Definition ss_with_socket (ss : SnapshotSynthesizer) (s : Socket) (sent : list bytes)
  : SnapshotSynthesizer :=
  mkSnapshotSynthesizer (ss_snapshot_md_updates_ ss) s sent (ticker_orders_ ss)
    (last_inc_seq_num_ ss) (last_snapshot_time_ ss) (ss_order_pool_ ss).
Definition ss_with_queue (ss : SnapshotSynthesizer) (q : LFQueue MDPMarketUpdate)
  : SnapshotSynthesizer :=
  mkSnapshotSynthesizer q (snapshot_socket_ ss) (ss_sent ss) (ticker_orders_ ss)
    (last_inc_seq_num_ ss) (last_snapshot_time_ ss) (ss_order_pool_ ss).
Definition ss_with_time (ss : SnapshotSynthesizer) (t : Nanos) : SnapshotSynthesizer :=
  mkSnapshotSynthesizer (ss_snapshot_md_updates_ ss) (snapshot_socket_ ss) (ss_sent ss)
    (ticker_orders_ ss) (last_inc_seq_num_ ss) t (ss_order_pool_ ss).

(** [order->qty_ = ...; order->price_ = ...]. *)
Definition mu_set_qty_price (q : Qty) (p : Price) (u : MEMarketUpdate) : MEMarketUpdate :=
  mkMEMarketUpdate (mu_type u) (mu_order_id u) (mu_ticker_id u) (mu_side u) p q (mu_priority u).

(** The order an update names, with the checks of MODIFY and CANCEL. *)
Definition existing_order (ss : SnapshotSynthesizer) (orders : arr (option ptr))
    (u : MEMarketUpdate) : Res ptr :=
  order ← arr_at orders (mu_order_id u);
  _ ← ASSERT (negb (bool_decide (order = None)));
  p ← deref order;
  _ ← ASSERT (mu_order_id (pool_get (ss_order_pool_ ss) p) =? mu_order_id u);
  _ ← ASSERT (bool_decide (mu_side (pool_get (ss_order_pool_ ss) p) = mu_side u));
  Ok p.

(** The [switch] of [addToSnapshot]. *)
Definition snapshot_switch (ss : SnapshotSynthesizer) (u : MEMarketUpdate)
  : Res SnapshotSynthesizer :=
  orders ← arr_at (ticker_orders_ ss) (mu_ticker_id u);
  match mu_type u with
  | MarketUpdateType.ADD =>
      order ← arr_at orders (mu_order_id u);
      _ ← ASSERT (bool_decide (order = None));
      '(p, pool) ← allocate (ss_order_pool_ ss) u;
      orders ← arr_at_set orders (mu_order_id u) (Some p);
      Ok (ss_with_orders ss (arr_set (ticker_orders_ ss) (mu_ticker_id u) orders) pool)
  | MarketUpdateType.MODIFY =>
      p ← existing_order ss orders u;
      Ok (ss_with_orders ss (ticker_orders_ ss)
            (pool_upd (ss_order_pool_ ss) p (mu_set_qty_price (mu_qty u) (mu_price u))))
  | MarketUpdateType.CANCEL =>
      p ← existing_order ss orders u;
      pool ← deallocate (ss_order_pool_ ss) p;
      orders ← arr_at_set orders (mu_order_id u) None;
      Ok (ss_with_orders ss (arr_set (ticker_orders_ ss) (mu_ticker_id u) orders) pool)
  | _ => Ok ss
  end.

(** Process an incremental update: the sequence number is checked after the change. *)
Definition addToSnapshot (ss : SnapshotSynthesizer) (market_update : MDPMarketUpdate)
  : Res SnapshotSynthesizer :=
  ss ← snapshot_switch ss (mdp_update market_update);
  _ ← ASSERT (mdp_seq_num market_update =? u64 (last_inc_seq_num_ ss + 1));
  Ok (ss_with_seq ss (mdp_seq_num market_update)).

(** ** Publishing *)
Definition snapshot_send (ss : SnapshotSynthesizer) (m : MDPMarketUpdate)
  : Res SnapshotSynthesizer :=
  s ← mcast_send (snapshot_socket_ ss) (c_enc m);
  Ok (ss_with_socket ss s (ss_sent ss)).

(** The sending half of [snapshot_socket_.sendAndRecv()]. *)
Definition snapshot_sendAndRecv (ss : SnapshotSynthesizer) : SnapshotSynthesizer :=
  let s := snapshot_socket_ ss in
  if next_send_valid_index_ s >? 0
  then ss_with_socket ss (with_outbound s []) (ss_sent ss ++ [outbound_data_ s])
  else ss.

Definition bare_update (t : MarketUpdateType.t) (order_id : OrderId) (ticker_id : TickerId)
  : MEMarketUpdate :=
  mkMEMarketUpdate t order_id ticker_id Side.INVALID Price_INVALID Qty_INVALID Priority_INVALID.
Definition marker (t : MarketUpdateType.t) (last : Z) : MEMarketUpdate :=
  bare_update t last TickerId_INVALID.
Definition clear_message (ticker_id : TickerId) : MEMarketUpdate :=
  bare_update MarketUpdateType.CLEAR OrderId_INVALID ticker_id.

(** [for (const auto order : orders) if (order) ...], the counter being [snapshot_size]. *)
Definition publish_order (pool : MemPool MEMarketUpdate) (orders : arr (option ptr)) (i : Z)
    (st : Z * SnapshotSynthesizer) : Res (Z * SnapshotSynthesizer) :=
  let '(n, ss) := st in
  match arr_get orders i with
  | None => Ok (n, ss)
  | Some p =>
      ss ← snapshot_send ss (mkMDPMarketUpdate n (pool_get pool p));
      Ok (u64 (n + 1), snapshot_sendAndRecv ss)
  end.

Definition publish_ticker (ticker_id : TickerId) (st : Z * SnapshotSynthesizer)
  : Res (Z * SnapshotSynthesizer) :=
  let '(n, ss) := st in
  orders ← arr_at (ticker_orders_ ss) ticker_id;
  ss ← snapshot_send ss (mkMDPMarketUpdate n (clear_message ticker_id));
  for_range (publish_order (ss_order_pool_ ss) orders) (arr_len orders) (u64 (n + 1), ss).

Definition publishSnapshot (ss : SnapshotSynthesizer) : Res SnapshotSynthesizer :=
  ss ← snapshot_send ss
    (mkMDPMarketUpdate 0 (marker MarketUpdateType.SNAPSHOT_START (last_inc_seq_num_ ss)));
  '(n, ss) ← for_range publish_ticker (arr_len (ticker_orders_ ss)) (1, ss);
  ss ← snapshot_send ss
    (mkMDPMarketUpdate n (marker MarketUpdateType.SNAPSHOT_END (last_inc_seq_num_ ss)));
  Ok (snapshot_sendAndRecv ss).

(** ** The thread *)
Definition NANOS_TO_SECS : Z := 1000000000.

(** The loop over the queue. *)
Fixpoint drain_updates (fuel : nat) (ss : SnapshotSynthesizer) : Res SnapshotSynthesizer :=
  match getNextToRead (ss_snapshot_md_updates_ ss), fuel with
  | None, _ => Ok ss
  | Some _, O => Err OutOfFuel
  | Some slot, S fuel =>
      ss ← addToSnapshot ss (read_slot (ss_snapshot_md_updates_ ss) slot);
      q ← updateReadIndex (ss_snapshot_md_updates_ ss);
      drain_updates fuel (ss_with_queue ss q)
  end.

(** One turn of [run]; [now] and [now'] are the two readings of the clock. *)
Definition synthesizer_turn (fuel : nat) (now now' : Nanos) (ss : SnapshotSynthesizer)
  : Res SnapshotSynthesizer :=
  ss ← drain_updates fuel ss;
  if now - last_snapshot_time_ ss >? 60 * NANOS_TO_SECS
  then publishSnapshot (ss_with_time ss now')
  else Ok ss.

(** ** What the synthesizer promises *)
Abbreviation Snapshot := (gmap (TickerId * OrderId) MEMarketUpdate) (only parsing).

Definition snap_key (u : MEMarketUpdate) : TickerId * OrderId := (mu_ticker_id u, mu_order_id u).
Definition snap_apply (S : Snapshot) (u : MEMarketUpdate) : Snapshot :=
  match mu_type u with
  | MarketUpdateType.ADD => <[snap_key u := u]> S
  | MarketUpdateType.MODIFY => alter (mu_set_qty_price (mu_qty u) (mu_price u)) (snap_key u) S
  | MarketUpdateType.CANCEL => delete (snap_key u) S
  | _ => S
  end.

Definition key_ok (k : TickerId * OrderId) : Prop :=
  0 ≤ k.1 < ME_MAX_TICKERS ∧ 0 ≤ k.2 < ME_MAX_ORDER_IDS.
#[export] Instance key_ok_dec k : Decision (key_ok k).
Proof. unfold key_ok. apply _. Defined.

Definition snap_valid (S : Snapshot) (u : MEMarketUpdate) : Prop :=
  match mu_type u with
  | MarketUpdateType.ADD =>
      key_ok (snap_key u) ∧ S !! snap_key u = None ∧
      Z.of_nat (size S) + 2 ≤ ME_MAX_ORDER_IDS
  | MarketUpdateType.MODIFY | MarketUpdateType.CANCEL =>
      Some (mu_side u) = mu_side <$> (S !! snap_key u)
  | _ => 0 ≤ mu_ticker_id u < ME_MAX_TICKERS
  end.
#[export] Instance snap_valid_dec S u : Decision (snap_valid S u).
Proof. unfold snap_valid. destruct (mu_type u); apply _. Defined.

(** Every order of the snapshot is kept as the ADD that introduced it. *)
Definition snap_wf (S : Snapshot) : Prop :=
  ∀ k u, S !! k = Some u → snap_key u = k ∧ mu_type u = MarketUpdateType.ADD.

Record ss_rep (ss : SnapshotSynthesizer) (P : gmap (TickerId * OrderId) ptr) (S : Snapshot)
  : Prop := {
  sr_len : arr_len (ticker_orders_ ss) = ME_MAX_TICKERS;
  sr_lens : ∀ t, 0 ≤ t < ME_MAX_TICKERS →
    arr_len (arr_get (ticker_orders_ ss) t) = ME_MAX_ORDER_IDS;
  sr_ptrs : ∀ t i, key_ok (t, i) → arr_get (arr_get (ticker_orders_ ss) t) i = P !! (t, i);
  sr_keys : ∀ k, is_Some (P !! k) → key_ok k;
  sr_size : pool_size (ss_order_pool_ ss) = ME_MAX_ORDER_IDS;
  sr_pool : pool_rep (ss_order_pool_ ss) (map_to_list P).*2;
  sr_snap : S = pool_get (ss_order_pool_ ss) <$> P;
  sr_wf : snap_wf S
}.
Definition synthesizes (ss : SnapshotSynthesizer) (S : Snapshot) : Prop := ∃ P, ss_rep ss P S.

Lemma SnapshotSynthesizer_new_rep q : synthesizes (SnapshotSynthesizer_new q) ∅.
Proof.
  exists ∅. split.
  - done.
  - intros t _. cbn [SnapshotSynthesizer_new ticker_orders_]. by rewrite arr_get_new.
  - intros t i _. cbn [SnapshotSynthesizer_new ticker_orders_].
    by rewrite !arr_get_new, lookup_empty.
  - intros k [? H]. by rewrite lookup_empty in H.
  - done.
  - rewrite map_to_list_empty. apply MemPool_new_rep. unfold ME_MAX_ORDER_IDS. lia.
  - by rewrite fmap_empty.
  - intros k u H. by rewrite lookup_empty in H.
Qed.

Section Rep.
Context {ss : SnapshotSynthesizer} {P : gmap (TickerId * OrderId) ptr} {S : Snapshot}.
Context (Hrep : ss_rep ss P S).

Lemma sr_inj k k' p : P !! k = Some p → P !! k' = Some p → k = k'.
Proof.
  destruct (sr_pool _ _ _ Hrep) as (_ & Hnd & _). intros H1 H2.
  apply elem_of_map_to_list in H1, H2.
  apply list_elem_of_lookup in H1 as [i Hi], H2 as [j Hj].
  assert (i = j) as ->; [|congruence].
  apply (NoDup_lookup _ i j p Hnd); by rewrite list_lookup_fmap, ?Hi, ?Hj.
Qed.

Lemma sr_lookup k : S !! k = pool_get (ss_order_pool_ ss) <$> (P !! k).
Proof. rewrite (sr_snap _ _ _ Hrep). apply lookup_fmap. Qed.

Lemma sr_size_eq : size S = size P.
Proof. rewrite (sr_snap _ _ _ Hrep). apply map_size_fmap. Qed.

Lemma sr_used k p : P !! k = Some p → p ∈ (map_to_list P).*2.
Proof.
  intros H. apply list_elem_of_fmap. exists (k, p). split; [done|].
  by apply elem_of_map_to_list.
Qed.

Lemma sr_orders t : 0 ≤ t < ME_MAX_TICKERS →
  arr_at (ticker_orders_ ss) t = Ok (arr_get (ticker_orders_ ss) t).
Proof. intros H. apply arr_at_Ok. by rewrite (sr_len _ _ _ Hrep). Qed.
Lemma sr_order t i : key_ok (t, i) →
  arr_at (arr_get (ticker_orders_ ss) t) i = Ok (P !! (t, i)).
Proof.
  intros H. rewrite arr_at_Ok; [by rewrite (sr_ptrs _ _ _ Hrep)|].
  rewrite (sr_lens _ _ _ Hrep); apply H.
Qed.

(** A cell of the two-level array is written. *)
Lemma sr_write t i (x : option ptr) t' i' : key_ok (t, i) → key_ok (t', i') →
  arr_get (arr_get (arr_set (ticker_orders_ ss) t
    (arr_set (arr_get (ticker_orders_ ss) t) i x)) t') i' =
  if decide ((t, i) = (t', i')) then x else P !! (t', i').
Proof.
  intros Hk Hk'. rewrite arr_get_set. destruct (decide (t = t')) as [<-|Hne].
  - rewrite arr_get_set. destruct (decide (i = i')) as [<-|Hne].
    + by rewrite decide_True.
    + rewrite decide_False by congruence. by rewrite (sr_ptrs _ _ _ Hrep).
  - rewrite decide_False by congruence. by rewrite (sr_ptrs _ _ _ Hrep).
Qed.
Lemma sr_write_lens t i (x : option ptr) : key_ok (t, i) → ∀ t', 0 ≤ t' < ME_MAX_TICKERS →
  arr_len (arr_get (arr_set (ticker_orders_ ss) t
    (arr_set (arr_get (ticker_orders_ ss) t) i x)) t') = ME_MAX_ORDER_IDS.
Proof.
  intros [Ht _] t' Ht'. rewrite arr_get_set. case_decide; [rewrite arr_len_set|];
    by apply (sr_lens _ _ _ Hrep).
Qed.

Lemma existing_order_spec u p :
  key_ok (snap_key u) → P !! snap_key u = Some p →
  mu_side (pool_get (ss_order_pool_ ss) p) = mu_side u →
  existing_order ss (arr_get (ticker_orders_ ss) (mu_ticker_id u)) u = Ok p.
Proof.
  intros Hk Hp Hs. unfold existing_order. rewrite sr_order by done.
  cbn [mbind Res_bind]. change (mu_ticker_id u, mu_order_id u) with (snap_key u). rewrite Hp.
  cbn [bool_decide negb ASSERT mbind Res_bind deref].
  destruct (sr_wf _ _ _ Hrep (snap_key u) (pool_get (ss_order_pool_ ss) p)) as [Hw _].
  { by rewrite sr_lookup, Hp. }
  unfold snap_key in Hw. injection Hw as _ Hid. rewrite Hid, Z.eqb_refl, Hs.
  rewrite bool_decide_eq_true_2 by done. done.
Qed.
End Rep.

Lemma snap_wf_apply S u : snap_wf S → snap_wf (snap_apply S u).
Proof.
  intros Hw. unfold snap_apply. destruct (mu_type u) eqn:Et; try done; intros k v Hv.
  - apply lookup_insert_Some in Hv as [[<- <-]|[_ Hv]]; [done|by apply Hw].
  - apply lookup_alter_Some in Hv as [(<- & w & Hw1 & ->)|[_ Hv]]; [|by apply Hw].
    apply Hw in Hw1 as [Hk Ht]. by split.
  - apply lookup_delete_Some in Hv as [_ Hv]. by apply Hw.
Qed.

(** An allocated order: the write in the pool leaves the other orders alone. *)
Lemma add_spec_snap ss P S u :
  ss_rep ss P S → mu_type u = MarketUpdateType.ADD → snap_valid S u →
  ∃ ss', snapshot_switch ss u = Ok ss' ∧ synthesizes ss' (snap_apply S u) ∧
    last_inc_seq_num_ ss' = last_inc_seq_num_ ss.
Proof.
  intros Hrep Et Hv. pose proof (snap_wf_apply S u (sr_wf _ _ _ Hrep)) as Hwf.
  unfold snap_valid in Hv. rewrite Et in Hv. destruct Hv as (Hk & Hnone & Hroom).
  rewrite (sr_lookup Hrep), fmap_None in Hnone. rewrite (sr_size_eq Hrep) in Hroom.
  unfold snapshot_switch. rewrite (sr_orders Hrep) by apply Hk. cbn [mbind Res_bind].
  rewrite Et, (sr_order Hrep) by done. cbn [mbind Res_bind].
  change (mu_ticker_id u, mu_order_id u) with (snap_key u). rewrite Hnone.
  cbn [bool_decide ASSERT mbind Res_bind].
  destruct (allocate_spec (ss_order_pool_ ss) _ u (sr_pool _ _ _ Hrep))
    as (pool' & Ha & Hfresh & Hpool & Hsz & Hget).
  { rewrite length_fmap, length_map_to_list, (sr_size _ _ _ Hrep). done. }
  rewrite Ha. cbn [mbind Res_bind]. rewrite arr_at_set_Ok.
  2: { rewrite (sr_lens _ _ _ Hrep); apply Hk. }
  cbn [mbind Res_bind]. eexists. split; [reflexivity|]. split; [|reflexivity].
  set (p := next_free_index_ (ss_order_pool_ ss)) in *.
  exists (<[snap_key u := p]> P). split; cbn [ss_with_orders ticker_orders_ ss_order_pool_].
  - apply (sr_len _ _ _ Hrep).
  - by apply (sr_write_lens Hrep).
  - intros t i Hti. rewrite (sr_write Hrep), lookup_insert by done. done.
  - intros k. rewrite lookup_insert_is_Some. intros [<-|[_ H]]; [done|by apply (sr_keys _ _ _ Hrep)].
  - by rewrite Hsz, (sr_size _ _ _ Hrep).
  - by rewrite map_to_list_insert.
  - unfold snap_apply. rewrite Et, fmap_insert, Hget, decide_True by done. f_equal.
    rewrite (sr_snap _ _ _ Hrep). apply map_fmap_ext. intros k q Hq. rewrite Hget.
    rewrite decide_False; [done|]. intros ->. apply Hfresh. by apply (sr_used k).
  - exact Hwf.
Qed.

Lemma modify_spec_snap ss P S u :
  ss_rep ss P S → mu_type u = MarketUpdateType.MODIFY → snap_valid S u →
  ∃ ss', snapshot_switch ss u = Ok ss' ∧ synthesizes ss' (snap_apply S u) ∧
    last_inc_seq_num_ ss' = last_inc_seq_num_ ss.
Proof.
  intros Hrep Et Hv. pose proof (snap_wf_apply S u (sr_wf _ _ _ Hrep)) as Hwf.
  unfold snap_valid in Hv. rewrite Et in Hv. symmetry in Hv.
  apply fmap_Some in Hv as (o & Ho & Hside). rewrite (sr_lookup Hrep) in Ho.
  apply fmap_Some in Ho as (p & Hp & ->).
  assert (key_ok (snap_key u)) as Hk by (apply (sr_keys _ _ _ Hrep); eauto).
  unfold snapshot_switch. rewrite (sr_orders Hrep) by apply Hk. cbn [mbind Res_bind].
  rewrite Et, (existing_order_spec Hrep u p) by done. cbn [mbind Res_bind].
  eexists. split; [reflexivity|]. split; [|reflexivity]. exists P.
  split; cbn [ss_with_orders ticker_orders_ ss_order_pool_]; try apply Hrep.
  - by apply pool_rep_put, (sr_pool _ _ _ Hrep).
  - unfold snap_apply. rewrite Et, (sr_snap _ _ _ Hrep). apply map_eq. intros k.
    rewrite lookup_alter, !lookup_fmap. destruct (P !! k) as [q|] eqn:Eq.
    + simpl. rewrite pool_get_upd. destruct (decide (p = q)) as [<-|Hne].
      * rewrite (sr_inj Hrep k (snap_key u) p) by done. by rewrite decide_True, Hp.
      * rewrite decide_False; [done|]. intros <-. congruence.
    + simpl. destruct (decide _) as [<-|]; [by rewrite Eq|done].
  - exact Hwf.
Qed.

Lemma cancel_spec_snap ss P S u :
  ss_rep ss P S → mu_type u = MarketUpdateType.CANCEL → snap_valid S u →
  ∃ ss', snapshot_switch ss u = Ok ss' ∧ synthesizes ss' (snap_apply S u) ∧
    last_inc_seq_num_ ss' = last_inc_seq_num_ ss.
Proof.
  intros Hrep Et Hv. pose proof (snap_wf_apply S u (sr_wf _ _ _ Hrep)) as Hwf.
  unfold snap_valid in Hv. rewrite Et in Hv. symmetry in Hv.
  apply fmap_Some in Hv as (o & Ho & Hside). rewrite (sr_lookup Hrep) in Ho.
  apply fmap_Some in Ho as (p & Hp & ->).
  assert (key_ok (snap_key u)) as Hk by (apply (sr_keys _ _ _ Hrep); eauto).
  unfold snapshot_switch. rewrite (sr_orders Hrep) by apply Hk. cbn [mbind Res_bind].
  rewrite Et, (existing_order_spec Hrep u p) by done. cbn [mbind Res_bind].
  pose proof (sr_pool _ _ _ Hrep) as Hpool.
  rewrite <-(map_to_list_delete P (snap_key u) p Hp) in Hpool.
  destruct (deallocate_spec _ _ _ Hpool) as (pool' & Hd & Hpool' & Hsz & Hget).
  cbn [snd] in Hd. rewrite Hd. cbn [mbind Res_bind]. rewrite arr_at_set_Ok.
  2: { rewrite (sr_lens _ _ _ Hrep); apply Hk. }
  cbn [mbind Res_bind]. eexists. split; [reflexivity|]. split; [|reflexivity].
  exists (delete (snap_key u) P). split; cbn [ss_with_orders ticker_orders_ ss_order_pool_].
  - apply (sr_len _ _ _ Hrep).
  - by apply (sr_write_lens Hrep).
  - intros t i Hti. rewrite (sr_write Hrep), lookup_delete by done. done.
  - intros k [q [_ H]%lookup_delete_Some]. apply (sr_keys _ _ _ Hrep). eauto.
  - by rewrite Hsz, (sr_size _ _ _ Hrep).
  - exact Hpool'.
  - unfold snap_apply. rewrite Et, fmap_delete, (sr_snap _ _ _ Hrep). f_equal.
    apply map_fmap_ext. intros k q _. by rewrite Hget.
  - exact Hwf.
Qed.

(** One update keeps the snapshot up to date. *)
Lemma addToSnapshot_spec ss S u n :
  synthesizes ss S → snap_valid S u → n = u64 (last_inc_seq_num_ ss + 1) →
  ∃ ss', addToSnapshot ss (mkMDPMarketUpdate n u) = Ok ss' ∧
    synthesizes ss' (snap_apply S u) ∧ last_inc_seq_num_ ss' = n.
Proof.
  intros [P Hrep] Hv ->. unfold addToSnapshot. cbn [mdp_update mdp_seq_num].
  assert (∃ ss', snapshot_switch ss u = Ok ss' ∧ synthesizes ss' (snap_apply S u) ∧
    last_inc_seq_num_ ss' = last_inc_seq_num_ ss) as (ss' & -> & Hs & Hl).
  { destruct (mu_type u) eqn:Et.
    3: by apply (add_spec_snap ss P S u).
    3: by apply (modify_spec_snap ss P S u).
    3: by apply (cancel_spec_snap ss P S u).
    all: unfold snap_valid in Hv; rewrite Et in Hv; exists ss; unfold snapshot_switch;
      rewrite (sr_orders Hrep) by done; cbn [mbind Res_bind]; unfold snap_apply; rewrite Et;
      split; [reflexivity|]; split; [by exists P|reflexivity]. }
  cbn [mbind Res_bind]. rewrite Hl, Z.eqb_refl. cbn [ASSERT mbind Res_bind].
  eexists. split; [reflexivity|]. split; [|reflexivity].
  destruct Hs as [P' Hr]. exists P'. destruct Hr. by split.
Qed.

(** The change touches nothing but the orders, the pool and the sequence number. *)
Lemma addToSnapshot_frame ss m ss' :
  addToSnapshot ss m = Ok ss' →
  ss_snapshot_md_updates_ ss' = ss_snapshot_md_updates_ ss ∧
  snapshot_socket_ ss' = snapshot_socket_ ss ∧ ss_sent ss' = ss_sent ss ∧
  last_snapshot_time_ ss' = last_snapshot_time_ ss.
Proof.
  intros H. unfold addToSnapshot in H. apply res_bind_Ok in H as (ss1 & Hs & H).
  apply res_bind_Ok in H as (_ & _ & H). injection H as <-.
  cbn [ss_with_seq ss_snapshot_md_updates_ snapshot_socket_ ss_sent last_snapshot_time_].
  unfold snapshot_switch in Hs. apply res_bind_Ok in Hs as (orders & _ & Hs).
  destruct (mu_type (mdp_update m)); try (injection Hs as <-; done).
  - apply res_bind_Ok in Hs as (o & _ & Hs). apply res_bind_Ok in Hs as (_ & _ & Hs).
    apply res_bind_Ok in Hs as ([p pool] & _ & Hs). apply res_bind_Ok in Hs as (os & _ & Hs).
    by injection Hs as <-.
  - apply res_bind_Ok in Hs as (p & _ & Hs). by injection Hs as <-.
  - apply res_bind_Ok in Hs as (p & _ & Hs). apply res_bind_Ok in Hs as (pool & _ & Hs).
    apply res_bind_Ok in Hs as (os & _ & Hs). by injection Hs as <-.
Qed.

(** ** The snapshot on the wire *)

(** The orders of one instrument, by increasing order id. *)
Definition ticker_listing (S : Snapshot) (t : TickerId) (n : Z) : list MEMarketUpdate :=
  omap (λ i, S !! (t, i)) (seqZ 0 n).
Definition ticker_snapshot (S : Snapshot) (t : TickerId) : list MEMarketUpdate :=
  clear_message t :: ticker_listing S t ME_MAX_ORDER_IDS.
Definition snapshot_body (S : Snapshot) (n : Z) : list MEMarketUpdate :=
  concat (ticker_snapshot S <$> seqZ 0 n).
(** The whole cycle, numbered from 0. *)
Definition snapshot_cycle (S : Snapshot) (last : Z) : list MEMarketUpdate :=
  marker MarketUpdateType.SNAPSHOT_START last ::
  snapshot_body S ME_MAX_TICKERS ++ [marker MarketUpdateType.SNAPSHOT_END last].
Definition numbered_updates (n : Z) (us : list MEMarketUpdate) : list MDPMarketUpdate :=
  imap (λ i u, mkMDPMarketUpdate (n + Z.of_nat i) u) us.

Lemma numbered_updates_app n us vs :
  numbered_updates n (us ++ vs) =
  numbered_updates n us ++ numbered_updates (n + Z.of_nat (length us)) vs.
Proof.
  unfold numbered_updates. rewrite imap_app. f_equal. apply imap_ext. intros i u _. simpl.
  f_equal. lia.
Qed.

Lemma seqZ_snoc a n : 0 ≤ n → seqZ a (n + 1) = seqZ a n ++ [a + n].
Proof. intros Hn. rewrite seqZ_app by lia. by rewrite (seqZ_cons (a + n)) by lia. Qed.

Lemma ticker_listing_snoc S t n : 0 ≤ n →
  ticker_listing S t (n + 1) =
  ticker_listing S t n ++ match S !! (t, n) with Some u => [u] | None => [] end.
Proof.
  intros Hn. unfold ticker_listing. rewrite seqZ_snoc, omap_app by done. reflexivity.
Qed.
Lemma snapshot_body_snoc S n : 0 ≤ n →
  snapshot_body S (n + 1) = snapshot_body S n ++ ticker_snapshot S n.
Proof.
  intros Hn. unfold snapshot_body. rewrite seqZ_snoc, fmap_app, concat_app by done.
  f_equal. rewrite Z.add_0_l. apply app_nil_r.
Qed.

Lemma MDPMarketUpdate_size : c_size MDPMarketUpdate = 42%nat.
Proof. done. Qed.

(** The bytes given to the kernel and those still in the buffer. *)
Definition published (ss : SnapshotSynthesizer) : bytes :=
  concat (ss_sent ss) ++ outbound_data_ (snapshot_socket_ ss).

(** What the publishing loops keep: they only touch the socket. *)
Record publishing (ss0 ss : SnapshotSynthesizer) (us : list MEMarketUpdate) (pend : Z) : Prop := {
  pb_orders : ticker_orders_ ss = ticker_orders_ ss0;
  pb_pool : ss_order_pool_ ss = ss_order_pool_ ss0;
  pb_last : last_inc_seq_num_ ss = last_inc_seq_num_ ss0;
  pb_queue : ss_snapshot_md_updates_ ss = ss_snapshot_md_updates_ ss0;
  pb_bytes : published ss = published ss0 ++ encode_all (numbered_updates 0 us);
  pb_pend : next_send_valid_index_ (snapshot_socket_ ss) ≤ pend
}.

Lemma snapshot_send_spec ss0 ss us u pend :
  publishing ss0 ss us pend → pend + 42 < McastBufferSize →
  ∃ ss', snapshot_send ss (mkMDPMarketUpdate (Z.of_nat (length us)) u) = Ok ss' ∧
    publishing ss0 ss' (us ++ [u]) (pend + 42).
Proof.
  intros [H1 H2 H3 H4 H5 H6] Hp. unfold snapshot_send, mcast_send.
  rewrite c_enc_length, MDPMarketUpdate_size.
  rewrite (proj2 (Z.leb_le _ _)) by lia. rewrite (proj2 (Z.ltb_lt _ _)) by lia.
  cbn [ASSERT mbind Res_bind]. eexists. split; [reflexivity|].
  split; cbn [ss_with_socket ticker_orders_ ss_order_pool_ last_inc_seq_num_
              ss_snapshot_md_updates_ snapshot_socket_]; try assumption.
  - unfold published in *. cbn [ss_with_socket ss_sent snapshot_socket_ outbound_data_
      with_outbound]. rewrite app_assoc, H5, numbered_updates_app, encode_all_app.
    rewrite <-app_assoc. unfold encode_all at 3. cbn [numbered_updates imap fmap list_fmap concat].
    rewrite app_nil_r. unfold numbered_updates. simpl. by rewrite Z.add_0_r.
  - unfold next_send_valid_index_ in *. cbn [outbound_data_ with_outbound].
    rewrite length_app, c_enc_length, MDPMarketUpdate_size. lia.
Qed.

Lemma sendAndRecv_spec ss0 ss us pend :
  publishing ss0 ss us pend → publishing ss0 (snapshot_sendAndRecv ss) us 0.
Proof.
  intros [H1 H2 H3 H4 H5 H6]. unfold snapshot_sendAndRecv.
  destruct (next_send_valid_index_ (snapshot_socket_ ss) >? 0) eqn:E;
    [split; cbn [ss_with_socket ticker_orders_ ss_order_pool_ last_inc_seq_num_
                 ss_snapshot_md_updates_ snapshot_socket_]; try assumption|].
  - unfold published in *. cbn [ss_with_socket ss_sent snapshot_socket_ outbound_data_
      with_outbound]. rewrite concat_app, app_nil_r. cbn [concat]. by rewrite app_nil_r.
  - done.
  - split; try assumption. rewrite Z.gtb_ltb in E. apply Z.ltb_ge in E. exact E.
Qed.

Lemma publishing_weaken ss0 ss us p p' :
  publishing ss0 ss us p → p ≤ p' → publishing ss0 ss us p'.
Proof. intros [] ?. split; try assumption. lia. Qed.

Section Publish.
Context {ss0 : SnapshotSynthesizer} {P : gmap (TickerId * OrderId) ptr} {S : Snapshot}.
Context (Hrep : ss_rep ss0 P S).

Lemma listing_length t n : 0 ≤ n → Z.of_nat (length (ticker_listing S t n)) ≤ n.
Proof.
  intros Hn. unfold ticker_listing. pose proof (length_seqZ 0 n) as Hl.
  assert (∀ l : list Z, length (omap (λ i, S !! (t, i)) l) ≤ length l)%nat as Ho.
  { induction l as [|x l IH]; [done|]. unfold omap in *. cbn [list_omap length].
    destruct (S !! (t, x)); cbn [length]; lia. }
  specialize (Ho (seqZ 0 n)). lia.
Qed.

Lemma publish_ticker_spec t ss us pend :
  publishing ss0 ss us pend → 0 ≤ t < ME_MAX_TICKERS → 0 ≤ pend → pend + 84 < McastBufferSize →
  Z.of_nat (length us) + 1 + ME_MAX_ORDER_IDS < 2 ^ 64 →
  ∃ ss', publish_ticker t (Z.of_nat (length us), ss) =
      Ok (Z.of_nat (length (us ++ ticker_snapshot S t)), ss') ∧
    publishing ss0 ss' (us ++ ticker_snapshot S t) (pend + 42).
Proof.
  intros Hpub Ht Hp0 Hp Hlen. unfold publish_ticker.
  assert (0 < ME_MAX_ORDER_IDS) as HM by by vm_compute.
  rewrite (pb_orders _ _ _ _ Hpub), (sr_orders Hrep) by done. cbn [mbind Res_bind].
  destruct (snapshot_send_spec ss0 ss us (clear_message t) pend Hpub ltac:(lia))
    as (ss1 & -> & Hpub1). cbn [mbind Res_bind].
  rewrite u64_id by lia. rewrite (sr_lens _ _ _ Hrep) by done.
  rewrite (pb_pool _ _ _ _ Hpub1).
  destruct (for_range_inv (publish_order (ss_order_pool_ ss0) (arr_get (ticker_orders_ ss0) t))
    (λ i st, st.1 = Z.of_nat (length ((us ++ [clear_message t]) ++ ticker_listing S t i)) ∧
             publishing ss0 st.2 ((us ++ [clear_message t]) ++ ticker_listing S t i) (pend + 42))
    ME_MAX_ORDER_IDS (Z.of_nat (length us) + 1, ss1)) as ([n ss2] & Hrun & Hn & Hpub2).
  - unfold ME_MAX_ORDER_IDS. lia.
  - intros i [n ss2] Hi [Hn Hpub2]. cbn [fst snd] in *.
    unfold publish_order. rewrite ticker_listing_snoc, (sr_lookup Hrep) by lia.
    rewrite (sr_ptrs _ _ _ Hrep) by (split; simpl; lia).
    destruct (P !! (t, i)) as [p|] eqn:Ep.
    + cbn [fmap option_fmap option_map]. rewrite Hn, app_assoc.
      destruct (snapshot_send_spec ss0 ss2 _ (pool_get (ss_order_pool_ ss0) p) _ Hpub2
                  ltac:(lia)) as (ss3 & -> & Hpub3).
      cbn [mbind Res_bind]. eexists. split; [reflexivity|]. cbn [fst snd]. split.
      * pose proof (listing_length t i ltac:(lia)).
        rewrite u64_id; rewrite ?length_app in *; cbn [length] in *; lia.
      * eapply publishing_weaken; [by eapply sendAndRecv_spec|lia].
    + cbn [fmap option_fmap option_map]. rewrite app_nil_r. eexists. split; [reflexivity|].
      by split.
  - cbn [fst snd]. split; [|rewrite app_nil_r; exact Hpub1].
    rewrite app_nil_r, length_app. cbn [length]. lia.
  - rewrite Hrun. cbn [fst snd] in *. rewrite <-app_assoc in Hn, Hpub2.
    cbn [app] in Hn, Hpub2. change (clear_message t :: ticker_listing S t ME_MAX_ORDER_IDS)
      with (ticker_snapshot S t) in Hn, Hpub2. exists ss2. rewrite Hn. done.
Qed.

#[local] Opaque snapshot_body ticker_listing.

Lemma snapshot_body_0 : snapshot_body S 0 = [].
Proof. with_strategy transparent [snapshot_body] reflexivity. Qed.

Lemma snapshot_body_length i : 0 ≤ i ≤ ME_MAX_TICKERS →
  Z.of_nat (length (snapshot_body S i)) ≤ i * (ME_MAX_ORDER_IDS + 1).
Proof.
  intros [Hi0 Hi]. revert Hi. pattern i.
  apply natlike_ind; [intros _; rewrite snapshot_body_0; simpl; lia| |done].
  intros j Hj IH Hj'. unfold Z.succ. rewrite snapshot_body_snoc, length_app by done.
  unfold ticker_snapshot. cbn [length].
  pose proof (listing_length j ME_MAX_ORDER_IDS ltac:(unfold ME_MAX_ORDER_IDS; lia)). lia.
Qed.

(** The whole cycle. *)
Lemma publishSnapshot_spec :
  outbound_data_ (snapshot_socket_ ss0) = [] →
  ∃ ss', publishSnapshot ss0 = Ok ss' ∧
    publishing ss0 ss' (snapshot_cycle S (last_inc_seq_num_ ss0)) 0.
Proof.
  intros Hout. unfold publishSnapshot. set (last := last_inc_seq_num_ ss0).
  assert (publishing ss0 ss0 [] 0) as Hpub0.
  { split; try reflexivity.
    - unfold encode_all. simpl. by rewrite app_nil_r.
    - unfold next_send_valid_index_. by rewrite Hout. }
  destruct (snapshot_send_spec _ _ _ (marker MarketUpdateType.SNAPSHOT_START last) _ Hpub0)
    as (ss1 & H1 & Hpub1); [by vm_compute|].
  cbn [length] in H1. change (Z.of_nat 0) with 0 in H1. rewrite H1. cbn [mbind Res_bind].
  rewrite (pb_orders _ _ _ _ Hpub1), (sr_len _ _ _ Hrep).
  set (start := [marker MarketUpdateType.SNAPSHOT_START last]) in *.
  destruct (for_range_inv publish_ticker
    (λ i st, st.1 = Z.of_nat (length (start ++ snapshot_body S i)) ∧
             publishing ss0 st.2 (start ++ snapshot_body S i) (42 * (i + 1)))
    ME_MAX_TICKERS (1, ss1)) as ([n ss2] & Hrun & Hn & Hpub2).
  - unfold ME_MAX_TICKERS. lia.
  - intros i [n ss2] Hi [Hn Hpub2]. cbn [fst snd] in *. rewrite Hn.
    pose proof (snapshot_body_length i ltac:(lia)) as Hlen.
    destruct (publish_ticker_spec i ss2 _ _ Hpub2 Hi) as (ss3 & H3 & Hpub3).
    { lia. }
    { unfold ME_MAX_TICKERS, McastBufferSize in *. lia. }
    { rewrite length_app. cbn [length start]. unfold ME_MAX_TICKERS, ME_MAX_ORDER_IDS in *. lia. }
    exists (Z.of_nat (length ((start ++ snapshot_body S i) ++ ticker_snapshot S i)), ss3).
    split; [exact H3|]. cbn [fst snd]. rewrite snapshot_body_snoc, app_assoc by lia.
    split; [done|]. eapply publishing_weaken; [exact Hpub3|lia].
  - cbn [fst snd]. rewrite snapshot_body_0, app_nil_r. split; [done|].
    eapply publishing_weaken; [exact Hpub1|lia].
  - rewrite Hrun. cbn [mbind Res_bind fst snd] in *. rewrite Hn.
    destruct (snapshot_send_spec _ _ _ (marker MarketUpdateType.SNAPSHOT_END last) _ Hpub2)
      as (ss3 & H3 & Hpub3); [by vm_compute|].
    rewrite (pb_last _ _ _ _ Hpub2). fold last. rewrite H3. cbn [mbind Res_bind].
    eexists. split; [reflexivity|]. eapply sendAndRecv_spec.
    rewrite <-app_assoc in Hpub3. unfold start in Hpub3. cbn [app] in Hpub3. exact Hpub3.
Qed.
End Publish.
