(* ===== verification/MarketDataPublisher.v ===== *)
(** * MarketDataPublisher: the incremental market data stream

    [exchange/market_data/market_data_publisher.h] and [market_data_publisher.cpp], and the
    theorems about the exchange's two market data streams. *)
From S2P Require Import Prelude Types MemPool Wire Sockets LFQueue SnapshotSynthesizer.

Record MarketDataPublisher := mkMarketDataPublisher {
  next_inc_seq_num_ : Z;
  outgoing_md_updates_ : LFQueue MEMarketUpdate;
  snapshot_md_updates_ : LFQueue MDPMarketUpdate;
  incremental_socket_ : Socket;
  pub_sent : list bytes
}.

Definition MarketDataPublisher_new (market_updates : LFQueue MEMarketUpdate)
  : MarketDataPublisher :=
  mkMarketDataPublisher 1 market_updates
    (LFQueue_new ME_MAX_MARKET_UPDATES MDPMarketUpdate_default) (Socket_new (-1)) [].

(** The body of the inner loop of [run].  The slot is given back to the producer before the
    update in it is copied for the synthesizer. *)
Definition publish_update (pb : MarketDataPublisher) : Res (option MarketDataPublisher) :=
  match getNextToRead (outgoing_md_updates_ pb) with
  | None => Ok None
  | Some slot =>
      s ← mcast_send (incremental_socket_ pb) (le_encode 8 (next_inc_seq_num_ pb));
      s ← mcast_send s (c_enc (read_slot (outgoing_md_updates_ pb) slot));
      q ← updateReadIndex (outgoing_md_updates_ pb);
      let next_write := mkMDPMarketUpdate (next_inc_seq_num_ pb) (read_slot q slot) in
      Ok (Some (mkMarketDataPublisher (u64 (next_inc_seq_num_ pb + 1)) q
            (lfq_push (snapshot_md_updates_ pb) next_write) s (pub_sent pb)))
  end.

Fixpoint publish_updates (fuel : nat) (pb : MarketDataPublisher) : Res MarketDataPublisher :=
  match fuel with
  | O => match getNextToRead (outgoing_md_updates_ pb) with
         | None => Ok pb | Some _ => Err OutOfFuel end
  | S fuel =>
      r ← publish_update pb;
      match r with None => Ok pb | Some pb => publish_updates fuel pb end
  end.

(** The sending half of [incremental_socket_.sendAndRecv()]. *)
Definition publisher_sendAndRecv (pb : MarketDataPublisher) : MarketDataPublisher :=
  let s := incremental_socket_ pb in
  if next_send_valid_index_ s >? 0
  then mkMarketDataPublisher (next_inc_seq_num_ pb) (outgoing_md_updates_ pb)
         (snapshot_md_updates_ pb) (with_outbound s []) (pub_sent pb ++ [outbound_data_ s])
  else pb.

(** One turn of [run]. *)
Definition publisher_turn (fuel : nat) (pb : MarketDataPublisher) : Res MarketDataPublisher :=
  pb ← publish_updates fuel pb; Ok (publisher_sendAndRecv pb).

Definition pub_published (pb : MarketDataPublisher) : bytes :=
  concat (pub_sent pb) ++ outbound_data_ (incremental_socket_ pb).

Lemma mcast_send_ok s data :
  next_send_valid_index_ s + Z.of_nat (length data) < McastBufferSize →
  mcast_send s data = Ok (with_outbound s (outbound_data_ s ++ data)).
Proof.
  intros H. unfold mcast_send. rewrite (proj2 (Z.leb_le _ _)) by lia.
  by rewrite (proj2 (Z.ltb_lt _ _)).
Qed.

Lemma c_enc_mdp n u : c_enc (mkMDPMarketUpdate n u) = le_encode 8 n ++ c_enc u.
Proof. done. Qed.

Lemma update_size : c_size MEMarketUpdate = 34%nat.
Proof. done. Qed.

Lemma numbered_updates_cons n u us :
  numbered_updates n (u :: us) = mkMDPMarketUpdate n u :: numbered_updates (n + 1) us.
Proof.
  change (u :: us) with ([u] ++ us). rewrite numbered_updates_app.
  unfold numbered_updates at 1. simpl. by rewrite Z.add_0_r.
Qed.

Lemma numbered_updates_ok n us :
  0 ≤ n → n + Z.of_nat (length us) < 2 ^ 64 → Forall c_ok us → Forall c_ok (numbered_updates n us).
Proof.
  intros H0 H64 Hok. revert n H0 H64. induction Hok as [|u us Hu Hok IH]; intros n H0 H64; [constructor|].
  rewrite numbered_updates_cons. cbn [length] in H64. constructor; [|apply IH; lia].
  split; [|exact Hu]. change (0 ≤ n < 2 ^ 64). lia.
Qed.

Lemma publish_updates_spec fuel pb us later :
  lfq_rep (outgoing_md_updates_ pb) us → lfq_rep (snapshot_md_updates_ pb) later →
  (length us ≤ fuel)%nat →
  Z.of_nat (length later + length us) ≤ lfq_cap (snapshot_md_updates_ pb) →
  next_send_valid_index_ (incremental_socket_ pb) + Z.of_nat (42 * length us) < McastBufferSize →
  0 ≤ next_inc_seq_num_ pb → next_inc_seq_num_ pb + Z.of_nat (length us) < 2 ^ 64 →
  ∃ pb', publish_updates fuel pb = Ok pb' ∧
    lfq_rep (outgoing_md_updates_ pb') [] ∧
    lfq_rep (snapshot_md_updates_ pb') (later ++ numbered_updates (next_inc_seq_num_ pb) us) ∧
    next_inc_seq_num_ pb' = next_inc_seq_num_ pb + Z.of_nat (length us) ∧
    pub_published pb' = pub_published pb ++ encode_all (numbered_updates (next_inc_seq_num_ pb) us) ∧
    lfq_cap (outgoing_md_updates_ pb') = lfq_cap (outgoing_md_updates_ pb) ∧
    lfq_cap (snapshot_md_updates_ pb') = lfq_cap (snapshot_md_updates_ pb).
Proof.
  revert pb us later. induction fuel as [|fuel IH]; intros pb [|u us] later Hq Hs Hfuel Hcap Hfit H0 Hlt;
    cbn [length] in *; [|lia| |].
  1,2: pose proof (lfq_pop_rep _ _ Hq) as Hpop; unfold lfq_pop in Hpop;
    cbn [publish_updates]; unfold publish_update;
    destruct (getNextToRead _); [by destruct (updateReadIndex _)|];
    exists pb; rewrite !app_nil_r, Z.add_0_r; split_and!; done.
  destruct (lfq_pop_rep _ _ Hq) as (q' & Hpop & Hq' & Hqc). unfold lfq_pop in Hpop.
  cbn [publish_updates]. unfold publish_update.
  destruct (getNextToRead (outgoing_md_updates_ pb)) as [slot|]; [|done].
  destruct (updateReadIndex (outgoing_md_updates_ pb)) as [q1|] eqn:Eu; [|done].
  cbn [mbind Res_bind] in Hpop. injection Hpop as Hr ->.
  assert (read_slot q' slot = u) as Hr'.
  { rewrite <-Hr. unfold updateReadIndex in Eu. destruct (num_elements_ _ =? 0); [done|].
    cbn [negb ASSERT mbind Res_bind] in Eu. injection Eu as <-. reflexivity. }
  rewrite Hr, mcast_send_ok by (rewrite le_encode_length; lia).
  cbn [mbind Res_bind]. rewrite mcast_send_ok.
  2: { unfold next_send_valid_index_ in *. cbn [outbound_data_ with_outbound].
       rewrite length_app, le_encode_length, c_enc_length, update_size. lia. }
  cbn [mbind Res_bind]. rewrite u64_id, Hr' by lia.
  set (pb1 := mkMarketDataPublisher _ _ _ _ _).
  destruct (IH pb1 us (later ++ [mkMDPMarketUpdate (next_inc_seq_num_ pb) u]))
    as (pb' & Hrun & Hq2 & Hs2 & Hn2 & Hp2 & Hc2 & Hc3).
  { exact Hq'. }
  { apply lfq_push_rep; [exact Hs|lia]. }
  { lia. }
  { unfold pb1. cbn [snapshot_md_updates_]. change (lfq_cap (lfq_push _ _)) with
      (lfq_cap (snapshot_md_updates_ pb)). rewrite length_app. cbn [length]. lia. }
  { unfold next_send_valid_index_ in *. unfold pb1.
    cbn [incremental_socket_ outbound_data_ with_outbound].
    rewrite !length_app, le_encode_length, c_enc_length, update_size. lia. }
  { unfold pb1. cbn [next_inc_seq_num_]. lia. }
  { unfold pb1. cbn [next_inc_seq_num_]. lia. }
  unfold pb1 in Hs2, Hn2, Hp2. cbn [next_inc_seq_num_] in Hs2, Hn2, Hp2.
  exists pb'. split; [exact Hrun|]. split; [exact Hq2|].
  rewrite numbered_updates_cons. split; [by rewrite <-app_assoc in Hs2|]. split; [lia|].
  split; [|split; [by rewrite Hc2, <-Hqc|exact Hc3]]. rewrite Hp2. unfold pub_published.
  cbn [pub_sent incremental_socket_ outbound_data_ with_outbound].
  unfold encode_all. rewrite fmap_cons. cbn [concat]. rewrite c_enc_mdp, <-!app_assoc. done.
Qed.

(** The synthesizer works off its queue. *)
Fixpoint snap_valid_all (S : Snapshot) (us : list MEMarketUpdate) : Prop :=
  match us with
  | [] => True
  | u :: us => snap_valid S u ∧ snap_valid_all (snap_apply S u) us
  end.
#[export] Instance snap_valid_all_dec S us : Decision (snap_valid_all S us).
Proof. revert S. induction us as [|u us IH]; intros S; simpl; apply _. Defined.
Definition snap_run (S : Snapshot) (us : list MEMarketUpdate) : Snapshot := foldl snap_apply S us.

Lemma snap_valid_all_app S us vs :
  snap_valid_all S (us ++ vs) ↔ snap_valid_all S us ∧ snap_valid_all (snap_run S us) vs.
Proof.
  revert S. induction us as [|u us IH]; intros S; [simpl; tauto|].
  cbn [app snap_valid_all]. rewrite IH.
  change (snap_run S (u :: us)) with (snap_run (snap_apply S u) us). tauto.
Qed.

Lemma drain_updates_spec fuel ss S us :
  synthesizes ss S → snap_valid_all S us → (length us ≤ fuel)%nat →
  0 ≤ last_inc_seq_num_ ss → last_inc_seq_num_ ss + Z.of_nat (length us) < 2 ^ 64 →
  lfq_rep (ss_snapshot_md_updates_ ss) (numbered_updates (last_inc_seq_num_ ss + 1) us) →
  ∃ ss', drain_updates fuel ss = Ok ss' ∧ synthesizes ss' (snap_run S us) ∧
    lfq_rep (ss_snapshot_md_updates_ ss') [] ∧
    last_inc_seq_num_ ss' = last_inc_seq_num_ ss + Z.of_nat (length us) ∧
    snapshot_socket_ ss' = snapshot_socket_ ss ∧ ss_sent ss' = ss_sent ss ∧
    lfq_cap (ss_snapshot_md_updates_ ss') = lfq_cap (ss_snapshot_md_updates_ ss).
Proof.
  revert ss S us. induction fuel as [|fuel IH]; intros ss S [|u us] Hs Hv Hfuel H0 Hlt Hq;
    cbn [length] in *; [|lia| |].
  1,2: pose proof (lfq_pop_rep _ _ Hq) as Hpop; unfold lfq_pop in Hpop;
    cbn [drain_updates];
    destruct (getNextToRead _); [by destruct (updateReadIndex _)|];
    exists ss; rewrite Z.add_0_r; split_and!; done.
  rewrite numbered_updates_cons in Hq.
  destruct (lfq_pop_rep _ _ Hq) as (q' & Hpop & Hq' & Hqc). unfold lfq_pop in Hpop.
  cbn [drain_updates]. destruct Hv as [Hv1 Hv2].
  destruct (getNextToRead (ss_snapshot_md_updates_ ss)) as [slot|]; [|done].
  destruct (updateReadIndex (ss_snapshot_md_updates_ ss)) as [q1|] eqn:Eu; [|done].
  cbn [mbind Res_bind] in Hpop. injection Hpop as Hr ->. rewrite Hr.
  destruct (addToSnapshot_spec ss S u (last_inc_seq_num_ ss + 1) Hs Hv1) as (ss1 & Ha & Hs1 & Hl1).
  { rewrite u64_id; lia. }
  rewrite Ha. cbn [mbind Res_bind].
  destruct (addToSnapshot_frame _ _ _ Ha) as (Hf1 & Hf2 & Hf3 & _).
  rewrite Hf1, Eu. cbn [mbind Res_bind].
  destruct (IH (ss_with_queue ss1 q') (snap_apply S u) us) as (ss2 & Hrun & Hs2 & Hq2 & Hl2 & Hk2 & Ht2 & Hc2).
  { destruct Hs1 as [P' []]. exists P'. by split. }
  { exact Hv2. }
  { lia. }
  { cbn [ss_with_queue last_inc_seq_num_]. lia. }
  { cbn [ss_with_queue last_inc_seq_num_]. lia. }
  { cbn [ss_with_queue last_inc_seq_num_ ss_snapshot_md_updates_]. rewrite Hl1. exact Hq'. }
  cbn [ss_with_queue last_inc_seq_num_ snapshot_socket_ ss_sent ss_snapshot_md_updates_]
    in Hl2, Hk2, Ht2, Hc2.
  exists ss2. split_and!; [exact Hrun|exact Hs2|exact Hq2|lia|congruence|congruence|congruence].
Qed.
