(* ===== verification/MarketDataConsumer.v ===== *)
(** * MarketDataConsumer: gap detection and snapshot recovery

    [trading/market_data/market_data_consumer.h] and [market_data_consumer.cpp].  A
    [std::map] is the list of its entries by increasing key.  What the operating system
    answers when the snapshot socket is created and joined is an argument. *)
From S2P Require Import Prelude Types Wire Sockets LFQueue.

(** [typedef std::map<size_t, MEMarketUpdate> QueuedMarketUpdates]. *)
Abbreviation QueuedMarketUpdates := (list (Z * MEMarketUpdate)) (only parsing).

(** [m[k] = v]. *)
Fixpoint qm_set (k : Z) (v : MEMarketUpdate) (m : QueuedMarketUpdates) : QueuedMarketUpdates :=
  match m with
  | [] => [(k, v)]
  | (k', v') :: m' =>
      if k <? k' then (k, v) :: m
      else if k =? k' then (k, v) :: m'
      else (k', v') :: qm_set k v m'
  end.
(** [m.find(k) != m.end()]. *)
Definition qm_has (k : Z) (m : QueuedMarketUpdates) : bool := existsb (λ kv, kv.1 =? k) m.

Record MarketDataConsumer := mkMarketDataConsumer {
  next_exp_inc_seq_num_ : Z;
  incoming_md_updates_ : LFQueue MEMarketUpdate;
  incremental_mcast_socket_ : Socket;
  snapshot_mcast_socket_ : Socket;
  in_recovery_ : bool;
  snapshot_queued_msgs_ : QueuedMarketUpdates;
  incremental_queued_msgs_ : QueuedMarketUpdates
}.

(** The constructor, once the incremental socket has its descriptor. *)
Definition MarketDataConsumer_new (market_updates : LFQueue MEMarketUpdate) (inc_fd : Z)
  : MarketDataConsumer :=
  mkMarketDataConsumer 1 market_updates (Socket_new inc_fd) (Socket_new (-1)) false [] [].

Definition c_with_queues (c : MarketDataConsumer) (snap inc : QueuedMarketUpdates) :=
  mkMarketDataConsumer (next_exp_inc_seq_num_ c) (incoming_md_updates_ c)
    (incremental_mcast_socket_ c) (snapshot_mcast_socket_ c) (in_recovery_ c) snap inc.
Definition c_with_snapshot_socket (c : MarketDataConsumer) (s : Socket) :=
  mkMarketDataConsumer (next_exp_inc_seq_num_ c) (incoming_md_updates_ c)
    (incremental_mcast_socket_ c) s (in_recovery_ c) (snapshot_queued_msgs_ c)
    (incremental_queued_msgs_ c).
Definition c_with_incremental_socket (c : MarketDataConsumer) (s : Socket) :=
  mkMarketDataConsumer (next_exp_inc_seq_num_ c) (incoming_md_updates_ c) s
    (snapshot_mcast_socket_ c) (in_recovery_ c) (snapshot_queued_msgs_ c)
    (incremental_queued_msgs_ c).
Definition c_with_recovery (c : MarketDataConsumer) (r : bool) :=
  mkMarketDataConsumer (next_exp_inc_seq_num_ c) (incoming_md_updates_ c)
    (incremental_mcast_socket_ c) (snapshot_mcast_socket_ c) r (snapshot_queued_msgs_ c)
    (incremental_queued_msgs_ c).
Definition c_with_next (c : MarketDataConsumer) (n : Z) :=
  mkMarketDataConsumer n (incoming_md_updates_ c)
    (incremental_mcast_socket_ c) (snapshot_mcast_socket_ c) (in_recovery_ c)
    (snapshot_queued_msgs_ c) (incremental_queued_msgs_ c).
Definition c_with_out (c : MarketDataConsumer) (q : LFQueue MEMarketUpdate) :=
  mkMarketDataConsumer (next_exp_inc_seq_num_ c) q
    (incremental_mcast_socket_ c) (snapshot_mcast_socket_ c) (in_recovery_ c)
    (snapshot_queued_msgs_ c) (incremental_queued_msgs_ c).

Definition with_fd (s : Socket) (fd : Z) : Socket := mkSocket fd (outbound_data_ s) (inbound_data_ s).

Definition is_marker (u : MEMarketUpdate) : bool :=
  bool_decide (mu_type u = MarketUpdateType.SNAPSHOT_START) ||
  bool_decide (mu_type u = MarketUpdateType.SNAPSHOT_END).

(** ** [checkSnapshotSync] *)

(** The loop over the snapshot messages: [None] when there is a gap. *)
Fixpoint scan_snapshot (next : Z) (m : QueuedMarketUpdates) : option (list MEMarketUpdate) :=
  match m with
  | [] => Some []
  | (seq, u) :: m =>
      if negb (seq =? next) then None
      else
        events ← scan_snapshot (u64 (next + 1)) m;
        Some (if is_marker u then events else u :: events)
  end.

(** The loop over the incremental messages: whether it met no gap, [next_exp_inc_seq_num_]
    when it stopped, and the messages it appended. *)
Fixpoint scan_incremental (next : Z) (m : QueuedMarketUpdates)
  : bool * Z * list MEMarketUpdate :=
  match m with
  | [] => (true, next, [])
  | (seq, u) :: m =>
      if seq <? next then scan_incremental next m
      else if negb (seq =? next) then (false, next, [])
      else
        let '(ok, n, events) := scan_incremental (u64 (next + 1)) m in
        (ok, n, if is_marker u then events else u :: events)
  end.

Definition checkSnapshotSync (c : MarketDataConsumer) : MarketDataConsumer :=
  match snapshot_queued_msgs_ c with
  | [] => c
  | (_, first_snapshot_msg) :: _ =>
      if negb (bool_decide (mu_type first_snapshot_msg = MarketUpdateType.SNAPSHOT_START))
      then c_with_queues c [] (incremental_queued_msgs_ c)
      else
        match scan_snapshot 0 (snapshot_queued_msgs_ c) with
        | None => c_with_queues c [] (incremental_queued_msgs_ c)
        | Some snapshot_events =>
            let last_snapshot_msg :=
              default first_snapshot_msg (snd <$> last (snapshot_queued_msgs_ c)) in
            if negb (bool_decide (mu_type last_snapshot_msg = MarketUpdateType.SNAPSHOT_END))
            then c
            else
              let '(complete, next, inc_events) :=
                scan_incremental (u64 (mu_order_id last_snapshot_msg + 1))
                  (incremental_queued_msgs_ c) in
              let c := c_with_next c next in
              if negb complete then c_with_queues c [] (incremental_queued_msgs_ c)
              else
                let final_events := snapshot_events ++ inc_events in
                let c := c_with_out c (lfq_push_all (incoming_md_updates_ c) final_events) in
                let c := c_with_recovery (c_with_queues c [] []) false in
                c_with_snapshot_socket c (with_fd (snapshot_mcast_socket_ c) (-1))
        end
  end.

(** ** Receiving *)

(** The queueing part of [queueMessage]: a snapshot message seen for the second time starts
    the snapshot over. *)
Definition enqueue (c : MarketDataConsumer) (is_snapshot : bool) (request : MDPMarketUpdate)
  : MarketDataConsumer :=
  let seq := mdp_seq_num request in
  let u := mdp_update request in
  if is_snapshot then
    let snap := if qm_has seq (snapshot_queued_msgs_ c) then [] else snapshot_queued_msgs_ c in
    c_with_queues c (qm_set seq u snap) (incremental_queued_msgs_ c)
  else
    c_with_queues c (snapshot_queued_msgs_ c) (qm_set seq u (incremental_queued_msgs_ c)).

Definition queueMessage (c : MarketDataConsumer) (is_snapshot : bool) (request : MDPMarketUpdate)
  : MarketDataConsumer := checkSnapshotSync (enqueue c is_snapshot request).

Section Receive.
(** The descriptor [snapshot_mcast_socket_.init] returns, and whether [join] succeeds. *)
Context (snapshot_fd : Z) (joined : bool).

Definition startSnapshotSync (c : MarketDataConsumer) : Res MarketDataConsumer :=
  let c := c_with_queues c [] [] in
  let c := c_with_snapshot_socket c (with_fd (snapshot_mcast_socket_ c) snapshot_fd) in
  _ ← ASSERT (snapshot_fd >=? 0);
  _ ← ASSERT joined;
  Ok c.

(** The body of the loop of [recvCallback]. *)
Definition on_market_update (is_snapshot : bool) (c : MarketDataConsumer)
    (request : MDPMarketUpdate) : Res MarketDataConsumer :=
  let already_in_recovery := in_recovery_ c in
  let recovery := already_in_recovery ||
                  negb (mdp_seq_num request =? next_exp_inc_seq_num_ c) in
  let c := c_with_recovery c recovery in
  if recovery then
    c ← (if negb already_in_recovery then startSnapshotSync c else Ok c);
    Ok (queueMessage c is_snapshot request)
  else if negb is_snapshot then
    let c := c_with_next c (u64 (next_exp_inc_seq_num_ c + 1)) in
    Ok (c_with_out c (lfq_push (incoming_md_updates_ c) (mdp_update request)))
  else Ok c.

(** The socket a callback is for: [true] for the snapshot socket. *)
Definition c_socket (c : MarketDataConsumer) (snap : bool) : Socket :=
  if snap then snapshot_mcast_socket_ c else incremental_mcast_socket_ c.
Definition c_with_inbound (c : MarketDataConsumer) (snap : bool) (b : bytes) :=
  if snap then c_with_snapshot_socket c (with_inbound (snapshot_mcast_socket_ c) b)
  else c_with_incremental_socket c (with_inbound (incremental_mcast_socket_ c) b).

Definition md_recvCallback (c : MarketDataConsumer) (socket : bool) : Res MarketDataConsumer :=
  let s := c_socket c socket in
  let is_snapshot := socket_fd_ s =? socket_fd_ (snapshot_mcast_socket_ c) in
  if is_snapshot && negb (in_recovery_ c) then Ok (c_with_inbound c socket [])
  else if next_rcv_valid_index_ s <? Z.of_nat (c_size MDPMarketUpdate) then Ok c
  else
    let '(requests, rest) := recv_messages (A := MDPMarketUpdate) (inbound_data_ s) in
    requests ← requests;
    c ← fold_res (on_market_update is_snapshot) c requests;
    Ok (c_with_inbound c socket rest).

Definition md_receive (c : MarketDataConsumer) (socket : bool) (datagram : bytes)
  : Res MarketDataConsumer :=
  let '(s, called) := socket_recv McastBufferSize (c_socket c socket) datagram in
  let c := c_with_inbound c socket (inbound_data_ s) in
  if (called : bool) then md_recvCallback c socket else Ok c.
End Receive.

(** ** The maps *)
Definition qm_sorted (m : QueuedMarketUpdates) : Prop := StronglySorted (λ a b, a.1 < b.1) m.

Lemma qm_set_end k v m : Forall (λ kv, kv.1 < k) m → qm_set k v m = m ++ [(k, v)].
Proof.
  induction 1 as [|[k' v'] m Hk _ IH]; [done|]. cbn [qm_set fst] in *.
  rewrite (proj2 (Z.ltb_ge _ _)), (proj2 (Z.eqb_neq _ _)) by lia. by rewrite IH.
Qed.

Lemma qm_set_keys k v m x : x ∈ qm_set k v m → x = (k, v) ∨ x ∈ m.
Proof.
  induction m as [|[k' v'] m IH]; cbn [qm_set]; [set_solver|].
  destruct (k <? k'); [set_solver|]. destruct (k =? k'); [set_solver|].
  rewrite elem_of_cons. intros [->|H]; [set_solver|]. destruct (IH H); set_solver.
Qed.

Lemma qm_set_sorted k v m : qm_sorted m → qm_sorted (qm_set k v m).
Proof.
  induction 1 as [|[k' v'] m Hs IH Hf]; cbn [qm_set].
  - repeat constructor.
  - destruct (k <? k') eqn:E1; [apply Z.ltb_lt in E1|apply Z.ltb_ge in E1].
    + constructor; [by constructor|]. constructor; [done|].
      eapply Forall_impl; [exact Hf|]. intros x Hx. simpl in *. lia.
    + destruct (k =? k') eqn:E2; [apply Z.eqb_eq in E2 as ->; by constructor|].
      apply Z.eqb_neq in E2. constructor; [exact IH|]. apply Forall_forall.
      intros x [->|Hx]%qm_set_keys; [simpl; lia|]. rewrite Forall_forall in Hf. by apply Hf.
Qed.

(** Numbered messages as a map. *)
Definition numbered (n : Z) (us : list MEMarketUpdate) : QueuedMarketUpdates :=
  imap (λ i u, (n + Z.of_nat i, u)) us.

Lemma numbered_cons_q n u us : numbered n (u :: us) = (n, u) :: numbered (n + 1) us.
Proof.
  unfold numbered. simpl. rewrite Z.add_0_r. f_equal. apply imap_ext. intros i x _. simpl.
  f_equal. lia.
Qed.
Lemma numbered_app_q n us vs :
  numbered n (us ++ vs) = numbered n us ++ numbered (n + Z.of_nat (length us)) vs.
Proof.
  unfold numbered. rewrite imap_app. f_equal. apply imap_ext. intros i x _. simpl.
  f_equal. lia.
Qed.
Lemma numbered_snd n us : (numbered n us).*2 = us.
Proof.
  revert n. induction us as [|u us IH]; intros n; [done|].
  by rewrite numbered_cons_q, fmap_cons, IH.
Qed.
Lemma numbered_below n us : Forall (λ kv, kv.1 < n + Z.of_nat (length us)) (numbered n us).
Proof.
  revert n. induction us as [|u us IH]; intros n; [constructor|].
  rewrite numbered_cons_q. cbn [length]. constructor; [simpl; lia|].
  eapply Forall_impl; [apply IH|]. intros x. simpl. lia.
Qed.
Lemma numbered_snoc n us u :
  qm_set (n + Z.of_nat (length us)) u (numbered n us) = numbered n (us ++ [u]).
Proof.
  rewrite qm_set_end by apply numbered_below. rewrite numbered_app_q. f_equal.
  unfold numbered. simpl. by rewrite Z.add_0_r.
Qed.
Lemma numbered_has n us k : n + Z.of_nat (length us) ≤ k → qm_has k (numbered n us) = false.
Proof.
  intros H. unfold qm_has. apply not_true_iff_false. rewrite existsb_exists.
  intros (x & Hx%list_elem_of_In & E%Z.eqb_eq).
  pose proof (numbered_below n us) as Hb. rewrite Forall_forall in Hb.
  specialize (Hb x Hx). simpl in Hb. lia.
Qed.

(** The two scans on numbered messages. *)
Definition payload (us : list MEMarketUpdate) : list MEMarketUpdate :=
  filter (λ u, is_marker u = false) us.

Lemma scan_snapshot_numbered n us :
  0 ≤ n → n + Z.of_nat (length us) < 2 ^ 64 → scan_snapshot n (numbered n us) = Some (payload us).
Proof.
  revert n. induction us as [|u us IH]; intros n H0 H; [done|].
  cbn [length] in H. rewrite numbered_cons_q. cbn [scan_snapshot]. rewrite Z.eqb_refl.
  cbn [negb]. rewrite u64_id, IH by lia. cbn [mbind option_bind]. unfold payload.
  destruct (is_marker u) eqn:E.
  - by rewrite filter_cons_False by congruence.
  - by rewrite filter_cons_True.
Qed.

(** Conversely, a scan that meets no gap saw consecutive numbers. *)
Lemma scan_snapshot_Some n m ev :
  0 ≤ n → n + Z.of_nat (length m) < 2 ^ 64 → scan_snapshot n m = Some ev →
  m = numbered n m.*2 ∧ ev = payload m.*2.
Proof.
  revert n ev. induction m as [|[k u] m IH]; intros n ev H0 H E; [by injection E as <-|].
  cbn [length scan_snapshot] in *. destruct (k =? n) eqn:Ek; [|done].
  apply Z.eqb_eq in Ek as ->. cbn [negb] in E. rewrite u64_id in E by lia.
  destruct (scan_snapshot (n + 1) m) as [ev'|] eqn:E'; [|done].
  cbn [mbind option_bind] in E. injection E as <-.
  destruct (IH (n + 1) ev') as [Hm ->]; [lia|lia|exact E'|].
  rewrite fmap_cons, numbered_cons_q. cbn [snd]. split; [by rewrite <-Hm|]. unfold payload.
  destruct (is_marker u) eqn:Eu.
  - by rewrite filter_cons_False by congruence.
  - by rewrite filter_cons_True.
Qed.

Lemma scan_incremental_old next m rest :
  Forall (λ kv, kv.1 < next) m → scan_incremental next (m ++ rest) = scan_incremental next rest.
Proof.
  induction 1 as [|[k u] m Hk _ IH]; [done|]. cbn [app scan_incremental fst] in *.
  by rewrite (proj2 (Z.ltb_lt _ _)).
Qed.

Lemma scan_incremental_numbered n us :
  0 ≤ n → n + Z.of_nat (length us) < 2 ^ 64 →
  scan_incremental n (numbered n us) = (true, n + Z.of_nat (length us), payload us).
Proof.
  revert n. induction us as [|u us IH]; intros n H0 H; [by rewrite Z.add_0_r|].
  cbn [length] in *. rewrite numbered_cons_q. cbn [scan_incremental].
  rewrite Z.ltb_irrefl, Z.eqb_refl. cbn [negb]. rewrite u64_id, IH by lia. unfold payload.
  f_equal; [f_equal; lia|]. destruct (is_marker u) eqn:E.
  - by rewrite filter_cons_False by congruence.
  - by rewrite filter_cons_True.
Qed.

(** The queued messages from [first] on, seen from a later [next]. *)
Lemma scan_incremental_from first next us :
  0 ≤ first ≤ next → next ≤ first + Z.of_nat (length us) → first + Z.of_nat (length us) < 2 ^ 64 →
  scan_incremental next (numbered first us) =
    (true, first + Z.of_nat (length us), payload (drop (Z.to_nat (next - first)) us)).
Proof.
  intros [H0 Hf] Hn Hlt. set (k := Z.to_nat (next - first)).
  rewrite <-(take_drop k us) at 1. rewrite numbered_app_q, length_take_le by lia.
  rewrite scan_incremental_old.
  - replace (first + Z.of_nat k) with next by lia.
    rewrite scan_incremental_numbered; rewrite ?length_drop; [|lia|lia].
    f_equal. f_equal. lia.
  - eapply Forall_impl; [apply numbered_below|]. intros x. rewrite length_take_le by lia. lia.
Qed.

Lemma filter_ext_in {A} (P Q : A → Prop) `{!∀ x, Decision (P x), !∀ x, Decision (Q x)} (l : list A) :
  (∀ x, x ∈ l → P x ↔ Q x) → filter P l = filter Q l.
Proof.
  induction l as [|x l IH]; intros HPQ; [done|]. pose proof (HPQ x ltac:(by left)) as Hx.
  rewrite !filter_cons, IH by (intros y Hy; apply HPQ; by right).
  repeat case_decide; tauto || done.
Qed.

(** What a scan of sorted incremental messages that met no gap went over. *)
Lemma scan_incremental_Some next m n ev :
  qm_sorted m → Forall (λ kv, kv.1 < 2 ^ 64 - 1) m → 0 ≤ next →
  scan_incremental next m = (true, n, ev) →
  ∃ news, filter (λ kv, next ≤ kv.1) m = numbered next news ∧
    n = next + Z.of_nat (length news) ∧ ev = payload news.
Proof.
  intros Hs. revert next n ev. induction Hs as [|[k u] m Hs IH Hf]; intros next n ev Hb H0 E.
  - injection E as <- <-. exists []. rewrite Z.add_0_r. done.
  - apply Forall_cons in Hb as [Hk Hb]. cbn [fst scan_incremental] in *.
    destruct (k <? next) eqn:E1; [apply Z.ltb_lt in E1|apply Z.ltb_ge in E1].
    + rewrite filter_cons_False by (simpl; lia). by apply IH.
    + destruct (k =? next) eqn:E2; cbn [negb] in E; [|done]. apply Z.eqb_eq in E2 as ->.
      rewrite u64_id in E by lia.
      destruct (scan_incremental (next + 1) m) as [[ok n'] ev'] eqn:E'.
      injection E as -> -> <-. destruct (IH (next + 1) n ev') as (news & Hn & -> & ->);
        [done|lia|done|].
      exists (u :: news). rewrite filter_cons_True by (simpl; lia). rewrite numbered_cons_q.
      split; [|split; [cbn [length]; lia|]].
      * f_equal. rewrite <-Hn. apply filter_ext_in. intros [k' u'] Hx. simpl.
        rewrite Forall_forall in Hf. specialize (Hf _ Hx). simpl in Hf. lia.
      * unfold payload. destruct (is_marker u) eqn:Eu.
        -- by rewrite filter_cons_False by congruence.
        -- by rewrite filter_cons_True.
Qed.
