(* ===== verification/Recovery.v ===== *)
(** * Recovery: the client resynchronises with the exchange

    What [MarketDataConsumer] forwards to the trade engine: the incremental stream while it
    has no gap, and after a gap a complete snapshot followed by exactly the incremental
    updates the snapshot does not contain. *)
From S2P Require Import Prelude Types MemPool Wire Sockets LFQueue SnapshotSynthesizer.
From S2P Require Import MarketDataPublisher MarketDataConsumer.

(** A message as the loop of [recvCallback] sees it: is it from the snapshot stream? *)
Abbreviation Message := (bool * MDPMarketUpdate)%type (only parsing).

Lemma payload_app us vs : payload (us ++ vs) = payload us ++ payload vs.
Proof. apply filter_app. Qed.
Lemma payload_marker u us : is_marker u = true → payload (u :: us) = payload us.
Proof. intros H. unfold payload. by rewrite filter_cons_False by congruence. Qed.
Lemma payload_all us : Forall (λ u, is_marker u = false) us → payload us = us.
Proof.
  induction 1 as [|u us Hu _ IH]; [done|]. unfold payload in *.
  by rewrite filter_cons_True, IH.
Qed.

Section Consume.
Context (snapshot_fd : Z) (joined : bool).

Definition consume (c : MarketDataConsumer) (ms : list Message) : Res MarketDataConsumer :=
  fold_res (λ c m, on_market_update snapshot_fd joined m.1 c m.2) c ms.

Lemma consume_app c ms ms' :
  consume c (ms ++ ms') = (c ← consume c ms; consume c ms').
Proof. apply fold_res_app. Qed.

Lemma consume_cons c m ms :
  consume c (m :: ms) = (c ← on_market_update snapshot_fd joined m.1 c m.2; consume c ms).
Proof. done. Qed.

Lemma consume_flag b c rs :
  consume c ((λ r, (b, r)) <$> rs) = fold_res (on_market_update snapshot_fd joined b) c rs.
Proof.
  unfold consume. revert c. induction rs as [|r rs IH]; intros c; [done|].
  rewrite fmap_cons. cbn [fold_res fst snd].
  destruct (on_market_update _ _ _ _ _); cbn [mbind Res_bind]; auto.
Qed.

(** A datagram of whole messages on a socket without leftovers. *)
Lemma md_receive_messages c socket ms :
  let is_snapshot := socket_fd_ (c_socket c socket) =? socket_fd_ (snapshot_mcast_socket_ c) in
  inbound_data_ (c_socket c socket) = [] → ms ≠ [] → Forall c_ok ms →
  Z.of_nat (length (encode_all ms)) ≤ McastBufferSize →
  is_snapshot && negb (in_recovery_ c) = false →
  md_receive snapshot_fd joined c socket (encode_all ms) =
    (c ← consume (c_with_inbound c socket (encode_all ms)) ((λ m, (is_snapshot, m)) <$> ms);
     Ok (c_with_inbound c socket [])).
Proof.
  cbn zeta. intros Hin Hne Hok Hfit Hexp. unfold md_receive, socket_recv, next_rcv_valid_index_.
  rewrite Hin. cbn [length app]. rewrite take_ge by lia.
  assert (length (encode_all ms) = (42 * length ms)%nat) as Hlen.
  { clear. unfold encode_all. induction ms as [|m ms IH]; [done|]. rewrite fmap_cons.
    cbn [concat length]. rewrite length_app, IH, c_enc_length, MDPMarketUpdate_size. lia. }
  assert (0 < length ms)%nat as Hpos by (destruct ms; [done|simpl; lia]).
  rewrite bool_decide_eq_false_2 by (intros E; rewrite E in Hlen; simpl in Hlen; lia).
  cbn [negb]. cbn [with_inbound inbound_data_]. unfold md_recvCallback.
  set (c1 := c_with_inbound c socket (encode_all ms)).
  assert (socket_fd_ (c_socket c1 socket) = socket_fd_ (c_socket c socket) ∧
          socket_fd_ (snapshot_mcast_socket_ c1) = socket_fd_ (snapshot_mcast_socket_ c) ∧
          in_recovery_ c1 = in_recovery_ c ∧
          inbound_data_ (c_socket c1 socket) = encode_all ms) as (-> & -> & -> & ->).
  { unfold c1. by destruct socket. }
  rewrite Hexp. unfold next_rcv_valid_index_.
  assert (inbound_data_ (c_socket c1 socket) = encode_all ms) as -> by by destruct socket.
  rewrite (proj2 (Z.ltb_ge _ _)) by (rewrite Hlen, MDPMarketUpdate_size; lia).
  destruct (recv_prefix (A := MDPMarketUpdate) ltac:(rewrite MDPMarketUpdate_size; lia) ms
    (encode_all ms) [] Hok) as (ms1 & ms2 & rest & Hms & Hrecv & Hrest).
  { by rewrite app_nil_r. }
  rewrite Hrecv. cbn [mbind Res_bind]. rewrite app_nil_r in Hrest.
  assert (ms2 = [] ∧ rest = []) as [-> ->].
  { unfold recv_messages in Hrecv. destruct (frames _ (encode_all ms)) as [fs r] eqn:Ef.
    apply frames_rest in Ef as (Hl & _); [|rewrite MDPMarketUpdate_size; lia].
    apply (f_equal snd) in Hrecv. cbn [snd] in Hrecv. subst r.
    destruct ms2 as [|m ms2]; [by rewrite <-Hrest|]. exfalso. rewrite <-Hrest in Hl.
    unfold encode_all in Hl. rewrite fmap_cons in Hl. cbn [concat] in Hl.
    rewrite length_app, c_enc_length in Hl. lia. }
  rewrite app_nil_r in Hms. subst ms1. by rewrite consume_flag.
Qed.

(** ** In step *)
Lemma consume_in_order c us :
  in_recovery_ c = false → 0 ≤ next_exp_inc_seq_num_ c →
  next_exp_inc_seq_num_ c + Z.of_nat (length us) < 2 ^ 64 →
  consume c ((λ m, (false, m)) <$> numbered_updates (next_exp_inc_seq_num_ c) us) =
  Ok (c_with_next (c_with_out c (lfq_push_all (incoming_md_updates_ c) us))
        (next_exp_inc_seq_num_ c + Z.of_nat (length us))).
Proof.
  revert c. induction us as [|u us IH]; intros c Hr H0 Hlt.
  - unfold consume. cbn [numbered_updates imap fmap list_fmap fold_res length]. f_equal.
    rewrite Z.add_0_r. by destruct c.
  - cbn [length] in Hlt. rewrite numbered_updates_cons, fmap_cons, consume_cons.
    cbn [fst snd].
    set (c1 := c_with_out (c_with_next c (next_exp_inc_seq_num_ c + 1))
                 (lfq_push (incoming_md_updates_ c) u)).
    assert (on_market_update snapshot_fd joined false c
      (mkMDPMarketUpdate (next_exp_inc_seq_num_ c) u) = Ok c1) as ->.
    { unfold on_market_update. cbn [mdp_seq_num mdp_update].
      rewrite Hr, Z.eqb_refl. cbn [negb orb]. unfold c1, c_with_recovery, c_with_next, c_with_out.
      cbn. rewrite u64_id by lia. by rewrite <-Hr. }
    cbn [mbind Res_bind].
    change (next_exp_inc_seq_num_ c + 1) with (next_exp_inc_seq_num_ c1).
    rewrite IH; [|exact Hr| |]; unfold c1; cbn [c_with_out c_with_next next_exp_inc_seq_num_];
      [|lia|lia].
    f_equal. unfold c_with_next, c_with_out. cbn. f_equal. lia.
Qed.

(** ** Recovering

    In recovery, with the snapshot messages [sn] and the incremental messages [inc] (the
    first one numbered [a]) queued since it started. *)
Record recovering (c0 : MarketDataConsumer) (a : Z) (sn inc : list MEMarketUpdate)
    (c : MarketDataConsumer) : Prop := {
  rc_flag : in_recovery_ c = true;
  rc_snap : snapshot_queued_msgs_ c = numbered 0 sn;
  rc_inc : incremental_queued_msgs_ c = numbered a inc;
  rc_out : incoming_md_updates_ c = incoming_md_updates_ c0
}.

(** A part of a cycle that is not yet complete. *)
Definition opening (sn : list MEMarketUpdate) : Prop :=
  match sn with
  | [] => True
  | u :: us => mu_type u = MarketUpdateType.SNAPSHOT_START ∧
               Forall (λ v, is_marker v = false) us
  end.

Lemma opening_last sn u us : sn = u :: us → opening sn →
  ∀ first, bool_decide (mu_type (default first (snd <$> last (numbered 0 sn))) =
                        MarketUpdateType.SNAPSHOT_END) = false.
Proof.
  intros -> [Hs Hm] first. apply bool_decide_eq_false_2.
  destruct us as [|v us' _] using rev_ind.
  - cbn. by rewrite Hs.
  - rewrite app_comm_cons, numbered_app_q, last_app. unfold numbered at 1. cbn.
    apply Forall_app in Hm as [_ Hm]. apply Forall_cons in Hm as [Hm _]. unfold is_marker in Hm.
    apply orb_false_iff in Hm as [_ Hm]. by apply bool_decide_eq_false in Hm.
Qed.

(** Nothing happens before the cycle is complete. *)
Lemma checkSnapshotSync_wait c sn :
  snapshot_queued_msgs_ c = numbered 0 sn → opening sn → Z.of_nat (length sn) < 2 ^ 64 →
  checkSnapshotSync c = c.
Proof.
  intros Hq Ho Hl. unfold checkSnapshotSync. rewrite Hq. destruct sn as [|u us]; [done|].
  pose proof (opening_last _ _ _ eq_refl Ho) as Hlast.
  destruct Ho as [Hs Hm]. rewrite scan_snapshot_numbered by lia.
  rewrite numbered_cons_q in Hlast |- *. rewrite Hs, Hlast.
  by rewrite bool_decide_eq_true_2.
Qed.

Lemma recovering_inc c0 a sn inc c u :
  recovering c0 a sn inc c → opening sn → Z.of_nat (length sn) < 2 ^ 64 →
  ∃ c', on_market_update snapshot_fd joined false c
      (mkMDPMarketUpdate (a + Z.of_nat (length inc)) u) = Ok c' ∧
    recovering c0 a sn (inc ++ [u]) c'.
Proof.
  intros [Hf Hs Hi Ho] Hop Hl. unfold on_market_update. rewrite Hf.
  cbn [orb negb mbind Res_bind]. eexists. split; [reflexivity|]. unfold queueMessage, enqueue.
  cbn [mdp_seq_num mdp_update].
  rewrite (checkSnapshotSync_wait _ sn); [|exact Hs|exact Hop|exact Hl].
  split; [reflexivity|exact Hs| |exact Ho].
  cbn. rewrite Hi. apply numbered_snoc.
Qed.

Lemma recovering_snap c0 a sn inc c u :
  recovering c0 a sn inc c → opening (sn ++ [u]) → Z.of_nat (length sn) + 1 < 2 ^ 64 →
  ∃ c', on_market_update snapshot_fd joined true c
      (mkMDPMarketUpdate (Z.of_nat (length sn)) u) = Ok c' ∧
    recovering c0 a (sn ++ [u]) inc c'.
Proof.
  intros [Hf Hs Hi Ho] Hop Hl. unfold on_market_update. rewrite Hf.
  cbn [orb negb mbind Res_bind]. eexists. split; [reflexivity|]. unfold queueMessage, enqueue.
  cbn [mdp_seq_num mdp_update c_with_recovery snapshot_queued_msgs_ incremental_queued_msgs_].
  rewrite Hs, numbered_has by lia.
  pose proof (numbered_snoc 0 sn u) as Hsn. rewrite Z.add_0_l in Hsn. rewrite Hsn.
  rewrite (checkSnapshotSync_wait _ (sn ++ [u])); [|reflexivity|exact Hop|].
  2: { rewrite length_app. cbn [length]. lia. }
  split; [reflexivity|reflexivity|exact Hi|exact Ho].
Qed.

(** The END message completes the cycle. *)
Lemma recovering_end c0 a sn inc c last :
  recovering c0 a sn inc c → opening sn → sn ≠ [] → Z.of_nat (length sn) + 1 < 2 ^ 64 →
  0 ≤ a ≤ last + 1 → last + 1 ≤ a + Z.of_nat (length inc) →
  a + Z.of_nat (length inc) < 2 ^ 64 → Forall (λ u, is_marker u = false) inc →
  ∃ c', on_market_update snapshot_fd joined true c
      (mkMDPMarketUpdate (Z.of_nat (length sn)) (marker MarketUpdateType.SNAPSHOT_END last))
      = Ok c' ∧
    in_recovery_ c' = false ∧ next_exp_inc_seq_num_ c' = a + Z.of_nat (length inc) ∧
    snapshot_queued_msgs_ c' = [] ∧ incremental_queued_msgs_ c' = [] ∧
    socket_fd_ (snapshot_mcast_socket_ c') = -1 ∧
    incoming_md_updates_ c' = lfq_push_all (incoming_md_updates_ c0)
      (tail sn ++ drop (Z.to_nat (last + 1 - a)) inc).
Proof.
  intros [Hf Hs Hi Ho] Hop Hne Hl Ha Hlast Hlt Hinc. unfold on_market_update. rewrite Hf.
  cbn [orb negb mbind Res_bind]. eexists. split; [reflexivity|]. unfold queueMessage, enqueue.
  cbn [mdp_seq_num mdp_update c_with_recovery snapshot_queued_msgs_ incremental_queued_msgs_].
  rewrite Hs, numbered_has by lia.
  set (end_msg := marker MarketUpdateType.SNAPSHOT_END last).
  pose proof (numbered_snoc 0 sn end_msg) as Hsn. rewrite Z.add_0_l in Hsn. rewrite Hsn.
  unfold checkSnapshotSync. cbn [c_with_queues snapshot_queued_msgs_ incremental_queued_msgs_].
  rewrite scan_snapshot_numbered by (rewrite ?length_app; cbn [length]; lia).
  destruct sn as [|st sn]; [done|]. destruct Hop as [Hst Hsnm].
  assert (∀ f, default f (snd <$> list.last (numbered 0 ((st :: sn) ++ [end_msg]))) = end_msg)
    as Hdef.
  { intros f. rewrite numbered_app_q, last_app. reflexivity. }
  rewrite <-app_comm_cons, numbered_cons_q in Hdef.
  rewrite <-app_comm_cons. rewrite payload_marker by (unfold is_marker; by rewrite Hst).
  rewrite payload_app, (payload_all sn) by done.
  rewrite (payload_marker end_msg []), numbered_cons_q, Hdef, Hst by done.
  change (mu_type end_msg) with MarketUpdateType.SNAPSHOT_END.
  change (mu_order_id end_msg) with last.
  rewrite !bool_decide_eq_true_2 by done. cbn [negb].
  rewrite Hi, u64_id, scan_incremental_from by lia. cbn [negb].
  rewrite (payload_all (drop _ inc)) by by apply Forall_drop.
  cbn [c_with_queues c_with_recovery c_with_out c_with_next c_with_snapshot_socket
       incoming_md_updates_ in_recovery_ next_exp_inc_seq_num_ snapshot_queued_msgs_
       incremental_queued_msgs_ snapshot_mcast_socket_ with_fd socket_fd_ tail].
  rewrite Ho. change (payload []) with (@nil MEMarketUpdate). rewrite app_nil_r.
  split_and!; reflexivity.
Qed.
End Consume.

(** ** Interleaved streams

    [interleave inc snap ms]: [ms] is a merge of an incremental and a snapshot stream. *)
Inductive interleave : list MDPMarketUpdate → list MDPMarketUpdate → list Message → Prop :=
  | il_nil : interleave [] [] []
  | il_inc x xs ys zs : interleave xs ys zs → interleave (x :: xs) ys ((false, x) :: zs)
  | il_snap y xs ys zs : interleave xs ys zs → interleave xs (y :: ys) ((true, y) :: zs).

Section Recover.
Context (snapshot_fd : Z) (joined : bool).
Abbreviation consume := (consume snapshot_fd joined).

Lemma recovering_run c0 a xs ys ms :
  interleave xs ys ms → ∀ sn inc vs us c,
  xs = numbered_updates (a + Z.of_nat (length inc)) us →
  ys = numbered_updates (Z.of_nat (length sn)) vs →
  recovering c0 a sn inc c → opening (sn ++ vs) → Z.of_nat (length sn + length vs) < 2 ^ 64 →
  ∃ c', consume c ms = Ok c' ∧ recovering c0 a (sn ++ vs) (inc ++ us) c'.
Proof.
  induction 1 as [|x xs ys zs Hil IH|y xs ys zs Hil IH]; intros sn inc vs us c Hx Hy Hc Hop Hl.
  - destruct us; [|by rewrite numbered_updates_cons in Hx].
    destruct vs; [|by rewrite numbered_updates_cons in Hy].
    exists c. rewrite !app_nil_r. done.
  - destruct us as [|u us]; [done|]. rewrite numbered_updates_cons in Hx.
    injection Hx as -> Hx. rewrite consume_cons. cbn [fst snd].
    destruct (recovering_inc snapshot_fd joined c0 a sn inc c u Hc) as (c1 & -> & Hc1).
    { destruct sn as [|s sn]; [done|]. destruct Hop as [Hs Hm]. split; [exact Hs|].
      by apply Forall_app in Hm as [Hm _]. }
    { lia. }
    cbn [mbind Res_bind].
    destruct (IH sn (inc ++ [u]) vs us c1) as (c' & Hrun & Hc'); try done.
    { rewrite length_app. cbn [length]. rewrite Hx. f_equal. lia. }
    exists c'. split; [exact Hrun|]. by rewrite <-app_assoc in Hc'.
  - destruct vs as [|v vs]; [done|]. rewrite numbered_updates_cons in Hy.
    injection Hy as -> Hy. rewrite consume_cons. cbn [fst snd length] in *.
    destruct (recovering_snap snapshot_fd joined c0 a sn inc c v Hc) as (c1 & -> & Hc1).
    { destruct sn as [|s sn]; destruct Hop as [Hs Hm]; split; try done.
      apply Forall_app in Hm as [Hm1 Hm2]. apply Forall_app. split; [exact Hm1|].
      apply Forall_cons in Hm2 as [Hv _]. by repeat constructor. }
    { lia. }
    cbn [mbind Res_bind].
    destruct (IH (sn ++ [v]) inc vs us c1) as (c' & Hrun & Hc'); try done.
    { rewrite length_app. cbn [length]. rewrite Hy. f_equal. lia. }
    { by rewrite <-app_assoc. }
    { rewrite length_app. cbn [length]. lia. }
    exists c'. split; [exact Hrun|]. by rewrite <-app_assoc in Hc'.
Qed.

(** The first message out of sequence starts the recovery. *)
Lemma enter_recovery c a u :
  in_recovery_ c = false → a ≠ next_exp_inc_seq_num_ c → 0 ≤ snapshot_fd → joined = true →
  ∃ c', on_market_update snapshot_fd joined false c (mkMDPMarketUpdate a u) = Ok c' ∧
    recovering c a [] [u] c'.
Proof.
  intros Hr Hne Hfd Hj. unfold on_market_update. cbn [mdp_seq_num]. rewrite Hr.
  rewrite (proj2 (Z.eqb_neq _ _)) by done. cbn [orb negb]. unfold startSnapshotSync.
  rewrite Hj, Z.geb_leb, (proj2 (Z.leb_le _ _)) by done. cbn [ASSERT mbind Res_bind].
  eexists. split; [reflexivity|]. unfold queueMessage, enqueue. cbn [mdp_seq_num mdp_update].
  rewrite (checkSnapshotSync_wait _ []) by done. split; try reflexivity.
  unfold numbered. cbn. by rewrite Z.add_0_r.
Qed.
End Recover.

Lemma consumer_recovers_spec snapshot_fd joined c a u inc body last ms :
  in_recovery_ c = false → a ≠ next_exp_inc_seq_num_ c → 0 ≤ snapshot_fd → joined = true →
  Forall (λ u, is_marker u = false) (u :: inc) → Forall (λ u, is_marker u = false) body →
  interleave (numbered_updates (a + 1) inc)
    (numbered_updates 0 (marker MarketUpdateType.SNAPSHOT_START last :: body)) ms →
  0 ≤ a ≤ last + 1 → last ≤ a + Z.of_nat (length inc) →
  a + Z.of_nat (length inc) < 2 ^ 64 - 1 → Z.of_nat (length body) < 2 ^ 63 →
  ∃ c', consume snapshot_fd joined c ((false, mkMDPMarketUpdate a u) :: ms ++
      [(true, mkMDPMarketUpdate (Z.of_nat (length body) + 1)
                (marker MarketUpdateType.SNAPSHOT_END last))]) = Ok c' ∧
    in_recovery_ c' = false ∧
    next_exp_inc_seq_num_ c' = a + Z.of_nat (length inc) + 1 ∧
    incoming_md_updates_ c' = lfq_push_all (incoming_md_updates_ c)
      (body ++ drop (Z.to_nat (last + 1 - a)) (u :: inc)) ∧
    snapshot_queued_msgs_ c' = [] ∧ incremental_queued_msgs_ c' = [] ∧
    socket_fd_ (snapshot_mcast_socket_ c') = -1.
Proof.
  intros Hr Hne Hfd Hj Hinc Hbody Hil Ha Hl Hlt Hbl.
  destruct (enter_recovery snapshot_fd joined c a u Hr Hne Hfd Hj) as (c1 & H1 & Hc1).
  rewrite consume_cons. cbn [fst snd]. rewrite H1. cbn [mbind Res_bind]. rewrite consume_app.
  destruct (recovering_run snapshot_fd joined c a _ _ ms Hil [] [u]
    (marker MarketUpdateType.SNAPSHOT_START last :: body) inc c1)
    as (c2 & -> & Hc2); try done.
  { cbn [length]. lia. }
  cbn [mbind Res_bind app] in *. rewrite consume_cons. cbn [fst snd].
  destruct (recovering_end snapshot_fd joined c a _ _ c2 last Hc2)
    as (c3 & H3 & Hr3 & Hn3 & Hs3 & Hi3 & Hf3 & Ho3); try done.
  { cbn [length]. lia. }
  { cbn [length]. lia. }
  { cbn [length]. lia. }
  cbn [length] in H3, Hn3. rewrite Nat2Z.inj_succ in H3. rewrite <-Z.add_1_r in H3.
  rewrite H3. cbn [mbind Res_bind]. exists c3. split; [reflexivity|].
  split_and!; [exact Hr3|lia|exact Ho3|exact Hs3|exact Hi3|exact Hf3].
Qed.

(** ** Theorems *)

(** Without a gap the incremental stream goes through: a datagram of consecutively
    numbered updates, starting at the number the consumer expects, is forwarded to the
    trade engine update by update, and the consumer stays out of recovery. *)
Theorem consumer_in_step snapshot_fd joined c us :
  in_recovery_ c = false → inbound_data_ (incremental_mcast_socket_ c) = [] → us ≠ [] →
  socket_fd_ (incremental_mcast_socket_ c) ≠ socket_fd_ (snapshot_mcast_socket_ c) →
  let ms := numbered_updates (next_exp_inc_seq_num_ c) us in
  Forall c_ok ms → Z.of_nat (length (encode_all ms)) ≤ McastBufferSize →
  0 ≤ next_exp_inc_seq_num_ c → next_exp_inc_seq_num_ c + Z.of_nat (length us) < 2 ^ 64 →
  ∃ c', md_receive snapshot_fd joined c false (encode_all ms) = Ok c' ∧
    in_recovery_ c' = false ∧
    next_exp_inc_seq_num_ c' = next_exp_inc_seq_num_ c + Z.of_nat (length us) ∧
    incoming_md_updates_ c' = lfq_push_all (incoming_md_updates_ c) us.
Proof.
  cbn zeta. intros Hr Hin Hne Hfd Hok Hfit H0 Hlt.
  apply Z.eqb_neq in Hfd. rewrite md_receive_messages.
  - cbn [c_socket]. rewrite Hfd.
    set (c1 := c_with_inbound _ _ _).
    pose proof (consume_in_order snapshot_fd joined c1 us Hr H0 Hlt) as Hc.
    change (next_exp_inc_seq_num_ c1) with (next_exp_inc_seq_num_ c) in Hc. rewrite Hc.
    cbn [mbind Res_bind]. eexists. split; [reflexivity|]. split_and!; [exact Hr|reflexivity..].
  - exact Hin.
  - destruct us; [done|]. by rewrite numbered_updates_cons.
  - exact Hok.
  - exact Hfit.
  - cbn [c_socket]. by rewrite Hfd.
Qed.

(** Recovery completes: after a gap the consumer queues both streams, and when the last
    message of a snapshot cycle arrives — whatever the interleaving, provided the snapshot
    is not older than the first incremental update queued — it forwards the orders of the
    snapshot followed by exactly the incremental updates that came after it, expects the
    next one, and leaves the snapshot stream.  No message before that is forwarded. *)
Theorem consumer_recovers snapshot_fd joined c a u inc body last ms :
  in_recovery_ c = false → a ≠ next_exp_inc_seq_num_ c → 0 ≤ snapshot_fd → joined = true →
  Forall (λ u, is_marker u = false) (u :: inc) → Forall (λ u, is_marker u = false) body →
  interleave (numbered_updates (a + 1) inc)
    (numbered_updates 0 (marker MarketUpdateType.SNAPSHOT_START last :: body)) ms →
  0 ≤ a ≤ last + 1 → last ≤ a + Z.of_nat (length inc) →
  a + Z.of_nat (length inc) < 2 ^ 64 - 1 → Z.of_nat (length body) < 2 ^ 63 →
  ∃ c', consume snapshot_fd joined c ((false, mkMDPMarketUpdate a u) :: ms ++
      [(true, mkMDPMarketUpdate (Z.of_nat (length body) + 1)
                (marker MarketUpdateType.SNAPSHOT_END last))]) = Ok c' ∧
    in_recovery_ c' = false ∧
    next_exp_inc_seq_num_ c' = a + Z.of_nat (length inc) + 1 ∧
    incoming_md_updates_ c' = lfq_push_all (incoming_md_updates_ c)
      (body ++ drop (Z.to_nat (last + 1 - a)) (u :: inc)) ∧
    snapshot_queued_msgs_ c' = [] ∧ incremental_queued_msgs_ c' = [] ∧
    socket_fd_ (snapshot_mcast_socket_ c') = -1.
Proof. apply consumer_recovers_spec. Qed.

(** C27: Recovery is sound, whatever was lost, duplicated or reordered: if a message ends the
    recovery, then the snapshot messages queued (with it) are a complete cycle, numbered
    without a gap from 0, from a SNAPSHOT_START to a SNAPSHOT_END; the incremental messages
    queued from the number after the snapshot's on have no gap either; and exactly the
    orders of that cycle followed by those incremental updates are forwarded.  A message
    that does not end the recovery forwards nothing. *)
Theorem recovery_sound c is_snapshot m :
  let q := enqueue c is_snapshot m in
  let c' := queueMessage c is_snapshot m in
  in_recovery_ c = true → qm_sorted (incremental_queued_msgs_ q) →
  Forall (λ kv, kv.1 < 2 ^ 64 - 1) (incremental_queued_msgs_ q) →
  Z.of_nat (length (snapshot_queued_msgs_ q)) < 2 ^ 64 →
  if in_recovery_ c' then incoming_md_updates_ c' = incoming_md_updates_ c
  else ∃ first rest last news,
    snapshot_queued_msgs_ q = numbered 0 (first :: rest) ∧
    mu_type first = MarketUpdateType.SNAPSHOT_START ∧
    list.last (first :: rest) = Some last ∧ mu_type last = MarketUpdateType.SNAPSHOT_END ∧
    filter (λ kv, u64 (mu_order_id last + 1) ≤ kv.1) (incremental_queued_msgs_ q) =
      numbered (u64 (mu_order_id last + 1)) news ∧
    next_exp_inc_seq_num_ c' = u64 (mu_order_id last + 1) + Z.of_nat (length news) ∧
    incoming_md_updates_ c' = lfq_push_all (incoming_md_updates_ c)
      (payload (first :: rest) ++ payload news).
Proof.
  cbn zeta. intros Hr Hs Hb Hl. unfold queueMessage.
  assert (in_recovery_ (enqueue c is_snapshot m) = true ∧
          incoming_md_updates_ (enqueue c is_snapshot m) = incoming_md_updates_ c) as [Hr' Ho'].
  { unfold enqueue. by destruct is_snapshot. }
  set (q := enqueue c is_snapshot m) in *. unfold checkSnapshotSync.
  destruct (snapshot_queued_msgs_ q) as [|[k first] snap] eqn:Eq; [by rewrite Hr'|].
  destruct (decide (mu_type first = MarketUpdateType.SNAPSHOT_START)) as [Hst|Hst];
    [rewrite bool_decide_eq_true_2 by done|rewrite bool_decide_eq_false_2 by done]; cbn [negb].
  2: { cbn [c_with_queues in_recovery_ incoming_md_updates_]. by rewrite Hr'. }
  destruct (scan_snapshot 0 ((k, first) :: snap)) as [events|] eqn:Es.
  2: { cbn [c_with_queues in_recovery_ incoming_md_updates_]. by rewrite Hr'. }
  apply scan_snapshot_Some in Es as [Hnum ->]; [|lia|lia].
  set (last := default first (snd <$> list.last ((k, first) :: snap))).
  destruct (decide (mu_type last = MarketUpdateType.SNAPSHOT_END)) as [Hen|Hen];
    [rewrite bool_decide_eq_true_2 by done|rewrite bool_decide_eq_false_2 by done]; cbn [negb].
  2: { by rewrite Hr'. }
  destruct (scan_incremental _ _) as [[[] next] news_ev] eqn:Ei; cbn [negb].
  2: { cbn [c_with_queues c_with_next in_recovery_ incoming_md_updates_]. by rewrite Hr'. }
  apply scan_incremental_Some in Ei as (news & Hf & -> & ->); [|exact Hs|exact Hb|].
  2: { pose proof (u64_range (mu_order_id last + 1)). lia. }
  cbn [c_with_queues c_with_recovery c_with_out c_with_next c_with_snapshot_socket
       incoming_md_updates_ in_recovery_ next_exp_inc_seq_num_].
  exists first, snap.*2, last, news. rewrite Ho'. split_and!; try done.
  change (first :: snap.*2) with (((k, first) :: snap).*2). rewrite fmap_last. unfold last.
  destruct (list.last ((k, first) :: snap)) as [[k' l]|] eqn:El; [done|].
  by apply last_None in El.
Qed.

(** ** A recovery *)
Definition rec_update (t : MarketUpdateType.t) (o : OrderId) : MEMarketUpdate :=
  mkMEMarketUpdate t o 0 Side.BUY 100 5 1.
Definition rec_consumer : MarketDataConsumer :=
  MarketDataConsumer_new (LFQueue_new 16 MEMarketUpdate_default) 7.

Lemma consumer_in_step_witness :
  ∃ c', md_receive 9 true rec_consumer false
      (encode_all (numbered_updates 1 [rec_update MarketUpdateType.ADD 1])) = Ok c' ∧
    next_exp_inc_seq_num_ c' = 2.
Proof.
  destruct (consumer_in_step 9 true rec_consumer [rec_update MarketUpdateType.ADD 1])
    as (c' & H & _ & Hn & _).
  - reflexivity.
  - reflexivity.
  - discriminate.
  - by vm_compute.
  - repeat constructor; by vm_compute.
  - by vm_compute.
  - by vm_compute.
  - by vm_compute.
  - exists c'. split; [exact H|exact Hn].
Defined.

(** The consumer joins late: it first sees update 3, the snapshot was taken after 2. *)
Lemma consumer_recovers_witness :
  ∃ c', consume 9 true rec_consumer
      [(false, mkMDPMarketUpdate 3 (rec_update MarketUpdateType.ADD 3));
       (true, mkMDPMarketUpdate 0 (marker MarketUpdateType.SNAPSHOT_START 2));
       (false, mkMDPMarketUpdate 4 (rec_update MarketUpdateType.ADD 4));
       (true, mkMDPMarketUpdate 1 (rec_update MarketUpdateType.ADD 1));
       (true, mkMDPMarketUpdate 2 (marker MarketUpdateType.SNAPSHOT_END 2))] = Ok c' ∧
    next_exp_inc_seq_num_ c' = 5 ∧
    incoming_md_updates_ c' = lfq_push_all (LFQueue_new 16 MEMarketUpdate_default)
      [rec_update MarketUpdateType.ADD 1; rec_update MarketUpdateType.ADD 3;
       rec_update MarketUpdateType.ADD 4].
Proof.
  destruct (consumer_recovers 9 true rec_consumer 3 (rec_update MarketUpdateType.ADD 3)
    [rec_update MarketUpdateType.ADD 4] [rec_update MarketUpdateType.ADD 1] 2
    [(true, mkMDPMarketUpdate 0 (marker MarketUpdateType.SNAPSHOT_START 2));
     (false, mkMDPMarketUpdate 4 (rec_update MarketUpdateType.ADD 4));
     (true, mkMDPMarketUpdate 1 (rec_update MarketUpdateType.ADD 1))])
    as (c' & H & _ & Hn & Ho & _).
  - reflexivity.
  - by vm_compute.
  - lia.
  - reflexivity.
  - by repeat constructor.
  - by repeat constructor.
  - repeat constructor.
  - lia.
  - by vm_compute.
  - by vm_compute.
  - by vm_compute.
  - exists c'. split; [exact H|]. split; [exact Hn|exact Ho].
Defined.

Lemma recovery_sound_witness :
  let c := c_with_recovery (c_with_queues rec_consumer
    (numbered 0 [marker MarketUpdateType.SNAPSHOT_START 2; rec_update MarketUpdateType.ADD 1])
    (numbered 2 [rec_update MarketUpdateType.CANCEL 1; rec_update MarketUpdateType.ADD 3])) true in
  ∃ news, incoming_md_updates_ (queueMessage c true
      (mkMDPMarketUpdate 2 (marker MarketUpdateType.SNAPSHOT_END 2))) =
    lfq_push_all (LFQueue_new 16 MEMarketUpdate_default)
      (rec_update MarketUpdateType.ADD 1 :: payload news).
Proof.
  cbn zeta. set (c := c_with_recovery _ _).
  destruct (recovery_sound c true (mkMDPMarketUpdate 2 (marker MarketUpdateType.SNAPSHOT_END 2)))
    as (first & rest & last & news & H1 & _ & _ & _ & _ & _ & H2).
  - reflexivity.
  - repeat constructor; by vm_compute.
  - repeat constructor; by vm_compute.
  - by vm_compute.
  - exists news. rewrite H2. apply (f_equal (fmap snd)) in H1. rewrite numbered_snd in H1.
    vm_compute in H1. injection H1 as <- <-. reflexivity.
Defined.
