(* ===== verification/SnapshotRebuild.v ===== *)
(** * SnapshotRebuild: a book is determined by its live orders

    A snapshot lists the live orders of an instrument by increasing order id; the client's
    book keeps them by price and, within a price, in the order of their arrival.  Since ids
    grow with time, adding the listed orders to an empty book rebuilds the same book. *)
From S2P Require Import Prelude Types MemPool Ring PriceLevels BookInv LevelsAbs MarketOrderBook.
From S2P Require Import MarketBookSpec MarketBBO FeedMirror.

Implicit Types (l k : side_levels MarketInfo) (d : MarketInfo) (b : SpecMarket) (s : Side.t)
  (u : MEMarketUpdate).

(** ** One side *)

(** The order of a side: better prices first, then smaller ids. *)
Definition ahead s d d' : Prop :=
  better s (mi_price d) (mi_price d') ∨
  mi_price d = mi_price d' ∧ mi_order_id d < mi_order_id d'.

Definition level_good s (pd : Price * list MarketInfo) : Prop :=
  pd.2 ≠ [] ∧ Forall (λ d, mi_price d = pd.1 ∧ mi_side d = s) pd.2.

Record side_wf s l : Prop := {
  sw_levels : Forall (level_good s) l;
  sw_sorted : StronglySorted (ahead s) (level_orders l);
  sw_prices : NoDup l.*1
}.

#[export] Instance ahead_antisym s : AntiSymm (=) (ahead s).
Proof. intros d d'. unfold ahead. destruct s; simpl; lia. Qed.

Lemma level_good_in s l d :
  Forall (level_good s) l → d ∈ level_orders l → mi_price d ∈ l.*1 ∧ mi_side d = s.
Proof.
  intros Hl (p & ds & Hpd & Hd)%elem_of_level_orders. rewrite Forall_forall in Hl.
  destruct (Hl _ Hpd) as [_ Hds]. rewrite Forall_forall in Hds.
  destruct (Hds d Hd) as [-> Hs]. split; [|done]. by apply (list_elem_of_fmap_2 fst _ _ Hpd).
Qed.

Lemma level_good_price s l p :
  Forall (level_good s) l → p ∈ l.*1 → ∃ d, d ∈ level_orders l ∧ mi_price d = p.
Proof.
  intros Hl ([q ds] & -> & Hpd)%list_elem_of_fmap. rewrite Forall_forall in Hl.
  destruct (Hl _ Hpd) as [Hne Hds]. destruct ds as [|d ds]; [done|].
  apply Forall_cons in Hds as [[Hd _] _]. exists d. split; [|done].
  apply elem_of_level_orders. exists q, (d :: ds). split; [done|by left].
Qed.

Lemma side_wf_nil s : side_wf s [].
Proof. split; constructor. Qed.

Lemma side_wf_cons s p ds l :
  side_wf s ((p, ds) :: l) →
  side_wf s l ∧ StronglySorted (ahead s) ds ∧
  ∀ x y, x ∈ ds → y ∈ level_orders l → better s (mi_price x) (mi_price y).
Proof.
  intros [Hl Hs Hp]. apply Forall_cons in Hl as [[Hne Hds] Hl].
  rewrite level_orders_cons in Hs. apply StronglySorted_app in Hs as (Hxy & Hs1 & Hs2).
  rewrite fmap_cons in Hp. apply NoDup_cons in Hp as [Hno Hp].
  split; [by split|]. split; [done|]. intros x y Hx Hy.
  destruct (Hxy x y Hx Hy) as [H|[H _]]; [done|]. exfalso. apply Hno.
  rewrite Forall_forall in Hds. destruct (Hds x Hx) as [Hpx _]. simpl in *.
  destruct (level_good_in s l y Hl Hy) as [Hin _]. congruence.
Qed.

(** The order joins the first level, or makes a level in front of it. *)
Lemma side_wf_join s d ds l :
  side_wf s ((mi_price d, ds) :: l) → mi_side d = s →
  Forall (λ d', mi_order_id d' < mi_order_id d) ds → side_wf s ((mi_price d, ds ++ [d]) :: l).
Proof.
  intros Hwf Hsd Hid. destruct (side_wf_cons _ _ _ _ Hwf) as (Hwf' & Hss & Hbet).
  pose proof (sw_levels _ _ Hwf) as Hl. apply Forall_cons in Hl as [[Hne Hds] Hl]. cbn [fst snd] in *.
  rewrite Forall_forall in Hid. pose proof (proj1 (Forall_forall _ _) Hds) as Hds'. split.
  - constructor; [|done]. split; cbn [fst snd]; [by destruct ds|].
    apply Forall_app. split; [done|by repeat constructor].
  - rewrite level_orders_cons, <-app_assoc. apply StronglySorted_app_2; [|done|].
    + intros x y Hx [->|Hy]%elem_of_cons; [right|left; by apply Hbet].
      destruct (Hds' x Hx) as [-> _]. split; [done|]. by apply Hid.
    + cbn [app]. constructor; [apply Hwf'|]. apply Forall_forall. intros y Hy. left.
      destruct ds as [|x ds]; [done|]. destruct (Hds' x ltac:(by left)) as [<- _].
      apply Hbet; [by left|done].
  - exact (sw_prices _ _ Hwf).
Qed.
Lemma side_wf_front s d p ds l :
  tradable s → side_wf s ((p, ds) :: l) → mi_side d = s → better s (mi_price d) p →
  side_wf s ((mi_price d, [d]) :: (p, ds) :: l).
Proof.
  intros Hs Hwf Hsd Hdp. destruct (side_wf_cons _ _ _ _ Hwf) as (_ & _ & Hbet).
  pose proof (sw_levels _ _ Hwf) as Hl. apply Forall_cons in Hl as [[Hne Hds] _]. cbn [fst snd] in *.
  rewrite Forall_forall in Hds.
  assert (∀ y, y ∈ level_orders ((p, ds) :: l) → better s (mi_price d) (mi_price y)) as Hall.
  { intros y. rewrite level_orders_cons, elem_of_app. intros [Hy|Hy]; [by destruct (Hds y Hy) as [-> _]|].
    destruct ds as [|x ds]; [done|]. destruct (Hds x ltac:(by left)) as [<- _].
    etrans; [exact Hdp|]. apply Hbet; [by left|done]. }
  split.
  - constructor; [by repeat constructor|apply Hwf].
  - rewrite level_orders_cons. cbn [app]. constructor; [apply Hwf|].
    apply Forall_forall. intros y Hy. left. by apply Hall.
  - rewrite fmap_cons. constructor; [|apply Hwf]. cbn [fst]. intros Hin.
    destruct (level_good_price s ((p, ds) :: l) (mi_price d) (sw_levels _ _ Hwf) Hin)
      as (y & Hy & Hpy). specialize (Hall y Hy). rewrite Hpy in Hall.
    destruct Hs as [->| ->]; simpl in Hall; lia.
Qed.

Lemma side_wf_insert s d l :
  tradable s → mi_side d = s → side_wf s l →
  Forall (λ d', mi_order_id d' < mi_order_id d) (level_orders l) →
  side_wf s (insert_order s d l).
Proof.
  intros Hs Hsd. induction l as [|[p ds] l IH]; intros Hwf Hid.
  { split; cbn [insert_order level_orders fmap list_fmap concat snd fst app];
      [by repeat constructor|repeat constructor|apply NoDup_singleton]. }
  rewrite level_orders_cons in Hid. apply Forall_app in Hid as [Hid1 Hid2].
  cbn [insert_order]. change (d_price d) with (mi_price d).
  case_bool_decide as Heq; [subst p; by apply side_wf_join|]. case_bool_decide as Hb.
  - destruct (side_wf_cons _ _ _ _ Hwf) as (Hwf' & Hss & Hbet). specialize (IH Hwf' Hid2).
    pose proof (sw_levels _ _ Hwf) as Hl. apply Forall_cons in Hl as [[Hne Hds] _].
    pose proof (sw_prices _ _ Hwf) as Hp. rewrite fmap_cons in Hp. apply NoDup_cons in Hp as [Hno _].
    cbn [fst snd] in *. pose proof (proj1 (Forall_forall _ _) Hds) as Hds'. split.
    + constructor; [done|apply IH].
    + rewrite level_orders_cons. apply StronglySorted_app_2; [|done|apply IH].
      intros x y Hx Hy. rewrite insert_order_orders in Hy.
      apply elem_of_cons in Hy as [->|Hy]; left; [by destruct (Hds' x Hx) as [-> _]|by apply Hbet].
    + rewrite fmap_cons. constructor; [|apply IH]. cbn [fst]. by intros [->|Hq]%insert_order_prices.
  - apply side_wf_front; try done. destruct Hs as [->| ->]; simpl in *; lia.
Qed.

Lemma StronglySorted_filter {A} (R : relation A) (P : A → Prop) `{∀ x, Decision (P x)}
    (l : list A) :
  StronglySorted R l → StronglySorted R (filter P l).
Proof.
  induction 1 as [|x l Hs IH Hf]; [constructor|]. rewrite filter_cons. case_decide; [|done].
  constructor; [done|]. apply Forall_forall. intros y [_ Hy]%list_elem_of_filter.
  rewrite Forall_forall in Hf. by apply Hf.
Qed.

Lemma side_wf_remove s (P : MarketInfo → Prop) `{∀ d, Decision (P d)} l :
  side_wf s l → side_wf s (remove_where P l).
Proof.
  intros [Hl Hs Hp]. split.
  - clear Hs Hp. induction Hl as [|[p ds] l [Hne Hds] _ IH]; [constructor|].
    rewrite remove_where_cons. apply Forall_app. split; [|done].
    destruct (filter _ ds) as [|d es] eqn:E; [constructor|]. constructor; [|constructor].
    split; [done|]. cbn [fst snd]. rewrite <-E. apply Forall_forall.
    intros x [_ Hx]%list_elem_of_filter. rewrite Forall_forall in Hds. by apply Hds.
  - rewrite remove_where_orders. by apply StronglySorted_filter.
  - clear Hl Hs. induction l as [|[p ds] l IH]; [constructor|].
    rewrite fmap_cons in Hp. apply NoDup_cons in Hp as [Hno Hp].
    rewrite remove_where_cons, fmap_app. destruct (filter _ ds); [by apply IH|].
    cbn. constructor; [|by apply IH]. intros Hin. apply Hno.
    by apply (proj1 (remove_where_sub P l)).
Qed.

Lemma side_wf_update s (P : MarketInfo → Prop) `{∀ d, Decision (P d)} q l :
  side_wf s l → side_wf s (update_where P (mi_set_qty q) l).
Proof.
  intros [Hl Hs Hp]. split.
  - unfold update_where. apply Forall_fmap. eapply Forall_impl; [exact Hl|].
    intros [p ds] [Hne Hds]. split; cbn [fst snd] in *; [by destruct ds|].
    apply Forall_fmap. eapply Forall_impl; [exact Hds|]. intros d Hd. simpl.
    by destruct (decide (P d)).
  - rewrite update_where_orders. eapply StronglySorted_fmap; [|exact Hs].
    intros x y Hxy. unfold ahead in *. by destruct (decide (P x)), (decide (P y)).
  - by rewrite update_where_prices.
Qed.

(** The levels can be read off the flat list. *)
Lemma level_split s p ds l :
  side_wf s ((p, ds) :: l) → filter (λ d, mi_price d = p) (level_orders ((p, ds) :: l)) = ds.
Proof.
  intros [Hl _ Hp]. apply Forall_cons in Hl as [[_ Hds] Hl]. cbn [fst snd] in Hds.
  rewrite fmap_cons in Hp. apply NoDup_cons in Hp as [Hno _]. cbn [fst] in Hno.
  rewrite level_orders_cons, filter_app.
  assert (∀ es : list MarketInfo, Forall (λ d, mi_price d = p) es →
    filter (λ d, mi_price d = p) es = es) as Hall.
  { induction 1 as [|d es Hd _ IH]; [done|]. by rewrite filter_cons_True, IH. }
  rewrite Hall by (eapply Forall_impl; [exact Hds|]; intros d [Hd _]; exact Hd).
  assert (∀ es : list MarketInfo, Forall (λ d, mi_price d ≠ p) es →
    filter (λ d, mi_price d = p) es = []) as Hnone.
  { induction 1 as [|d es Hd _ IH]; [done|]. by rewrite filter_cons_False. }
  rewrite Hnone; [apply app_nil_r|]. apply Forall_forall. intros d Hd <-. apply Hno.
  by apply (level_good_in s l d).
Qed.

Lemma side_regroup s l k :
  side_wf s l → side_wf s k → level_orders l = level_orders k → l = k.
Proof.
  revert k. induction l as [|[p ds] l IH]; intros [|[q es] k] Hl Hk E; [done|..].
  - pose proof (sw_levels _ _ Hk) as H. apply Forall_cons in H as [[Hne _] _].
    by destruct es.
  - pose proof (sw_levels _ _ Hl) as H. apply Forall_cons in H as [[Hne _] _].
    by destruct ds.
  - assert (p = q) as <-.
    { pose proof (sw_levels _ _ Hl) as H. apply Forall_cons in H as [[Hne Hds] _].
      pose proof (sw_levels _ _ Hk) as H. apply Forall_cons in H as [[Hne' Hes] _].
      destruct ds as [|d ds], es as [|e es]; [done..|]. cbn [fst snd] in *.
      apply Forall_cons in Hds as [[<- _] _], Hes as [[<- _] _].
      rewrite !level_orders_cons in E. by injection E as -> _. }
    assert (ds = es) as <-.
    { rewrite <-(level_split s p ds l Hl), E. by apply (level_split s). }
    f_equal. rewrite !level_orders_cons in E. apply app_inv_head in E.
    apply IH; [by destruct (side_wf_cons _ _ _ _ Hl)|by destruct (side_wf_cons _ _ _ _ Hk)|done].
Qed.

(** A side is determined by its orders. *)
Lemma side_unique s l k :
  side_wf s l → side_wf s k → level_orders l ≡ₚ level_orders k → l = k.
Proof.
  intros Hl Hk E. apply (side_regroup s); [done..|].
  apply (StronglySorted_unique (ahead s)); [apply Hl|apply Hk|done].
Qed.

(** ** Both sides *)
Definition info_good d : Prop :=
  tradable (mi_side d) ∧ market_id_ok (mi_order_id d) ∧ 0 ≤ mi_qty d < 2 ^ 32.

(** Two live orders whose prices share an index of the hash map share price and side. *)
Definition compatible (d d' : MarketInfo) : Prop :=
  priceToIndex (mi_price d) = priceToIndex (mi_price d') →
  mi_price d = mi_price d' ∧ mi_side d = mi_side d'.

Record sm_good b : Prop := {
  sg_side : ∀ s, tradable s → side_wf s (sm_side b s);
  sg_ids : NoDup (mi_order_id <$> sm_orders b);
  sg_info : Forall info_good (sm_orders b);
  sg_compat : ∀ d d', d ∈ sm_orders b → d' ∈ sm_orders b → compatible d d'
}.

Lemma sm_orders_perm b s :
  tradable s → sm_orders b ≡ₚ level_orders (sm_side b s) ++ level_orders (sm_side b (opp s)).
Proof.
  intros Hs. unfold sm_orders.
  by rewrite (level_orders_perm _ _ (sm_levels_perm b s Hs)), level_orders_app.
Qed.

Lemma sm_good_new : sm_good SpecMarket_new.
Proof.
  split.
  - intros s [->| ->]; apply side_wf_nil.
  - constructor.
  - constructor.
  - intros d d' H. by apply elem_of_nil in H.
Qed.

Lemma sm_good_price b d :
  sm_good b → d ∈ sm_orders b →
  tradable (mi_side d) ∧ mi_price d ∈ (sm_side b (mi_side d)).*1 ∧ mi_price d ∈ (sm_levels b).*1.
Proof.
  intros Hg Hd. pose proof (sg_info _ Hg) as Hi. rewrite Forall_forall in Hi.
  destruct (Hi d Hd) as [Hs _]. split; [done|].
  assert (mi_price d ∈ (sm_side b (mi_side d)).*1) as Hp.
  { rewrite (sm_orders_perm b _ Hs), elem_of_app in Hd. destruct Hd as [Hd|Hd].
    - apply (level_good_in (mi_side d)); [apply (sg_side _ Hg _ Hs)|done].
    - destruct (level_good_in (opp (mi_side d)) _ d
        (sw_levels _ _ (sg_side _ Hg _ (opp_tradable _))) Hd) as [_ E].
      destruct Hs as [E'|E']; rewrite E' in E; done. }
  split; [done|]. rewrite (sm_levels_perm b _ Hs), fmap_app, elem_of_app. by left.
Qed.

Lemma sm_good_level b p :
  sm_good b → p ∈ (sm_levels b).*1 → ∃ d, d ∈ sm_orders b ∧ mi_price d = p.
Proof.
  intros Hg Hp. assert (tradable Side.BUY) as Hb by by left.
  rewrite (sm_levels_perm b _ Hb), fmap_app, elem_of_app in Hp.
  destruct Hp as [Hp|Hp].
  - destruct (level_good_price _ _ _ (sw_levels _ _ (sg_side _ Hg _ Hb)) Hp) as (d & Hd & <-).
    exists d. split; [|done]. rewrite (sm_orders_perm b _ Hb), elem_of_app. by left.
  - destruct (level_good_price _ _ _ (sw_levels _ _ (sg_side _ Hg _ (opp_tradable Side.BUY))) Hp)
      as (d & Hd & <-).
    exists d. split; [|done]. rewrite (sm_orders_perm b _ Hb), elem_of_app. by right.
Qed.

Lemma sm_good_add b u :
  sm_good b → mu_type u = MarketUpdateType.ADD → valid_update b u → fresh_above b u →
  sm_good (sm_apply b u) ∧ sm_orders (sm_apply b u) ≡ₚ update_info u :: sm_orders b.
Proof.
  intros Hg Et Hv Hf. unfold valid_update in Hv. rewrite Et in Hv.
  destruct Hv as (Hs & Hid & Hq & Hno & Hfree & Hopp & _).
  unfold sm_apply. rewrite Et. set (s := mu_side u) in *.
  set (b' := sm_set b s _).
  assert (sm_orders b' ≡ₚ update_info u :: sm_orders b) as Hperm.
  { unfold b'. rewrite !(sm_orders_perm _ s Hs), sm_side_set, sm_side_set_opp by done.
    by rewrite insert_order_orders. }
  split; [|done].
  assert (∀ d, d ∈ sm_orders b → compatible (update_info u) d) as Hcomp.
  { intros d Hd. unfold compatible. cbn [update_info mi_price mi_side]. intros E.
    destruct (sm_good_price b d Hg Hd) as (Hsd & Hp & Hpl).
    unfold level_free in Hfree. rewrite Forall_forall in Hfree.
    specialize (Hfree _ Hpl (eq_sym E)). split; [done|].
    fold s. destruct (decide (mi_side d = s)) as [|Hne]; [done|]. exfalso. apply Hopp.
    rewrite <-Hfree. replace (opp s) with (mi_side d); [done|].
    destruct Hs as [E1|E1], Hsd as [E2|E2]; rewrite E1, E2 in *; done. }
  split.
  - assert (side_wf s (sm_side b' s)) as Hw1.
    { unfold b'. rewrite sm_side_set. apply side_wf_insert; [done|done|by apply Hg|].
      unfold fresh_above in Hf. rewrite Forall_fmap in Hf.
      rewrite (sm_orders_perm b s Hs) in Hf. apply Forall_app in Hf as [Hf _]. exact Hf. }
    assert (side_wf (opp s) (sm_side b' (opp s))) as Hw2.
    { unfold b'. rewrite sm_side_set_opp by done. apply Hg, opp_tradable. }
    intros s' Hs'. destruct (decide (s' = s)) as [->|Hne]; [done|].
    replace s' with (opp s); [done|].
    destruct Hs as [E1|E1], Hs' as [E2|E2]; rewrite E1, E2 in *; done.
  - rewrite Hperm, fmap_cons. constructor; [exact Hno|apply Hg].
  - rewrite Hperm. constructor; [done|apply Hg].
  - intros d d'. rewrite Hperm, !elem_of_cons. intros [->|Hd] [->|Hd'].
    + by split.
    + by apply Hcomp.
    + intros E. destruct (Hcomp d Hd (eq_sym E)) as [E1 E2]. by split.
    + by apply Hg.
Qed.

(** Removal and reduction keep prices, sides and ids of what is left. *)
Lemma sm_good_modify b u :
  sm_good b → mu_type u = MarketUpdateType.MODIFY → valid_update b u → sm_good (sm_apply b u).
Proof.
  intros Hg Et Hv. unfold valid_update in Hv. rewrite Et in Hv. destruct Hv as [Hq _].
  unfold sm_apply. rewrite Et.
  set (f := λ d, if decide (has_id (mu_order_id u) d) then mi_set_qty (mu_qty u) d else d).
  assert (∀ d, mi_order_id (f d) = mi_order_id d ∧ mi_price (f d) = mi_price d ∧
               mi_side (f d) = mi_side d) as Hf by (intros d; unfold f; by destruct (decide _)).
  set (b' := mkSpecMarket _ _).
  assert (sm_orders b' = f <$> sm_orders b) as Ho.
  { unfold sm_orders, sm_levels, b'. cbn [sm_bids sm_asks].
    by rewrite !level_orders_app, !update_where_orders, fmap_app. }
  split.
  - intros s [->| ->]; apply side_wf_update; [apply (sg_side _ Hg Side.BUY)|
      apply (sg_side _ Hg Side.SELL)]; [by left|by right].
  - rewrite Ho, <-list_fmap_compose. erewrite list_fmap_ext; [apply Hg|].
    intros i d _. apply Hf.
  - rewrite Ho. apply Forall_fmap. eapply Forall_impl; [apply Hg|].
    intros d (H1 & H2 & H3). unfold info_good. simpl. destruct (Hf d) as (-> & _ & ->).
    split; [done|]. split; [done|]. unfold f. by destruct (decide _).
  - rewrite Ho. intros ? ? (d & -> & Hd)%list_elem_of_fmap (d' & -> & Hd')%list_elem_of_fmap.
    unfold compatible. destruct (Hf d) as (_ & -> & ->), (Hf d') as (_ & -> & ->).
    by apply Hg.
Qed.

Lemma sm_good_sub b b' :
  sm_good b → (∀ s, tradable s → side_wf s (sm_side b' s)) → sm_orders b' ⊆+ sm_orders b →
  sm_good b'.
Proof.
  intros Hg Hw Hsub. split; [done| | |].
  - eapply submseteq_NoDup; [|apply (sg_ids _ Hg)]. by apply fmap_submseteq.
  - pose proof (sg_info _ Hg) as Hi. rewrite Forall_forall in *. intros d Hd.
    apply Hi. by eapply elem_of_submseteq.
  - intros d d' Hd Hd'. apply Hg; by eapply elem_of_submseteq.
Qed.

Lemma sm_good_cancel b u :
  sm_good b → mu_type u = MarketUpdateType.CANCEL → sm_good (sm_apply b u).
Proof.
  intros Hg Et. unfold sm_apply. rewrite Et. apply (sm_good_sub b); [done| |].
  - intros s [->| ->]; apply side_wf_remove; [apply (sg_side _ Hg Side.BUY)|
      apply (sg_side _ Hg Side.SELL)]; [by left|by right].
  - unfold sm_orders, sm_levels. cbn [sm_bids sm_asks].
    rewrite !level_orders_app, !remove_where_orders, <-filter_app.
    apply sublist_submseteq, sublist_filter.
Qed.

(** Two good books with the same orders are the same. *)
Lemma sm_unique b b' : sm_good b → sm_good b' → sm_orders b ≡ₚ sm_orders b' → b = b'.
Proof.
  intros Hg Hg' E. assert (tradable Side.BUY) as Hb by by left.
  assert (∀ c s, sm_good c → tradable s →
    level_orders (sm_side c s) ≡ₚ filter (λ d, mi_side d = s) (sm_orders c)) as Hside.
  { intros c s Hc Hs. rewrite (sm_orders_perm c s Hs), filter_app.
    assert (∀ es : list MarketInfo, (∀ d, d ∈ es → mi_side d = s) →
      filter (λ d, mi_side d = s) es = es) as Hall.
    { induction es as [|d es IH]; intros H; [done|].
      rewrite filter_cons_True by (apply H; by left). rewrite IH; [done|].
      intros x Hx. apply H. by right. }
    assert (∀ es : list MarketInfo, (∀ d, d ∈ es → mi_side d ≠ s) →
      filter (λ d, mi_side d = s) es = []) as Hnone.
    { induction es as [|d es IH]; intros H; [done|].
      rewrite filter_cons_False by (apply H; by left). apply IH.
      intros x Hx. apply H. by right. }
    rewrite Hall, Hnone, app_nil_r; [done| |].
    - intros d Hd.
      destruct (level_good_in (opp s) _ d (sw_levels _ _ (sg_side _ Hc _ (opp_tradable _))) Hd)
        as [_ ->]. by destruct Hs as [->| ->].
    - intros d Hd. by apply (level_good_in s _ d (sw_levels _ _ (sg_side _ Hc _ Hs))). }
  apply (sm_eq _ _ Side.BUY Hb).
  - apply (side_unique Side.BUY); [by apply Hg|by apply Hg'|].
    rewrite !Hside by done. by rewrite E.
  - apply (side_unique (opp Side.BUY)); [apply Hg, opp_tradable|apply Hg', opp_tradable|].
    rewrite !Hside by (done || apply opp_tradable). by rewrite E.
Qed.

(** ** Rebuilding *)
Definition id_lt (u v : MEMarketUpdate) : Prop := mu_order_id u < mu_order_id v.

Section Rebuild.
Context (b : SpecMarket) (Hg : sm_good b).
Context (Hroom : Z.of_nat (length (sm_orders b)) + 1 ≤ ME_MAX_ORDER_IDS)
  (Hlroom : Z.of_nat (length (sm_levels b)) + 2 ≤ ME_MAX_PRICE_LEVELS).

(** A good book whose orders are among those of [b] has no more levels than [b]. *)
Lemma fewer_levels b1 :
  sm_good b1 → (∀ d, d ∈ sm_orders b1 → d ∈ sm_orders b) →
  (length (sm_levels b1) ≤ length (sm_levels b))%nat.
Proof.
  intros Hg1 Hsub. rewrite <-(length_fmap fst (sm_levels b1)), <-(length_fmap fst (sm_levels b)).
  apply submseteq_length, NoDup_submseteq.
  - assert (tradable Side.BUY) as Hb by by left.
    rewrite (sm_levels_perm b1 _ Hb), fmap_app. apply NoDup_app. split_and!.
    + apply (sw_prices _ _ (sg_side _ Hg1 _ Hb)).
    + intros p Hp Hp'.
      destruct (level_good_price _ _ _ (sw_levels _ _ (sg_side _ Hg1 _ Hb)) Hp)
        as (d & Hd & Hdp).
      destruct (level_good_price _ _ _
        (sw_levels _ _ (sg_side _ Hg1 _ (opp_tradable Side.BUY))) Hp') as (d' & Hd' & Hdp').
      destruct (level_good_in _ _ _ (sw_levels _ _ (sg_side _ Hg1 _ Hb)) Hd) as [_ Hs].
      destruct (level_good_in _ _ _
        (sw_levels _ _ (sg_side _ Hg1 _ (opp_tradable Side.BUY))) Hd') as [_ Hs'].
      destruct (sg_compat _ Hg1 d d') as [_ E].
      * rewrite (sm_orders_perm b1 _ Hb), elem_of_app. by left.
      * rewrite (sm_orders_perm b1 _ Hb), elem_of_app. by right.
      * by rewrite Hdp, Hdp'.
      * by rewrite Hs, Hs' in E.
    + apply (sw_prices _ _ (sg_side _ Hg1 _ (opp_tradable Side.BUY))).
  - intros p Hp. destruct (sm_good_level b1 p Hg1 Hp) as (d & Hd & <-).
    by apply (sm_good_price b d Hg), Hsub.
Qed.

(** The next order of the listing can be added. *)
Lemma next_valid b1 L1 u L2 :
  sm_good b1 → sm_orders b1 ≡ₚ update_info <$> L1 →
  update_info <$> L1 ++ u :: L2 ≡ₚ sm_orders b →
  StronglySorted id_lt (L1 ++ u :: L2) → mu_type u = MarketUpdateType.ADD →
  valid_update b1 u ∧ fresh_above b1 u.
Proof.
  intros Hg1 Ho1 Ho Hs Et.
  assert (∀ d, d ∈ sm_orders b1 → d ∈ sm_orders b) as Hsub.
  { intros d. rewrite Ho1, <-Ho, fmap_app, elem_of_app. by left. }
  assert (update_info u ∈ sm_orders b) as Hu.
  { rewrite <-Ho, fmap_app, fmap_cons, elem_of_app, elem_of_cons. by right; left. }
  assert (∀ d, d ∈ sm_orders b1 → mi_order_id d < mu_order_id u) as Hlt.
  { intros d. rewrite Ho1. intros (v & -> & Hv)%list_elem_of_fmap.
    apply (StronglySorted_app_1_elem_of _ _ _ v u Hs Hv). by left. }
  assert (∀ d, d ∈ sm_orders b1 → compatible (update_info u) d) as Hc.
  { intros d Hd. apply Hg; [done|by apply Hsub]. }
  pose proof (sg_info _ Hg) as Hinfo. rewrite Forall_forall in Hinfo.
  destruct (Hinfo _ Hu) as (Hts & Hid & Hq). cbn [update_info mi_side mi_order_id mi_qty] in *.
  split; [|apply Forall_fmap, Forall_forall; exact Hlt].
  unfold valid_update. rewrite Et. split; [exact Hts|]. split; [exact Hid|].
  split; [exact Hq|]. split_and!.
  - intros (d & Hi & Hd)%list_elem_of_fmap. specialize (Hlt d Hd). lia.
  - apply Forall_forall. intros p Hp E.
    destruct (sm_good_level b1 p Hg1 Hp) as (d & Hd & <-). symmetry.
    by apply (Hc d Hd).
  - intros Hp.
    destruct (level_good_price _ _ _ (sw_levels _ _ (sg_side _ Hg1 _ (opp_tradable _))) Hp)
      as (d & Hd & Hdp).
    destruct (level_good_in _ _ _ (sw_levels _ _ (sg_side _ Hg1 _ (opp_tradable _))) Hd)
      as [_ Hside].
    destruct (Hc d) as [_ E].
    + rewrite (sm_orders_perm b1 _ Hts), elem_of_app. by right.
    + cbn [update_info mi_price]. by rewrite Hdp.
    + cbn [update_info mi_side] in E. rewrite Hside in E.
      by destruct Hts as [E'|E']; rewrite E' in E.
  - apply Permutation_length in Ho, Ho1. rewrite length_fmap, length_app in Ho.
    rewrite length_fmap in Ho1. cbn [length] in Ho. lia.
  - pose proof (fewer_levels b1 Hg1 Hsub). lia.
Qed.

Lemma rebuild_run L :
  Forall (λ u, mu_type u = MarketUpdateType.ADD) L → StronglySorted id_lt L →
  update_info <$> L ≡ₚ sm_orders b →
  valid_updates SpecMarket_new L ∧ sm_run SpecMarket_new L = b.
Proof.
  intros Hadd Hs Ho.
  assert (∀ L2 L1 b1, L = L1 ++ L2 → sm_good b1 → sm_orders b1 ≡ₚ update_info <$> L1 →
    valid_updates b1 L2 ∧ sm_run b1 L2 = b) as H.
  { induction L2 as [|u L2 IH]; intros L1 b1 -> Hg1 Ho1.
    - rewrite app_nil_r in *. split; [done|]. apply sm_unique; [done..|]. by rewrite Ho1.
    - apply Forall_app in Hadd as Hadd'. destruct Hadd' as [_ Hadd'].
      apply Forall_cons in Hadd' as [Et _].
      destruct (next_valid b1 L1 u L2 Hg1 Ho1 Ho Hs Et) as [Hv Hf].
      destruct (sm_good_add b1 u Hg1 Et Hv Hf) as [Hg2 Ho2].
      destruct (IH (L1 ++ [u]) (sm_apply b1 u)) as [Hv2 Hr2].
      + by rewrite <-app_assoc.
      + done.
      + rewrite Ho2, Ho1, fmap_app. solve_Permutation.
      + split; [by split|done]. }
  apply (H L [] SpecMarket_new); [done|apply sm_good_new|done].
Qed.
End Rebuild.
