(* ===== verification/LateJoiner.v ===== *)
(** * LateJoiner: a client that joins late ends with the exchange's book

    The whole market data path put together: publisher, synthesizer, consumer and the
    client's order book. *)
From S2P Require Import Prelude Types MemPool Wire Sockets LFQueue Ring PriceLevels BookInv.
From S2P Require Import LevelsAbs MarketOrderBook MarketBookSpec MarketBBO FeedMirror.
From S2P Require Import SnapshotSynthesizer MarketDataPublisher MarketDataConsumer Recovery.
From S2P Require Import SnapshotRebuild.

#[local] Opaque ticker_listing snapshot_body.

Definition for_ticker (t : TickerId) (us : list MEMarketUpdate) : list MEMarketUpdate :=
  filter (λ u, mu_ticker_id u = t) us.

Lemma sm_good_step b u :
  sm_good b → valid_update b u → (mu_type u = MarketUpdateType.ADD → fresh_above b u) →
  sm_good (sm_apply b u).
Proof.
  intros Hg Hv Hf. destruct (mu_type u) eqn:Et;
    try (unfold sm_apply; rewrite Et; exact Hg).
  - by apply sm_good_add; [..|apply Hf].
  - by apply sm_good_modify.
  - by apply sm_good_cancel.
Qed.

(** ** The snapshot holds the orders of the book *)
Record snap_matches (S : Snapshot) (t : TickerId) (b : SpecMarket) : Prop := {
  sn_sound : ∀ i u, S !! (t, i) = Some u → update_info u ∈ sm_orders b;
  sn_complete : ∀ d, d ∈ sm_orders b → ∃ u, S !! (t, mi_order_id d) = Some u ∧ update_info u = d
}.

Lemma snap_id S t i u : snap_wf S → S !! (t, i) = Some u → mu_order_id u = i.
Proof. intros Hw H. apply Hw in H as [E _]. unfold snap_key in E. by injection E. Qed.

Lemma matches_other S t b u :
  mu_ticker_id u ≠ t → snap_matches S t b → snap_matches (snap_apply S u) t b.
Proof.
  intros Hne [H1 H2].
  assert (∀ i, snap_apply S u !! (t, i) = S !! (t, i)) as E.
  { intros i. unfold snap_apply, snap_key. destruct (mu_type u); try done.
    - rewrite lookup_insert_ne; [done|congruence].
    - rewrite lookup_alter_ne; [done|congruence].
    - rewrite lookup_delete_ne; [done|congruence]. }
  split.
  - intros i v. rewrite E. apply H1.
  - intros d Hd. rewrite E. by apply H2.
Qed.

Lemma matches_add S b u :
  sm_good b → valid_update b u → fresh_above b u → mu_type u = MarketUpdateType.ADD →
  snap_matches S (mu_ticker_id u) b →
  snap_matches (snap_apply S u) (mu_ticker_id u) (sm_apply b u).
Proof.
  intros Hg Hv Hf Et [H1 H2].
  destruct (sm_good_add b u Hg Et Hv Hf) as [_ Ho].
  unfold snap_apply. rewrite Et. split.
  - intros i v [[_ <-]|[_ Hi]]%lookup_insert_Some; rewrite Ho, elem_of_cons; [by left|].
    right. by eapply H1.
  - intros d. rewrite Ho, elem_of_cons. intros [->|Hd].
    + exists u. by rewrite lookup_insert_eq.
    + destruct (H2 d Hd) as (v & Hi & <-). exists v. split; [|done].
      rewrite lookup_insert_ne; [done|]. unfold snap_key. intros [= E].
      unfold fresh_above in Hf. rewrite Forall_fmap, Forall_forall in Hf.
      specialize (Hf _ Hd). simpl in *. lia.
Qed.

Lemma matches_modify S b u :
  snap_wf S → consistent b u → mu_type u = MarketUpdateType.MODIFY →
  snap_matches S (mu_ticker_id u) b →
  snap_matches (snap_apply S u) (mu_ticker_id u) (sm_apply b u).
Proof.
  intros Hw Hc Et [H1 H2].
  unfold snap_apply, sm_apply. rewrite Et.
  set (f := λ d, if decide (has_id (mu_order_id u) d) then mi_set_qty (mu_qty u) d else d).
  assert (sm_orders (mkSpecMarket
      (update_where (has_id (mu_order_id u)) (mi_set_qty (mu_qty u)) (sm_bids b))
      (update_where (has_id (mu_order_id u)) (mi_set_qty (mu_qty u)) (sm_asks b)))
    = f <$> sm_orders b) as Ho.
  { unfold sm_orders, sm_levels. cbn [sm_bids sm_asks].
    by rewrite !level_orders_app, !update_where_orders, fmap_app. }
  assert (∀ w, update_info w ∈ sm_orders b → mu_order_id w = mu_order_id u →
    update_info (mu_set_qty_price (mu_qty u) (mu_price u) w) = f (update_info w)) as Hupd.
  { intros w Hin Hid. unfold f. rewrite decide_True by exact Hid.
    pose proof (Hc (or_introl Et)) as Hc'. rewrite Forall_forall in Hc'.
    destruct (Hc' _ Hin Hid) as [_ Hp]. unfold update_info, mi_set_qty. cbn in *. by rewrite Hp. }
  split.
  - intros i v [(E & w & Hi & ->)|[Hne Hi]]%lookup_alter_Some; rewrite Ho.
    + unfold snap_key in E. injection E as <-. rewrite Hupd; [|by eapply H1|by eapply snap_id].
      apply list_elem_of_fmap_2. by eapply H1.
    + apply list_elem_of_fmap. exists (update_info v). split; [|by eapply H1].
      unfold f. rewrite decide_False; [done|]. intros Hid. apply Hne.
      unfold snap_key. f_equal. rewrite <-Hid. symmetry. symmetry. by eapply snap_id.
  - intros d'. rewrite Ho. intros (d & -> & Hd)%list_elem_of_fmap.
    destruct (H2 d Hd) as (v & Hi & <-).
    assert (mi_order_id (f (update_info v)) = mu_order_id v) as ->.
    { unfold f. by destruct (decide _). }
    cbn [update_info mi_order_id] in Hi.
    destruct (decide (mu_order_id v = mu_order_id u)) as [E|Hne].
    + exists (mu_set_qty_price (mu_qty u) (mu_price u) v). split; [|by apply Hupd].
      rewrite E in Hi |- *. change (mu_ticker_id u, mu_order_id u) with (snap_key u).
      rewrite lookup_alter_eq. unfold snap_key. by rewrite Hi.
    + exists v. split.
      * rewrite lookup_alter_ne; [done|]. unfold snap_key. congruence.
      * unfold f. by rewrite decide_False.
Qed.

Lemma matches_cancel S b u :
  snap_wf S → mu_type u = MarketUpdateType.CANCEL →
  snap_matches S (mu_ticker_id u) b →
  snap_matches (snap_apply S u) (mu_ticker_id u) (sm_apply b u).
Proof.
  intros Hw Et [H1 H2].
  unfold snap_apply, sm_apply. rewrite Et.
  assert (∀ d, d ∈ sm_orders (mkSpecMarket (remove_where (has_id (mu_order_id u)) (sm_bids b))
      (remove_where (has_id (mu_order_id u)) (sm_asks b))) ↔
    d ∈ sm_orders b ∧ mi_order_id d ≠ mu_order_id u) as Ho.
  { intros d. unfold sm_orders, sm_levels. cbn [sm_bids sm_asks].
    rewrite !level_orders_app, !remove_where_orders, !elem_of_app, !list_elem_of_filter.
    unfold has_id. tauto. }
  split.
  - intros i v [Hne Hi]%lookup_delete_Some. rewrite Ho. split; [by eapply H1|].
    cbn [update_info mi_order_id]. rewrite (snap_id S _ i v Hw Hi).
    intros ->. by apply Hne.
  - intros d. rewrite Ho. intros [Hd Hne]. destruct (H2 d Hd) as (v & Hi & <-).
    exists v. split; [|done]. rewrite lookup_delete_ne; [done|].
    unfold snap_key. intros [= E]. by apply Hne.
Qed.

Lemma matches_step S b u :
  sm_good b → snap_wf S → valid_update b u → consistent b u →
  (mu_type u = MarketUpdateType.ADD → fresh_above b u) →
  snap_matches S (mu_ticker_id u) b →
  snap_matches (snap_apply S u) (mu_ticker_id u) (sm_apply b u).
Proof.
  intros Hg Hw Hv Hc Hf H.
  destruct (mu_type u) eqn:Et; try (unfold sm_apply, snap_apply; by rewrite Et).
  - apply matches_add; auto.
  - by apply matches_modify.
  - by apply matches_cancel.
Qed.

Lemma matches_run us t : ∀ S b,
  snap_wf S → sm_good b → snap_matches S t b → feed_ok b (for_ticker t us) →
  snap_wf (snap_run S us) ∧ sm_good (sm_run b (for_ticker t us)) ∧
  snap_matches (snap_run S us) t (sm_run b (for_ticker t us)).
Proof.
  induction us as [|u us IH]; intros S b Hw Hg Hm Hf; [done|].
  change (snap_run S (u :: us)) with (snap_run (snap_apply S u) us).
  pose proof (snap_wf_apply S u Hw) as Hw'. unfold for_ticker in *.
  destruct (decide (mu_ticker_id u = t)) as [<-|Hne].
  - rewrite filter_cons_True in Hf |- * by done. destruct Hf as (Hv & Hc & Hfr & Hf).
    apply IH; [done|by apply sm_good_step|by apply matches_step|done].
  - rewrite filter_cons_False in Hf |- * by done. apply IH; [done|done| |done].
    by apply matches_other.
Qed.

Lemma matches_new t : snap_matches ∅ t SpecMarket_new.
Proof.
  split; [intros i u H; by rewrite lookup_empty in H|]. intros d H. by apply elem_of_nil in H.
Qed.

(** ** The listing of an instrument *)
Section Listing.
#[local] Transparent ticker_listing.

Lemma elem_of_listing S t n u :
  u ∈ ticker_listing S t n ↔ ∃ i, 0 ≤ i < n ∧ S !! (t, i) = Some u.
Proof.
  unfold ticker_listing. rewrite list_elem_of_omap. setoid_rewrite elem_of_seqZ.
  split; intros (i & H1 & H2); exists i; (split; [lia|done]).
Qed.

Lemma listing_sorted S t n :
  snap_wf S → 0 ≤ n → StronglySorted id_lt (ticker_listing S t n).
Proof.
  intros Hw Hn. pattern n. apply natlike_ind; [constructor| |done].
  intros m Hm IH. change (Z.succ m) with (m + 1). rewrite ticker_listing_snoc by done.
  apply StronglySorted_app_2; [|done|].
  - intros x y (i & Hi & Hx)%elem_of_listing Hy. destruct (S !! (t, m)) as [u|] eqn:E;
      [|by apply elem_of_nil in Hy]. apply list_elem_of_singleton in Hy as ->.
    unfold id_lt. rewrite (snap_id S t i x Hw Hx), (snap_id S t m u Hw E). lia.
  - destruct (S !! (t, m)); repeat constructor.
Qed.
End Listing.
#[local] Opaque ticker_listing.

Lemma listing_orders S t b :
  snap_wf S → snap_matches S t b → sm_good b →
  update_info <$> ticker_listing S t ME_MAX_ORDER_IDS ≡ₚ sm_orders b.
Proof.
  intros Hw [H1 H2] Hg.
  pose proof (listing_sorted S t ME_MAX_ORDER_IDS Hw ltac:(by vm_compute)) as Hs.
  apply NoDup_Permutation.
  - apply (NoDup_fmap_1 mi_order_id). rewrite <-list_fmap_compose.
    induction Hs as [|u L Hs IH Hf]; [constructor|]. rewrite fmap_cons. constructor; [|done].
    intros (v & E & Hv)%list_elem_of_fmap. rewrite Forall_forall in Hf.
    specialize (Hf v Hv). unfold id_lt in Hf. simpl in E. lia.
  - eapply NoDup_fmap_1, (sg_ids _ Hg).
  - intros d. rewrite list_elem_of_fmap. setoid_rewrite elem_of_listing. split.
    + intros (u & -> & i & _ & Hi). by eapply H1.
    + intros Hd. destruct (H2 d Hd) as (u & Hi & <-). exists u. split; [done|].
      exists (mi_order_id (update_info u)). split; [|done].
      pose proof (sg_info _ Hg) as Hinfo. rewrite Forall_forall in Hinfo.
      apply (Hinfo _ Hd).
Qed.

Lemma listing_adds S t n : snap_wf S →
  Forall (λ u, mu_type u = MarketUpdateType.ADD ∧ mu_ticker_id u = t) (ticker_listing S t n).
Proof.
  intros Hw. apply Forall_forall. intros u (i & _ & Hi)%elem_of_listing.
  apply Hw in Hi as [E Ht]. split; [done|]. unfold snap_key in E. by injection E.
Qed.

Lemma for_ticker_body S t n : snap_wf S → 0 ≤ n → 0 ≤ t →
  for_ticker t (snapshot_body S n) = if decide (t < n) then ticker_snapshot S t else [].
Proof.
  intros Hw Hn Ht. pattern n. apply natlike_ind; [| |done].
  - rewrite (@snapshot_body_0 S). by rewrite decide_False by lia.
  - intros m Hm IH. change (Z.succ m) with (m + 1). rewrite snapshot_body_snoc by done.
    unfold for_ticker in *. rewrite filter_app, IH.
    assert (Forall (λ u, mu_ticker_id u = m) (ticker_snapshot S m)) as Hall.
    { constructor; [done|]. eapply Forall_impl; [by apply listing_adds|]. by intros u [_ ?]. }
    destruct (decide (t = m)) as [<-|Hne].
    + rewrite decide_False, decide_True by lia. by apply filter_none_or_all.
    + assert (filter (λ u, mu_ticker_id u = t) (ticker_snapshot S m) = []) as ->.
      { apply filter_none_or_all. eapply Forall_impl; [exact Hall|]. intros u <- E. by apply Hne. }
      rewrite app_nil_r. by repeat case_decide; try lia.
Qed.

Lemma body_not_markers S n : snap_wf S → 0 ≤ n →
  Forall (λ u, is_marker u = false) (snapshot_body S n).
Proof.
  intros Hw Hn. pattern n. apply natlike_ind; [by rewrite (@snapshot_body_0 S)| |done].
  intros m Hm IH. change (Z.succ m) with (m + 1). rewrite snapshot_body_snoc by done.
  apply Forall_app. split; [done|]. constructor; [done|].
  eapply Forall_impl; [by apply listing_adds|]. intros u [E _]. unfold is_marker. by rewrite E.
Qed.

Lemma body_length S n : 0 ≤ n →
  Z.of_nat (length (snapshot_body S n)) ≤ n * (ME_MAX_ORDER_IDS + 1).
Proof.
  intros Hn. pattern n. apply natlike_ind; [by rewrite (@snapshot_body_0 S)| |done].
  intros m Hm IH. change (Z.succ m) with (m + 1). rewrite snapshot_body_snoc, length_app by done.
  unfold ticker_snapshot. cbn [length].
  pose proof (@listing_length S m ME_MAX_ORDER_IDS ltac:(by vm_compute)). lia.
Qed.

Lemma onMarketUpdates_cons bk u us bk' c bk'' cs :
  onMarketUpdate bk u = Ok (bk', c) → onMarketUpdates bk' us = Ok (bk'', cs) →
  onMarketUpdates bk (u :: us) = Ok (bk'', c :: cs).
Proof. intros H1 H2. cbn [onMarketUpdates]. rewrite H1. cbn [mbind Res_bind]. by rewrite H2. Qed.

(** A CLEAR on a book that never had an order changes nothing. *)
Lemma clear_new_book t :
  ∃ call, onMarketUpdate (MarketOrderBook_new t) (clear_message t) =
    Ok (MarketOrderBook_new t, call).
Proof.
  eexists. unfold onMarketUpdate. rewrite bool_decide_eq_false_2 by done.
  unfold apply_update. cbn [clear_message bare_update mu_type]. unfold clear_book.
  assert (clear_orders (oid_to_order_ (MarketOrderBook_new t))
    (order_pool_ (mb_levels (MarketOrderBook_new t))) =
    Ok (order_pool_ (mb_levels (MarketOrderBook_new t)))) as ->.
  { unfold clear_orders.
    destruct (for_range_inv (λ i pool, match arr_get (oid_to_order_ (MarketOrderBook_new t)) i with
      | Some order => deallocate pool order | None => Ok pool end)
      (λ _ pool, pool = order_pool_ (mb_levels (MarketOrderBook_new t))) ME_MAX_ORDER_IDS
      (order_pool_ (mb_levels (MarketOrderBook_new t)))) as (pool & H & ->).
    - by vm_compute.
    - intros i pool _ ->. eexists. split; [|reflexivity].
      cbn [MarketOrderBook_new oid_to_order_]. by rewrite arr_get_new.
    - reflexivity.
    - exact H. }
  reflexivity.
Qed.

Lemma onMarketUpdates_app bk us vs bk' cs bk'' cs' :
  onMarketUpdates bk us = Ok (bk', cs) → onMarketUpdates bk' vs = Ok (bk'', cs') →
  onMarketUpdates bk (us ++ vs) = Ok (bk'', cs ++ cs').
Proof.
  revert bk cs. induction us as [|u us IH]; intros bk cs H1 H2.
  - cbn [onMarketUpdates] in H1. by injection H1 as <- <-.
  - cbn [onMarketUpdates app] in *.
    destruct (onMarketUpdate bk u) as [[bk1 c1]|]; cbn [mbind Res_bind] in *; [|done].
    destruct (onMarketUpdates bk1 us) as [[bk2 cs2]|] eqn:E; cbn [mbind Res_bind] in *; [|done].
    injection H1 as -> <-. by rewrite (IH bk1 cs2 E H2).
Qed.

Section Rebuilt.
Context (us : list MEMarketUpdate) (t : TickerId) (Ht : 0 ≤ t < ME_MAX_TICKERS).
Context (Hf : feed_ok SpecMarket_new (for_ticker t us)).
Abbreviation b := (sm_run SpecMarket_new (for_ticker t us)).
Context (Hroom : Z.of_nat (length (sm_orders b)) + 1 ≤ ME_MAX_ORDER_IDS)
  (Hlroom : Z.of_nat (length (sm_levels b)) + 2 ≤ ME_MAX_PRICE_LEVELS).

Lemma rebuilt :
  ∃ mbk calls,
    onMarketUpdates (MarketOrderBook_new t)
      (for_ticker t (snapshot_body (snap_run ∅ us) ME_MAX_TICKERS)) = Ok (mbk, calls) ∧
    mk_refines mbk b.
Proof.
  destruct (matches_run us t ∅ SpecMarket_new) as (Hw & Hg & Hm);
    [intros k u H; by rewrite lookup_empty in H|apply sm_good_new|apply matches_new|exact Hf|].
  set (S := snap_run ∅ us) in *.
  rewrite for_ticker_body, decide_True by (done || lia). unfold ticker_snapshot.
  destruct (rebuild_run _ Hg Hroom Hlroom (ticker_listing S t ME_MAX_ORDER_IDS)) as [Hv Hr].
  { eapply Forall_impl; [by apply listing_adds|]. by intros u [? _]. }
  { apply listing_sorted; [done|by vm_compute]. }
  { by apply listing_orders. }
  destruct (onMarketUpdates_spec (MarketOrderBook_new t) _ _ (MarketOrderBook_new_refines t) Hv)
    as (mbk & Hrun & Href). rewrite Hr in Href.
  destruct (clear_new_book t) as [call Hclear].
  exists mbk, (call :: (call_of <$> ticker_listing S t ME_MAX_ORDER_IDS)).
  split; [|exact Href]. exact (onMarketUpdates_cons _ _ _ _ _ _ _ Hclear Hrun).
Qed.
End Rebuilt.

(** The synthesizer works off the updates and publishes the cycle. *)
Lemma synthesizer_cycle us k ss :
  snap_valid_all ∅ us → Z.of_nat (length us) < 2 ^ 63 → (k ≤ length us)%nat →
  synthesizes ss ∅ → last_inc_seq_num_ ss = 0 → outbound_data_ (snapshot_socket_ ss) = [] →
  lfq_rep (ss_snapshot_md_updates_ ss) (numbered_updates 1 (take k us)) →
  snap_wf (snap_run ∅ (take k us)) ∧
  ∃ ss1 ss2, drain_updates k ss = Ok ss1 ∧ publishSnapshot ss1 = Ok ss2 ∧
    published ss2 = published ss1 ++
      encode_all (numbered_updates 0 (snapshot_cycle (snap_run ∅ (take k us)) (Z.of_nat k))).
Proof.
  intros Hsv Hlen Hk Hss Hlast Hsock Hq.
  assert (length (take k us) = k) as Htk by (rewrite length_take; lia).
  rewrite <-(take_drop k us) in Hsv. apply snap_valid_all_app in Hsv as [Hsv _].
  destruct (drain_updates_spec k ss ∅ (take k us) Hss Hsv) as (ss1 & Hd & [P HP] & _ & Hl1 & Hk1 & Ht1);
    [lia|lia|rewrite Hlast, Htk; lia|rewrite Hlast; exact Hq|].
  rewrite Hlast, Htk in Hl1.
  destruct (publishSnapshot_spec HP) as (ss2 & Hp & Hpub); [by rewrite Hk1|]. rewrite Hl1 in Hpub.
  split; [exact (sr_wf _ _ _ HP)|]. exists ss1, ss2. split_and!; [done|done|by apply (pb_bytes _ _ _ _ Hpub)].
Qed.

(** The consumer recovers with the cycle, and forwards it and what the cycle lacks. *)
Lemma joiner_recovers us k a fd c u inc S ms :
  snap_wf S → Forall (λ v, is_marker v = false) us → Z.of_nat (length us) < 2 ^ 63 →
  in_recovery_ c = false → 0 ≤ fd → next_exp_inc_seq_num_ c = 1 →
  1 < a ≤ Z.of_nat k + 1 → drop (Z.to_nat (a - 1)) us = u :: inc → (k ≤ length us)%nat →
  interleave (numbered_updates (a + 1) inc)
    (numbered_updates 0 (marker MarketUpdateType.SNAPSHOT_START (Z.of_nat k) ::
                         snapshot_body S ME_MAX_TICKERS)) ms →
  ∃ c', consume fd true c ((false, mkMDPMarketUpdate a u) :: ms ++
      [(true, mkMDPMarketUpdate (Z.of_nat (length (snapshot_body S ME_MAX_TICKERS)) + 1)
                (marker MarketUpdateType.SNAPSHOT_END (Z.of_nat k)))]) = Ok c' ∧
    in_recovery_ c' = false ∧ next_exp_inc_seq_num_ c' = Z.of_nat (length us) + 1 ∧
    incoming_md_updates_ c' =
      lfq_push_all (incoming_md_updates_ c) (snapshot_body S ME_MAX_TICKERS ++ drop k us).
Proof.
  intros Hw Hnm Hlen Hr Hfd Hn Ha Hdrop Hk Hil.
  assert (length (u :: inc) = length us - Z.to_nat (a - 1))%nat as Hlinc.
  { rewrite <-Hdrop. apply length_drop. }
  assert (Forall (λ v, is_marker v = false) (u :: inc)) as Hinc.
  { rewrite <-Hdrop. by apply Forall_drop. }
  cbn [length] in Hlinc.
  pose proof (body_length S ME_MAX_TICKERS ltac:(by vm_compute)) as Hbl.
  assert (ME_MAX_TICKERS * (ME_MAX_ORDER_IDS + 1) < 2 ^ 63) as Hmax by by vm_compute.
  destruct (consumer_recovers_spec fd true c a u inc (snapshot_body S ME_MAX_TICKERS)
    (Z.of_nat k) ms Hr ltac:(lia) Hfd eq_refl Hinc) as (c' & Hc & Hr' & Hn' & Hout & _);
    [apply body_not_markers; [done|by vm_compute]|exact Hil|lia..|].
  exists c'. split_and!; [done|done|lia|]. rewrite Hout. f_equal. f_equal.
  rewrite <-Hdrop, drop_drop. f_equal. lia.
Qed.

(** The forwarded updates lead an empty book to the exchange's. *)
Lemma joined_book us k t :
  0 ≤ t < ME_MAX_TICKERS → feed_ok SpecMarket_new (for_ticker t us) →
  let b := sm_run SpecMarket_new (for_ticker t (take k us)) in
  Z.of_nat (length (sm_orders b)) + 1 ≤ ME_MAX_ORDER_IDS →
  Z.of_nat (length (sm_levels b)) + 2 ≤ ME_MAX_PRICE_LEVELS →
  ∃ mbk calls, onMarketUpdates (MarketOrderBook_new t)
      (for_ticker t (snapshot_body (snap_run ∅ (take k us)) ME_MAX_TICKERS ++ drop k us)) =
      Ok (mbk, calls) ∧
    mk_refines mbk (sm_run SpecMarket_new (for_ticker t us)).
Proof.
  intros Ht Hf b Hroom Hlroom. rewrite <-(take_drop k us) in Hf.
  unfold for_ticker in Hf. rewrite filter_app in Hf. apply feed_ok_app in Hf as [Hf1 Hf2].
  destruct (rebuilt (take k us) t Ht Hf1 Hroom Hlroom) as (mbk & calls & Hrun & Href).
  destruct (onMarketUpdates_spec mbk _ _ Href (feed_ok_valid _ _ Hf2)) as (mbk' & Hrun' & Href').
  exists mbk', (calls ++ (call_of <$> for_ticker t (drop k us))).
  unfold for_ticker in *. rewrite filter_app. split; [by eapply onMarketUpdates_app|].
  rewrite <-(take_drop k us) at 1. by rewrite filter_app, sm_run_app.
Qed.

(** ** Theorems *)

(** A snapshot rebuilds the book: if the updates of an instrument are a feed of the
    exchange, then the orders the synthesizer keeps for it, listed by order id after a
    CLEAR, take an empty client book to exactly the book that the updates themselves lead
    to — the same levels with the same orders in the same time priority — and every step
    is one the client's program handles. *)
Theorem snapshot_rebuilds_book us t :
  0 ≤ t < ME_MAX_TICKERS → feed_ok SpecMarket_new (for_ticker t us) →
  let b := sm_run SpecMarket_new (for_ticker t us) in
  Z.of_nat (length (sm_orders b)) + 1 ≤ ME_MAX_ORDER_IDS →
  Z.of_nat (length (sm_levels b)) + 2 ≤ ME_MAX_PRICE_LEVELS →
  ∃ mbk calls,
    onMarketUpdates (MarketOrderBook_new t)
      (for_ticker t (snapshot_body (snap_run ∅ us) ME_MAX_TICKERS)) = Ok (mbk, calls) ∧
    mk_refines mbk b.
Proof. intros Ht Hf b Hroom Hlroom. by apply rebuilt. Qed.

(** C21: A client that joins late ends with the exchange's book.  [us] are all the updates of
    the exchange, numbered from 1; the synthesizer has worked off the first [k] of them and
    publishes a snapshot cycle; the client starts with an empty book and first sees update
    [a > 1], not later than [k + 1], then the rest of the stream, interleaved in any way with
    the cycle.  Then the synthesizer publishes the cycle without a fault; the consumer
    recovers at its end and forwards a list of updates that takes the client's program, for
    every instrument, to exactly the book that all of [us] lead to. *)
Theorem late_joiner_mirrors us k a fd queue c ss u inc ms :
  snap_valid_all ∅ us → Forall (λ v, is_marker v = false) us →
  Z.of_nat (length us) < 2 ^ 63 → (k ≤ length us)%nat →
  synthesizes ss ∅ → last_inc_seq_num_ ss = 0 → outbound_data_ (snapshot_socket_ ss) = [] →
  ss_snapshot_md_updates_ ss = queue → lfq_rep queue (numbered_updates 1 (take k us)) →
  in_recovery_ c = false → next_exp_inc_seq_num_ c = 1 → 0 ≤ fd →
  1 < a ≤ Z.of_nat k + 1 → drop (Z.to_nat (a - 1)) us = u :: inc →
  interleave (numbered_updates (a + 1) inc)
    (numbered_updates 0 (marker MarketUpdateType.SNAPSHOT_START (Z.of_nat k) ::
                         snapshot_body (snap_run ∅ (take k us)) ME_MAX_TICKERS)) ms →
  ∃ ss1 ss2 c' ev,
    drain_updates k ss = Ok ss1 ∧ publishSnapshot ss1 = Ok ss2 ∧
    published ss2 = published ss1 ++
      encode_all (numbered_updates 0 (snapshot_cycle (snap_run ∅ (take k us)) (Z.of_nat k))) ∧
    consume fd true c ((false, mkMDPMarketUpdate a u) :: ms ++
      [(true, mkMDPMarketUpdate
                (Z.of_nat (length (snapshot_body (snap_run ∅ (take k us)) ME_MAX_TICKERS)) + 1)
                (marker MarketUpdateType.SNAPSHOT_END (Z.of_nat k)))]) = Ok c' ∧
    in_recovery_ c' = false ∧ next_exp_inc_seq_num_ c' = Z.of_nat (length us) + 1 ∧
    incoming_md_updates_ c' = lfq_push_all (incoming_md_updates_ c) ev ∧
    ∀ t, 0 ≤ t < ME_MAX_TICKERS → feed_ok SpecMarket_new (for_ticker t us) →
      let b := sm_run SpecMarket_new (for_ticker t (take k us)) in
      Z.of_nat (length (sm_orders b)) + 1 ≤ ME_MAX_ORDER_IDS →
      Z.of_nat (length (sm_levels b)) + 2 ≤ ME_MAX_PRICE_LEVELS →
      ∃ mbk calls, onMarketUpdates (MarketOrderBook_new t) (for_ticker t ev) = Ok (mbk, calls) ∧
        mk_refines mbk (sm_run SpecMarket_new (for_ticker t us)).
Proof.
  intros Hsv Hnm Hlen Hk Hss Hlast Hsock <- Hq Hr Hn Hfd Ha Hdrop Hil.
  destruct (synthesizer_cycle us k ss Hsv Hlen Hk Hss Hlast Hsock Hq)
    as (Hw & ss1 & ss2 & Hd & Hp & Hpub).
  destruct (joiner_recovers us k a fd c u inc _ ms Hw Hnm Hlen Hr Hfd Hn Ha Hdrop Hk Hil)
    as (c' & Hc & Hr' & Hn' & Hout).
  exists ss1, ss2, c', (snapshot_body (snap_run ∅ (take k us)) ME_MAX_TICKERS ++ drop k us).
  split_and!; try done. intros t Ht Hf b Hroom Hlroom. by apply joined_book.
Qed.

(** ** A feed of two instruments *)
Definition joiner_update (t : MarketUpdateType.t) (o : OrderId) (tid : TickerId) (s : Side.t)
    (p : Price) (q : Qty) : MEMarketUpdate := mkMEMarketUpdate t o tid s p q 1.
Definition joiner_feed : list MEMarketUpdate :=
  [joiner_update MarketUpdateType.ADD 1 0 Side.SELL 101 5;
   joiner_update MarketUpdateType.ADD 1 1 Side.BUY 50 3;
   joiner_update MarketUpdateType.ADD 2 0 Side.SELL 103 7;
   joiner_update MarketUpdateType.MODIFY 1 0 Side.SELL 101 2;
   joiner_update MarketUpdateType.ADD 3 0 Side.SELL 101 4;
   joiner_update MarketUpdateType.CANCEL 2 0 Side.SELL 103 7].

Lemma joiner_feed_ok : feed_ok SpecMarket_new (for_ticker 0 joiner_feed).
Proof. apply (bool_decide_unpack _). by vm_compute. Qed.

Lemma snapshot_rebuilds_book_witness :
  ∃ mbk calls,
    onMarketUpdates (MarketOrderBook_new 0)
      (for_ticker 0 (snapshot_body (snap_run ∅ joiner_feed) ME_MAX_TICKERS)) = Ok (mbk, calls) ∧
    mk_refines mbk (sm_run SpecMarket_new (for_ticker 0 joiner_feed)).
Proof.
  apply (snapshot_rebuilds_book joiner_feed 0).
  - by vm_compute.
  - exact joiner_feed_ok.
  - by vm_compute.
  - by vm_compute.
Defined.

Lemma interleave_seq xs ys :
  interleave xs ys (((λ m, (true, m)) <$> ys) ++ ((λ m, (false, m)) <$> xs)).
Proof.
  induction ys as [|y ys IH]; [|by constructor].
  induction xs as [|x xs IH]; by constructor.
Qed.

Definition joiner_queue : LFQueue MDPMarketUpdate :=
  lfq_push_all (LFQueue_new 16 MDPMarketUpdate_default) (numbered_updates 1 (take 4 joiner_feed)).

Definition joiner_stream : list Message :=
  ((λ m, (true, m)) <$> numbered_updates 0 (marker MarketUpdateType.SNAPSHOT_START 4 ::
     snapshot_body (snap_run ∅ (take 4 joiner_feed)) ME_MAX_TICKERS)) ++
  ((λ m, (false, m)) <$> numbered_updates 5 (drop 4 joiner_feed)).

(** The client joins at update 4; the snapshot was taken after update 4. *)
Lemma late_joiner_mirrors_witness :
  ∃ ev mbk calls,
    onMarketUpdates (MarketOrderBook_new 0) (for_ticker 0 ev) = Ok (mbk, calls) ∧
    mk_refines mbk (mkSpecMarket [] [(101, [mkMarketInfo 1 Side.SELL 101 2 1;
                                            mkMarketInfo 3 Side.SELL 101 4 1])]).
Proof.
  destruct (late_joiner_mirrors joiner_feed 4 4 9 joiner_queue
    (MarketDataConsumer_new (LFQueue_new 64 MEMarketUpdate_default) 7)
    (SnapshotSynthesizer_new joiner_queue)
    (joiner_update MarketUpdateType.MODIFY 1 0 Side.SELL 101 2)
    [joiner_update MarketUpdateType.ADD 3 0 Side.SELL 101 4;
     joiner_update MarketUpdateType.CANCEL 2 0 Side.SELL 103 7]
    joiner_stream) as (ss1 & ss2 & c' & ev & _ & _ & _ & _ & _ & _ & _ & H).
  - apply (bool_decide_unpack _). by vm_compute.
  - by repeat constructor.
  - by vm_compute.
  - simpl. lia.
  - apply SnapshotSynthesizer_new_rep.
  - reflexivity.
  - reflexivity.
  - reflexivity.
  - apply (lfq_push_all_rep (LFQueue_new 16 MDPMarketUpdate_default) []);
      [apply LFQueue_new_rep; lia|by vm_compute].
  - reflexivity.
  - reflexivity.
  - lia.
  - lia.
  - reflexivity.
  - apply interleave_seq.
  - destruct (H 0) as (mbk & calls & Hrun & Href).
    + by vm_compute.
    + exact joiner_feed_ok.
    + by vm_compute.
    + by vm_compute.
    + exists ev, mbk, calls. split; [exact Hrun|]. exact Href.
Defined.
