(* ===== verification/Double.v ===== *)
(** * Double: the IEEE-754 binary64 arithmetic of the strategy code

    The operations the source performs on [double], on the Standard Library's
    [spec_float]: 53 bits of precision, exponents up to 1024, round to nearest even. *)
From S2P Require Import Prelude.
From Stdlib Require Import SpecFloat.

Abbreviation double := spec_float (only parsing).

Definition d_prec : Z := 53.
Definition d_emax : Z := 1024.

(** The conversion of an integer, and the literals of the source. *)
Definition d_of_Z (z : Z) : double := binary_normalize d_prec d_emax z 0 false.
Definition d_zero : double := S754_zero false.
Definition d_half : double := binary_normalize d_prec d_emax 1 (-1) false.
Definition d_nan : double := S754_nan.

Definition d_add (x y : double) : double := SFadd d_prec d_emax x y.
Definition d_sub (x y : double) : double := SFsub d_prec d_emax x y.
Definition d_mul (x y : double) : double := SFmul d_prec d_emax x y.
Definition d_div (x y : double) : double := SFdiv d_prec d_emax x y.

(** The comparisons: all but [!=] are false when an operand is not a number. *)
Definition d_lt (x y : double) : bool := SFltb x y.
Definition d_ge (x y : double) : bool := SFleb y x.
Definition d_ne (x y : double) : bool := negb (SFeqb x y).

#[export] Instance double_eq_dec : EqDecision double.
Proof. solve_decision. Defined.

Lemma d_ne_nan x : d_ne x d_nan = true.
Proof. by destruct x as [[]|[]| |[]]. Qed.
Lemma d_ge_nan x : d_ge d_nan x = false.
Proof. by destruct x as [[]|[]| |[]]. Qed.
Lemma d_sub_nan_l x : d_sub d_nan x = d_nan.
Proof. by destruct x as [[]|[]| |[]]. Qed.
Lemma d_sub_nan_r x : d_sub x d_nan = d_nan.
Proof. by destruct x as [[]|[]| |[]]. Qed.

(** [1.5 + 2 = 3.5], [7 / 2 = 3.5]. *)
Example d_smoke :
  d_add (d_mul (d_of_Z 3) d_half) (d_of_Z 2) = d_div (d_of_Z 7) (d_of_Z 2).
Proof. vm_compute. reflexivity. Qed.
