(* ===== verification/PositionKeeper.v ===== *)
(** * PositionKeeper: position, profit and volume of every instrument

    [trading/strategy/position_keeper.h].  The array [open_vwap_] has no initialiser: its
    first contents are an argument of the constructor here.  The pointer [bbo_] is the
    instrument whose book it points into. *)
From S2P Require Import Prelude Types Double MarketOrderBook.

(** Arrays indexed by [sideToIndex]. *)
Definition side_count : Z := sideToIndex Side.MAX + 1.

Record PositionInfo := mkPositionInfo {
  position_ : Z;
  real_pnl_ : double;
  unreal_pnl_ : double;
  total_pnl_ : double;
  open_vwap_ : arr double;
  volume_ : Qty;
  pi_bbo_ : option TickerId
}.
Definition PositionInfo_new (garbage : arr double) : PositionInfo :=
  mkPositionInfo 0 d_zero d_zero d_zero garbage 0 None.

Definition std_abs (z : Z) : Res Z := chk_i32 (Z.abs z).

(** [position_ += exec_qty_ * side_value]: the product and the sum are unsigned. *)
Definition position_after (position exec_qty side_value : Z) : Z :=
  i32 (u32 (u32 position + u32 (exec_qty * u32 side_value))).

(** The [if]/[else] on the old position: the new volume-weighted prices and realised profit. *)
Definition fill_vwap (side : Side.t) (price : Price) (exec_qty : Qty) (old_position position : Z)
    (vwap : arr double) (real : double) : Res (arr double * double) :=
  let side_index := sideToIndex side in
  let opp_side_index :=
    sideToIndex (if bool_decide (side = Side.BUY) then Side.SELL else Side.BUY) in
  direction ← chk_i32 (old_position * sideToValue side);
  if direction >=? 0 then
    value ← chk_i64 (price * exec_qty);
    old ← arr_idx vwap side_index;
    vwap ← arr_idx_set vwap side_index (d_add old (d_of_Z value));
    Ok (vwap, real)
  else
    opp ← arr_idx vwap opp_side_index;
    abs_old ← std_abs old_position;
    let opp_side_vwap := d_div opp (d_of_Z abs_old) in
    abs_new ← std_abs position;
    vwap ← arr_idx_set vwap opp_side_index (d_mul opp_side_vwap (d_of_Z abs_new));
    let real := d_add real
      (d_mul (d_mul (d_of_Z (Z.min (i32 exec_qty) abs_old)) (d_sub opp_side_vwap (d_of_Z price)))
         (d_of_Z (sideToValue side))) in
    product ← chk_i32 (position * old_position);
    if product <? 0 then
      value ← chk_i64 (price * abs_new);
      vwap ← arr_idx_set vwap side_index (d_of_Z value);
      vwap ← arr_idx_set vwap opp_side_index d_zero;
      Ok (vwap, real)
    else Ok (vwap, real).

(** The unrealised profit of an open position at a price. *)
Definition unreal_at (position : Z) (vwap : arr double) (price : double) : Res double :=
  abs ← std_abs position;
  if position >? 0 then
    v ← arr_idx vwap (sideToIndex Side.BUY);
    Ok (d_mul (d_sub price (d_div v (d_of_Z abs))) (d_of_Z abs))
  else
    v ← arr_idx vwap (sideToIndex Side.SELL);
    Ok (d_mul (d_sub (d_div v (d_of_Z abs)) price) (d_of_Z abs)).

(** [PositionInfo::addFill]. *)
Definition addFill (p : PositionInfo) (r : MEClientResponse) : Res PositionInfo :=
  let old_position := position_ p in
  let position := position_after old_position (rs_exec_qty r) (sideToValue (rs_side r)) in
  let volume := u32 (volume_ p + rs_exec_qty r) in
  '(vwap, real) ← fill_vwap (rs_side r) (rs_price r) (rs_exec_qty r) old_position position
    (open_vwap_ p) (real_pnl_ p);
  if position =? 0 then
    vwap ← arr_idx_set vwap (sideToIndex Side.SELL) d_zero;
    vwap ← arr_idx_set vwap (sideToIndex Side.BUY) d_zero;
    Ok (mkPositionInfo position real d_zero (d_add d_zero real) vwap volume (pi_bbo_ p))
  else
    unreal ← unreal_at position vwap (d_of_Z (rs_price r));
    Ok (mkPositionInfo position real unreal (d_add unreal real) vwap volume (pi_bbo_ p)).

(** [PositionInfo::updateBBO]. *)
Definition updateBBO_position (p : PositionInfo) (book : TickerId) (bbo : BBO) : Res PositionInfo :=
  if negb (position_ p =? 0) && negb (bid_price_ bbo =? Price_INVALID) &&
     negb (ask_price_ bbo =? Price_INVALID) then
    sum ← chk_i64 (bid_price_ bbo + ask_price_ bbo);
    let mid_price := d_mul (d_of_Z sum) d_half in
    unreal ← unreal_at (position_ p) (open_vwap_ p) mid_price;
    Ok (mkPositionInfo (position_ p) (real_pnl_ p) unreal (d_add unreal (real_pnl_ p))
          (open_vwap_ p) (volume_ p) (Some book))
  else
    Ok (mkPositionInfo (position_ p) (real_pnl_ p) (unreal_pnl_ p) (total_pnl_ p)
          (open_vwap_ p) (volume_ p) (Some book)).

(** ** The keeper *)
Abbreviation PositionKeeper := (arr PositionInfo) (only parsing).

Definition PositionKeeper_new (garbage : TickerId → arr double) : PositionKeeper :=
  foldr (λ t pk, arr_set pk t (PositionInfo_new (garbage t)))
    (arr_new ME_MAX_TICKERS (PositionInfo_new (garbage 0))) (seqZ 0 ME_MAX_TICKERS).
Definition pk_addFill (pk : PositionKeeper) (r : MEClientResponse) : Res PositionKeeper :=
  p ← arr_at pk (rs_ticker_id r);
  p ← addFill p r;
  Ok (arr_set pk (rs_ticker_id r) p).
Definition pk_updateBBO (pk : PositionKeeper) (ticker_id : TickerId) (bbo : BBO)
  : Res PositionKeeper :=
  p ← arr_at pk ticker_id;
  p ← updateBBO_position p ticker_id bbo;
  Ok (arr_set pk ticker_id p).
Definition getPositionInfo (pk : PositionKeeper) (ticker_id : TickerId) : Res PositionInfo :=
  arr_at pk ticker_id.

Lemma PositionKeeper_new_spec garbage :
  arr_len (PositionKeeper_new garbage) = ME_MAX_TICKERS ∧
  ∀ t, 0 ≤ t < ME_MAX_TICKERS → arr_get (PositionKeeper_new garbage) t = PositionInfo_new (garbage t).
Proof.
  unfold PositionKeeper_new. split.
  - induction (seqZ _ _) as [|i l IH]; [done|]. cbn [foldr]. by rewrite arr_len_set.
  - intros t Ht. assert (t ∈ seqZ 0 ME_MAX_TICKERS) as Hin by (apply elem_of_seqZ; lia).
    revert Hin. induction (seqZ _ _) as [|i l IH]; [by intros ?%elem_of_nil|].
    intros [->|Hin]%elem_of_cons; cbn [foldr]; rewrite arr_get_set.
    + by rewrite decide_True.
    + case_decide as E; [by rewrite E|]. by apply IH.
Qed.

(** ** What a fill does *)
Definition signed_qty (r : MEClientResponse) : Z := sideToValue (rs_side r) * rs_exec_qty r.

(** A fill the arithmetic is made for: a tradable side, a notional in range, and positions
    whose product fits an [int]. *)
Definition position_bound : Z := 46340.
Definition fill_ok (position : Z) (r : MEClientResponse) : Prop :=
  (rs_side r = Side.BUY ∨ rs_side r = Side.SELL) ∧ 0 ≤ rs_exec_qty r < 2 ^ 31 ∧
  Z.abs (rs_price r) * 2 ^ 31 < 2 ^ 63 ∧
  Z.abs position ≤ position_bound ∧ Z.abs (position + signed_qty r) ≤ position_bound.
#[export] Instance fill_ok_dec p r : Decision (fill_ok p r).
Proof. unfold fill_ok. apply _. Defined.

Lemma position_after_exact position r :
  fill_ok position r →
  position_after position (rs_exec_qty r) (sideToValue (rs_side r)) = position + signed_qty r.
Proof.
  intros (Hs & Hq & _ & Hp & Hp'). unfold position_bound in *.
  unfold position_after, signed_qty, u32 in *.
  rewrite Z.mul_mod_idemp_r, <-Z.add_mod by lia.
  unfold i32. rewrite Z.add_mod_idemp_l by lia.
  replace (rs_exec_qty r * sideToValue (rs_side r)) with (sideToValue (rs_side r) * rs_exec_qty r)
    by lia.
  rewrite Z.mod_small; lia.
Qed.

Lemma chk_i32_ok z : - 2 ^ 31 ≤ z < 2 ^ 31 → chk_i32 z = Ok z.
Proof. intros H. by apply chk_i32_Ok. Qed.
Lemma chk_i64_ok z : - 2 ^ 63 ≤ z < 2 ^ 63 → chk_i64 z = Ok z.
Proof. intros H. by apply chk_i64_Ok. Qed.

Definition vwap_ok (vwap : arr double) : Prop := arr_len vwap = side_count.

Lemma vwap_get vwap s : vwap_ok vwap →
  arr_idx vwap (sideToIndex s) = Ok (arr_get vwap (sideToIndex s)).
Proof. intros H. apply arr_idx_Ok. rewrite H. apply sideToIndex_range. Qed.
Lemma vwap_set vwap s x : vwap_ok vwap →
  arr_idx_set vwap (sideToIndex s) x = Ok (arr_set vwap (sideToIndex s) x).
Proof. intros H. apply arr_idx_set_Ok. rewrite H. apply sideToIndex_range. Qed.

Lemma unreal_at_ok position vwap price :
  vwap_ok vwap → Z.abs position ≤ position_bound → ∃ x, unreal_at position vwap price = Ok x.
Proof.
  intros Hv Hp. unfold position_bound in *. unfold unreal_at, std_abs.
  rewrite chk_i32_ok by lia. cbn [mbind Res_bind].
  destruct (position >? 0); rewrite vwap_get by done; cbn [mbind Res_bind]; eauto.
Qed.

Lemma fill_vwap_ok r old position vwap real :
  vwap_ok vwap → fill_ok old r → position = old + signed_qty r →
  ∃ vwap' real', fill_vwap (rs_side r) (rs_price r) (rs_exec_qty r) old position vwap real =
    Ok (vwap', real') ∧ vwap_ok vwap'.
Proof.
  intros Hv (Hs & Hq & Hpr & Hp & Hp') ->. unfold position_bound in *. unfold fill_vwap.
  rewrite (chk_i32_ok (old * _)) by (destruct Hs as [-> | ->]; cbn [sideToValue]; lia).
  cbn [mbind Res_bind]. destruct (_ >=? 0).
  - rewrite chk_i64_ok by nia. cbn [mbind Res_bind]. rewrite vwap_get by done.
    cbn [mbind Res_bind]. rewrite vwap_set by done. cbn [mbind Res_bind]. eauto.
  - rewrite vwap_get by done. cbn [mbind Res_bind]. unfold std_abs.
    rewrite (chk_i32_ok (Z.abs old)) by lia. cbn [mbind Res_bind].
    rewrite (chk_i32_ok (Z.abs (old + _))) by lia. cbn [mbind Res_bind].
    rewrite vwap_set by done. cbn [mbind Res_bind].
    rewrite (chk_i32_ok (_ * old)) by nia. cbn [mbind Res_bind].
    destruct (_ <? 0); [|eauto].
    rewrite (chk_i64_ok (rs_price r * _)) by nia. cbn [mbind Res_bind].
    rewrite vwap_set by done. cbn [mbind Res_bind]. rewrite vwap_set by done.
    cbn [mbind Res_bind]. eauto.
Qed.

Lemma addFill_spec p r :
  vwap_ok (open_vwap_ p) → fill_ok (position_ p) r →
  ∃ p', addFill p r = Ok p' ∧ vwap_ok (open_vwap_ p') ∧
    position_ p' = position_ p + signed_qty r ∧
    volume_ p' = u32 (volume_ p + rs_exec_qty r) ∧
    total_pnl_ p' = d_add (unreal_pnl_ p') (real_pnl_ p') ∧
    (position_ p' = 0 → unreal_pnl_ p' = d_zero ∧
      ∀ s, s = Side.BUY ∨ s = Side.SELL → arr_get (open_vwap_ p') (sideToIndex s) = d_zero).
Proof.
  intros Hv Hf. unfold addFill. rewrite position_after_exact by done.
  destruct (fill_vwap_ok r (position_ p) _ _ (real_pnl_ p) Hv Hf eq_refl)
    as (vwap & real & -> & Hv'). cbn [mbind Res_bind].
  destruct (position_ p + signed_qty r =? 0) eqn:E.
  - rewrite vwap_set by done. cbn [mbind Res_bind]. rewrite vwap_set by done.
    cbn [mbind Res_bind]. eexists. split; [reflexivity|]. split_and!; try done.
    intros _. split; [done|]. intros s Hs. cbn [open_vwap_].
    rewrite !arr_get_set. by destruct Hs as [-> | ->].
  - apply Z.eqb_neq in E. pose proof Hf as (_ & _ & _ & _ & Hb).
    destruct (unreal_at_ok _ vwap (d_of_Z (rs_price r)) Hv' Hb) as [x ->].
    cbn [mbind Res_bind]. eexists. split; [reflexivity|]. split_and!; done.
Qed.

(** ** Theorems *)
Fixpoint fills_ok (position : Z) (rs : list MEClientResponse) : Prop :=
  match rs with
  | [] => True
  | r :: rs => fill_ok position r ∧ fills_ok (position + signed_qty r) rs
  end.
#[export] Instance fills_ok_dec p rs : Decision (fills_ok p rs).
Proof. revert p. induction rs as [|r rs IH]; intros p; simpl; apply _. Defined.

(** C29: Positions add up: after any sequence of fills that keeps the position within 46340
    contracts, [addFill] has met no undefined behaviour, the position is the signed sum of
    the executed quantities, the volume their sum modulo 2^32, the total profit is the sum
    of its two parts, and a flat position has no unrealised profit and no open prices —
    whatever the uninitialised prices were. *)
Theorem position_tracks_fills p rs :
  vwap_ok (open_vwap_ p) → fills_ok (position_ p) rs → rs ≠ [] → 0 ≤ volume_ p < 2 ^ 32 →
  ∃ p', fold_res addFill p rs = Ok p' ∧
    position_ p' = position_ p + sumZ (signed_qty <$> rs) ∧
    volume_ p' = u32 (volume_ p + sumZ (rs_exec_qty <$> rs)) ∧
    total_pnl_ p' = d_add (unreal_pnl_ p') (real_pnl_ p') ∧
    (position_ p' = 0 → unreal_pnl_ p' = d_zero ∧
      ∀ s, s = Side.BUY ∨ s = Side.SELL → arr_get (open_vwap_ p') (sideToIndex s) = d_zero).
Proof.
  intros Hv Hf Hne Hvol. revert p Hv Hf Hvol. induction rs as [|r rs IH]; [done|].
  intros p Hv [Hr Hf] Hvol.
  destruct (addFill_spec p r Hv Hr) as (p1 & H1 & Hv1 & Hp1 & Hvol1 & Ht1 & Hz1).
  cbn [fold_res]. rewrite H1. cbn [mbind Res_bind]. rewrite !fmap_cons, !sumZ_cons.
  destruct (decide (rs = [])) as [->|Hrs].
  - exists p1. cbn [fold_res fmap list_fmap sumZ foldr]. rewrite !Z.add_0_r. split_and!; done.
  - rewrite <-Hp1 in Hf. destruct (IH Hrs p1 Hv1 Hf) as (p' & H2 & Hp2 & Hvol2 & Ht2 & Hz2).
    { rewrite Hvol1. apply u32_range. }
    exists p'. split; [done|]. split; [lia|]. split; [|split; done].
    rewrite Hvol2, Hvol1. unfold u32. rewrite Z.add_mod_idemp_l by lia. f_equal. lia.
Qed.

Definition fill (s : Side.t) (price : Price) (qty : Qty) : MEClientResponse :=
  mkMEClientResponse ClientResponseType.FILLED 1 0 1 1 s price qty 0.

Lemma position_tracks_fills_witness :
  ∃ p', fold_res addFill (PositionInfo_new (arr_new side_count (d_of_Z 12345)))
      [fill Side.BUY 100 10; fill Side.SELL 105 14; fill Side.BUY 99 4] = Ok p' ∧
    position_ p' = 0 ∧ unreal_pnl_ p' = d_zero.
Proof.
  destruct (position_tracks_fills (PositionInfo_new (arr_new side_count (d_of_Z 12345)))
    [fill Side.BUY 100 10; fill Side.SELL 105 14; fill Side.BUY 99 4])
    as (p' & H & Hp & _ & _ & Hz).
  - reflexivity.
  - apply (bool_decide_unpack _). by vm_compute.
  - discriminate.
  - by vm_compute.
  - exists p'. split; [exact H|].
    assert (position_ p' = 0) as H0 by (rewrite Hp; by vm_compute).
    split; [exact H0|]. by apply Hz.
Defined.

(** The open prices are never initialised: buying 10 at 100 and selling them at 105 earns
    50 when the memory happened to hold zeros, and something else when it did not, although
    the position is flat in both cases. *)
Theorem open_vwap_uninitialised :
  let run garbage := p ← fold_res addFill (PositionInfo_new (arr_new side_count garbage))
                       [fill Side.BUY 100 10; fill Side.SELL 105 10];
                     Ok (position_ p, total_pnl_ p) in
  run d_zero = Ok (0, d_of_Z 50) ∧ run (d_of_Z 1000) = Ok (0, d_of_Z (-950)).
Proof. vm_compute. split; reflexivity. Qed.

(** Flipping a large position is undefined behaviour: with 50000 contracts long, selling
    100000 multiplies the new and the old position in an [int], and -50000 * 50000 does not
    fit. *)
Theorem position_product_overflow garbage :
  arr_len garbage = side_count →
  addFill (mkPositionInfo 50000 d_zero d_zero d_zero garbage 0 None)
    (fill Side.SELL 100 100000) = Err SignedOverflow.
Proof.
  intros Hg. unfold addFill. cbn [position_ rs_exec_qty rs_side rs_price fill open_vwap_ real_pnl_].
  change (position_after 50000 100000 (sideToValue Side.SELL)) with (-50000).
  unfold fill_vwap. change (chk_i32 (50000 * sideToValue Side.SELL)) with (Ok (-50000) : Res Z).
  cbn [mbind Res_bind]. change (-50000 >=? 0) with false. cbv iota.
  rewrite vwap_get by exact Hg. cbn [mbind Res_bind].
  change (std_abs 50000) with (Ok 50000 : Res Z). cbn [mbind Res_bind].
  change (std_abs (-50000)) with (Ok 50000 : Res Z). cbn [mbind Res_bind].
  rewrite vwap_set by exact Hg. reflexivity.
Qed.

Lemma position_product_overflow_witness :
  addFill (mkPositionInfo 50000 d_zero d_zero d_zero (arr_new side_count d_zero) 0 None)
    (fill Side.SELL 100 100000) = Err SignedOverflow.
Proof. apply position_product_overflow. reflexivity. Defined.
