(* ===== verification/OrderManager.v ===== *)
(** * OrderManager: one order per instrument and side, behind the risk checks

    [trading/strategy/om_order.h], [risk_manager.h], [risk_manager.cpp], [order_manager.h]
    and [order_manager.cpp].  The requests given to [TradeEngine::sendClientRequest] are
    returned, in order. *)
From S2P Require Import Prelude Types Double MarketOrderBook PositionKeeper.

(** ** Configuration ([common/types.h]) *)
Record RiskCfg := mkRiskCfg {
  max_order_size_ : Qty;
  max_position_ : Qty;
  max_loss_ : double
}.
Record TradeEngineCfg := mkTradeEngineCfg {
  clip_ : Qty;
  threshold_ : double;
  risk_cfg_ : RiskCfg
}.
Abbreviation TradeEngineCfgHashMap := (arr TradeEngineCfg) (only parsing).

(** ** Risk *)
Module RiskCheckResult.
Inductive t := INVALID | ORDER_TOO_LARGE | POSITION_TOO_LARGE | LOSS_TOO_LARGE | ALLOWED.
#[export] Instance t_eq_dec : EqDecision t.
Proof. solve_decision. Defined.
End RiskCheckResult.
Export (hints) RiskCheckResult.

(** [RiskInfo::checkPreTradeRisk]. *)
Definition checkPreTradeRisk (p : PositionInfo) (cfg : RiskCfg) (side : Side.t) (qty : Qty)
  : Res RiskCheckResult.t :=
  if qty >? max_order_size_ cfg then Ok RiskCheckResult.ORDER_TOO_LARGE
  else
    delta ← chk_i32 (sideToValue side * i32 qty);
    position ← chk_i32 (position_ p + delta);
    abs ← std_abs position;
    if abs >? i32 (max_position_ cfg) then Ok RiskCheckResult.POSITION_TOO_LARGE
    else if d_lt (total_pnl_ p) (max_loss_ cfg) then Ok RiskCheckResult.LOSS_TOO_LARGE
    else Ok RiskCheckResult.ALLOWED.

(** [RiskManager::checkPreTradeRisk]: the manager's entry of an instrument is the keeper's
    position and the instrument's limits. *)
Definition rm_checkPreTradeRisk (pk : arr PositionInfo) (cfgs : TradeEngineCfgHashMap)
    (ticker_id : TickerId) (side : Side.t) (qty : Qty) : Res RiskCheckResult.t :=
  cfg ← arr_at cfgs ticker_id;
  p ← getPositionInfo pk ticker_id;
  checkPreTradeRisk p (risk_cfg_ cfg) side qty.

(** ** Orders *)
Module OMOrderState.
Inductive t := INVALID | PENDING_NEW | LIVE | PENDING_CANCEL | DEAD.
#[export] Instance t_eq_dec : EqDecision t.
Proof. solve_decision. Defined.
End OMOrderState.
Export (hints) OMOrderState.

Record OMOrder := mkOMOrder {
  om_ticker_id : TickerId;
  om_order_id : OrderId;
  om_side : Side.t;
  om_price : Price;
  om_qty : Qty;
  om_state : OMOrderState.t
}.
Definition OMOrder_default : OMOrder :=
  mkOMOrder TickerId_INVALID OrderId_INVALID Side.INVALID Price_INVALID Qty_INVALID
    OMOrderState.INVALID.
Definition om_with_state (o : OMOrder) (s : OMOrderState.t) : OMOrder :=
  mkOMOrder (om_ticker_id o) (om_order_id o) (om_side o) (om_price o) (om_qty o) s.
Definition om_with_qty (o : OMOrder) (q : Qty) : OMOrder :=
  mkOMOrder (om_ticker_id o) (om_order_id o) (om_side o) (om_price o) q (om_state o).

Record OrderManager := mkOrderManager {
  ticker_side_order_ : arr (arr OMOrder);
  next_order_id_ : OrderId
}.
Definition OrderManager_new : OrderManager :=
  mkOrderManager (arr_new ME_MAX_TICKERS (arr_new side_count OMOrder_default)) 1.

(** [&ticker_side_order_.at(ticker_id).at(sideToIndex(side))]. *)
Definition om_at (om : OrderManager) (ticker_id : TickerId) (side : Side.t) : Res OMOrder :=
  orders ← arr_at (ticker_side_order_ om) ticker_id;
  arr_at orders (sideToIndex side).
Definition om_put (om : OrderManager) (ticker_id : TickerId) (side : Side.t) (o : OMOrder)
  : OrderManager :=
  mkOrderManager
    (arr_set (ticker_side_order_ om) ticker_id
       (arr_set (arr_get (ticker_side_order_ om) ticker_id) (sideToIndex side) o))
    (next_order_id_ om).

(** The switch of [onOrderUpdate]. *)
Definition order_after (o : OMOrder) (r : MEClientResponse) : OMOrder :=
  match rs_type r with
  | ClientResponseType.ACCEPTED => om_with_state o OMOrderState.LIVE
  | ClientResponseType.CANCELED => om_with_state o OMOrderState.DEAD
  | ClientResponseType.FILLED =>
      let o := om_with_qty o (rs_leaves_qty r) in
      if om_qty o =? 0 then om_with_state o OMOrderState.DEAD else o
  | _ => o
  end.
Definition om_onOrderUpdate (om : OrderManager) (r : MEClientResponse) : Res OrderManager :=
  order ← om_at om (rs_ticker_id r) (rs_side r);
  Ok (om_put om (rs_ticker_id r) (rs_side r) (order_after order r)).

Section Orders.
Context (client_id : ClientId).

(** [newOrder]; the order object is the one of [ticker_id] and [side]. *)
Definition newOrder (om : OrderManager) (ticker_id : TickerId) (price : Price) (side : Side.t)
    (qty : Qty) : OrderManager * list MEClientRequest :=
  let id := next_order_id_ om in
  let new_request :=
    mkMEClientRequest ClientRequestType.NEW client_id ticker_id id side price qty in
  let om := om_put om ticker_id side
    (mkOMOrder ticker_id id side price qty OMOrderState.PENDING_NEW) in
  (mkOrderManager (ticker_side_order_ om) (u64 (id + 1)), [new_request]).

Definition cancelOrder (om : OrderManager) (ticker_id : TickerId) (side : Side.t)
    (order : OMOrder) : OrderManager * list MEClientRequest :=
  let cancel_request :=
    mkMEClientRequest ClientRequestType.CANCEL client_id (om_ticker_id order)
      (om_order_id order) (om_side order) (om_price order) (om_qty order) in
  (om_put om ticker_id side (om_with_state order OMOrderState.PENDING_CANCEL),
   [cancel_request]).

Context (pk : arr PositionInfo) (cfgs : TradeEngineCfgHashMap).

(** [moveOrder], on the order object of [ticker_id] and [side]. *)
Definition moveOrder (om : OrderManager) (ticker_id : TickerId) (price : Price)
    (side : Side.t) (qty : Qty) : Res (OrderManager * list MEClientRequest) :=
  order ← om_at om ticker_id side;
  match om_state order with
  | OMOrderState.LIVE =>
      if negb (om_price order =? price) then Ok (cancelOrder om ticker_id side order)
      else Ok (om, [])
  | OMOrderState.INVALID | OMOrderState.DEAD =>
      if negb (price =? Price_INVALID) then
        risk_result ← rm_checkPreTradeRisk pk cfgs ticker_id side qty;
        if bool_decide (risk_result = RiskCheckResult.ALLOWED)
        then Ok (newOrder om ticker_id price side qty)
        else Ok (om, [])
      else Ok (om, [])
  | OMOrderState.PENDING_NEW | OMOrderState.PENDING_CANCEL => Ok (om, [])
  end.

Definition moveOrders (om : OrderManager) (ticker_id : TickerId) (bid_price ask_price : Price)
    (clip : Qty) : Res (OrderManager * list MEClientRequest) :=
  '(om, sent1) ← moveOrder om ticker_id bid_price Side.BUY clip;
  '(om, sent2) ← moveOrder om ticker_id ask_price Side.SELL clip;
  Ok (om, sent1 ++ sent2).
End Orders.

(** ** Access *)
Record om_rep (om : OrderManager) : Prop := {
  or_tickers : arr_len (ticker_side_order_ om) = ME_MAX_TICKERS;
  or_sides : ∀ t, 0 ≤ t < ME_MAX_TICKERS → arr_len (arr_get (ticker_side_order_ om) t) = side_count
}.
Definition om_get (om : OrderManager) (t : TickerId) (s : Side.t) : OMOrder :=
  arr_get (arr_get (ticker_side_order_ om) t) (sideToIndex s).

Lemma OrderManager_new_rep : om_rep OrderManager_new.
Proof. split; [done|]. intros t _. cbn [OrderManager_new ticker_side_order_]. by rewrite arr_get_new. Qed.

Lemma om_at_ok om t s : om_rep om → 0 ≤ t < ME_MAX_TICKERS → om_at om t s = Ok (om_get om t s).
Proof.
  intros [H1 H2] Ht. unfold om_at. rewrite arr_at_Ok by by rewrite H1. cbn [mbind Res_bind].
  apply arr_at_Ok. rewrite H2 by done. apply sideToIndex_range.
Qed.

Lemma om_put_rep om t s o : om_rep om → 0 ≤ t < ME_MAX_TICKERS → om_rep (om_put om t s o).
Proof.
  intros [H1 H2] Ht. split; [done|]. intros t' Ht'. cbn [om_put ticker_side_order_].
  rewrite arr_get_set. case_decide; [rewrite arr_len_set|]; by apply H2.
Qed.

Lemma om_get_put om t s o t' s' :
  om_get (om_put om t s o) t' s' = if decide (t = t' ∧ s = s') then o else om_get om t' s'.
Proof.
  unfold om_get. cbn [om_put ticker_side_order_]. rewrite arr_get_set.
  destruct (decide (t = t')) as [<-|Hne].
  - rewrite arr_get_set. destruct (decide (s = s')) as [<-|Hs].
    + by rewrite !decide_True.
    + rewrite !decide_False; [done|tauto|]. intros E. by apply Hs, sideToIndex_inj.
  - rewrite decide_False; [done|tauto].
Qed.

(** An allowed order keeps the position within the limit when it is filled completely. *)
Lemma risk_allowed p cfg side qty :
  0 ≤ qty < 2 ^ 31 → 0 ≤ max_position_ cfg < 2 ^ 31 → side = Side.BUY ∨ side = Side.SELL →
  checkPreTradeRisk p cfg side qty = Ok RiskCheckResult.ALLOWED →
  qty ≤ max_order_size_ cfg ∧
  Z.abs (position_ p + sideToValue side * qty) ≤ max_position_ cfg ∧
  d_lt (total_pnl_ p) (max_loss_ cfg) = false.
Proof.
  intros Hq Hm Hs. unfold checkPreTradeRisk.
  destruct (qty >? max_order_size_ cfg) eqn:E1; [done|]. rewrite Z.gtb_ltb in E1.
  apply Z.ltb_ge in E1. rewrite (i32_id qty), (i32_id (max_position_ cfg)) by lia.
  intros (d & Hd & H)%res_bind_Ok. apply chk_i32_Ok in Hd as [-> _].
  apply res_bind_Ok in H as (x & Hx & H). apply chk_i32_Ok in Hx as [-> _].
  apply res_bind_Ok in H as (y & Hy & H). apply chk_i32_Ok in Hy as [-> _].
  destruct (_ >? _) eqn:E2; [done|]. rewrite Z.gtb_ltb in E2. apply Z.ltb_ge in E2.
  destruct (d_lt _ _) eqn:E3; [done|]. done.
Qed.
