(* ===== verification/PositionLimit.v ===== *)
(** * PositionLimit: the risk checks bound the position

    A strategy that only acts through [moveOrders], and an exchange that answers the order
    it was sent: whatever the strategy asks for and in whatever order the answers arrive,
    the position stays within the configured limit. *)
From S2P Require Import Prelude Types Double MarketOrderBook PositionKeeper OrderManager.

(** What the client's thread does with a response ([TradeEngine::onOrderUpdate]). *)
Definition on_client_response (pk : arr PositionInfo) (om : OrderManager) (r : MEClientResponse)
  : Res (arr PositionInfo * OrderManager) :=
  pk ← (if bool_decide (rs_type r = ClientResponseType.FILLED) then pk_addFill pk r else Ok pk);
  om ← om_onOrderUpdate om r;
  Ok (pk, om).

(** The client's state and, per instrument and side, what is left at the exchange (or on its
    way there) of the order sent last. *)
Abbreviation Resting := (TickerId → Side.t → option Qty) (only parsing).
Record World := mkWorld {
  w_pk : arr PositionInfo;
  w_om : OrderManager;
  w_rest : Resting
}.

Definition set_rest (rest : Resting) (t : TickerId) (s : Side.t) (q : option Qty) : Resting :=
  λ t' s', if decide (t = t' ∧ s = s') then q else rest t' s'.

(** The NEW requests are on their way from the moment they are sent. *)
Definition place (rest : Resting) (reqs : list MEClientRequest) : Resting :=
  foldl (λ rest r, match rq_type r with
                   | ClientRequestType.NEW =>
                       set_rest rest (rq_ticker_id r) (rq_side r) (Some (rq_qty r))
                   | _ => rest end) rest reqs.

(** A NEW request is only sent when nothing is left of the order before it. *)
Fixpoint fresh (rest : Resting) (reqs : list MEClientRequest) : Prop :=
  match reqs with
  | [] => True
  | r :: reqs =>
      (rq_type r = ClientRequestType.NEW → rest (rq_ticker_id r) (rq_side r) = None) ∧
      fresh (place rest [r]) reqs
  end.

(** A response for this client: only a refused cancel does not name the side. *)
Definition ours (r : MEClientResponse) : Prop :=
  0 ≤ rs_ticker_id r < ME_MAX_TICKERS ∧
  (rs_type r ≠ ClientResponseType.CANCEL_REJECTED → rs_side r = Side.BUY ∨ rs_side r = Side.SELL).

(** The answers an exchange can give, and what is left after them. *)
Inductive answers (rest : Resting) (r : MEClientResponse) : Resting → Prop :=
  | ans_accepted q : rs_type r = ClientResponseType.ACCEPTED →
      rest (rs_ticker_id r) (rs_side r) = Some q → answers rest r rest
  | ans_filled q : rs_type r = ClientResponseType.FILLED →
      rest (rs_ticker_id r) (rs_side r) = Some q → 0 < rs_exec_qty r ≤ q →
      rs_leaves_qty r = q - rs_exec_qty r → Z.abs (rs_price r) * 2 ^ 31 < 2 ^ 63 →
      answers rest r (set_rest rest (rs_ticker_id r) (rs_side r)
        (if rs_leaves_qty r =? 0 then None else Some (rs_leaves_qty r)))
  | ans_canceled q : rs_type r = ClientResponseType.CANCELED →
      rest (rs_ticker_id r) (rs_side r) = Some q →
      answers rest r (set_rest rest (rs_ticker_id r) (rs_side r) None)
  | ans_rejected : rs_type r = ClientResponseType.CANCEL_REJECTED → answers rest r rest.

(** What a response adds to the position in an instrument. *)
Definition fill_of (t : TickerId) (r : MEClientResponse) : Z :=
  if decide (rs_type r = ClientResponseType.FILLED ∧ rs_ticker_id r = t)
  then sideToValue (rs_side r) * rs_exec_qty r else 0.
Definition fills (t : TickerId) (G : list MEClientResponse) : Z := sumZ (fill_of t <$> G).
Lemma fills_cons t r G : fills t (r :: G) = fill_of t r + fills t G.
Proof. done. Qed.
Lemma fills_app t G1 G2 : fills t (G1 ++ G2) = fills t G1 + fills t G2.
Proof. unfold fills. by rewrite fmap_app, sumZ_app. Qed.

Definition pos (w : World) (t : TickerId) : Z := position_ (arr_get (w_pk w) t).
Definition active (s : OMOrderState.t) : Prop :=
  s = OMOrderState.PENDING_NEW ∨ s = OMOrderState.LIVE ∨ s = OMOrderState.PENDING_CANCEL.
Definition world_new (garbage : TickerId → arr double) : World :=
  mkWorld (PositionKeeper_new garbage) OrderManager_new (λ _ _, None).

Section World.
Context (client_id : ClientId) (cfgs : arr TradeEngineCfg).

Definition limit (t : TickerId) : Z := max_position_ (risk_cfg_ (arr_get cfgs t)).
Definition cfgs_ok : Prop :=
  arr_len cfgs = ME_MAX_TICKERS ∧
  ∀ t, 0 ≤ t < ME_MAX_TICKERS → 0 ≤ limit t ≤ position_bound.

Inductive world_step : World → World → Prop :=
  | w_move pk om rest t bid ask clip om' reqs :
      0 ≤ t < ME_MAX_TICKERS → 0 ≤ clip < 2 ^ 31 →
      moveOrders client_id pk cfgs om t bid ask clip = Ok (om', reqs) →
      world_step (mkWorld pk om rest) (mkWorld pk om' (place rest reqs))
  | w_mark pk om rest t bbo pk' :
      0 ≤ t < ME_MAX_TICKERS → pk_updateBBO pk t bbo = Ok pk' →
      world_step (mkWorld pk om rest) (mkWorld pk' om rest)
  | w_answer pk om rest r rest' pk' om' :
      ours r → answers rest r rest' → on_client_response pk om r = Ok (pk', om') →
      world_step (mkWorld pk om rest) (mkWorld pk' om' rest').

Inductive reachable (garbage : TickerId → arr double) : World → Prop :=
  | reach_new : reachable garbage (world_new garbage)
  | reach_step w w' : reachable garbage w → world_step w w' → reachable garbage w'.

Context (Hcfgs : cfgs_ok).

Record world_inv (w : World) : Prop := {
  wi_om : om_rep (w_om w);
  wi_pk : arr_len (w_pk w) = ME_MAX_TICKERS;
  wi_vwap : ∀ t, 0 ≤ t < ME_MAX_TICKERS → vwap_ok (open_vwap_ (arr_get (w_pk w) t));
  wi_pos : ∀ t, 0 ≤ t < ME_MAX_TICKERS → Z.abs (pos w t) ≤ limit t;
  wi_rest : ∀ t s q, 0 ≤ t < ME_MAX_TICKERS → s = Side.BUY ∨ s = Side.SELL →
    w_rest w t s = Some q →
    active (om_state (om_get (w_om w) t s)) ∧ 0 ≤ q < 2 ^ 31 ∧
    Z.abs (pos w t + sideToValue s * q) ≤ limit t
}.

(** One side of [moveOrders]. *)
Lemma moveOrder_inv pk om rest t price s clip om' reqs :
  0 ≤ t < ME_MAX_TICKERS → s = Side.BUY ∨ s = Side.SELL → 0 ≤ clip < 2 ^ 31 →
  world_inv (mkWorld pk om rest) →
  moveOrder client_id pk cfgs om t price s clip = Ok (om', reqs) →
  world_inv (mkWorld pk om' (place rest reqs)).
Proof.
  destruct Hcfgs as [Hcfg Hlimit].
  intros Ht Hs Hclip [Hom Hpk Hv Hp Hrest] H. unfold pos in *. cbn [w_pk w_om w_rest] in *.
  specialize (Hlimit t Ht). unfold moveOrder in H.
  rewrite (om_at_ok om t s Hom Ht) in H. cbn [mbind Res_bind] in H.
  assert (∀ o, (active (om_state (om_get om t s)) → active (om_state o)) →
    world_inv (mkWorld pk (om_put om t s o) rest)) as Hput.
  { intros o Ho. split; try done; [by apply om_put_rep|]. cbn [w_om w_rest].
    intros t' s' q Ht' Hs' Hq. destruct (Hrest t' s' q Ht' Hs' Hq) as (Ha & Hq0 & Hb).
    split; [|done]. rewrite om_get_put. case_decide as E; [|done].
    destruct E as [<- <-]. by apply Ho. }
  assert (om_state (om_get om t s) = OMOrderState.INVALID ∨
          om_state (om_get om t s) = OMOrderState.DEAD →
    (if negb (price =? Price_INVALID) then
       risk_result ← rm_checkPreTradeRisk pk cfgs t s clip;
       (if bool_decide (risk_result = RiskCheckResult.ALLOWED)
        then Ok (newOrder client_id om t price s clip) else Ok (om, []))
     else Ok (om, [])) = Ok (om', reqs) → world_inv (mkWorld pk om' (place rest reqs))) as Hnew.
  { intros Hstate Hn. destruct (negb _); [|by injection Hn as <- <-].
    apply res_bind_Ok in Hn as (res & Hres & Hn). case_bool_decide as Er;
      [subst res|by injection Hn as <- <-].
    unfold rm_checkPreTradeRisk, getPositionInfo in Hres.
    rewrite (arr_at_Ok cfgs) in Hres by by rewrite Hcfg. cbn [mbind Res_bind] in Hres.
    rewrite (arr_at_Ok pk) in Hres by by rewrite Hpk. cbn [mbind Res_bind] in Hres.
    unfold limit, position_bound in *.
    apply risk_allowed in Hres as (_ & Hlim & _); [|done|lia|done].
    unfold newOrder in Hn. injection Hn as <- <-.
    cbn [place foldl rq_type rq_ticker_id rq_side rq_qty].
    destruct (Hput (mkOMOrder t (next_order_id_ om) s price clip OMOrderState.PENDING_NEW))
      as [Ho1 Ho2 Ho3 Ho4 Ho5]; [by left|].
    split; try done; [by destruct Ho1|]. cbn [w_om w_rest]. intros t' s' q Ht' Hs' Hq.
    unfold set_rest in Hq. case_decide as E.
    - destruct E as [<- <-]. injection Hq as <-. split; [|done].
      unfold om_get. cbn [ticker_side_order_]. rewrite arr_get_set, decide_True by done.
      rewrite arr_get_set, decide_True by done. by left.
    - apply (Ho5 t' s' q Ht' Hs' Hq). }
  destruct (om_state (om_get om t s)) eqn:Es.
  - apply Hnew; [by left|done].
  - injection H as <- <-. by split.
  - destruct (negb _).
    + injection H as <- <-. cbn [place foldl rq_type cancelOrder].
      apply Hput. intros _. by right; right.
    + injection H as <- <-. by split.
  - injection H as <- <-. by split.
  - apply Hnew; [by right|done].
Qed.

(** [moveOrders] never faults for orders of less than 2^30 contracts. *)
Lemma moveOrder_total pk om t price s clip :
  0 ≤ t < ME_MAX_TICKERS → s = Side.BUY ∨ s = Side.SELL → 0 ≤ clip < 2 ^ 30 → om_rep om →
  arr_len pk = ME_MAX_TICKERS → Z.abs (position_ (arr_get pk t)) ≤ position_bound →
  ∃ om' reqs, moveOrder client_id pk cfgs om t price s clip = Ok (om', reqs) ∧ om_rep om'.
Proof.
  intros Ht Hs Hclip Hom Hpk Hp. unfold moveOrder. rewrite (om_at_ok om t s Hom Ht).
  cbn [mbind Res_bind]. unfold position_bound in *.
  assert (∃ res, rm_checkPreTradeRisk pk cfgs t s clip = Ok res) as [res Hres].
  { unfold rm_checkPreTradeRisk, getPositionInfo.
    rewrite (arr_at_Ok cfgs) by by rewrite (proj1 Hcfgs).
    cbn [mbind Res_bind]. rewrite (arr_at_Ok pk) by by rewrite Hpk. cbn [mbind Res_bind].
    unfold checkPreTradeRisk, std_abs. destruct (_ >? _); [by eexists|].
    rewrite (i32_id clip) by lia.
    assert (sideToValue s * clip = clip ∨ sideToValue s * clip = - clip) as Hd
      by (destruct Hs as [-> | ->]; cbn [sideToValue]; lia).
    do 3 (rewrite chk_i32_ok by lia; cbn [mbind Res_bind]).
    repeat case_match; by eexists. }
  rewrite Hres. cbn [mbind Res_bind].
  pose proof (λ o, om_put_rep om t s o Hom Ht) as Hput.
  repeat case_match; eexists _, _; (split; [reflexivity|]); try done.
  all: apply Hput || (split; apply Hput).
Qed.

Lemma moveOrders_total w t bid ask clip :
  0 ≤ t < ME_MAX_TICKERS → 0 ≤ clip < 2 ^ 30 → world_inv w →
  ∃ om' reqs, moveOrders client_id (w_pk w) cfgs (w_om w) t bid ask clip = Ok (om', reqs).
Proof.
  intros Ht Hclip [Hom Hpk _ Hp _]. specialize (Hp t Ht). pose proof (proj2 Hcfgs t Ht) as Hl.
  unfold pos in Hp. unfold moveOrders.
  destruct (moveOrder_total (w_pk w) (w_om w) t bid Side.BUY clip) as (om1 & r1 & -> & Hom1);
    [done|by left|done..|lia|]. cbn [mbind Res_bind].
  destruct (moveOrder_total (w_pk w) om1 t ask Side.SELL clip) as (om2 & r2 & -> & _);
    [done|by right|done..|lia|]. cbn [mbind Res_bind]. by eexists _, _.
Qed.

Lemma place_app rest l k : place rest (l ++ k) = place (place rest l) k.
Proof. apply foldl_app. Qed.

Lemma move_inv w t bid ask clip om' reqs :
  0 ≤ t < ME_MAX_TICKERS → 0 ≤ clip < 2 ^ 31 → world_inv w →
  moveOrders client_id (w_pk w) cfgs (w_om w) t bid ask clip = Ok (om', reqs) →
  world_inv (mkWorld (w_pk w) om' (place (w_rest w) reqs)).
Proof.
  intros Ht Hclip Hw H. destruct w as [pk om rest]. cbn [w_pk w_om w_rest] in *.
  unfold moveOrders in H. apply res_bind_Ok in H as ([om1 r1] & H1 & H).
  apply res_bind_Ok in H as ([om2 r2] & H2 & H). injection H as <- <-.
  rewrite place_app. eapply moveOrder_inv; [done|by right|exact Hclip| |exact H2].
  eapply moveOrder_inv; [done|by left|exact Hclip|exact Hw|exact H1].
Qed.

(** What [moveOrders] sends is fresh. *)
Lemma moveOrder_fresh pk om rest t price s clip om' reqs :
  0 ≤ t < ME_MAX_TICKERS → s = Side.BUY ∨ s = Side.SELL → world_inv (mkWorld pk om rest) →
  moveOrder client_id pk cfgs om t price s clip = Ok (om', reqs) → fresh rest reqs.
Proof.
  intros Ht Hs [Hom _ _ _ Hrest] H. cbn [w_om w_rest] in *. unfold moveOrder in H.
  rewrite (om_at_ok om t s Hom Ht) in H. cbn [mbind Res_bind] in H.
  assert (¬ active (om_state (om_get om t s)) → rest t s = None) as Hdead.
  { intros Hno. destruct (rest t s) as [q|] eqn:E; [|done].
    by destruct (Hrest t s q Ht Hs E) as [Ha _]. }
  unfold active in Hdead. destruct (om_state (om_get om t s)).
  1, 5: destruct (negb _); [|by injection H as <- <-];
    apply res_bind_Ok in H as (x & _ & H); destruct (bool_decide _); injection H as <- <-;
    [split; [intros _; apply Hdead; by intros [?|[?|?]]|done]|done].
  1, 3: by injection H as <- <-.
  destruct (negb _); by injection H as <- <-.
Qed.

Lemma fresh_app rest l k : fresh rest (l ++ k) ↔ fresh rest l ∧ fresh (place rest l) k.
Proof.
  revert rest. induction l as [|r l IH]; intros rest; [by cbn; tauto|].
  cbn [app fresh]. rewrite IH. change (place rest (r :: l)) with (place (place rest [r]) l). tauto.
Qed.

Lemma moveOrders_fresh w t bid ask clip om' reqs :
  0 ≤ t < ME_MAX_TICKERS → 0 ≤ clip < 2 ^ 31 → world_inv w →
  moveOrders client_id (w_pk w) cfgs (w_om w) t bid ask clip = Ok (om', reqs) →
  fresh (w_rest w) reqs.
Proof.
  intros Ht Hclip Hw H. destruct w as [pk om rest]. cbn [w_pk w_om w_rest] in *.
  unfold moveOrders in H. apply res_bind_Ok in H as ([om1 r1] & H1 & H).
  apply res_bind_Ok in H as ([om2 r2] & H2 & H). injection H as <- <-. apply fresh_app. split.
  - eapply moveOrder_fresh; [done|by left|exact Hw|exact H1].
  - eapply moveOrder_fresh; [done|by right| |exact H2].
    eapply moveOrder_inv; [done|by left|exact Hclip|exact Hw|exact H1].
Qed.

(** The bounds depend on the positions only. *)
Lemma world_inv_pk pk pk' om rest :
  world_inv (mkWorld pk om rest) → arr_len pk' = ME_MAX_TICKERS →
  (∀ t, 0 ≤ t < ME_MAX_TICKERS → vwap_ok (open_vwap_ (arr_get pk' t)) ∧
     position_ (arr_get pk' t) = position_ (arr_get pk t)) →
  world_inv (mkWorld pk' om rest).
Proof.
  intros [Hom Hpk Hv Hp Hrest] Hlen Heq. unfold pos in *. cbn [w_pk w_om w_rest] in *.
  split; unfold pos; cbn [w_pk w_om w_rest]; [done|done|by intros t Ht; apply Heq|..].
  - intros t Ht. rewrite (proj2 (Heq t Ht)). by apply Hp.
  - intros t s q Ht. rewrite (proj2 (Heq t Ht)). by apply Hrest.
Qed.

Lemma updateBBO_position_spec p t bbo p' :
  updateBBO_position p t bbo = Ok p' →
  position_ p' = position_ p ∧ open_vwap_ p' = open_vwap_ p.
Proof.
  unfold updateBBO_position. destruct (_ && _); [|by intros [= <-]].
  intros (x & _ & H)%res_bind_Ok. apply res_bind_Ok in H as (y & _ & H). by injection H as <-.
Qed.

Lemma mark_inv pk om rest t bbo pk' :
  0 ≤ t < ME_MAX_TICKERS → world_inv (mkWorld pk om rest) →
  pk_updateBBO pk t bbo = Ok pk' → world_inv (mkWorld pk' om rest).
Proof.
  intros Ht Hw H. pose proof Hw as [_ Hpk Hv _ _]. cbn [w_pk] in *. unfold pk_updateBBO in H.
  rewrite (arr_at_Ok pk) in H by by rewrite Hpk. cbn [mbind Res_bind] in H.
  apply res_bind_Ok in H as (p' & H & [= <-]). apply updateBBO_position_spec in H as [H1 H2].
  apply (world_inv_pk pk _ om rest Hw); [done|]. intros t' Ht'. rewrite arr_get_set.
  case_decide; [subst t'; rewrite H1, H2|]; split; try done; by apply Hv.
Qed.

(** An answer about the order of [t] and [s]: position, order and rest of that side move
    together, the other side stays in bounds, the rest is untouched. *)
Lemma answered pk om rest pk' rest' t s o :
  0 ≤ t < ME_MAX_TICKERS → world_inv (mkWorld pk om rest) → arr_len pk' = ME_MAX_TICKERS →
  vwap_ok (open_vwap_ (arr_get pk' t)) → Z.abs (position_ (arr_get pk' t)) ≤ limit t →
  (∀ t', t' ≠ t → arr_get pk' t' = arr_get pk t') →
  (∀ t' s', ¬ (t = t' ∧ s = s') → rest' t' s' = rest t' s') →
  (∀ q, s = Side.BUY ∨ s = Side.SELL → rest' t s = Some q →
     active (om_state o) ∧ 0 ≤ q < 2 ^ 31 ∧
     Z.abs (position_ (arr_get pk' t) + sideToValue s * q) ≤ limit t) →
  (∀ s' q, s' ≠ s → s' = Side.BUY ∨ s' = Side.SELL → rest t s' = Some q →
     Z.abs (position_ (arr_get pk' t) + sideToValue s' * q) ≤ limit t) →
  world_inv (mkWorld pk' (om_put om t s o) rest').
Proof.
  intros Ht [Hom Hpk Hv Hp Hrest] Hlen Hvt Hpt Hoth Hrest' Hsame Hopp.
  unfold pos in *. cbn [w_pk w_om w_rest] in *.
  split; unfold pos; cbn [w_pk w_om w_rest]; [by apply om_put_rep|done|..].
  - intros t' Ht'. destruct (decide (t' = t)) as [->|]; [done|]. rewrite Hoth by done. by apply Hv.
  - intros t' Ht'. destruct (decide (t' = t)) as [->|]; [done|]. rewrite Hoth by done. by apply Hp.
  - intros t' s' q Ht' Hs' Hq. rewrite om_get_put. case_decide as E.
    + destruct E as [<- <-]. by apply Hsame.
    + rewrite Hrest' in Hq by done. destruct (Hrest t' s' q Ht' Hs' Hq) as (H1 & H2 & H3).
      split; [done|]. split; [done|]. destruct (decide (t' = t)) as [->|].
      * apply (Hopp s' q); [|done|done]. intros ->. by apply E.
      * by rewrite Hoth.
Qed.

(** Answers that leave the position alone. *)
Lemma answered_same pk om rest rest' t s o :
  0 ≤ t < ME_MAX_TICKERS → world_inv (mkWorld pk om rest) →
  (∀ t' s', ¬ (t = t' ∧ s = s') → rest' t' s' = rest t' s') →
  (∀ q, rest' t s = Some q → rest t s = Some q ∧
     (active (om_state (om_get om t s)) → active (om_state o))) →
  world_inv (mkWorld pk (om_put om t s o) rest').
Proof.
  intros Ht Hw Hrest' Hsame. pose proof Hw as [_ Hpk Hv Hp Hrest].
  unfold pos in *. cbn [w_pk w_om w_rest] in *.
  apply (answered pk om rest); try done; [by apply Hv|by apply Hp|..].
  - intros q Hs Hq. destruct (Hsame q Hq) as [Hq' Hact].
    destruct (Hrest t s q Ht Hs Hq') as (H1 & H2 & H3). auto.
  - intros s' q _ Hs' Hq. by apply (Hrest t s' q Ht Hs' Hq).
Qed.

Lemma fill_inv pk om rest r q :
  world_inv (mkWorld pk om rest) → ours r → rs_type r = ClientResponseType.FILLED →
  rest (rs_ticker_id r) (rs_side r) = Some q → 0 < rs_exec_qty r ≤ q →
  rs_leaves_qty r = q - rs_exec_qty r → Z.abs (rs_price r) * 2 ^ 31 < 2 ^ 63 →
  ∃ pk' om', on_client_response pk om r = Ok (pk', om') ∧
    world_inv (mkWorld pk' om' (set_rest rest (rs_ticker_id r) (rs_side r)
      (if rs_leaves_qty r =? 0 then None else Some (rs_leaves_qty r)))) ∧
    ∀ t, position_ (arr_get pk' t) = position_ (arr_get pk t) + fill_of t r.
Proof.
  intros Hw [Ht Hs] Ety Hq Hex Hlv Hpr. rewrite Ety in Hs. specialize (Hs ltac:(done)). pose proof Hw as [Hom Hpk Hv Hp Hrest].
  unfold pos in *. cbn [w_pk w_om w_rest] in *. set (t := rs_ticker_id r) in *.
  pose proof (proj2 Hcfgs t Ht) as Hl. specialize (Hp t Ht).
  destruct (Hrest t _ q Ht Hs Hq) as (Has & Hq0 & Hb).
  assert (Z.abs (position_ (arr_get pk t) + signed_qty r) ≤ limit t) as Hnew.
  { unfold signed_qty. destruct Hs as [E|E]; rewrite E in *; cbn [sideToValue] in *; lia. }
  destruct (addFill_spec (arr_get pk t) r) as (p' & Hf & Hv' & Hpos & _); [by apply Hv| |].
  { unfold fill_ok. split; [done|]. split; [lia|]. split; [done|]. lia. }
  unfold on_client_response, om_onOrderUpdate, pk_addFill. fold t.
  rewrite bool_decide_eq_true_2, (arr_at_Ok pk) by (done || by rewrite Hpk).
  cbn [mbind Res_bind]. rewrite Hf, (om_at_ok om t _ Hom Ht). cbn [mbind Res_bind].
  eexists _, _. split; [reflexivity|]. split.
  2: { intros t'. unfold fill_of. destruct (decide (t = t')) as [<-|Hne].
       - by rewrite arr_get_set_eq, decide_True, Hpos.
       - rewrite arr_get_set_ne, decide_False by (try congruence; by intros [_ ?]). lia. }
  apply (answered pk om rest); try done; rewrite ?arr_get_set_eq, ?Hpos; try done.
  - intros t' Hne. by apply arr_get_set_ne.
  - intros t' s' Hne. unfold set_rest. by rewrite decide_False.
  - intros q' _. unfold set_rest. rewrite decide_True by done.
    destruct (rs_leaves_qty r =? 0) eqn:El; [done|]. intros [= <-]. split.
    + unfold order_after. rewrite Ety. cbn [om_with_qty om_qty]. by rewrite El.
    + unfold signed_qty. destruct Hs as [E|E]; rewrite E in *; cbn [sideToValue] in *; lia.
  - intros s' q' Hne Hs' Hq'. destruct (Hrest t s' q' Ht Hs' Hq') as (_ & H2 & H3).
    unfold signed_qty.
    destruct Hs as [E|E], Hs' as [E'|E']; rewrite E, E' in *; cbn [sideToValue] in *;
      (done || lia).
Qed.

(** Every answer is handled, and the bounds survive it. *)
Lemma answer_inv w r rest' :
  world_inv w → ours r → answers (w_rest w) r rest' →
  ∃ pk' om', on_client_response (w_pk w) (w_om w) r = Ok (pk', om') ∧
    world_inv (mkWorld pk' om' rest') ∧
    ∀ t, position_ (arr_get pk' t) = position_ (arr_get (w_pk w) t) + fill_of t r.
Proof.
  destruct w as [pk om rest]. cbn [w_pk w_om w_rest]. intros Hw Ho Ha.
  assert (om_rep om) as Hom by apply (wi_om _ Hw). pose proof Ho as [Ht _].
  assert (rs_type r ≠ ClientResponseType.FILLED → on_client_response pk om r =
    Ok (pk, om_put om (rs_ticker_id r) (rs_side r)
              (order_after (om_get om (rs_ticker_id r) (rs_side r)) r))) as Hrun.
  { intros Hty. unfold on_client_response, om_onOrderUpdate.
    rewrite bool_decide_eq_false_2 by done. cbn [mbind Res_bind].
    by rewrite (om_at_ok om _ _ Hom Ht). }
  assert (rs_type r ≠ ClientResponseType.FILLED → ∀ t,
    position_ (arr_get pk t) = position_ (arr_get pk t) + fill_of t r) as Hsame.
  { intros Hty t. unfold fill_of. rewrite decide_False by (by intros [? _]). lia. }
  destruct Ha as [q Ety Hq|q Ety Hq Hex Hlv Hpr|q Ety Hq|Ety].
  - eexists _, _. split; [apply Hrun; by rewrite Ety|]. split; [|apply Hsame; by rewrite Ety].
    apply (answered_same pk om rest); try done. intros q' Hq'. split; [done|].
    intros _. unfold order_after. rewrite Ety. by right; left.
  - by apply (fill_inv pk om rest r q).
  - eexists _, _. split; [apply Hrun; by rewrite Ety|]. split; [|apply Hsame; by rewrite Ety].
    apply (answered_same pk om rest); try done.
    + intros t' s' Hne. unfold set_rest. by rewrite decide_False.
    + intros q'. unfold set_rest. by rewrite decide_True.
  - eexists _, _. split; [apply Hrun; by rewrite Ety|]. split; [|apply Hsame; by rewrite Ety].
    apply (answered_same pk om rest); try done. intros q' Hq'. split; [done|].
    unfold order_after. by rewrite Ety.
Qed.

Lemma world_step_inv w w' : world_step w w' → world_inv w → world_inv w'.
Proof.
  intros [pk om rest t bid ask clip om' reqs Ht Hclip H|pk om rest t bbo pk' Ht H|
          pk om rest r rest' pk' om' Hr Ha H] Hw.
  - exact (move_inv (mkWorld pk om rest) t bid ask clip om' reqs Ht Hclip Hw H).
  - by apply (mark_inv pk om rest t bbo).
  - destruct (answer_inv _ r rest' Hw Hr Ha) as (pk1 & om1 & H1 & Hi & _).
    cbn [w_pk w_om] in H1. rewrite H in H1. by injection H1 as <- <-.
Qed.

Lemma reachable_inv garbage w :
  (∀ i, vwap_ok (garbage i)) → reachable garbage w → world_inv w.
Proof.
  intros Hg. induction 1 as [|w w' _ IH Hstep]; [|by apply (world_step_inv w)].
  destruct (PositionKeeper_new_spec garbage) as [Hlen Hget].
  split; unfold pos; cbn [world_new w_pk w_om w_rest];
    [apply OrderManager_new_rep|done|..|done].
  - intros t Ht. rewrite Hget by done. exact (Hg t).
  - intros t Ht. rewrite Hget by done. cbn [position_ PositionInfo_new].
    pose proof (proj2 Hcfgs t Ht). lia.
Qed.
End World.

(** Positions stay within their limits: starting flat, with a strategy that sends orders
    only through [moveOrders] (any instruments, prices and clips) and an exchange that
    accepts, fills in parts, cancels or refuses to cancel the orders it was sent, in any
    interleaving, the absolute position in an instrument never exceeds its [max_position_]
    (configured below 46341), although both sides rest at once.  No call of [moveOrders]
    and no answer meets undefined behaviour. *)
Theorem position_limit client_id cfgs garbage w t :
  cfgs_ok cfgs → (∀ i, vwap_ok (garbage i)) → reachable client_id cfgs garbage w →
  0 ≤ t < ME_MAX_TICKERS →
  Z.abs (pos w t) ≤ limit cfgs t ∧
  (∀ bid ask clip, 0 ≤ clip < 2 ^ 30 → ∃ om' reqs,
    moveOrders client_id (w_pk w) cfgs (w_om w) t bid ask clip = Ok (om', reqs)) ∧
  (∀ r rest', ours r → answers (w_rest w) r rest' → ∃ pk' om',
    on_client_response (w_pk w) (w_om w) r = Ok (pk', om')).
Proof.
  intros Hcfg Hg Hw Ht. pose proof (reachable_inv client_id cfgs Hcfg garbage w Hg Hw) as Hi.
  split; [by apply Hi|]. split.
  - intros bid ask clip Hclip. by apply moveOrders_total.
  - intros r rest' Hr Ha.
    destruct (answer_inv cfgs Hcfg w r rest' Hi Hr Ha) as (pk' & om' & H & _). eauto.
Qed.

Definition limit_cfgs : arr TradeEngineCfg :=
  arr_new ME_MAX_TICKERS (mkTradeEngineCfg 10 d_zero (mkRiskCfg 10 15 (d_of_Z (-1000)))).

Lemma limit_cfgs_ok : cfgs_ok limit_cfgs.
Proof. split; [done|]. intros t _. unfold limit, limit_cfgs. rewrite arr_get_new. by vm_compute. Qed.

(** Both orders of 10 are placed and the buy order is filled. *)
Lemma position_limit_witness :
  ∃ w, reachable 1 limit_cfgs (λ _, arr_new side_count d_zero) w ∧ pos w 3 = 10 ∧
    Z.abs (pos w 3) ≤ 15 ∧
    ∃ om' reqs, moveOrders 1 (w_pk w) limit_cfgs (w_om w) 3 100 102 10 = Ok (om', reqs).
Proof.
  assert (∃ w, reachable 1 limit_cfgs (λ _, arr_new side_count d_zero) w ∧ pos w 3 = 10)
    as (w & Hw & Hp).
  { eexists. split.
    - eapply reach_step; [eapply reach_step; [apply reach_new|]|].
      + eapply (w_move _ _ _ _ _ 3 100 102 10); [by vm_compute|lia|]. vm_compute. reflexivity.
      + eapply (w_answer _ _ _ _ _ (mkMEClientResponse ClientResponseType.FILLED 1 3 1 7
          Side.BUY 100 10 0)).
        * split; [by vm_compute|]. intros _. by left.
        * eapply (ans_filled _ _ 10); [reflexivity|vm_compute; reflexivity|
            vm_compute; split; [reflexivity|discriminate]|reflexivity|vm_compute; reflexivity].
        * vm_compute. reflexivity.
    - vm_compute. reflexivity. }
  destruct (position_limit 1 limit_cfgs (λ _, arr_new side_count d_zero) w 3) as (H1 & H2 & _).
  - exact limit_cfgs_ok.
  - reflexivity.
  - exact Hw.
  - by vm_compute.
  - exists w. split; [exact Hw|]. split; [exact Hp|]. split; [exact H1|].
    apply H2. split; by vm_compute.
Defined.
