(* ===== verification/Strategies.v ===== *)
(** * Strategies: the features and the two trading algorithms

    [trading/strategy/feature_engine.h], [market_maker.h], [market_maker.cpp],
    [liquidity_taker.h] and [liquidity_taker.cpp].  A book is read through its best bid and
    offer only, so the handlers take that; the requests an algorithm makes are returned. *)
From S2P Require Import Prelude Types Double MarketOrderBook PositionKeeper OrderManager.

(** ** Features *)
Definition Feature_INVALID : double := d_nan.

Record FeatureEngine := mkFeatureEngine {
  mkt_price_ : double;
  agg_trade_qty_ratio_ : double
}.
Definition FeatureEngine_new : FeatureEngine := mkFeatureEngine Feature_INVALID Feature_INVALID.

(** [bbo->bid_price_ != Price_INVALID && bbo->ask_price_ != Price_INVALID]. *)
Definition two_sided (bbo : BBO) : bool :=
  negb (bid_price_ bbo =? Price_INVALID) && negb (ask_price_ bbo =? Price_INVALID).

Definition fe_onOrderBookUpdate (fe : FeatureEngine) (bbo : BBO) : Res FeatureEngine :=
  if two_sided bbo then
    bid_part ← chk_i64 (bid_price_ bbo * ask_qty_ bbo);
    ask_part ← chk_i64 (ask_price_ bbo * bid_qty_ bbo);
    sum ← chk_i64 (bid_part + ask_part);
    Ok (mkFeatureEngine (d_div (d_of_Z sum) (d_of_Z (u32 (bid_qty_ bbo + ask_qty_ bbo))))
          (agg_trade_qty_ratio_ fe))
  else Ok fe.

Definition fe_onTradeUpdate (fe : FeatureEngine) (u : MEMarketUpdate) (bbo : BBO)
  : FeatureEngine :=
  if two_sided bbo then
    mkFeatureEngine (mkt_price_ fe)
      (d_div (d_of_Z (mu_qty u))
         (d_of_Z (if bool_decide (mu_side u = Side.BUY) then ask_qty_ bbo else bid_qty_ bbo)))
  else fe.

Section Algorithms.
Context (client_id : ClientId) (cfgs : TradeEngineCfgHashMap).

(** [MarketMaker::onOrderBookUpdate]. *)
Definition mm_onOrderBookUpdate (fe : FeatureEngine) (pk : arr PositionInfo)
    (om : OrderManager) (ticker_id : TickerId) (bbo : BBO)
  : Res (OrderManager * list MEClientRequest) :=
  let fair_price := mkt_price_ fe in
  if two_sided bbo && d_ne fair_price Feature_INVALID then
    cfg ← arr_at cfgs ticker_id;
    let clip := clip_ cfg in
    let threshold := threshold_ cfg in
    bid_price ← chk_i64 (bid_price_ bbo -
      (if d_ge (d_sub fair_price (d_of_Z (bid_price_ bbo))) threshold then 0 else 1));
    ask_price ← chk_i64 (ask_price_ bbo +
      (if d_ge (d_sub (d_of_Z (ask_price_ bbo)) fair_price) threshold then 0 else 1));
    moveOrders client_id pk cfgs om ticker_id bid_price ask_price clip
  else Ok (om, []).

(** [LiquidityTaker::onTradeUpdate]. *)
Definition lt_onTradeUpdate (fe : FeatureEngine) (pk : arr PositionInfo) (om : OrderManager)
    (u : MEMarketUpdate) (bbo : BBO) : Res (OrderManager * list MEClientRequest) :=
  let agg_qty_ratio := agg_trade_qty_ratio_ fe in
  if two_sided bbo && d_ne agg_qty_ratio Feature_INVALID then
    cfg ← arr_at cfgs (mu_ticker_id u);
    let clip := clip_ cfg in
    let threshold := threshold_ cfg in
    if d_ge agg_qty_ratio threshold then
      if bool_decide (mu_side u = Side.BUY)
      then moveOrders client_id pk cfgs om (mu_ticker_id u) (ask_price_ bbo) Price_INVALID clip
      else moveOrders client_id pk cfgs om (mu_ticker_id u) Price_INVALID (bid_price_ bbo) clip
    else Ok (om, [])
  else Ok (om, []).
End Algorithms.

(** ** Bounds *)

(** Prices and quantities for which the feature arithmetic stays in 64 bits. *)
Definition bbo_small (bbo : BBO) : Prop :=
  (bid_price_ bbo = Price_INVALID ∨ Z.abs (bid_price_ bbo) < 2 ^ 30) ∧
  (ask_price_ bbo = Price_INVALID ∨ Z.abs (ask_price_ bbo) < 2 ^ 30) ∧
  0 ≤ bid_qty_ bbo < 2 ^ 32 ∧ 0 ≤ ask_qty_ bbo < 2 ^ 32.
#[export] Instance bbo_small_dec b : Decision (bbo_small b).
Proof. unfold bbo_small. apply _. Defined.

Lemma two_sided_small bbo :
  bbo_small bbo → two_sided bbo = true →
  Z.abs (bid_price_ bbo) < 2 ^ 30 ∧ Z.abs (ask_price_ bbo) < 2 ^ 30.
Proof.
  intros (H1 & H2 & _) (E1 & E2)%andb_true_iff. apply negb_true_iff, Z.eqb_neq in E1, E2. tauto.
Qed.

Lemma fe_onOrderBookUpdate_ok fe bbo :
  bbo_small bbo → ∃ fe', fe_onOrderBookUpdate fe bbo = Ok fe'.
Proof.
  intros Hb. unfold fe_onOrderBookUpdate. destruct (two_sided bbo) eqn:E; [|by eexists].
  destruct (two_sided_small bbo Hb E). destruct Hb as (_ & _ & ? & ?).
  do 3 (rewrite chk_i64_ok by nia; cbn [mbind Res_bind]). by eexists.
Qed.

(** What the market maker asks for. *)
Definition quote_bid (fair threshold : double) (bbo : BBO) : Price :=
  bid_price_ bbo - (if d_ge (d_sub fair (d_of_Z (bid_price_ bbo))) threshold then 0 else 1).
Definition quote_ask (fair threshold : double) (bbo : BBO) : Price :=
  ask_price_ bbo + (if d_ge (d_sub (d_of_Z (ask_price_ bbo)) fair) threshold then 0 else 1).

Lemma mm_quotes client_id cfgs fe pk om t bbo :
  arr_len cfgs = ME_MAX_TICKERS → 0 ≤ t < ME_MAX_TICKERS → bbo_small bbo →
  mm_onOrderBookUpdate client_id cfgs fe pk om t bbo =
  if two_sided bbo then
    let cfg := arr_get cfgs t in
    moveOrders client_id pk cfgs om t (quote_bid (mkt_price_ fe) (threshold_ cfg) bbo)
      (quote_ask (mkt_price_ fe) (threshold_ cfg) bbo) (clip_ cfg)
  else Ok (om, []).
Proof.
  intros Hlen Ht Hb. unfold mm_onOrderBookUpdate, Feature_INVALID. rewrite d_ne_nan, andb_true_r.
  destruct (two_sided bbo) eqn:E; [|done]. destruct (two_sided_small bbo Hb E).
  rewrite (arr_at_Ok cfgs) by by rewrite Hlen. cbn [mbind Res_bind].
  unfold quote_bid, quote_ask.
  rewrite !chk_i64_ok by (case_match; lia). done.
Qed.

Lemma quotes_passive fair threshold bbo :
  bid_price_ bbo - 1 ≤ quote_bid fair threshold bbo ≤ bid_price_ bbo ∧
  ask_price_ bbo ≤ quote_ask fair threshold bbo ≤ ask_price_ bbo + 1.
Proof. unfold quote_bid, quote_ask. repeat case_match; lia. Qed.

Lemma quotes_invalid threshold bbo :
  quote_bid Feature_INVALID threshold bbo = bid_price_ bbo - 1 ∧
  quote_ask Feature_INVALID threshold bbo = ask_price_ bbo + 1.
Proof.
  unfold quote_bid, quote_ask, Feature_INVALID. by rewrite d_sub_nan_l, d_sub_nan_r, !d_ge_nan.
Qed.

(** What the liquidity taker asks for. *)
Lemma lt_orders client_id cfgs fe pk om u bbo :
  arr_len cfgs = ME_MAX_TICKERS → 0 ≤ mu_ticker_id u < ME_MAX_TICKERS →
  lt_onTradeUpdate client_id cfgs fe pk om u bbo =
  let cfg := arr_get cfgs (mu_ticker_id u) in
  if two_sided bbo && d_ge (agg_trade_qty_ratio_ fe) (threshold_ cfg) then
    moveOrders client_id pk cfgs om (mu_ticker_id u)
      (if bool_decide (mu_side u = Side.BUY) then ask_price_ bbo else Price_INVALID)
      (if bool_decide (mu_side u = Side.BUY) then Price_INVALID else bid_price_ bbo) (clip_ cfg)
  else Ok (om, []).
Proof.
  intros Hlen Ht. unfold lt_onTradeUpdate, Feature_INVALID. rewrite d_ne_nan, andb_true_r.
  destruct (two_sided bbo) eqn:E; [|done].
  rewrite (arr_at_Ok cfgs) by by rewrite Hlen. cbn [mbind Res_bind andb].
  destruct (d_ge _ _); [|done]. by case_bool_decide.
Qed.

(** ** Theorems *)

(** The market maker's quotes: on a two-sided book it asks [moveOrders] for a bid at the
    best bid or one tick below and an ask at the best ask or one tick above — never inside
    the spread — by the distance to the fair price, and on a one-sided book for nothing.
    The test [fair_price != Feature_INVALID] has no part in this: a comparison with NaN
    is always true, and with no fair price yet it quotes one tick outside on both sides. *)
Theorem maker_quotes client_id cfgs fe pk om t bbo :
  arr_len cfgs = ME_MAX_TICKERS → 0 ≤ t < ME_MAX_TICKERS → bbo_small bbo →
  (two_sided bbo = false →
   mm_onOrderBookUpdate client_id cfgs fe pk om t bbo = Ok (om, [])) ∧
  (two_sided bbo = true → ∃ bid ask,
   mm_onOrderBookUpdate client_id cfgs fe pk om t bbo =
     moveOrders client_id pk cfgs om t bid ask (clip_ (arr_get cfgs t)) ∧
   bid_price_ bbo - 1 ≤ bid ≤ bid_price_ bbo ∧ ask_price_ bbo ≤ ask ≤ ask_price_ bbo + 1 ∧
   (mkt_price_ fe = Feature_INVALID → bid = bid_price_ bbo - 1 ∧ ask = ask_price_ bbo + 1)).
Proof.
  intros Hlen Ht Hb. rewrite (mm_quotes client_id cfgs fe pk om t bbo Hlen Ht Hb).
  split; intros ->; [done|]. eexists _, _. split; [reflexivity|].
  split; [apply quotes_passive|]. split; [apply quotes_passive|].
  intros ->. apply quotes_invalid.
Qed.

Lemma maker_quotes_witness :
  ∃ bid ask, mm_onOrderBookUpdate 1
      (arr_new ME_MAX_TICKERS (mkTradeEngineCfg 10 (d_of_Z 1) (mkRiskCfg 10 15 d_zero)))
      FeatureEngine_new (PositionKeeper_new (λ _, arr_new side_count d_zero)) OrderManager_new
      2 (mkBBO 100 103 5 6) =
    moveOrders 1 (PositionKeeper_new (λ _, arr_new side_count d_zero))
      (arr_new ME_MAX_TICKERS (mkTradeEngineCfg 10 (d_of_Z 1) (mkRiskCfg 10 15 d_zero)))
      OrderManager_new 2 bid ask 10 ∧ bid = 99 ∧ ask = 104.
Proof.
  destruct (maker_quotes 1
      (arr_new ME_MAX_TICKERS (mkTradeEngineCfg 10 (d_of_Z 1) (mkRiskCfg 10 15 d_zero)))
      FeatureEngine_new (PositionKeeper_new (λ _, arr_new side_count d_zero)) OrderManager_new
      2 (mkBBO 100 103 5 6)) as [_ H].
  - reflexivity.
  - by vm_compute.
  - apply (bool_decide_unpack _). by vm_compute.
  - destruct (H eq_refl) as (bid & ask & E & _ & _ & Hinv).
    destruct (Hinv eq_refl) as [-> ->]. exists 99, 104. split; [exact E|by vm_compute].
Defined.
