(* ===== verification/OrderFields.v ===== *)
(** * OrderFields: the orders of the trading client fit the wire

    Whatever the strategy asks for, the requests of the order manager have field values that
    the message structures hold, so the exchange reads what the client meant. *)
From S2P Require Import Prelude Types Wire Double MarketOrderBook PositionKeeper OrderManager.
From S2P Require Import PositionLimit.

Definition order_fields (o : OMOrder) : Prop :=
  0 ≤ om_ticker_id o < 2 ^ 32 ∧ 0 ≤ om_order_id o < 2 ^ 64 ∧
  - 2 ^ 63 ≤ om_price o < 2 ^ 63 ∧ 0 ≤ om_qty o < 2 ^ 32.

Record om_fields (om : OrderManager) : Prop := {
  of_next : 0 ≤ next_order_id_ om < 2 ^ 64;
  of_orders : ∀ t s, 0 ≤ t < ME_MAX_TICKERS → order_fields (om_get om t s)
}.

Lemma request_c_ok (r : MEClientRequest) :
  0 ≤ rq_client_id r < 2 ^ 32 → 0 ≤ rq_ticker_id r < 2 ^ 32 → 0 ≤ rq_order_id r < 2 ^ 64 →
  - 2 ^ 63 ≤ rq_price r < 2 ^ 63 → 0 ≤ rq_qty r < 2 ^ 32 → c_ok r.
Proof. intros. by split_and!. Qed.

Lemma om_fields_new : om_fields OrderManager_new.
Proof.
  split; [done|]. intros t s _. unfold om_get. cbn [OrderManager_new ticker_side_order_].
  by rewrite !arr_get_new.
Qed.

Lemma om_fields_put om t s o : om_fields om → order_fields o → om_fields (om_put om t s o).
Proof.
  intros [Hn Ho] Hf. split; [done|]. intros t' s' Ht'. rewrite om_get_put.
  case_decide; [done|by apply Ho].
Qed.

Section Moves.
Context (client_id : ClientId) (Hc : 0 ≤ client_id < 2 ^ 32).
Context (pk : arr PositionInfo) (cfgs : TradeEngineCfgHashMap).

Definition sent_fields (reqs : list MEClientRequest) : Prop :=
  Forall (λ r, c_ok r ∧ rq_client_id r = client_id) reqs.

Lemma moveOrder_fields om t price s clip om' reqs :
  om_rep om → om_fields om → 0 ≤ t < ME_MAX_TICKERS → - 2 ^ 63 ≤ price < 2 ^ 63 →
  0 ≤ clip < 2 ^ 32 → moveOrder client_id pk cfgs om t price s clip = Ok (om', reqs) →
  om_rep om' ∧ om_fields om' ∧ sent_fields reqs.
Proof.
  intros Hrep Hf Ht Hp Hq H. unfold moveOrder in H.
  rewrite (om_at_ok om t s Hrep Ht) in H. cbn [mbind Res_bind] in H.
  pose proof (of_orders _ Hf t s Ht) as Hof. pose proof (of_next _ Hf) as Hnext.
  assert (0 ≤ t < 2 ^ 32) as Ht32 by (unfold ME_MAX_TICKERS in Ht; lia).
  unfold sent_fields. destruct (om_state (om_get om t s)).
  1, 5: destruct (negb _); [|by injection H as <- <-];
    apply res_bind_Ok in H as (x & _ & H); destruct (bool_decide _); injection H as <- <-;
    [|done]; split; [by destruct (om_put_rep om t s (mkOMOrder t (next_order_id_ om) s price clip
       OMOrderState.PENDING_NEW) Hrep Ht)|]; split;
    [split; [apply u64_range|];
     by apply (om_fields_put om t s (mkOMOrder t (next_order_id_ om) s price clip
       OMOrderState.PENDING_NEW) Hf)
    |constructor; [split; [by apply request_c_ok|done]|done]].
  1, 3: by injection H as <- <-.
  destruct (negb _); [|by injection H as <- <-]. injection H as <- <-.
  split; [by apply om_put_rep|]. split; [by apply om_fields_put|].
  constructor; [split; [|done]|done]. destruct Hof as (? & ? & ? & ?). by apply request_c_ok.
Qed.

Lemma moveOrders_fields om t bid ask clip om' reqs :
  om_rep om → om_fields om → 0 ≤ t < ME_MAX_TICKERS → - 2 ^ 63 ≤ bid < 2 ^ 63 →
  - 2 ^ 63 ≤ ask < 2 ^ 63 → 0 ≤ clip < 2 ^ 32 →
  moveOrders client_id pk cfgs om t bid ask clip = Ok (om', reqs) →
  om_fields om' ∧ sent_fields reqs.
Proof.
  intros Hrep Hf Ht Hb Ha Hq H. unfold moveOrders in H.
  apply res_bind_Ok in H as ([om1 r1] & H1 & H). apply res_bind_Ok in H as ([om2 r2] & H2 & H).
  injection H as <- <-.
  destruct (moveOrder_fields _ _ _ _ _ _ _ Hrep Hf Ht Hb Hq H1) as (Hrep1 & Hf1 & Hr1).
  destruct (moveOrder_fields _ _ _ _ _ _ _ Hrep1 Hf1 Ht Ha Hq H2) as (_ & Hf2 & Hr2).
  split; [done|]. by apply Forall_app.
Qed.
End Moves.

(** An answer leaves the order's fields in range. *)
Lemma order_after_fields o r :
  order_fields o → (rs_type r = ClientResponseType.FILLED → 0 ≤ rs_leaves_qty r < 2 ^ 32) →
  order_fields (order_after o r).
Proof.
  intros Ho Hl. unfold order_after. destruct (rs_type r); try exact Ho.
  destruct Ho as (H1 & H2 & H3 & _). specialize (Hl eq_refl).
  destruct (_ =? 0); exact (conj H1 (conj H2 (conj H3 Hl))).
Qed.

Lemma om_onOrderUpdate_fields om r om' :
  om_rep om → om_fields om → ours r →
  (rs_type r = ClientResponseType.FILLED → 0 ≤ rs_leaves_qty r < 2 ^ 32) →
  om_onOrderUpdate om r = Ok om' → om_fields om'.
Proof.
  intros Hrep Hf [Ht _] Hl H. unfold om_onOrderUpdate in H.
  rewrite (om_at_ok om _ _ Hrep Ht) in H. injection H as <-.
  apply om_fields_put; [done|]. apply order_after_fields; [by apply Hf|done].
Qed.
