(* ===== verification/TradeEngine.v ===== *)
(** * TradeEngine: the trading thread

    [trading/strategy/trade_engine.h] and [trade_engine.cpp]: one book per instrument, the
    features, positions and orders behind them, one of the two algorithms, and the three
    queues of the thread.  A handler returns the requests it gives to [sendClientRequest];
    the loops push them in order. *)
From S2P Require Import Prelude Types MarketOrderBook MarketBookSpec MarketBBO LFQueue Double.
From S2P Require Import PositionKeeper OrderManager PositionLimit Strategies.

Record TradeEngine := mkTradeEngine {
  te_client_id : ClientId;
  te_algo : AlgoType.t;
  te_ticker_cfg : TradeEngineCfgHashMap;
  te_order_book : arr MarketOrderBook;
  te_requests : LFQueue MEClientRequest;
  te_responses : LFQueue MEClientResponse;
  te_md_updates : LFQueue MEMarketUpdate;
  te_feature_engine : FeatureEngine;
  te_position_keeper : arr PositionInfo;
  te_order_manager : OrderManager
}.

(** The constructor; [garbage] is the uninitialised memory of the position keeper. *)
Definition TradeEngine_new (client_id : ClientId) (algo_type : AlgoType.t)
    (ticker_cfg : TradeEngineCfgHashMap) (garbage : TickerId → arr double)
    (client_requests : LFQueue MEClientRequest) (client_responses : LFQueue MEClientResponse)
    (market_updates : LFQueue MEMarketUpdate) : TradeEngine :=
  mkTradeEngine client_id algo_type ticker_cfg
    (foldl (λ books i, arr_set books i (MarketOrderBook_new i))
       (arr_new ME_MAX_TICKERS (MarketOrderBook_new 0)) (seqZ 0 ME_MAX_TICKERS))
    client_requests client_responses market_updates
    FeatureEngine_new (PositionKeeper_new garbage) OrderManager_new.

Section Setters.
Context (e : TradeEngine).

Definition te_with_books books := mkTradeEngine (te_client_id e) (te_algo e) (te_ticker_cfg e)
  books (te_requests e) (te_responses e) (te_md_updates e) (te_feature_engine e)
  (te_position_keeper e) (te_order_manager e).
Definition te_with_requests q := mkTradeEngine (te_client_id e) (te_algo e) (te_ticker_cfg e)
  (te_order_book e) q (te_responses e) (te_md_updates e) (te_feature_engine e)
  (te_position_keeper e) (te_order_manager e).
Definition te_with_responses q := mkTradeEngine (te_client_id e) (te_algo e) (te_ticker_cfg e)
  (te_order_book e) (te_requests e) q (te_md_updates e) (te_feature_engine e)
  (te_position_keeper e) (te_order_manager e).
Definition te_with_md_updates q := mkTradeEngine (te_client_id e) (te_algo e) (te_ticker_cfg e)
  (te_order_book e) (te_requests e) (te_responses e) q (te_feature_engine e)
  (te_position_keeper e) (te_order_manager e).
Definition te_with_strategy fe pk om := mkTradeEngine (te_client_id e) (te_algo e)
  (te_ticker_cfg e) (te_order_book e) (te_requests e) (te_responses e) (te_md_updates e)
  fe pk om.
End Setters.

Definition te_sendClientRequest (e : TradeEngine) (client_request : MEClientRequest)
  : TradeEngine := te_with_requests e (lfq_push (te_requests e) client_request).

(** [TradeEngine::onOrderBookUpdate], with the callback of the algorithm in use. *)
Definition te_onOrderBookUpdate (e : TradeEngine) (ticker_id : TickerId) (bbo : BBO)
  : Res (TradeEngine * list MEClientRequest) :=
  pk ← pk_updateBBO (te_position_keeper e) ticker_id bbo;
  fe ← fe_onOrderBookUpdate (te_feature_engine e) bbo;
  '(om, reqs) ←
    match te_algo e with
    | AlgoType.MAKER =>
        mm_onOrderBookUpdate (te_client_id e) (te_ticker_cfg e) fe pk (te_order_manager e)
          ticker_id bbo
    | _ => Ok (te_order_manager e, [])
    end;
  Ok (te_with_strategy e fe pk om, reqs).

(** [TradeEngine::onTradeUpdate]. *)
Definition te_onTradeUpdate (e : TradeEngine) (market_update : MEMarketUpdate) (bbo : BBO)
  : Res (TradeEngine * list MEClientRequest) :=
  let fe := fe_onTradeUpdate (te_feature_engine e) market_update bbo in
  '(om, reqs) ←
    match te_algo e with
    | AlgoType.TAKER =>
        lt_onTradeUpdate (te_client_id e) (te_ticker_cfg e) fe (te_position_keeper e)
          (te_order_manager e) market_update bbo
    | _ => Ok (te_order_manager e, [])
    end;
  Ok (te_with_strategy e fe (te_position_keeper e) om, reqs).

(** [TradeEngine::onOrderUpdate]; both algorithms hand the response to the order manager. *)
Definition te_onOrderUpdate (e : TradeEngine) (client_response : MEClientResponse)
  : Res TradeEngine :=
  pk ← (if bool_decide (rs_type client_response = ClientResponseType.FILLED)
        then pk_addFill (te_position_keeper e) client_response
        else Ok (te_position_keeper e));
  om ← match te_algo e with
       | AlgoType.MAKER | AlgoType.TAKER => om_onOrderUpdate (te_order_manager e) client_response
       | _ => Ok (te_order_manager e)
       end;
  Ok (te_with_strategy e (te_feature_engine e) pk om).

(** The body of the second loop of [run]: the book, then the call it makes. *)
Definition te_onMarketUpdate (e : TradeEngine) (market_update : MEMarketUpdate)
  : Res (TradeEngine * list MEClientRequest) :=
  let ticker_id := mu_ticker_id market_update in
  _ ← ASSERT (ticker_id <? arr_len (te_order_book e));
  book ← arr_idx (te_order_book e) ticker_id;
  '(book, call) ← onMarketUpdate book market_update;
  let e := te_with_books e (arr_set (te_order_book e) ticker_id book) in
  match call with
  | OnTradeUpdate u => te_onTradeUpdate e u (getBBO book)
  | OnOrderBookUpdate t _ _ => te_onOrderBookUpdate e t (getBBO book)
  end.

(** The two loops of [run], each until its queue is empty. *)
Fixpoint te_read_responses (fuel : nat) (e : TradeEngine) : Res TradeEngine :=
  match fuel with
  | O => Err OutOfFuel
  | S fuel =>
      match getNextToRead (te_responses e) with
      | None => Ok e
      | Some slot =>
          e ← te_onOrderUpdate e (read_slot (te_responses e) slot);
          q ← updateReadIndex (te_responses e);
          te_read_responses fuel (te_with_responses e q)
      end
  end.
Fixpoint te_read_updates (fuel : nat) (e : TradeEngine) : Res TradeEngine :=
  match fuel with
  | O => Err OutOfFuel
  | S fuel =>
      match getNextToRead (te_md_updates e) with
      | None => Ok e
      | Some slot =>
          '(e, reqs) ← te_onMarketUpdate e (read_slot (te_md_updates e) slot);
          let e := foldl te_sendClientRequest e reqs in
          q ← updateReadIndex (te_md_updates e);
          te_read_updates fuel (te_with_md_updates e q)
      end
  end.
(** One turn of the loop of [run]. *)
Definition te_turn (fuel : nat) (e : TradeEngine) : Res TradeEngine :=
  e ← te_read_responses fuel e;
  te_read_updates fuel e.
