(* ===== verification/TradeEngineSpec.v ===== *)
(** * TradeEngineSpec: a turn of the trading thread

    The engine against one reference book per instrument, the position limits of
    [PositionLimit] and the contents of its queues. *)
From S2P Require Import Prelude Types PriceLevels MarketOrderBook MarketBookSpec MarketBBO.
From S2P Require Import LFQueue Double PositionKeeper OrderManager PositionLimit Strategies.
From S2P Require Import OrderFields TradeEngine.

(** ** What a move sends *)
Lemma moveOrder_length client_id pk cfgs om t price s qty om' reqs :
  moveOrder client_id pk cfgs om t price s qty = Ok (om', reqs) → (length reqs ≤ 1)%nat.
Proof.
  unfold moveOrder. intros (o & _ & H)%res_bind_Ok. destruct (om_state o).
  1, 5: destruct (negb _); [|by injection H as <- <-; simpl; lia];
    apply res_bind_Ok in H as (x & _ & H); destruct (bool_decide _);
    injection H as <- <-; simpl; lia.
  1, 3: injection H as <- <-; simpl; lia.
  destruct (negb _); injection H as <- <-; simpl; lia.
Qed.

Lemma moveOrders_length client_id pk cfgs om t bid ask clip om' reqs :
  moveOrders client_id pk cfgs om t bid ask clip = Ok (om', reqs) → (length reqs ≤ 2)%nat.
Proof.
  unfold moveOrders. intros ([om1 r1] & H1 & H)%res_bind_Ok.
  apply res_bind_Ok in H as ([om2 r2] & H2 & H). injection H as <- <-.
  apply moveOrder_length in H1, H2. rewrite length_app. lia.
Qed.

(** ** The invariant *)
Definition te_cfgs_ok (cfgs : TradeEngineCfgHashMap) : Prop :=
  cfgs_ok cfgs ∧ ∀ t, 0 ≤ t < ME_MAX_TICKERS → 0 ≤ clip_ (arr_get cfgs t) < 2 ^ 30.

(** Positions and orders. *)
Record te_core (e : TradeEngine) (rest : Resting) : Prop := {
  tc_algo : te_algo e = AlgoType.MAKER ∨ te_algo e = AlgoType.TAKER;
  tc_cfg : te_cfgs_ok (te_ticker_cfg e);
  tc_client : 0 ≤ te_client_id e < 2 ^ 32;
  tc_world : world_inv (te_ticker_cfg e)
               (mkWorld (te_position_keeper e) (te_order_manager e) rest);
  tc_fields : om_fields (te_order_manager e)
}.

(** What a handler sends: little, by the client, encodable, and no NEW order before the
    end of the one it replaces. *)
Record sends (e : TradeEngine) (rest : Resting) (n : nat) (reqs : list MEClientRequest) : Prop := {
  sd_few : (length reqs ≤ n)%nat;
  sd_fields : sent_fields (te_client_id e) reqs;
  sd_fresh : fresh rest reqs
}.

Lemma sends_none e rest n : sends e rest n [].
Proof. split; [simpl; lia|constructor|done]. Qed.

Lemma sends_app e rest n m r1 r2 :
  sends e rest n r1 → sends e (place rest r1) m r2 → sends e rest (n + m) (r1 ++ r2).
Proof.
  intros [H1 H2 H3] [H4 H5 H6]. split; [rewrite length_app; lia|by apply Forall_app|].
  by apply fresh_app.
Qed.

(** The reference state of the feed: per instrument, the book and its summary. *)
Abbreviation SpecFeed := (TickerId → SpecMarket * BBO) (only parsing).
Definition feed_step (st : SpecFeed) (u : MEMarketUpdate) : SpecFeed := λ t,
  if decide (t = mu_ticker_id u)
  then (sm_apply (st t).1 u, bbo_next (st t).1 (st t).2 u) else st t.
Definition feed_new : SpecFeed := λ _, (SpecMarket_new, BBO_default).

Record te_rep (e : TradeEngine) (rest : Resting) (st : SpecFeed) : Prop := {
  tr_core : te_core e rest;
  tr_len : arr_len (te_order_book e) = ME_MAX_TICKERS;
  tr_books : ∀ t, 0 ≤ t < ME_MAX_TICKERS →
    mk_refines (arr_get (te_order_book e) t) (st t).1 ∧
    getBBO (arr_get (te_order_book e) t) = (st t).2
}.

Record te_queues (e : TradeEngine) (reqs : list MEClientRequest)
    (rs : list MEClientResponse) (us : list MEMarketUpdate) : Prop := {
  tq_requests : lfq_rep (te_requests e) reqs;
  tq_responses : lfq_rep (te_responses e) rs;
  tq_updates : lfq_rep (te_md_updates e) us
}.

(** A handler touches the strategy's state, not the queues. *)
Definition same_queues (e e' : TradeEngine) : Prop :=
  te_requests e' = te_requests e ∧ te_responses e' = te_responses e ∧
  te_md_updates e' = te_md_updates e ∧ te_client_id e' = te_client_id e ∧
  te_ticker_cfg e' = te_ticker_cfg e.
Definition strategy_of (e e' : TradeEngine) : Prop :=
  ∃ fe pk om, e' = te_with_strategy e fe pk om.

Definition te_position (e : TradeEngine) (t : TickerId) : Z :=
  position_ (arr_get (te_position_keeper e) t).

(** ** What the market does to the positions: nothing *)
Lemma pk_updateBBO_positions pk t bbo pk' t' :
  pk_updateBBO pk t bbo = Ok pk' → position_ (arr_get pk' t') = position_ (arr_get pk t').
Proof.
  unfold pk_updateBBO. intros (p & Hp & H)%res_bind_Ok. apply res_bind_Ok in H as (p' & H & [= <-]).
  apply updateBBO_position_spec in H as [H _]. apply arr_at_Ok_inv in Hp as ->.
  rewrite arr_get_set. by case_decide as E; [subst t'|].
Qed.

Lemma te_onMarketUpdate_positions e u e' reqs t :
  te_onMarketUpdate e u = Ok (e', reqs) → te_position e' t = te_position e t.
Proof.
  unfold te_onMarketUpdate. intros (? & _ & H)%res_bind_Ok.
  apply res_bind_Ok in H as (book & _ & H). apply res_bind_Ok in H as ([bk call] & _ & H).
  destruct call.
  - unfold te_onTradeUpdate in H. apply res_bind_Ok in H as ([om r] & _ & H).
    by injection H as <- _.
  - unfold te_onOrderBookUpdate in H. apply res_bind_Ok in H as (pk & Hpk & H).
    apply res_bind_Ok in H as (fe & _ & H). apply res_bind_Ok in H as ([om r] & _ & H).
    injection H as <- _. by eapply pk_updateBBO_positions in Hpk.
Qed.

Lemma te_sends_positions e reqs t : te_position (foldl te_sendClientRequest e reqs) t = te_position e t.
Proof. revert e. induction reqs as [|r reqs IH]; intros e; [done|]. cbn [foldl]. by rewrite IH. Qed.

Lemma te_read_updates_positions fuel : ∀ e e' t,
  te_read_updates fuel e = Ok e' → te_position e' t = te_position e t.
Proof.
  induction fuel as [|fuel IH]; intros e e' t; [done|]. cbn [te_read_updates].
  destruct (getNextToRead _); [|by intros [= <-]].
  intros ([e1 reqs] & H1 & H)%res_bind_Ok. apply res_bind_Ok in H as (q & _ & H).
  rewrite (IH _ _ t H). cbn. change (te_position (foldl te_sendClientRequest e1 reqs) t = te_position e t).
  rewrite te_sends_positions. exact (te_onMarketUpdate_positions _ _ _ _ _ H1).
Qed.

(** ** Handlers *)
Lemma pk_updateBBO_ok cfgs w t bbo :
  cfgs_ok cfgs → world_inv cfgs w → 0 ≤ t < ME_MAX_TICKERS → bbo_small bbo →
  ∃ pk', pk_updateBBO (w_pk w) t bbo = Ok pk'.
Proof.
  intros Hc [_ Hpk Hv Hp _] Ht Hb. specialize (Hp t Ht). specialize (Hv t Ht).
  pose proof (proj2 Hc t Ht). unfold pos in Hp. unfold pk_updateBBO.
  rewrite (arr_at_Ok (w_pk w)) by by rewrite Hpk. cbn [mbind Res_bind].
  unfold updateBBO_position. destruct (_ && _) eqn:E; [|by eexists].
  rewrite <-andb_assoc in E. apply andb_true_iff in E as [_ E].
  destruct (two_sided_small bbo Hb E). rewrite chk_i64_ok by lia. cbn [mbind Res_bind].
  destruct (unreal_at_ok (position_ (arr_get (w_pk w) t)) (open_vwap_ (arr_get (w_pk w) t))
    (d_mul (d_of_Z (bid_price_ bbo + ask_price_ bbo)) d_half)) as [x ->]; [done|lia|].
  by eexists.
Qed.

(** A call of [moveOrders] by an algorithm. *)
Lemma te_moves e rest t bid ask :
  te_core e rest → 0 ≤ t < ME_MAX_TICKERS →
  - 2 ^ 63 ≤ bid < 2 ^ 63 → - 2 ^ 63 ≤ ask < 2 ^ 63 →
  ∃ om reqs, moveOrders (te_client_id e) (te_position_keeper e) (te_ticker_cfg e)
      (te_order_manager e) t bid ask (clip_ (arr_get (te_ticker_cfg e) t)) = Ok (om, reqs) ∧
    sends e rest 2 reqs ∧ ∀ fe, te_core (te_with_strategy e fe (te_position_keeper e) om)
                                    (place rest reqs).
Proof.
  intros [Ha Hcfg Hcl Hw Hf] Ht Hbid Hask. pose proof Hcfg as [Hc Hclip]. specialize (Hclip t Ht).
  destruct (moveOrders_total (te_client_id e) _ Hc _ t bid ask _ Ht Hclip Hw) as (om & reqs & H).
  cbn [w_pk w_om] in H. exists om, reqs. split; [done|].
  destruct (moveOrders_fields (te_client_id e) Hcl (te_position_keeper e) (te_ticker_cfg e) _ t bid ask
    (clip_ (arr_get (te_ticker_cfg e) t)) om reqs (wi_om _ _ Hw) Hf Ht Hbid Hask) as [Hf' Hsent];
    [lia|exact H|].
  split.
  - split; [by eapply moveOrders_length|done|].
    refine (moveOrders_fresh _ _ Hc (mkWorld _ _ rest) t bid ask _ om reqs Ht _ Hw H). lia.
  - intros fe. split; [done|done|done| |done].
    refine (move_inv _ _ Hc (mkWorld _ _ rest) t bid ask _ om reqs Ht _ Hw H). lia.
Qed.

(** The prices an algorithm asks for. *)
Lemma bbo_prices bbo : bbo_small bbo →
  - 2 ^ 31 < bid_price_ bbo < 2 ^ 63 ∧ - 2 ^ 31 < ask_price_ bbo < 2 ^ 63.
Proof.
  assert (- 2 ^ 31 < Price_INVALID < 2 ^ 63) by (by vm_compute).
  intros ([-> | ?] & [-> | ?] & _); lia.
Qed.

Lemma te_onOrderBookUpdate_spec e rest t bbo :
  te_core e rest → 0 ≤ t < ME_MAX_TICKERS → bbo_small bbo →
  ∃ e' reqs, te_onOrderBookUpdate e t bbo = Ok (e', reqs) ∧ strategy_of e e' ∧
    te_core e' (place rest reqs) ∧ sends e rest 2 reqs.
Proof.
  intros Hcore Ht Hb. pose proof Hcore as [Ha Hcfg Hcl Hw Hf].
  pose proof Hcfg as [Hc Hclip]. unfold te_onOrderBookUpdate.
  destruct (pk_updateBBO_ok _ _ t bbo Hc Hw Ht Hb) as [pk Hpk]. cbn [w_pk] in Hpk.
  rewrite Hpk. cbn [mbind Res_bind].
  destruct (fe_onOrderBookUpdate_ok (te_feature_engine e) bbo Hb) as [fe ->]. cbn [mbind Res_bind].
  assert (te_core (te_with_strategy e fe pk (te_order_manager e)) rest) as Hcore'.
  { split; [done|done|done| |done]. by apply (mark_inv _ (te_position_keeper e) _ _ t bbo). }
  set (e1 := te_with_strategy e fe pk (te_order_manager e)) in *.
  assert (∃ om reqs, match te_algo e with
      | AlgoType.MAKER => mm_onOrderBookUpdate (te_client_id e) (te_ticker_cfg e) fe pk
          (te_order_manager e) t bbo
      | _ => Ok (te_order_manager e, [])
      end = Ok (om, reqs) ∧ sends e rest 2 reqs ∧
      te_core (te_with_strategy e1 fe pk om) (place rest reqs)) as (om & reqs & -> & Hlen & Hcore2).
  { destruct Ha as [-> | ->]; [|by exists (te_order_manager e), []; split_and!; [|apply sends_none|]].
    rewrite (mm_quotes _ _ fe pk _ t bbo (proj1 Hc) Ht Hb).
    destruct (two_sided bbo) eqn:E2;
      [|by exists (te_order_manager e), []; split_and!; [|apply sends_none|]].
    destruct (two_sided_small bbo Hb E2).
    destruct (quotes_passive (mkt_price_ fe) (threshold_ (arr_get (te_ticker_cfg e) t)) bbo).
    destruct (te_moves e1 rest t (quote_bid (mkt_price_ fe) (threshold_ (arr_get (te_ticker_cfg e) t)) bbo)
      (quote_ask (mkt_price_ fe) (threshold_ (arr_get (te_ticker_cfg e) t)) bbo) Hcore' Ht)
      as (om & reqs & Hm & [Hl1 Hl2 Hl3] & Hall); [lia|lia|].
    exists om, reqs. split; [exact Hm|]. split; [by split|apply Hall]. }
  cbn [mbind Res_bind]. eexists _, _. split; [reflexivity|]. split; [by eexists _, _, _|done].
Qed.

Lemma te_onTradeUpdate_spec e rest u bbo :
  te_core e rest → 0 ≤ mu_ticker_id u < ME_MAX_TICKERS → bbo_small bbo →
  ∃ e' reqs, te_onTradeUpdate e u bbo = Ok (e', reqs) ∧ strategy_of e e' ∧
    te_core e' (place rest reqs) ∧ sends e rest 2 reqs.
Proof.
  intros Hcore Ht Hb. pose proof Hcore as [Ha Hcfg Hcl Hw Hf].
  pose proof Hcfg as [Hc Hclip]. unfold te_onTradeUpdate.
  set (fe := fe_onTradeUpdate (te_feature_engine e) u bbo).
  assert (∃ om reqs, match te_algo e with
      | AlgoType.TAKER => lt_onTradeUpdate (te_client_id e) (te_ticker_cfg e) fe
          (te_position_keeper e) (te_order_manager e) u bbo
      | _ => Ok (te_order_manager e, [])
      end = Ok (om, reqs) ∧ sends e rest 2 reqs ∧
      te_core (te_with_strategy e fe (te_position_keeper e) om) (place rest reqs))
    as (om & reqs & -> & Hlen & Hcore2).
  { assert (te_core (te_with_strategy e fe (te_position_keeper e) (te_order_manager e)) rest)
      as Hsame by by split.
    destruct Ha as [-> | ->]; [by exists (te_order_manager e), []; split_and!; [|apply sends_none|]|].
    rewrite (lt_orders _ _ fe _ _ u bbo (proj1 Hc) Ht). cbv zeta.
    destruct (two_sided bbo && _);
      [|by exists (te_order_manager e), []; split_and!; [|apply sends_none|]].
    destruct (bbo_prices bbo Hb).
    destruct (te_moves e rest (mu_ticker_id u)
      (if bool_decide (mu_side u = Side.BUY) then ask_price_ bbo else Price_INVALID)
      (if bool_decide (mu_side u = Side.BUY) then Price_INVALID else bid_price_ bbo) Hcore Ht)
      as (om & reqs & Hm & Hlen & Hall);
      [case_bool_decide; [lia|by vm_compute]|case_bool_decide; [by vm_compute|lia]|].
    exists om, reqs. split; [exact Hm|]. split; [done|apply Hall]. }
  cbn [mbind Res_bind]. eexists _, _. split; [reflexivity|]. split; [by eexists _, _, _|done].
Qed.

(** The body of the update loop. *)
Lemma te_onMarketUpdate_spec e rest st u :
  te_rep e rest st → 0 ≤ mu_ticker_id u < ME_MAX_TICKERS →
  valid_update (st (mu_ticker_id u)).1 u → bbo_small (feed_step st u (mu_ticker_id u)).2 →
  ∃ e' reqs, te_onMarketUpdate e u = Ok (e', reqs) ∧ te_rep e' (place rest reqs) (feed_step st u) ∧
    same_queues e e' ∧ sends e rest 2 reqs.
Proof.
  intros [Hcore Hlen Hbooks] Ht Hv Hb. set (t := mu_ticker_id u) in *.
  destruct (Hbooks t Ht) as [Href Hbbo].
  destruct (onMarketUpdate_spec _ _ u Href Hv) as (bk & Hbk & Href' & Hbbo').
  unfold te_onMarketUpdate. fold t. rewrite ASSERT_true by (rewrite Hlen; apply Z.ltb_lt; lia).
  cbn [mbind Res_bind]. rewrite (arr_idx_Ok (te_order_book e)) by by rewrite Hlen.
  cbn [mbind Res_bind]. rewrite Hbk. cbn [mbind Res_bind].
  set (e1 := te_with_books e (arr_set (te_order_book e) t bk)).
  assert (getBBO bk = (feed_step st u t).2) as Hnext.
  { unfold feed_step. rewrite decide_True by done. cbn [snd]. rewrite <-Hbbo. exact Hbbo'. }
  assert (te_core e1 rest) as Hcore1 by by destruct Hcore.
  assert (∃ e' reqs, match call_of u with
      | OnTradeUpdate u' => te_onTradeUpdate e1 u' (getBBO bk)
      | OnOrderBookUpdate t' _ _ => te_onOrderBookUpdate e1 t' (getBBO bk)
      end = Ok (e', reqs) ∧ strategy_of e1 e' ∧ te_core e' (place rest reqs) ∧
      sends e1 rest 2 reqs) as (e' & reqs & -> & (fe & pk & om & ->) & Hcore' & [Hl1 Hl2 Hl3]).
  { rewrite <-Hnext in Hb. unfold call_of. case_bool_decide.
    - by apply te_onTradeUpdate_spec.
    - by apply te_onOrderBookUpdate_spec. }
  eexists _, _. split; [reflexivity|]. split; [|by split].
  split; [done|done|]. intros t' Ht'. cbn [te_order_book te_with_strategy e1 te_with_books].
  rewrite arr_get_set. unfold feed_step. fold t. destruct (decide (t = t')) as [<-|Hne].
  - rewrite decide_True by done. cbn [fst snd]. split; [exact Href'|]. by rewrite <-Hbbo.
  - rewrite decide_False by done. by apply Hbooks.
Qed.

Lemma te_onOrderUpdate_spec e rest st r rest' :
  te_rep e rest st → ours r → answers rest r rest' →
  ∃ e', te_onOrderUpdate e r = Ok e' ∧ te_rep e' rest' st ∧ same_queues e e' ∧
    ∀ t, te_position e' t = te_position e t + fill_of t r.
Proof.
  intros [[Ha Hcfg Hcl Hw Hf] Hlen Hbooks] Hr Hans.
  assert (rs_type r = ClientResponseType.FILLED → 0 ≤ rs_leaves_qty r < 2 ^ 32) as Hleaves.
  { intros Ety. destruct Hans as [q E|q E Hq Hex Hl _|q E|E]; try by rewrite E in Ety.
    pose proof (wi_rest _ _ Hw _ _ q (proj1 Hr) (proj2 Hr ltac:(by rewrite E)) Hq). lia. }
  destruct (answer_inv _ (proj1 Hcfg) _ r rest' Hw Hr Hans) as (pk & om & H & Hw' & Hpos).
  cbn [w_pk w_om] in H. unfold on_client_response in H.
  apply res_bind_Ok in H as (pk1 & Hpk & H). apply res_bind_Ok in H as (om1 & Hom & H).
  injection H as -> ->. unfold te_onOrderUpdate. rewrite Hpk. cbn [mbind Res_bind].
  assert (match te_algo e with
       | AlgoType.MAKER | AlgoType.TAKER => om_onOrderUpdate (te_order_manager e) r
       | _ => Ok (te_order_manager e)
       end = Ok om) as -> by by destruct Ha as [-> | ->].
  cbn [mbind Res_bind]. eexists. split; [reflexivity|]. split; [|split; [done|exact Hpos]].
  split; [split; try done|done|done].
  apply (om_onOrderUpdate_fields (te_order_manager e) r om); try done. apply (wi_om _ _ Hw).
Qed.

(** ** Turns *)

(** What a loop leaves alone: the client, its configuration and the sizes of the queues. *)
Record same_frame (e e' : TradeEngine) : Prop := {
  sf_client : te_client_id e' = te_client_id e;
  sf_requests : lfq_cap (te_requests e') = lfq_cap (te_requests e);
  sf_responses : lfq_cap (te_responses e') = lfq_cap (te_responses e);
  sf_updates : lfq_cap (te_md_updates e') = lfq_cap (te_md_updates e);
  sf_cfgs : te_ticker_cfg e' = te_ticker_cfg e
}.
#[export] Instance same_frame_preorder : PreOrder same_frame.
Proof. split; [by split|]. intros e1 e2 e3 [] []. split; congruence. Qed.

(** Responses that answer what is outstanding, one after the other. *)
Inductive answers_run (rest : Resting) : list MEClientResponse → Resting → Prop :=
  | answers_nil : answers_run rest [] rest
  | answers_cons r rs rest1 rest2 : ours r → answers rest r rest1 → answers_run rest1 rs rest2 →
      answers_run rest (r :: rs) rest2.

(** Updates each of which is valid when its turn comes. *)
Fixpoint valid_feed (st : SpecFeed) (us : list MEMarketUpdate) : Prop :=
  match us with
  | [] => True
  | u :: us =>
      let t := mu_ticker_id u in
      0 ≤ t < ME_MAX_TICKERS ∧ valid_update (st t).1 u ∧ bbo_small (feed_step st u t).2 ∧
      valid_feed (feed_step st u) us
  end.
#[export] Instance valid_feed_dec st us : Decision (valid_feed st us).
Proof. revert st. induction us as [|u us IH]; intros st; simpl; apply _. Defined.

Lemma te_read_responses_spec e rest st reqs rs us rest' fuel :
  te_rep e rest st → te_queues e reqs rs us → answers_run rest rs rest' →
  (length rs < fuel)%nat →
  ∃ e', te_read_responses fuel e = Ok e' ∧ te_rep e' rest' st ∧ te_queues e' reqs [] us ∧
    same_frame e e' ∧ ∀ t, te_position e' t = te_position e t + fills t rs.
Proof.
  intros Hrep Hq Hrun. revert e fuel Hrep Hq.
  induction Hrun as [rest|rest r rs rest1 rest2 Hr Ha _ IH]; intros e fuel Hrep Hq Hf;
    (destruct fuel as [|fuel]; [simpl in Hf; lia|]); cbn [te_read_responses];
    pose proof (lfq_pop_rep _ _ (tq_responses _ _ _ _ Hq)) as Hpop; unfold lfq_pop in Hpop.
  - destruct (getNextToRead (te_responses e)) as [slot|]; [by destruct (updateReadIndex _)|].
    exists e. split_and!; try done. intros t. unfold fills. cbn. lia.
  - destruct Hpop as (q & Hpop & Hq' & Hcap0).
    destruct (getNextToRead (te_responses e)) as [slot|]; [|done].
    destruct (updateReadIndex (te_responses e)) as [q1|] eqn:Eq; [|done].
    cbn [mbind Res_bind] in Hpop. injection Hpop as -> ->.
    destruct (te_onOrderUpdate_spec e rest st r rest1 Hrep Hr Ha) as (e1 & H1 & Hrep1 & (Hs1 & Hs2 & Hs3 & Hs4 & Hs5) & Hpos1).
    rewrite H1. cbn [mbind Res_bind]. rewrite Hs2, Eq. cbn [mbind Res_bind].
    destruct (IH (te_with_responses e1 q) fuel) as (e' & H2 & Hrep' & Hq2 & Hcap & Hpos).
    + by destruct Hrep1 as [[? ? ? ? ?] ? ?].
    + destruct Hq. split; cbn; by rewrite ?Hs1, ?Hs3.
    + simpl in Hf. lia.
    + exists e'. split_and!; [done..| |].
      * etrans; [|exact Hcap]. split; cbn; by rewrite ?Hs1, ?Hs3.
      * intros t. rewrite Hpos, fills_cons. change (te_position (te_with_responses e1 q) t)
          with (te_position e1 t). rewrite Hpos1. lia.
Qed.

Lemma te_send_all e reqs :
  foldl te_sendClientRequest e reqs = te_with_requests e (lfq_push_all (te_requests e) reqs).
Proof. revert e. induction reqs as [|r reqs IH]; intros e; [by destruct e|]. simpl. by rewrite IH. Qed.

Lemma te_read_updates_spec e rest st reqs us fuel :
  te_rep e rest st → te_queues e reqs [] us → valid_feed st us → (length us < fuel)%nat →
  Z.of_nat (length reqs + 2 * length us) ≤ lfq_cap (te_requests e) →
  ∃ e' new, te_read_updates fuel e = Ok e' ∧ te_rep e' (place rest new) (foldl feed_step st us) ∧
    te_queues e' (reqs ++ new) [] [] ∧ sends e rest (2 * length us) new ∧ same_frame e e'.
Proof.
  revert e rest st reqs fuel. induction us as [|u us IH]; intros e rest st reqs fuel Hrep Hq Hv Hf Hroom;
    (destruct fuel as [|fuel]; [simpl in Hf; lia|]); cbn [te_read_updates];
    pose proof (lfq_pop_rep _ _ (tq_updates _ _ _ _ Hq)) as Hpop; unfold lfq_pop in Hpop.
  - destruct (getNextToRead (te_md_updates e)) as [slot|]; [by destruct (updateReadIndex _)|].
    exists e, []. rewrite app_nil_r. split_and!; [done..|apply sends_none|done].
  - destruct Hpop as (q & Hpop & Hq' & Hcap0).
    destruct (getNextToRead (te_md_updates e)) as [slot|]; [|done].
    destruct (updateReadIndex (te_md_updates e)) as [q1|] eqn:Eq; [|done].
    cbn [mbind Res_bind] in Hpop. injection Hpop as -> ->.
    destruct Hv as (Ht & Hv & Hb & Hvs).
    destruct (te_onMarketUpdate_spec e rest st u Hrep Ht Hv Hb)
      as (e1 & new1 & H1 & Hrep1 & (Hs1 & Hs2 & Hs3 & Hs4 & Hs5) & Hsd1). pose proof (sd_few _ _ _ _ Hsd1) as Hl1.
    rewrite H1. cbn [mbind Res_bind]. rewrite te_send_all. cbn [te_md_updates te_with_requests].
    rewrite Hs3, Eq, Hs1. cbn [mbind Res_bind].
    cbn [length] in Hf, Hroom.
    destruct (lfq_push_all_rep (te_requests e) reqs new1) as [Hpush Hcap];
      [by destruct Hq|lia|].
    destruct (IH (te_with_md_updates (te_with_requests e1 (lfq_push_all (te_requests e) new1)) q)
      (place rest new1) (feed_step st u) (reqs ++ new1) fuel) as (e' & new & H2 & Hrep' & Hq2 & [Hl2 Hl3 Hl4] & Hfr).
    + by destruct Hrep1 as [[? ? ? ? ?] ? ?].
    + destruct Hq. split; cbn; rewrite ?Hs2; done.
    + done.
    + lia.
    + rewrite length_app. cbn [te_requests te_with_md_updates te_with_requests].
      rewrite Hcap. lia.
    + exists e', (new1 ++ new). rewrite place_app, app_assoc. cbn [length foldl].
      split_and!; [exact H2|exact Hrep'|exact Hq2| |].
      * replace (2 * S (length us))%nat with (2 + 2 * length us)%nat by lia.
        apply sends_app; [done|]. cbn in Hl3. rewrite Hs4 in Hl3. by split.
      * etrans; [|exact Hfr]. split; cbn; by rewrite ?Hs1, ?Hs2.
Qed.

Lemma te_turn_spec e rest st reqs rs us rest' fuel :
  te_rep e rest st → te_queues e reqs rs us → answers_run rest rs rest' → valid_feed st us →
  (length rs < fuel)%nat → (length us < fuel)%nat →
  Z.of_nat (length reqs + 2 * length us) ≤ lfq_cap (te_requests e) →
  ∃ e' new, te_turn fuel e = Ok e' ∧ te_rep e' (place rest' new) (foldl feed_step st us) ∧
    te_queues e' (reqs ++ new) [] [] ∧ sends e rest' (2 * length us) new ∧ same_frame e e' ∧
    ∀ t, te_position e' t = te_position e t + fills t rs.
Proof.
  intros Hrep Hq Hans Hfeed Hf1 Hf2 Hroom. unfold te_turn.
  destruct (te_read_responses_spec e rest st reqs rs us rest' fuel Hrep Hq Hans Hf1)
    as (e1 & -> & Hrep1 & Hq1 & Hfr1 & Hpos1). cbn [mbind Res_bind].
  destruct (te_read_updates_spec e1 rest' st reqs us fuel Hrep1 Hq1 Hfeed Hf2)
    as (e' & new & Hrun & Hrep' & Hq' & [Hl1 Hl2 Hl3] & Hfr); [by rewrite (sf_requests _ _ Hfr1)|].
  pose proof (λ t, te_read_updates_positions fuel e1 e' t Hrun) as Hpos2. rewrite Hrun.
  rewrite (sf_client _ _ Hfr1) in Hl2.
  exists e', new. split_and!; try done; [by etrans|]. intros t. by rewrite Hpos2.
Qed.

(** ** A new engine *)
Lemma TradeEngine_new_rep client_id algo cfgs garbage q1 q2 q3 :
  algo = AlgoType.MAKER ∨ algo = AlgoType.TAKER → te_cfgs_ok cfgs → (∀ i, vwap_ok (garbage i)) →
  0 ≤ client_id < 2 ^ 32 →
  te_rep (TradeEngine_new client_id algo cfgs garbage q1 q2 q3) (λ _ _, None) feed_new.
Proof.
  intros Ha Hcfg Hg Hcl. split; [split; [done|done|done| |apply om_fields_new]|done|].
  - exact (reachable_inv client_id cfgs (proj1 Hcfg) garbage _ Hg (reach_new _ _ _)).
  - intros t Ht. cbn [te_order_book TradeEngine_new].
    assert (∀ l books, (∀ t, mk_refines (arr_get books t) SpecMarket_new ∧
        getBBO (arr_get books t) = BBO_default) → ∀ t,
      let bk := arr_get (foldl (λ books i, arr_set books i (MarketOrderBook_new i)) books l) t in
      mk_refines bk SpecMarket_new ∧ getBBO bk = BBO_default) as Hfold.
    { induction l as [|i l IH]; intros books Hb t'; [apply Hb|]. cbn [foldl]. apply IH.
      intros j. rewrite arr_get_set. case_decide; [|apply Hb].
      split; [apply MarketOrderBook_new_refines|done]. }
    apply Hfold. intros j. rewrite arr_get_new. split; [apply MarketOrderBook_new_refines|done].
Qed.

Lemma TradeEngine_new_position client_id algo cfgs garbage q1 q2 q3 t :
  te_position (TradeEngine_new client_id algo cfgs garbage q1 q2 q3) t = 0.
Proof.
  change (position_ (arr_get (PositionKeeper_new garbage) t) = 0). unfold PositionKeeper_new.
  induction (seqZ 0 ME_MAX_TICKERS) as [|i l IH]; cbn [foldr]; [by rewrite arr_get_new|].
  rewrite arr_get_set. by case_decide.
Qed.

(** ** Theorems *)

(** C15: A turn of the trading thread, with either algorithm: when the queued responses
    answer orders that are out and the queued updates follow the feed (with prices below
    2^30), both queues are emptied without a fault, every instrument's book and summary
    follow the feed of that instrument, the new requests are appended to the outgoing queue
    in order, at most two per update, each with fields the wire can hold and no NEW order
    before the one it replaces has ended, every position moves by exactly the fills among
    the responses, and none exceeds its limit, nor could any order that is out — sent in
    this turn or before — take it there. *)
Theorem trade_engine_turn e rest st reqs rs us rest' fuel :
  te_rep e rest st → te_queues e reqs rs us → answers_run rest rs rest' → valid_feed st us →
  (length rs < fuel)%nat → (length us < fuel)%nat →
  Z.of_nat (length reqs + 2 * length us) ≤ lfq_cap (te_requests e) →
  ∃ e' new, te_turn fuel e = Ok e' ∧ te_queues e' (reqs ++ new) [] [] ∧
    sends e rest' (2 * length us) new ∧ te_rep e' (place rest' new) (foldl feed_step st us) ∧
    ∀ t, 0 ≤ t < ME_MAX_TICKERS →
      let position := position_ (arr_get (te_position_keeper e') t) in
      position = position_ (arr_get (te_position_keeper e) t) + fills t rs ∧
      Z.abs position ≤ limit (te_ticker_cfg e') t ∧
      ∀ s q, s = Side.BUY ∨ s = Side.SELL → place rest' new t s = Some q →
        Z.abs (position + sideToValue s * q) ≤ limit (te_ticker_cfg e') t.
Proof.
  intros Hrep Hq Hans Hfeed Hf1 Hf2 Hroom.
  destruct (te_turn_spec e rest st reqs rs us rest' fuel Hrep Hq Hans Hfeed Hf1 Hf2 Hroom)
    as (e' & new & Hrun & Hrep' & Hq' & Hs & _ & Hpos).
  exists e', new. split_and!; try done. intros t Ht.
  destruct Hrep' as [[_ _ _ [_ _ _ Hp Hr] _] _ _]. split; [apply Hpos|]. split; [by apply Hp|].
  intros s q Hs' Hq0. by apply (Hr t s q Ht Hs' Hq0).
Qed.

(** The feed of two instruments, after which one of them is two-sided. *)
Definition turn_feed : list MEMarketUpdate :=
  [mkMEMarketUpdate MarketUpdateType.ADD 1 0 Side.SELL 103 5 1;
   mkMEMarketUpdate MarketUpdateType.ADD 2 0 Side.SELL 103 5 2;
   mkMEMarketUpdate MarketUpdateType.ADD 1 4 Side.SELL 90 5 1;
   mkMEMarketUpdate MarketUpdateType.ADD 3 0 Side.BUY 100 8 1;
   mkMEMarketUpdate MarketUpdateType.ADD 4 0 Side.BUY 100 9 2].
Definition turn_start : TradeEngine :=
  TradeEngine_new 1 AlgoType.MAKER limit_cfgs (λ _, arr_new side_count d_zero)
    (LFQueue_new 16 MEClientRequest_default) (LFQueue_new 16 MEClientResponse_default)
    (lfq_push_all (LFQueue_new 16 MEMarketUpdate_default) turn_feed).

(** What the market maker sends: quotes at or one tick outside the best prices. *)
Example turn_sends :
  (e ← te_turn 6 turn_start; lfq_drain 3 (te_requests e)) =
  Ok [mkMEClientRequest ClientRequestType.NEW 1 0 1 Side.BUY 100 10;
      mkMEClientRequest ClientRequestType.NEW 1 0 2 Side.SELL 103 10].
Proof. vm_compute. reflexivity. Qed.

Lemma trade_engine_turn_witness :
  ∃ e' new, te_turn 6 turn_start = Ok e' ∧ te_queues e' new [] [] ∧ (length new ≤ 10)%nat ∧
    Z.abs (position_ (arr_get (te_position_keeper e') 0)) ≤ limit (te_ticker_cfg e') 0.
Proof.
  destruct (trade_engine_turn turn_start (λ _ _, None) feed_new [] [] turn_feed (λ _ _, None) 6)
    as (e' & new & H1 & H2 & H3 & _ & H4).
  - apply TradeEngine_new_rep; [by left| |done|by vm_compute]. split; [exact limit_cfgs_ok|].
    intros t _. unfold limit_cfgs. rewrite arr_get_new. by vm_compute.
  - split; [by apply LFQueue_new_rep|by apply LFQueue_new_rep|].
    apply (lfq_push_all_rep (LFQueue_new 16 MEMarketUpdate_default) [] turn_feed);
      [by apply LFQueue_new_rep|by vm_compute].
  - constructor.
  - apply (bool_decide_unpack _). by vm_compute.
  - simpl. lia.
  - simpl. lia.
  - by vm_compute.
  - exists e', new. split; [exact H1|]. split; [exact H2|]. split; [exact (sd_few _ _ _ _ H3)|].
    destruct (H4 0) as [_ [H5 _]]; [split; [apply Z.le_refl|reflexivity]|exact H5].
Defined.
