(* ===== verification/OrdersInFlight.v ===== *)
(** * OrdersInFlight: the client and the exchange see the same orders, at different times

    [PositionLimit] says what answers an order can get when the exchange has it.  Between the
    two there are queues, buffers and a network: requests the exchange has not seen yet, and
    answers the client has not read yet.  [in_flight]: what the client takes to be outstanding
    becomes, by the answers on their way, what the exchange holds once it has taken the
    requests on their way. *)
From S2P Require Import Prelude Types Double MarketOrderBook PositionKeeper OrderManager.
From S2P Require Import PositionLimit TradeEngine TradeEngineSpec.

(** ** Outstanding orders up to pointwise equality *)
Definition rest_eq (r1 r2 : TickerId → Side.t → option Qty) : Prop := ∀ t s, r1 t s = r2 t s.
#[export] Instance rest_eq_equiv : Equivalence rest_eq.
Proof.
  split; [by intros r t s|by intros r1 r2 H t s; rewrite H|].
  intros r1 r2 r3 H1 H2 t s. by rewrite H1.
Qed.
#[export] Instance set_rest_proper : Proper (rest_eq ==> eq ==> eq ==> eq ==> rest_eq) set_rest.
Proof. intros r1 r2 H t ? <- s ? <- q ? <- t' s'. unfold set_rest. by rewrite H. Qed.

Lemma set_rest_eq X t s q : set_rest X t s q t s = q.
Proof. unfold set_rest. by rewrite decide_True. Qed.
Lemma set_rest_ne X t s q t' s' : ¬ (t = t' ∧ s = s') → set_rest X t s q t' s' = X t' s'.
Proof. intros H. unfold set_rest. by rewrite decide_False. Qed.

Lemma place_one rest f :
  place rest [f] = if decide (rq_type f = ClientRequestType.NEW)
                   then set_rest rest (rq_ticker_id f) (rq_side f) (Some (rq_qty f)) else rest.
Proof. cbn. by destruct (rq_type f). Qed.
Lemma place_cons rest f reqs : place rest (f :: reqs) = place (place rest [f]) reqs.
Proof. done. Qed.

#[export] Instance place_proper : Proper (rest_eq ==> eq ==> rest_eq) place.
Proof.
  intros r1 r2 H reqs ? <-. revert r1 r2 H. induction reqs as [|f reqs IH]; intros r1 r2 H; [done|].
  rewrite !(place_cons _ f reqs). apply IH. rewrite !place_one. case_decide; [by rewrite H|done].
Qed.

#[export] Instance fresh_proper : Proper (rest_eq ==> eq ==> iff) fresh.
Proof.
  intros r1 r2 H reqs ? <-. revert r1 r2 H. induction reqs as [|f reqs IH]; intros r1 r2 H; [done|].
  cbn [fresh]. rewrite H, (IH _ _ (place_proper _ _ H [f] [f] eq_refl)). done.
Qed.

(** Requests sent one before the other ends have different keys: their order is immaterial. *)
Lemma place_swap X f g :
  fresh X [f; g] → fresh X [g; f] ∧ rest_eq (place X [f; g]) (place X [g; f]).
Proof.
  cbn [fresh]. rewrite !(place_cons _ f [g]), !(place_cons _ g [f]), !place_one.
  intros (Hf & Hg & _).
  destruct (decide (rq_type f = ClientRequestType.NEW)) as [E|E],
    (decide (rq_type g = ClientRequestType.NEW)) as [E2|E2]; try by split_and!.
  specialize (Hf E). specialize (Hg E2).
  assert (¬ (rq_ticker_id f = rq_ticker_id g ∧ rq_side f = rq_side g)) as Hne.
  { intros H. unfold set_rest in Hg. by rewrite decide_True in Hg. }
  rewrite set_rest_ne in Hg by done. split_and!; [done|intros _; rewrite set_rest_ne; [done|]|done|].
  - intros [? ?]. by apply Hne.
  - intros t s. unfold set_rest. repeat case_decide; try done. destruct_and?.
    exfalso. apply Hne. split; congruence.
Qed.

Lemma fresh_perm F F' X : F ≡ₚ F' → fresh X F → fresh X F' ∧ rest_eq (place X F) (place X F').
Proof.
  intros Hp. revert X. induction Hp as [|f F F' _ IH|f g F|F1 F2 F3 _ IH1 _ IH2]; intros X Hf.
  - done.
  - destruct Hf as [Hf1 Hf2]. destruct (IH _ Hf2). by rewrite (place_cons _ f F), (place_cons _ f F').
  - apply (fresh_app X [g; f] F) in Hf as [H1 H2].
    destruct (place_swap X g f H1) as [H3 Heq].
    assert (∀ x y, place X (x :: y :: F) = place (place X [x; y]) F) as E by done.
    rewrite !E. split; [|by rewrite Heq]. apply (fresh_app X [f; g] F). split; [done|].
    by rewrite <-Heq.
  - destruct (IH1 X Hf) as [Hf2 E1]. destruct (IH2 X Hf2) as [Hf3 E2]. split; [done|]. by rewrite E1.
Qed.

(** A request never touches an order that is out. *)
Lemma place_keeps F : ∀ X t s q, fresh X F → X t s = Some q → place X F t s = Some q.
Proof.
  induction F as [|f F IH]; intros X t s q Hf HX; [done|]. destruct Hf as [Hf1 Hf2].
  rewrite (place_cons X f F). apply IH; [done|]. rewrite place_one.
  destruct (decide _) as [E|E]; [|done]. rewrite set_rest_ne; [done|].
  intros [<- <-]. by rewrite (Hf1 E) in HX.
Qed.

(** ** Answers *)
Lemma answers_ext rest rest2 r rest' :
  answers rest r rest' → rest_eq rest rest2 →
  ∃ rest2', answers rest2 r rest2' ∧ rest_eq rest' rest2'.
Proof.
  intros [q E Hq|q E Hq Hx Hl Hp|q E Hq|E] Heq; try rewrite Heq in Hq.
  - exists rest2. by split; [eapply ans_accepted|].
  - eexists. split; [by eapply ans_filled|]. by rewrite Heq.
  - eexists. split; [by eapply ans_canceled|]. by rewrite Heq.
  - exists rest2. by split; [apply ans_rejected|].
Qed.

(** An answer to another order passes a NEW request. *)
Lemma answers_place rest r rest' f :
  answers rest r rest' → (rq_type f = ClientRequestType.NEW → rest (rq_ticker_id f) (rq_side f) = None) →
  ∃ rest2, answers (place rest [f]) r rest2 ∧ rest_eq rest2 (place rest' [f]) ∧
    (rq_type f = ClientRequestType.NEW → rest' (rq_ticker_id f) (rq_side f) = None).
Proof.
  intros Ha Hf. rewrite !place_one. destruct (decide (rq_type f = ClientRequestType.NEW)) as [E|E].
  2: { exists rest'. by split_and!; [|done|intros ?]. }
  specialize (Hf E). set (q0 := Some (rq_qty f)).
  assert (∀ q, rest (rs_ticker_id r) (rs_side r) = Some q →
    ¬ (rq_ticker_id f = rs_ticker_id r ∧ rq_side f = rs_side r)) as Hne.
  { intros q Hq [E1 E2]. rewrite E1, E2, Hq in Hf. done. }
  assert (∀ q, rest (rs_ticker_id r) (rs_side r) = Some q →
    set_rest rest (rq_ticker_id f) (rq_side f) q0 (rs_ticker_id r) (rs_side r) = Some q) as Hsame.
  { intros q Hq. unfold set_rest. by rewrite decide_False by by eapply Hne. }
  assert (∀ q v, rest (rs_ticker_id r) (rs_side r) = Some q →
    rest_eq (set_rest (set_rest rest (rq_ticker_id f) (rq_side f) q0) (rs_ticker_id r) (rs_side r) v)
      (set_rest (set_rest rest (rs_ticker_id r) (rs_side r) v) (rq_ticker_id f) (rq_side f) q0) ∧
    set_rest rest (rs_ticker_id r) (rs_side r) v (rq_ticker_id f) (rq_side f) = None) as Hswap.
  { intros q v Hq. pose proof (Hne q Hq) as Hn. split.
    - intros t s. unfold set_rest. repeat case_decide; try done. exfalso. apply Hn.
      destruct_and?. by subst.
    - unfold set_rest. by rewrite decide_False by (intros [? ?]; by apply Hn). }
  destruct Ha as [q Er Hq|q Er Hq Hx Hl Hp|q Er Hq|Er].
  - eexists. split; [by eapply ans_accepted; [|apply Hsame]|by split].
  - destruct (Hswap q (if rs_leaves_qty r =? 0 then None else Some (rs_leaves_qty r)) Hq).
    eexists. split; [by eapply ans_filled; [|by apply Hsame|..]|by split].
  - destruct (Hswap q None Hq). eexists. split; [by eapply ans_canceled; [|apply Hsame]|by split].
  - eexists. split; [by apply ans_rejected|by split].
Qed.

(** Answers taken one after the other, up to pointwise equality. *)
Inductive settles (rest : TickerId → Side.t → option Qty)
  : list MEClientResponse → (TickerId → Side.t → option Qty) → Prop :=
  | settles_nil X : rest_eq rest X → settles rest [] X
  | settles_cons r G rest1 X :
      ours r → answers rest r rest1 → settles rest1 G X → settles rest (r :: G) X.

Lemma settles_ext rest rest2 G X :
  settles rest G X → rest_eq rest rest2 → settles rest2 G X.
Proof.
  intros H. revert rest2. induction H as [rest X HX|rest r G rest1 X Ho Ha Hs IH]; intros rest2 Heq.
  - constructor. by rewrite <-Heq.
  - destruct (answers_ext _ _ _ _ Ha Heq) as (rest1' & Ha' & Heq').
    by apply (settles_cons _ _ _ rest1'); [| |apply IH].
Qed.

Lemma settles_ext_r rest G X Y : settles rest G X → rest_eq X Y → settles rest G Y.
Proof.
  induction 1 as [rest X HX|rest r G rest1 X Ho Ha Hs IH]; intros HY.
  - constructor. by rewrite HX.
  - by eapply settles_cons; [| |apply IH].
Qed.

Lemma settles_split rest G1 G2 X : settles rest (G1 ++ G2) X →
  ∃ rest', answers_run rest G1 rest' ∧ settles rest' G2 X.
Proof.
  revert rest. induction G1 as [|r G1 IH]; intros rest H.
  - exists rest. split; [constructor|exact H].
  - inversion H as [|? ? rest1 ? Ho Ha Hs]; subst. destruct (IH _ Hs) as (rest' & Hr & Hs').
    exists rest'. split; [by econstructor|exact Hs'].
Qed.

Lemma settles_snoc rest G X r X' :
  settles rest G X → ours r → answers X r X' → settles rest (G ++ [r]) X'.
Proof.
  intros H Ho. revert X'. induction H as [rest X HX|rest r' G rest1 X Ho' Ha Hs IH]; intros X' Hr.
  - destruct (answers_ext _ rest _ _ Hr) as (Y & Ha & HY); [by symmetry|].
    cbn [app]. eapply settles_cons; [done|exact Ha|]. by constructor.
  - eapply settles_cons; [done|exact Ha|by apply IH].
Qed.

(** A NEW request the client makes now passes the answers on their way. *)
Lemma settles_place_one rest G X f :
  settles rest G X →
  (rq_type f = ClientRequestType.NEW → rest (rq_ticker_id f) (rq_side f) = None) →
  settles (place rest [f]) G (place X [f]) ∧
  (rq_type f = ClientRequestType.NEW → X (rq_ticker_id f) (rq_side f) = None).
Proof.
  induction 1 as [rest X HX|rest r G rest1 X Ho Ha Hs IH]; intros Hf.
  - split; [constructor; by rewrite HX|]. by rewrite <-HX.
  - destruct (answers_place _ _ _ f Ha Hf) as (rest2 & Ha2 & Heq & Hf1).
    destruct (IH Hf1) as [Hs1 HX]. split; [|done].
    eapply settles_cons; [done|exact Ha2|]. by eapply settles_ext.
Qed.

Lemma settles_place reqs : ∀ rest G X,
  settles rest G X → fresh rest reqs → settles (place rest reqs) G (place X reqs) ∧ fresh X reqs.
Proof.
  induction reqs as [|f reqs IH]; intros rest G X Hs Hf; [done|].
  destruct Hf as [Hf1 Hf2]. destruct (settles_place_one _ _ _ f Hs Hf1) as [Hs1 HX].
  rewrite !(place_cons _ f reqs). destruct (IH _ _ _ Hs1 Hf2) as [Hs2 Hf3]. by split.
Qed.

(** An answer the exchange gives now passes the requests on their way. *)
Lemma answers_ahead F : ∀ X r X', answers X r X' → fresh X F →
  ∃ Y, answers (place X F) r Y ∧ rest_eq Y (place X' F) ∧ fresh X' F.
Proof.
  induction F as [|f F IH]; intros X r X' Ha Hf; [by exists X'|].
  destruct Hf as [Hf1 Hf2]. destruct (answers_place _ _ _ f Ha Hf1) as (Y1 & Ha1 & Heq1 & Hn).
  destruct (IH _ _ _ Ha1 Hf2) as (Y & HaY & HeqY & HfY). rewrite !(place_cons _ f F).
  exists Y. split; [exact HaY|]. split; [by rewrite HeqY, Heq1|]. split; [done|].
  by rewrite <-Heq1.
Qed.

(** ** The invariant of the pipe

    [rest] is the client's view, [F] the requests and [G] the answers on their way, [X] what
    the exchange holds. *)
Record in_flight (rest : TickerId → Side.t → option Qty) (F : list MEClientRequest)
    (G : list MEClientResponse) (X : TickerId → Side.t → option Qty) : Prop := {
  if_settles : settles rest G (place X F);
  if_fresh : fresh X F
}.

Lemma in_flight_new : in_flight (λ _ _, None) [] [] (λ _ _, None).
Proof. split; [by constructor|done]. Qed.

(** The client reads some of the answers and sends new requests. *)
Lemma in_flight_client rest F G1 G2 X :
  in_flight rest F (G1 ++ G2) X →
  ∃ rest', answers_run rest G1 rest' ∧
    ∀ new, fresh rest' new → in_flight (place rest' new) (F ++ new) G2 X.
Proof.
  intros [Hs Hf]. destruct (settles_split _ _ _ _ Hs) as (rest' & Hr & Hs').
  exists rest'. split; [done|]. intros new Hn.
  destruct (settles_place new _ _ _ Hs' Hn) as [Hs2 Hf2]. split.
  - by rewrite place_app.
  - by apply fresh_app.
Qed.

(** The exchange works on a request, not necessarily the oldest. *)
Lemma in_flight_take rest f F1 F2 G X :
  in_flight rest (F1 ++ f :: F2) G X →
  in_flight rest (F1 ++ F2) G (place X [f]) ∧
  (rq_type f = ClientRequestType.NEW → X (rq_ticker_id f) (rq_side f) = None).
Proof.
  intros [Hs Hf]. assert (F1 ++ f :: F2 ≡ₚ f :: F1 ++ F2) as Hp by solve_Permutation.
  destruct (fresh_perm _ _ X Hp Hf) as [[Hf1 Hf2] Heq]. split; [|done]. split; [|done].
  by eapply settles_ext_r.
Qed.

(** The exchange answers. *)
Lemma in_flight_answer rest F G X r X' :
  in_flight rest F G X → ours r → answers X r X' → in_flight rest F (G ++ [r]) X'.
Proof.
  intros [Hs Hf] Ho Ha. destruct (answers_ahead F X r X' Ha Hf) as (Y & HaY & HeqY & HfY).
  split; [|done]. eapply settles_ext_r; [by eapply settles_snoc|done].
Qed.
