(* ===== verification/TradingClient.v ===== *)
(** * TradingClient: the trading client's threads together

    [trading/trading_main.cpp]: the trade engine, the order gateway and the market data
    consumer, each a thread, joined by three lock-free queues; a turn of any thread is one
    step.  Around them, an exchange that takes the client's requests off the connection and
    answers them, and a feed whose datagrams arrive.  The theorems hold for every order of
    these steps. *)
From S2P Require Import Prelude Types Wire Sockets LFQueue FIFOSequencer OrderServer OrderGateway.
From S2P Require Import OrderFlow SnapshotSynthesizer MarketDataPublisher MarketDataConsumer Recovery.
From S2P Require Import PriceLevels MarketOrderBook MarketBookSpec MarketBBO Double PositionKeeper.
From S2P Require Import OrderManager PositionLimit Strategies OrderFields TradeEngine TradeEngineSpec.
From S2P Require Import OrdersInFlight.

Record TradingClient := mkTradingClient {
  trade_engine : TradeEngine;
  order_gateway : OrderGateway;
  market_data_consumer : MarketDataConsumer
}.

(** [main]: the queues, then the components. *)
Definition TradingClient_new (client_id : ClientId) (algo_type : AlgoType.t)
    (ticker_cfg : TradeEngineCfgHashMap) (garbage : TickerId → arr double) (inc_fd : Z)
  : TradingClient :=
  let client_requests := LFQueue_new ME_MAX_CLIENT_UPDATES MEClientRequest_default in
  let client_responses := LFQueue_new ME_MAX_CLIENT_UPDATES MEClientResponse_default in
  let market_updates := LFQueue_new ME_MAX_MARKET_UPDATES MEMarketUpdate_default in
  mkTradingClient
    (TradeEngine_new client_id algo_type ticker_cfg garbage client_requests client_responses
       market_updates)
    (OrderGateway_new client_id client_requests client_responses)
    (MarketDataConsumer_new market_updates inc_fd).

(** ** The loop bodies of the gateway and the consumer *)

(** [TCPSocket::sendAndRecv], then the requests that wait; the bytes sent are returned. *)
Definition gateway_turn (chunk : option bytes) (kernel_takes : nat) (fuel : nat)
    (g : OrderGateway) : Res (OrderGateway * bytes) :=
  g ← match chunk with None => Ok g | Some chunk => gw_receive g chunk end;
  let '(s, sent) := socket_flush (gw_tcp_socket_ g) kernel_takes in
  g ← gw_send_requests fuel (with_socket g s);
  Ok (g, sent).

(** Both multicast sockets; neither has anything to send. *)
Definition consumer_turn (snapshot_fd : Z) (joined : bool) (incremental snapshot : option bytes)
    (c : MarketDataConsumer) : Res MarketDataConsumer :=
  c ← match incremental with
      | None => Ok c | Some datagram => md_receive snapshot_fd joined c false datagram end;
  match snapshot with
  | None => Ok c | Some datagram => md_receive snapshot_fd joined c true datagram end.

(** ** The threads; a turn leaves its queues to the thread at the other end. *)

(** No queue holds more than this, and the loops look once more. *)
Definition client_fuel : nat := S (Z.to_nat ME_MAX_CLIENT_UPDATES).

Definition gateway_with_queues (g : OrderGateway) (requests : LFQueue MEClientRequest)
    (responses : LFQueue MEClientResponse) : OrderGateway :=
  mkOrderGateway (gw_client_id_ g) requests responses (next_outgoing_seq_num_ g)
    (next_exp_seq_num_ g) (gw_tcp_socket_ g).

Definition trade_thread (x : TradingClient) : Res TradingClient :=
  e ← te_turn client_fuel (trade_engine x);
  Ok (mkTradingClient e
        (gateway_with_queues (order_gateway x) (te_requests e) (te_responses e))
        (c_with_out (market_data_consumer x) (te_md_updates e))).

Definition gateway_thread (chunk : option bytes) (kernel_takes : nat) (x : TradingClient)
  : Res (TradingClient * bytes) :=
  '(g, sent) ← gateway_turn chunk kernel_takes client_fuel (order_gateway x);
  Ok (mkTradingClient
        (te_with_responses (te_with_requests (trade_engine x) (gw_outgoing_requests_ g))
           (gw_incoming_responses_ g))
        g (market_data_consumer x), sent).

Definition consumer_thread (snapshot_fd : Z) (joined : bool) (incremental snapshot : option bytes)
    (x : TradingClient) : Res TradingClient :=
  c ← consumer_turn snapshot_fd joined incremental snapshot (market_data_consumer x);
  Ok (mkTradingClient (te_with_md_updates (trade_engine x) (incoming_md_updates_ c))
        (order_gateway x) c).

(** ** The client and its exchange *)

(** The bytes on the connection, the requests the exchange has read but not worked on, what
    it holds of the client's orders, the answers it has sent, and the part of the feed
    that is still to come. *)
Record ClientWorld := mkClientWorld {
  cw_client : TradingClient;
  cw_upstream : bytes;
  cw_downstream : bytes;
  cw_answers : list MEClientResponse;
  cw_pending : list MEClientRequest;
  cw_resting : TickerId → Side.t → option Qty;
  cw_published : Z;
  cw_feed : list MEMarketUpdate
}.

Definition ClientWorld_new (x : TradingClient) (feed : list MEMarketUpdate) : ClientWorld :=
  mkClientWorld x [] [] [] [] (λ _ _, None) 0 feed.

Definition cw_answered (w : ClientWorld) : Z := Z.of_nat (length (cw_answers w)).

Inductive ClientTurn :=
  | TradeTurn
  | GatewayTurn (chunk : option bytes) (kernel_takes : nat)
  | ConsumerTurn (n : nat)
  | ExchangeTakes (m : OMClientRequest)
  | ExchangeWorks (i : nat)
  | ExchangeAnswers (r : MEClientResponse) (resting : TickerId → Side.t → option Qty).

Definition client_turn (w : ClientWorld) (t : ClientTurn) : Res ClientWorld :=
  match t with
  | TradeTurn =>
      x ← trade_thread (cw_client w);
      Ok (mkClientWorld x (cw_upstream w) (cw_downstream w) (cw_answers w) (cw_pending w) (cw_resting w)
            (cw_published w) (cw_feed w))
  | GatewayTurn chunk kernel_takes =>
      '(x, sent) ← gateway_thread chunk kernel_takes (cw_client w);
      Ok (mkClientWorld x (cw_upstream w ++ sent)
            (drop (length (default [] chunk)) (cw_downstream w)) (cw_answers w) (cw_pending w) (cw_resting w)
            (cw_published w) (cw_feed w))
  | ConsumerTurn n =>
      let us := take n (cw_feed w) in
      let datagram := encode_all (numbered_updates (cw_published w + 1) us) in
      x ← consumer_thread (-1) true (if decide (us = []) then None else Some datagram) None
            (cw_client w);
      Ok (mkClientWorld x (cw_upstream w) (cw_downstream w) (cw_answers w) (cw_pending w) (cw_resting w)
            (cw_published w + Z.of_nat (length us)) (drop n (cw_feed w)))
  | ExchangeTakes m =>
      Ok (mkClientWorld (cw_client w) (drop (c_size OMClientRequest) (cw_upstream w))
            (cw_downstream w) (cw_answers w) (cw_pending w ++ [omrq_request m]) (cw_resting w)
            (cw_published w) (cw_feed w))
  | ExchangeWorks i =>
      Ok (match cw_pending w !! i with
          | None => w
          | Some f => mkClientWorld (cw_client w) (cw_upstream w) (cw_downstream w) (cw_answers w)
                        (delete i (cw_pending w)) (place (cw_resting w) [f]) (cw_published w)
                        (cw_feed w)
          end)
  | ExchangeAnswers r resting =>
      Ok (mkClientWorld (cw_client w) (cw_upstream w)
            (cw_downstream w ++ c_enc (mkOMClientResponse (cw_answered w + 1) r))
            (cw_answers w ++ [r]) (cw_pending w) resting (cw_published w) (cw_feed w))
  end.

(** TCP delivers what was sent and takes what is sent; the exchange reads whole requests, works
    on them in any order and answers the orders it holds, with at most as many answers as the
    client's queue holds. *)
Definition turn_allowed (client_id : ClientId) (w : ClientWorld) (t : ClientTurn) : Prop :=
  match t with
  | TradeTurn | ConsumerTurn _ | ExchangeWorks _ => True
  | GatewayTurn chunk kernel_takes =>
      let s := gw_tcp_socket_ (order_gateway (cw_client w)) in
      (∀ b, chunk = Some b → b ≠ [] ∧ b `prefix_of` cw_downstream w ∧
        Z.of_nat (length (inbound_data_ s) + length b) ≤ TCPBufferSize) ∧
      (length (outbound_data_ s) ≤ kernel_takes)%nat
  | ExchangeTakes m => c_ok m ∧ c_enc m `prefix_of` cw_upstream w
  | ExchangeAnswers r resting =>
      ours r ∧ answers (cw_resting w) r resting ∧ rs_client_id r = client_id ∧ c_ok r ∧
      cw_answered w < ME_MAX_CLIENT_UPDATES
  end.

Inductive client_reachable (client_id : ClientId) (w0 : ClientWorld) : ClientWorld → Prop :=
  | cl_start : client_reachable client_id w0 w0
  | cl_turn w t w' : client_reachable client_id w0 w → turn_allowed client_id w t →
      client_turn w t = Ok w' → client_reachable client_id w0 w'.
