(* ===== verification/ClientRun.v ===== *)
(** * ClientRun: what the trading client as a whole does

    The invariant of the composed client, kept by every turn of every thread and by every
    step of its surroundings, and the theorems that follow. *)
From S2P Require Import Prelude Types Wire Sockets LFQueue FIFOSequencer OrderServer OrderGateway.
From S2P Require Import OrderFlow SnapshotSynthesizer MarketDataPublisher MarketDataConsumer Recovery.
From S2P Require Import PriceLevels MarketOrderBook MarketBookSpec MarketBBO Double PositionKeeper.
From S2P Require Import OrderManager PositionLimit Strategies OrderFields TradeEngine TradeEngineSpec.
From S2P Require Import OrdersInFlight TradingClient.

(** ** Pieces *)
Lemma te_rep_requests e q rest st : te_rep e rest st → te_rep (te_with_requests e q) rest st.
Proof. by intros [[? ? ? ? ?] ? ?]. Qed.
Lemma te_rep_responses e q rest st : te_rep e rest st → te_rep (te_with_responses e q) rest st.
Proof. by intros [[? ? ? ? ?] ? ?]. Qed.
Lemma te_rep_updates e q rest st : te_rep e rest st → te_rep (te_with_md_updates e q) rest st.
Proof. by intros [[? ? ? ? ?] ? ?]. Qed.

(** What the callback of the gateway leaves alone. *)
Lemma on_responses_frame ms : ∀ g,
  let g' := foldl on_response g ms in
  gw_client_id_ g' = gw_client_id_ g ∧ gw_outgoing_requests_ g' = gw_outgoing_requests_ g ∧
  next_outgoing_seq_num_ g' = next_outgoing_seq_num_ g ∧ gw_tcp_socket_ g' = gw_tcp_socket_ g.
Proof.
  induction ms as [|m ms IH]; intros g; [done|]. cbn [foldl].
  destruct (IH (on_response g m)) as (H1 & H2 & H3 & H4). cbn zeta in *.
  rewrite H1, H2, H3, H4. unfold on_response. destruct (negb _); [done|]. by destruct (negb _).
Qed.

(** One turn of the gateway: what arrived goes to the trade engine, what was buffered goes
    out, what the trade engine queued is buffered. *)
Lemma gateway_turn_spec chunk takes fuel g rs R ms future :
  lfq_rep (gw_outgoing_requests_ g) rs → lfq_rep (gw_incoming_responses_ g) R →
  Forall c_ok ms → encode_all ms = inbound_data_ (gw_tcp_socket_ g) ++ default [] chunk ++ future →
  (length (inbound_data_ (gw_tcp_socket_ g)) < c_size OMClientResponse)%nat →
  (∀ b, chunk = Some b → b ≠ [] ∧
    Z.of_nat (length (inbound_data_ (gw_tcp_socket_ g)) + length b) ≤ TCPBufferSize) →
  (length (outbound_data_ (gw_tcp_socket_ g)) ≤ takes)%nat →
  Forall (λ m, response_client m = gw_client_id_ g) ms →
  omrs_seq_num <$> ms = seqZ (next_exp_seq_num_ g) (Z.of_nat (length ms)) →
  0 ≤ next_exp_seq_num_ g → next_exp_seq_num_ g + Z.of_nat (length ms) < 2 ^ 64 →
  Z.of_nat (length R + length ms) ≤ lfq_cap (gw_incoming_responses_ g) →
  (length rs ≤ fuel)%nat → Z.of_nat (38 * length rs) ≤ TCPBufferSize →
  0 ≤ next_outgoing_seq_num_ g → next_outgoing_seq_num_ g + Z.of_nat (length rs) < 2 ^ 64 →
  ∃ g' ms1 ms2, ms = ms1 ++ ms2 ∧
    gateway_turn chunk takes fuel g = Ok (g', outbound_data_ (gw_tcp_socket_ g)) ∧
    gw_client_id_ g' = gw_client_id_ g ∧
    lfq_rep (gw_outgoing_requests_ g') [] ∧
    lfq_cap (gw_outgoing_requests_ g') = lfq_cap (gw_outgoing_requests_ g) ∧
    next_outgoing_seq_num_ g' = next_outgoing_seq_num_ g + Z.of_nat (length rs) ∧
    outbound_data_ (gw_tcp_socket_ g') =
      encode_all (numbered_requests (next_outgoing_seq_num_ g) rs) ∧
    lfq_rep (gw_incoming_responses_ g') (R ++ (omrs_response <$> ms1)) ∧
    lfq_cap (gw_incoming_responses_ g') = lfq_cap (gw_incoming_responses_ g) ∧
    next_exp_seq_num_ g' = next_exp_seq_num_ g + Z.of_nat (length ms1) ∧
    encode_all ms2 = inbound_data_ (gw_tcp_socket_ g') ++ future ∧
    (length (inbound_data_ (gw_tcp_socket_ g')) < c_size OMClientResponse)%nat.
Proof.
  intros Hq HR Hok Hbytes Hshort Hchunk Htakes Hcl Hseq H0 H64 Hroom Hfuel Hfit Hn0 Hn.
  assert (∃ ms1 ms2 rest, ms = ms1 ++ ms2 ∧
    match chunk with None => Ok g | Some chunk => gw_receive g chunk end =
      Ok (with_socket (foldl on_response g ms1) (with_inbound (gw_tcp_socket_ g) rest)) ∧
    encode_all ms2 = rest ++ future ∧ (length rest < c_size OMClientResponse)%nat)
    as (ms1 & ms2 & rest & -> & Hrun & Hfut & Hrest).
  { destruct chunk as [b|].
    - destruct (Hchunk b eq_refl) as [Hne Hb]. by apply gw_receive_spec.
    - exists [], ms, (inbound_data_ (gw_tcp_socket_ g)). cbn [default app foldl] in *.
      split; [done|]. split; [by destruct g as [? ? ? ? ? []]|]. by split. }
  apply Forall_app in Hcl as [Hcl1 _]. rewrite length_app in *.
  rewrite fmap_app, Nat2Z.inj_add, seqZ_app in Hseq by lia.
  apply app_inj_1 in Hseq as [Hseq1 _]; [|by rewrite length_fmap, length_seqZ, Nat2Z.id].
  destruct (on_responses_all g ms1 Hcl1 H0 ltac:(lia) Hseq1) as [Hin Hexp].
  destruct (on_responses_frame ms1 g) as (F1 & F2 & F3 & F4). cbn zeta in *.
  set (g1 := foldl on_response g ms1) in *.
  set (g2 := with_socket g1 (with_outbound (with_inbound (gw_tcp_socket_ g) rest) [])).
  destruct (gw_send_requests_spec fuel g2 rs) as
    (g' & Hrun2 & Hq' & Hn' & Ho' & Hi' & Hc' & He' & Hr' & Hcap').
  { cbn. by rewrite F2. }
  { exact Hfuel. }
  { unfold next_send_valid_index_. cbn [g2 gw_tcp_socket_ with_socket outbound_data_ with_outbound
      length]. lia. }
  { cbn. by rewrite F3. }
  { cbn. by rewrite F3. }
  cbn [g2 gw_tcp_socket_ with_socket outbound_data_ with_outbound inbound_data_ with_inbound
    next_outgoing_seq_num_ gw_client_id_ next_exp_seq_num_ gw_incoming_responses_ app] in *.
  change (gw_outgoing_requests_ g2) with (gw_outgoing_requests_ g1) in Hcap'.
  rewrite F2 in Hcap'.
  rewrite F3 in Hn', Ho'. rewrite Hin in Hr'. rewrite Hexp in He'. rewrite F1 in Hc'.
  destruct (lfq_push_all_rep (gw_incoming_responses_ g) R (omrs_response <$> ms1) HR)
    as [Hpush Hcap].
  { rewrite length_fmap. lia. }
  exists g', ms1, ms2. split; [done|]. split.
  { unfold gateway_turn. rewrite Hrun. cbn [mbind Res_bind]. unfold socket_flush.
    cbn [gw_tcp_socket_ with_socket]. change (gw_send_requests fuel _) with (gw_send_requests fuel g2).
    rewrite Hrun2. cbn [mbind Res_bind]. by rewrite take_ge. }
  rewrite Hr', Hi'. by split_and!.
Qed.

(** The consumer in step with the feed. *)
Record in_step (c : MarketDataConsumer) (n : Z) : Prop := {
  is_flag : in_recovery_ c = false;
  is_next : next_exp_inc_seq_num_ c = n;
  is_empty : inbound_data_ (incremental_mcast_socket_ c) = [];
  is_socket : socket_fd_ (incremental_mcast_socket_ c) ≠ socket_fd_ (snapshot_mcast_socket_ c)
}.

Lemma numbered_updates_bytes n us : length (encode_all (numbered_updates n us)) = (42 * length us)%nat.
Proof.
  revert n. induction us as [|u us IH]; intros n; [done|]. rewrite numbered_updates_cons.
  change (encode_all (?a :: ?l)) with (c_enc a ++ encode_all l).
  rewrite length_app, IH, c_enc_length, MDPMarketUpdate_size. cbn [length]. lia.
Qed.

Lemma consumer_turn_spec n us c U :
  in_step c n → 0 < n → n + Z.of_nat (length us) < 2 ^ 64 → Forall c_ok us →
  Z.of_nat (42 * length us) ≤ McastBufferSize → lfq_rep (incoming_md_updates_ c) U →
  Z.of_nat (length U + length us) ≤ lfq_cap (incoming_md_updates_ c) →
  ∃ c', consumer_turn (-1) true
      (if decide (us = []) then None else Some (encode_all (numbered_updates n us))) None c = Ok c' ∧
    in_step c' (n + Z.of_nat (length us)) ∧ lfq_rep (incoming_md_updates_ c') (U ++ us) ∧
    lfq_cap (incoming_md_updates_ c') = lfq_cap (incoming_md_updates_ c).
Proof.
  intros [Hflag Hnext Hempty Hsock] H0 H64 Hok Hfit Hq Hroom. unfold consumer_turn.
  destruct (decide (us = [])) as [->|Hne].
  { exists c. rewrite app_nil_r, Z.add_0_r. by split_and!. }
  set (ms := numbered_updates n us).
  assert (ms ≠ []) as Hms by (destruct us; [done|unfold ms; by rewrite numbered_updates_cons]).
  assert ((socket_fd_ (c_socket c false) =? socket_fd_ (snapshot_mcast_socket_ c)) = false) as Hfd.
  { by apply Z.eqb_neq. }
  pose proof (md_receive_messages (-1) true c false ms) as Hrecv. cbn zeta in Hrecv.
  rewrite Hfd in Hrecv. rewrite Hrecv; clear Hrecv; [|done|done|..|done].
  2: { apply numbered_updates_ok; [lia|done|done]. }
  2: { unfold ms. by rewrite numbered_updates_bytes. }
  set (c1 := c_with_inbound c false (encode_all ms)).
  assert (next_exp_inc_seq_num_ c1 = n) as Hn1 by exact Hnext.
  unfold ms. rewrite <-Hn1, (consume_in_order (-1) true c1 us); [|exact Hflag|lia|lia].
  cbn [mbind Res_bind]. eexists. split; [reflexivity|].
  destruct (lfq_push_all_rep (incoming_md_updates_ c) U us Hq Hroom) as [Hq' Hcap].
  by split.
Qed.

(** ** The invariant *)

(** Where everything is: requests queued for the gateway, in its buffer and on the
    connection; answers on the connection and queued for the trade engine; updates queued for
    the trade engine; and what the trade engine has read and made of it. *)
Record ClientGhost := mkClientGhost {
  cg_queued : list MEClientRequest;
  cg_buffered : list MEClientRequest;
  cg_wire : list MEClientRequest;
  cg_first : Z;
  cg_coming : list OMClientResponse;
  cg_read : list MEClientResponse;
  cg_updates : list MEMarketUpdate;
  cg_handled : list MEMarketUpdate;
  cg_rest : TickerId → Side.t → option Qty;
  cg_done : list MEClientResponse
}.

Section Invariant.
Context (client_id : ClientId) (cfgs : TradeEngineCfgHashMap) (feed : list MEMarketUpdate).

(** A feed the client takes, not too long for its queues. *)
Record feed_fits : Prop := {
  ff_valid : valid_feed feed_new feed;
  ff_ok : Forall c_ok feed;
  ff_few : 2 * Z.of_nat (length feed) ≤ ME_MAX_CLIENT_UPDATES
}.

Record client_coherent (x : TradingClient) : Prop := {
  cc_requests : gw_outgoing_requests_ (order_gateway x) = te_requests (trade_engine x);
  cc_responses : gw_incoming_responses_ (order_gateway x) = te_responses (trade_engine x);
  cc_updates : incoming_md_updates_ (market_data_consumer x) = te_md_updates (trade_engine x)
}.

Record client_sizes (x : TradingClient) : Prop := {
  cs_requests : lfq_cap (te_requests (trade_engine x)) = ME_MAX_CLIENT_UPDATES;
  cs_responses : lfq_cap (te_responses (trade_engine x)) = ME_MAX_CLIENT_UPDATES;
  cs_updates : lfq_cap (te_md_updates (trade_engine x)) = ME_MAX_MARKET_UPDATES
}.

(** The trading thread. *)
Record trading_side (e : TradeEngine) (h : ClientGhost) : Prop := {
  ts_client : te_client_id e = client_id;
  ts_cfgs : te_ticker_cfg e = cfgs;
  ts_rep : te_rep e (cg_rest h) (foldl feed_step feed_new (cg_handled h));
  ts_queues : te_queues e (cg_queued h) (cg_read h) (cg_updates h);
  ts_positions : ∀ t, te_position e t = fills t (cg_done h)
}.

(** The requests on their way, numbered without a gap. *)
Record upstream_side (w : ClientWorld) (h : ClientGhost) : Prop := {
  us_fields : sent_fields client_id (cg_wire h ++ cg_buffered h ++ cg_queued h);
  us_first : 0 < cg_first h;
  us_wire : cw_upstream w = encode_all (numbered_requests (cg_first h) (cg_wire h));
  us_buffer : outbound_data_ (gw_tcp_socket_ (order_gateway (cw_client w))) =
    encode_all (numbered_requests (cg_first h + Z.of_nat (length (cg_wire h))) (cg_buffered h));
  us_next : next_outgoing_seq_num_ (order_gateway (cw_client w)) =
    cg_first h + Z.of_nat (length (cg_wire h) + length (cg_buffered h));
  us_count : next_outgoing_seq_num_ (order_gateway (cw_client w)) +
    Z.of_nat (length (cg_queued h) + 2 * length (cg_updates h) + 2 * length (cw_feed w)) ≤
    1 + 2 * Z.of_nat (length feed)
}.

(** The answers on their way. *)
Record downstream_side (w : ClientWorld) (h : ClientGhost) : Prop := {
  dn_client : gw_client_id_ (order_gateway (cw_client w)) = client_id;
  dn_ok : Forall c_ok (cg_coming h);
  dn_mine : Forall (λ m, response_client m = client_id) (cg_coming h);
  dn_bytes : encode_all (cg_coming h) =
    inbound_data_ (gw_tcp_socket_ (order_gateway (cw_client w))) ++ cw_downstream w;
  dn_short : (length (inbound_data_ (gw_tcp_socket_ (order_gateway (cw_client w)))) <
    c_size OMClientResponse)%nat;
  dn_exp : 0 < next_exp_seq_num_ (order_gateway (cw_client w));
  dn_seq : omrs_seq_num <$> cg_coming h =
    seqZ (next_exp_seq_num_ (order_gateway (cw_client w))) (Z.of_nat (length (cg_coming h)));
  dn_count : next_exp_seq_num_ (order_gateway (cw_client w)) + Z.of_nat (length (cg_coming h)) =
    cw_answered w + 1;
  dn_read : Z.of_nat (length (cg_read h)) < next_exp_seq_num_ (order_gateway (cw_client w));
  dn_few : cw_answered w ≤ ME_MAX_CLIENT_UPDATES
}.

(** The feed: what has been handled, what waits, what is to come. *)
Record feed_side (w : ClientWorld) (h : ClientGhost) : Prop := {
  fd_all : feed = cg_handled h ++ cg_updates h ++ cw_feed w;
  fd_published : cw_published w = Z.of_nat (length (cg_handled h ++ cg_updates h));
  fd_step : in_step (market_data_consumer (cw_client w)) (cw_published w + 1)
}.

Record client_inv (w : ClientWorld) (h : ClientGhost) : Prop := {
  ci_coherent : client_coherent (cw_client w);
  ci_sizes : client_sizes (cw_client w);
  ci_trading : trading_side (trade_engine (cw_client w)) h;
  ci_upstream : upstream_side w h;
  ci_downstream : downstream_side w h;
  ci_feed : feed_side w h;
  ci_orders : in_flight (cg_rest h) (cw_pending w ++ cg_wire h ++ cg_buffered h ++ cg_queued h)
    (cg_read h ++ (omrs_response <$> cg_coming h)) (cw_resting w);
  ci_answers : cw_answers w = cg_done h ++ cg_read h ++ (omrs_response <$> cg_coming h)
}.

Lemma client_inv_new algo garbage inc_fd :
  algo = AlgoType.MAKER ∨ algo = AlgoType.TAKER → te_cfgs_ok cfgs → (∀ i, vwap_ok (garbage i)) →
  0 ≤ client_id < 2 ^ 32 → 0 ≤ inc_fd →
  client_inv (ClientWorld_new (TradingClient_new client_id algo cfgs garbage inc_fd) feed)
    (mkClientGhost [] [] [] 1 [] [] [] [] (λ _ _, None) []).
Proof.
  intros Ha Hcfg Hg Hcl Hfd. split.
  - by split.
  - by split.
  - split; [done|done|by apply TradeEngine_new_rep| |].
    + split; apply LFQueue_new_rep; by vm_compute.
    + intros t. apply TradeEngine_new_position.
  - split; try done; [by constructor|]. cbn. lia.
  - split; try done; try (by apply Forall_nil). rewrite OMClientResponse_size. cbn. lia.
  - split; [done|done|]. split; try done. cbn. lia.
  - apply in_flight_new.
  - done.
Qed.

Lemma valid_feed_app st us vs :
  valid_feed st (us ++ vs) ↔ valid_feed st us ∧ valid_feed (foldl feed_step st us) vs.
Proof.
  revert st. induction us as [|u us IH]; intros st; [by cbn; tauto|].
  cbn [app valid_feed foldl]. rewrite IH. tauto.
Qed.

Lemma client_fuel_enough n : Z.of_nat n ≤ ME_MAX_CLIENT_UPDATES → (n < client_fuel)%nat.
Proof.
  intros H. unfold client_fuel. apply Nat.lt_succ_r, Nat2Z.inj_le.
  rewrite Z2Nat.id; [done|]. etrans; [|exact H]. lia.
Qed.

Section Turns.
Context (Hfits : feed_fits).
Implicit Types (w : ClientWorld) (h : ClientGhost).

Definition with_client w (x : TradingClient) : ClientWorld :=
  mkClientWorld x (cw_upstream w) (cw_downstream w) (cw_answers w) (cw_pending w)
    (cw_resting w) (cw_published w) (cw_feed w).

Definition ghost_trade h rest' new : ClientGhost :=
  mkClientGhost (cg_queued h ++ new) (cg_buffered h) (cg_wire h) (cg_first h) (cg_coming h) []
    [] (cg_handled h ++ cg_updates h) (place rest' new) (cg_done h ++ cg_read h).

Ltac wsimpl := unfold cw_answered in *; cbn [cw_client cw_upstream cw_downstream cw_answers cw_pending cw_resting cw_published
  cw_feed with_client ghost_trade cg_queued cg_buffered cg_wire cg_first cg_coming cg_read
  cg_updates cg_handled cg_rest cg_done trade_engine order_gateway market_data_consumer
  gateway_with_queues gw_client_id_ gw_outgoing_requests_ gw_incoming_responses_
  next_outgoing_seq_num_ next_exp_seq_num_ gw_tcp_socket_ c_with_out incoming_md_updates_] in *.

Lemma trade_turn_keeps w h : client_inv w h →
  ∃ x' rest' new, trade_thread (cw_client w) = Ok x' ∧
    client_inv (with_client w x') (ghost_trade h rest' new).
Proof.
  intros [[C1 C2 C3] [Z1 Z2 Z3] [Tc Tcfg Trep Tq Tpos] [U1 U2 U3 U4 U5 U6] Hdown [F1 F2 F3] Hord Hdone].
  destruct (in_flight_client _ _ _ _ _ Hord) as (rest' & Hans & Hgo).
  destruct Hfits as [Hvalid _ Hfew].
  pose proof (lq_fits _ _ (tq_responses _ _ _ _ Tq)) as Hr. rewrite Z2 in Hr.
  pose proof (lq_fits _ _ (tq_updates _ _ _ _ Tq)) as Hu. rewrite Z3 in Hu.
  rewrite F1 in Hvalid. apply valid_feed_app in Hvalid as [_ Hvalid].
  apply valid_feed_app in Hvalid as [Hvalid _].
  destruct (te_turn_spec (trade_engine (cw_client w)) _ _ _ _ _ rest' client_fuel Trep Tq Hans
    Hvalid) as (e' & new & Hrun & Hrep' & Hq' & [Hs1 Hs2 Hs3] & [Hf1 Hf2 Hf3 Hf4 Hf5] & Hpos).
  { by apply client_fuel_enough. }
  { by apply client_fuel_enough. }
  { rewrite Z1. lia. }
  eexists _, rest', new. split; [unfold trade_thread; rewrite Hrun; reflexivity|].
  split; wsimpl.
  - by split.
  - by split; wsimpl; congruence.
  - split; wsimpl; [congruence|congruence| |exact Hq'|]; [by rewrite foldl_app|].
    intros t. by rewrite Hpos, Tpos, fills_app.
  - split; wsimpl; try done.
    + rewrite !app_assoc in *. apply Forall_app. split; [done|]. by rewrite Tc in Hs2.
    + rewrite length_app. cbn [length]. lia.
  - destruct Hdown as [D1 D2 D3 D4 D5 D6 D7 D8 D9 D10]. split; wsimpl; try done.
  - split; wsimpl; [by rewrite <-app_assoc|by rewrite app_nil_r|]. by destruct F3.
  - specialize (Hgo new Hs3). by rewrite <-!app_assoc in Hgo.
  - by rewrite Hdone, <-app_assoc.
Qed.

Definition ghost_gateway h ms1 ms2 : ClientGhost :=
  mkClientGhost [] (cg_queued h) (cg_wire h ++ cg_buffered h) (cg_first h) ms2
    (cg_read h ++ (omrs_response <$> ms1)) (cg_updates h) (cg_handled h) (cg_rest h) (cg_done h).

Lemma numbered_requests_app n rs rs' :
  numbered_requests n (rs ++ rs') =
  numbered_requests n rs ++ numbered_requests (n + Z.of_nat (length rs)) rs'.
Proof.
  unfold numbered_requests. rewrite imap_app. f_equal. apply imap_ext. intros i u _. simpl.
  f_equal. lia.
Qed.

Lemma gateway_turn_keeps w h chunk kernel_takes :
  client_inv w h → turn_allowed client_id w (GatewayTurn chunk kernel_takes) →
  ∃ w' ms1 ms2, client_turn w (GatewayTurn chunk kernel_takes) = Ok w' ∧
    client_inv w' (ghost_gateway h ms1 ms2).
Proof.
  intros [[C1 C2 C3] [Z1 Z2 Z3] [Tc Tcfg Trep [Q1 Q2 Q3] Tpos] [U1 U2 U3 U4 U5 U6]
    [D1 D2 D3 D4 D5 D6 D7 D8 D9 D10] [F1 F2 F3] Hord Hdone] [Hchunk Htakes].
  destruct Hfits as [_ _ Hfew].
  assert (ME_MAX_CLIENT_UPDATES < 2 ^ 62) as Hsmall by (by vm_compute).
  assert (38 * ME_MAX_CLIENT_UPDATES ≤ TCPBufferSize) as Hbuf by (by vm_compute).
  assert (cw_downstream w = default [] chunk ++ drop (length (default [] chunk)) (cw_downstream w))
    as Hdown.
  { destruct chunk as [b|]; [|done]. destruct (Hchunk b eq_refl) as (_ & [rest ->] & _).
    cbn [default]. by rewrite drop_app_length. }
  destruct (gateway_turn_spec chunk kernel_takes client_fuel (order_gateway (cw_client w))
    (cg_queued h) (cg_read h) (cg_coming h) (drop (length (default [] chunk)) (cw_downstream w)))
    as (g' & ms1 & ms2 & Hms & Hrun & G1 & G2 & G2c & G3 & G4 & G5 & G6 & G7 & G8 & G9).
  { by rewrite C1. }
  { by rewrite C2. }
  { exact D2. }
  { by rewrite <-Hdown. }
  { exact D5. }
  { intros b Hb. destruct (Hchunk b Hb) as (? & _ & ?). by split. }
  { exact Htakes. }
  { by rewrite D1. }
  { exact D7. }
  { lia. }
  { lia. }
  { rewrite C2, Z2. lia. }
  { apply Nat.lt_le_incl, client_fuel_enough. lia. }
  { lia. }
  { lia. }
  { lia. }
  rewrite Hms, length_app in *.
  eexists _, ms1, ms2. split.
  { unfold client_turn, gateway_thread. rewrite Hrun. cbn [mbind Res_bind]. reflexivity. }
  apply Forall_app in D2 as [_ D2]. apply Forall_app in D3 as [_ D3].
  split; unfold ghost_gateway; wsimpl.
  - by split.
  - split; cbn; congruence.
  - split; cbn; [done|done|by apply te_rep_responses, te_rep_requests|by split|done].
  - split; wsimpl.
    + by rewrite app_nil_r, <-app_assoc.
    + done.
    + by rewrite U3, U4, <-encode_all_app, numbered_requests_app.
    + by rewrite G4, U5, length_app.
    + rewrite G3, U5, length_app. lia.
    + rewrite G3. cbn [length]. lia.
  - split; wsimpl; try done; rewrite ?length_app, ?length_fmap; try congruence; try lia.
    rewrite fmap_app, Nat2Z.inj_add, seqZ_app in D7 by lia.
    apply app_inj_1 in D7 as [_ D7]; [|by rewrite length_fmap, length_seqZ, Nat2Z.id].
    by rewrite G7.
  - split; wsimpl; [done|by rewrite length_app|done].
  - rewrite app_nil_r, <-!app_assoc. by rewrite fmap_app in Hord.
  - by rewrite Hdone, fmap_app, <-!app_assoc.
Qed.

Definition ghost_consume h us : ClientGhost :=
  mkClientGhost (cg_queued h) (cg_buffered h) (cg_wire h) (cg_first h) (cg_coming h)
    (cg_read h) (cg_updates h ++ us) (cg_handled h) (cg_rest h) (cg_done h).

Lemma consumer_turn_keeps w h n : client_inv w h →
  ∃ w', client_turn w (ConsumerTurn n) = Ok w' ∧
    client_inv w' (ghost_consume h (take n (cw_feed w))).
Proof.
  intros [[C1 C2 C3] [Z1 Z2 Z3] [Tc Tcfg Trep [Q1 Q2 Q3] Tpos] [U1 U2 U3 U4 U5 U6]
    [D1 D2 D3 D4 D5 D6 D7 D8 D9 D10] [F1 F2 F3] Hord Hdone].
  destruct Hfits as [_ Hok Hfew].
  assert (42 * ME_MAX_CLIENT_UPDATES ≤ McastBufferSize) as Hbuf by (by vm_compute).
  assert (ME_MAX_CLIENT_UPDATES = ME_MAX_MARKET_UPDATES) as Heq by done.
  assert (ME_MAX_CLIENT_UPDATES < 2 ^ 62) as Hsmall by (by vm_compute).
  set (us := take n (cw_feed w)). set (vs := drop n (cw_feed w)).
  assert (cw_feed w = us ++ vs) as Hfeed by (unfold us, vs; by rewrite take_drop).
  rewrite Hfeed in F1, U6. pose proof (f_equal length F1) as Hlen.
  rewrite !length_app in Hlen, F2, U6.
  destruct (consumer_turn_spec (cw_published w + 1) us (market_data_consumer (cw_client w))
    (cg_updates h) F3) as (c' & Hrun & Hstep & Hq & Hcap).
  { lia. }
  { lia. }
  { rewrite F1, !Forall_app in Hok. tauto. }
  { lia. }
  { by rewrite C3. }
  { rewrite C3, Z3. lia. }
  eexists. split.
  { unfold client_turn, consumer_thread. fold us. rewrite Hrun. cbn [mbind Res_bind]. reflexivity. }
  fold vs. split; unfold ghost_consume; wsimpl.
  - by split.
  - split; cbn; congruence.
  - split; cbn; [done|done|by apply te_rep_updates|by split|done].
  - split; wsimpl; try done. rewrite length_app. lia.
  - split; wsimpl; done.
  - split; wsimpl.
    + by rewrite <-app_assoc.
    + rewrite !length_app. lia.
    + replace (cw_published w + Z.of_nat (length us) + 1)
        with (cw_published w + 1 + Z.of_nat (length us)) by lia. exact Hstep.
  - exact Hord.
  - exact Hdone.
Qed.

(** The surroundings. *)
Lemma takes_keeps w h m :
  client_inv w h → turn_allowed client_id w (ExchangeTakes m) →
  ∃ w' h', client_turn w (ExchangeTakes m) = Ok w' ∧ client_inv w' h' ∧
    cg_handled h' = cg_handled h.
Proof.
  intros [Hco Hsz Htr [U1 U2 U3 U4 U5 U6] Hdn [F1 F2 F3] Hord Hdone] [Hm [rest Hrest]].
  destruct Hfits as [_ _ Hfew].
  assert (ME_MAX_CLIENT_UPDATES < 2 ^ 62) as Hsmall by (by vm_compute).
  destruct (cg_wire h) as [|f W] eqn:EW.
  { exfalso. rewrite U3 in Hrest. apply (f_equal length) in Hrest.
    change (encode_all (numbered_requests (cg_first h) [])) with (@nil Z) in Hrest.
    rewrite length_app, c_enc_length, OMClientRequest_size in Hrest. simpl in Hrest. lia. }
  rewrite U3, numbered_cons in Hrest.
  change (encode_all (?a :: ?l)) with (c_enc a ++ encode_all l) in Hrest.
  apply Forall_cons in U1 as [[Hf Hfc] U1]. cbn [length] in U5.
  assert (m = mkOMClientRequest (cg_first h) f) as ->.
  { assert (c_ok (mkOMClientRequest (cg_first h) f)) as Hok.
    { split; [|exact Hf]. change (0 ≤ cg_first h < 2 ^ 64). lia. }
    pose proof (c_dec_enc m rest Hm) as E1. rewrite <-Hrest, c_dec_enc in E1 by done.
    by injection E1. }
  eexists _, (mkClientGhost (cg_queued h) (cg_buffered h) W (cg_first h + 1) (cg_coming h)
    (cg_read h) (cg_updates h) (cg_handled h) (cg_rest h) (cg_done h)).
  split; [reflexivity|]. split; [|done]. split; wsimpl; [done|done|by destruct Htr| | | | |done].
  - split; wsimpl; [done|lia| | | |done].
    + rewrite U3, numbered_cons.
      change (encode_all (?a :: ?l)) with (c_enc a ++ encode_all l).
      by rewrite drop_app_length' by by rewrite c_enc_length.
    + rewrite U4. cbn [length]. do 2 f_equal. lia.
    + rewrite U5. lia.
  - by destruct Hdn.
  - by split.
  - by rewrite <-app_assoc.
Qed.

Lemma works_keeps w h i : client_inv w h →
  ∃ w', client_turn w (ExchangeWorks i) = Ok w' ∧ client_inv w' h.
Proof.
  intros Hinv. cbn [client_turn]. eexists. split; [reflexivity|].
  destruct (cw_pending w !! i) as [f|] eqn:E; [|done].
  destruct Hinv as [Hco Hsz Htr Hup Hdn Hfd Hord Hdone].
  split; wsimpl; [done|done|by destruct Htr|by destruct Hup|by destruct Hdn|by destruct Hfd| |done].
  rewrite <-(take_drop_middle _ _ _ E), <-app_assoc in Hord.
  rewrite delete_take_drop, <-app_assoc. by apply (in_flight_take _ f).
Qed.

Lemma answers_keeps w h r X :
  client_inv w h → turn_allowed client_id w (ExchangeAnswers r X) →
  ∃ w' h', client_turn w (ExchangeAnswers r X) = Ok w' ∧ client_inv w' h' ∧
    cg_handled h' = cg_handled h.
Proof.
  intros [Hco Hsz Htr Hup [D1 D2 D3 D4 D5 D6 D7 D8 D9 D10] Hfd Hord Hdone] (Ho & Ha & Hc & Hok & Hlt).
  assert (ME_MAX_CLIENT_UPDATES < 2 ^ 62) as Hsmall by (by vm_compute).
  set (m := mkOMClientResponse (cw_answered w + 1) r).
  eexists _, (mkClientGhost (cg_queued h) (cg_buffered h) (cg_wire h) (cg_first h)
    (cg_coming h ++ [m]) (cg_read h) (cg_updates h) (cg_handled h) (cg_rest h) (cg_done h)).
  split; [reflexivity|]. split; [|done]. split; wsimpl; [done|done|by destruct Htr| | | | |].
  - by destruct Hup.
  - split; wsimpl; try done.
    + apply Forall_app. split; [done|]. constructor; [|done].
      split; [|exact Hok]. change (0 ≤ Z.of_nat (length (cw_answers w)) + 1 < 2 ^ 64). lia.
    + apply Forall_app. split; [done|]. by constructor.
    + rewrite encode_all_app, D4, <-app_assoc.
      unfold encode_all at 1. cbn [fmap list_fmap concat]. by rewrite app_nil_r.
    + rewrite fmap_app, D7, length_app. cbn [length fmap list_fmap].
      rewrite Nat2Z.inj_add, seqZ_app by lia. f_equal.
      change (seqZ ?k (Z.of_nat 1)) with [0 + k]. unfold m. cbn [omrs_seq_num]. f_equal. lia.
    + rewrite !length_app. cbn [length]. lia.
    + rewrite length_app. cbn [length]. lia.
  - by destruct Hfd.
  - rewrite fmap_app, (app_assoc (cg_read h)).
    by apply (in_flight_answer _ _ _ (cw_resting w)).
  - by rewrite Hdone, fmap_app, <-!app_assoc.
Qed.

Lemma client_turn_keeps w h t :
  client_inv w h → turn_allowed client_id w t →
  ∃ w' h', client_turn w t = Ok w' ∧ client_inv w' h'.
Proof.
  intros Hinv Hok. destruct t as [|chunk takes|n|m|i|r X].
  - destruct (trade_turn_keeps w h Hinv) as (x' & rest' & new & Hrun & Hi).
    eexists _, _. split; [|exact Hi]. cbn [client_turn]. by rewrite Hrun.
  - destruct (gateway_turn_keeps w h chunk takes Hinv Hok) as (w' & ms1 & ms2 & Hrun & Hi).
    by eexists w', _.
  - destruct (consumer_turn_keeps w h n Hinv) as (w' & Hrun & Hi). by eexists w', _.
  - destruct (takes_keeps w h m Hinv Hok) as (w' & h' & Hrun & Hi & _). by exists w', h'.
  - destruct (works_keeps w h i Hinv) as (w' & Hrun & Hi). by exists w', h.
  - destruct (answers_keeps w h r X Hinv Hok) as (w' & h' & Hrun & Hi & _). by exists w', h'.
Qed.

Lemma client_reachable_inv w0 h0 w :
  client_inv w0 h0 → client_reachable client_id w0 w → ∃ h, client_inv w h.
Proof.
  intros H0. induction 1 as [|w t w' _ [h Hinv] Hok Hrun]; [by exists h0|].
  destruct (client_turn_keeps w h t Hinv Hok) as (w2 & h' & Hrun2 & Hi).
  exists h'. by assert (w' = w2) as -> by congruence.
Qed.
End Turns.
End Invariant.

(** ** The position when every answer has been read *)
Definition within (L P : TickerId → Z) (rest : TickerId → Side.t → option Qty) : Prop :=
  ∀ t, 0 ≤ t < ME_MAX_TICKERS → Z.abs (P t) ≤ L t ∧
    ∀ s q, s = Side.BUY ∨ s = Side.SELL → rest t s = Some q →
      0 ≤ q ∧ Z.abs (P t + sideToValue s * q) ≤ L t.

Lemma answers_within L P rest r rest' :
  ours r → answers rest r rest' → within L P rest → within L (λ t, P t + fill_of t r) rest'.
Proof.
  intros [Hrt Hrs] Ha Hw t Ht. destruct (Hw t Ht) as [HP Hq]. unfold fill_of.
  destruct Ha as [q E Hr|q E Hr Hx Hl Hp|q E Hr|E]; rewrite E.
  - rewrite decide_False, Z.add_0_r by (by intros [? _]). by split.
  - rewrite E in Hrs. specialize (Hrs ltac:(done)). destruct (decide (rs_ticker_id r = t)) as [<-|Hne].
    2: { rewrite decide_False, Z.add_0_r by (by intros [_ ?]). split; [done|].
      intros s q' Hs. unfold set_rest. rewrite decide_False by (by intros [? _]). by apply Hq. }
    rewrite decide_True by done. destruct (Hq _ q Hrs Hr) as [Hq0 Hb]. split.
    { destruct Hrs as [Es|Es]; rewrite Es in *; cbn [sideToValue] in *; lia. }
    intros s q' Hs. unfold set_rest. destruct (decide (rs_side r = s)) as [<-|Hns].
    + rewrite decide_True by done. destruct (_ =? 0); [done|]. intros [= <-].
      destruct Hrs as [Es|Es]; rewrite Es in *; cbn [sideToValue] in *; lia.
    + rewrite decide_False by (by intros [_ ?]). intros Hr'. destruct (Hq s q' Hs Hr').
      destruct Hrs as [Es|Es], Hs as [Es'|Es']; rewrite Es, Es' in *; cbn [sideToValue] in *;
        (done || lia).
  - rewrite decide_False, Z.add_0_r by (by intros [? _]). split; [done|].
    intros s q' Hs. unfold set_rest. case_decide; [done|]. by apply Hq.
  - rewrite decide_False, Z.add_0_r by (by intros [? _]). by split.
Qed.

Lemma settles_within L G : ∀ P rest X,
  settles rest G X → within L P rest → within L (λ t, P t + fills t G) X.
Proof.
  induction G as [|r G IH]; intros P rest X Hs Hw; inversion Hs; subst.
  - intros t Ht. destruct (Hw t Ht) as [HP Hq]. unfold fills. cbn [fmap list_fmap sumZ foldr].
    rewrite Z.add_0_r. split; [done|]. intros s q Hs' HX. apply Hq; [done|]. by rewrite H.
  - intros t Ht.
    destruct (IH _ _ _ H4 (answers_within _ _ _ _ _ H1 H2 Hw) t Ht) as [H5 H6].
    unfold fills in *. rewrite fmap_cons, sumZ_cons. rewrite <-Z.add_assoc in H5, H6.
    split; [exact H5|exact H6].
Qed.

(** ** What can be said of the client at any time *)
Definition answers_under_way (w : ClientWorld) (G : list MEClientResponse) : Prop :=
  ∃ R ms, G = R ++ (omrs_response <$> ms) ∧
    lfq_rep (te_responses (trade_engine (cw_client w))) R ∧
    encode_all ms = inbound_data_ (gw_tcp_socket_ (order_gateway (cw_client w))) ++ cw_downstream w.

Definition requests_under_way (w : ClientWorld) (F : list MEClientRequest) : Prop :=
  ∃ n Q3 Q2 Q1, F = cw_pending w ++ Q3 ++ Q2 ++ Q1 ∧
    cw_upstream w = encode_all (numbered_requests n Q3) ∧
    outbound_data_ (gw_tcp_socket_ (order_gateway (cw_client w))) =
      encode_all (numbered_requests (n + Z.of_nat (length Q3)) Q2) ∧
    lfq_rep (te_requests (trade_engine (cw_client w))) Q1.

Definition position_at (w : ClientWorld) (t : TickerId) : Z :=
  position_ (arr_get (te_position_keeper (trade_engine (cw_client w))) t).

(** The client as [main] starts it. *)
Record client_setup (client_id : ClientId) (algo : AlgoType.t) (cfgs : TradeEngineCfgHashMap)
    (garbage : TickerId → arr double) (inc_fd : Z) : Prop := {
  st_algo : algo = AlgoType.MAKER ∨ algo = AlgoType.TAKER;
  st_cfgs : te_cfgs_ok cfgs;
  st_garbage : ∀ i, vwap_ok (garbage i);
  st_client : 0 ≤ client_id < 2 ^ 32;
  st_fd : 0 ≤ inc_fd
}.

Section Runs.
Context (client_id : ClientId) (algo : AlgoType.t) (cfgs : TradeEngineCfgHashMap).
Context (garbage : TickerId → arr double) (inc_fd : Z) (feed : list MEMarketUpdate).
Context (Hsetup : client_setup client_id algo cfgs garbage inc_fd) (Hfits : feed_fits feed).

Definition client_start : ClientWorld :=
  ClientWorld_new (TradingClient_new client_id algo cfgs garbage inc_fd) feed.

Lemma client_started w :
  client_reachable client_id client_start w → ∃ h, client_inv client_id cfgs feed w h.
Proof.
  apply (client_reachable_inv client_id cfgs feed Hfits client_start
    (mkClientGhost [] [] [] 1 [] [] [] [] (λ _ _, None) [])).
  destruct Hsetup. by apply client_inv_new.
Qed.

Lemma inv_within w h : client_inv client_id cfgs feed w h →
  within (limit cfgs)
    (λ t, position_at w t + fills t (cg_read h ++ (omrs_response <$> cg_coming h)))
    (place (cw_resting w) (cw_pending w ++ cg_wire h ++ cg_buffered h ++ cg_queued h)).
Proof.
  intros [_ _ [_ Hcfg [[_ _ _ [_ _ _ Hp Hr] _] _ _] _] _ _ _ [Hs _] _]. rewrite Hcfg in Hp, Hr.
  apply (settles_within _ _ _ _ _ Hs). intros t Ht. split; [by apply Hp|].
  intros s q Hs' Hq. destruct (Hr t s q Ht Hs' Hq) as (_ & H1 & H2). split; [lia|exact H2].
Qed.
End Runs.

(** ** A demonstration: the maker quotes, and its bid is filled in part *)
Definition after (w : ClientWorld) (t : ClientTurn) : ClientWorld :=
  match client_turn w t with Ok w' => w' | Err _ => w end.

Lemma client_reach_after client_id w0 w t :
  client_reachable client_id w0 w → turn_allowed client_id w t → is_ok (client_turn w t) = true →
  client_reachable client_id w0 (after w t).
Proof.
  intros Hw Ht Hok. eapply cl_turn; [exact Hw|exact Ht|]. unfold after.
  by destruct (client_turn w t).
Qed.

Definition demo_start : ClientWorld :=
  client_start 1 AlgoType.MAKER limit_cfgs (λ _, arr_new side_count d_zero) 3 turn_feed.
Definition demo_sent : ClientWorld :=
  after (after (after (after demo_start (ConsumerTurn 5)) TradeTurn) (GatewayTurn None 0))
    (GatewayTurn None 76).
Definition demo_bid : OMClientRequest :=
  mkOMClientRequest 1 (mkMEClientRequest ClientRequestType.NEW 1 0 1 Side.BUY 100 10).
Definition demo_taken : ClientWorld := after (after demo_sent (ExchangeTakes demo_bid)) (ExchangeWorks 0).
Definition demo_fill : MEClientResponse :=
  mkMEClientResponse ClientResponseType.FILLED 1 0 1 7 Side.BUY 100 4 6.
Definition demo_world : ClientWorld :=
  after demo_taken (ExchangeAnswers demo_fill (set_rest (cw_resting demo_taken) 0 Side.BUY (Some 6))).

Lemma demo_setup :
  client_setup 1 AlgoType.MAKER limit_cfgs (λ _, arr_new side_count d_zero) 3.
Proof.
  split; [by left| |done|by vm_compute|by vm_compute]. split; [exact limit_cfgs_ok|].
  intros t _. unfold limit_cfgs. rewrite arr_get_new. by vm_compute.
Qed.

Lemma demo_fits : feed_fits turn_feed.
Proof.
  split; [apply (bool_decide_unpack _); by vm_compute| |by vm_compute].
  by repeat constructor.
Qed.

Lemma demo_taken_reachable : client_reachable 1 demo_start demo_taken.
Proof.
  assert (client_reachable 1 demo_start (after demo_start (ConsumerTurn 5))) as H1.
  { apply client_reach_after; [constructor|exact I|by vm_compute]. }
  assert (client_reachable 1 demo_start (after (after demo_start (ConsumerTurn 5)) TradeTurn)) as H2.
  { apply client_reach_after; [exact H1|exact I|by vm_compute]. }
  assert (client_reachable 1 demo_start
    (after (after (after demo_start (ConsumerTurn 5)) TradeTurn) (GatewayTurn None 0))) as H3.
  { apply client_reach_after; [exact H2| |by vm_compute]. split; [done|by vm_compute]. }
  assert (client_reachable 1 demo_start demo_sent) as H4.
  { apply client_reach_after; [exact H3| |by vm_compute]. split; [done|].
    apply (bool_decide_unpack _). by vm_compute. }
  apply client_reach_after; [|exact I|by vm_compute].
  apply client_reach_after; [exact H4| |by vm_compute]. split; [by vm_compute|].
  exists (drop 38 (cw_upstream demo_sent)). by vm_compute.
Qed.

Lemma client_demo_reachable : client_reachable 1 demo_start demo_world.
Proof.
  apply client_reach_after; [exact demo_taken_reachable| |by vm_compute].
  split; [by split; [|intros _; left]|]. split; [|by split_and!; vm_compute].
  apply (ans_filled _ demo_fill 10); by vm_compute.
Qed.

(** ** Theorems *)

(** No thread of the trading client ever faults, in whatever order the threads take their
    turns, TCP cuts the stream of answers, the feed's datagrams come in and the exchange
    takes requests and answers them. *)
Theorem client_never_faults client_id algo cfgs garbage inc_fd feed w t :
  client_setup client_id algo cfgs garbage inc_fd → feed_fits feed →
  client_reachable client_id (client_start client_id algo cfgs garbage inc_fd feed) w →
  turn_allowed client_id w t → ∃ w', client_turn w t = Ok w'.
Proof.
  intros Hsetup Hfits Hw Hok.
  destruct (client_started _ _ _ _ _ _ Hsetup Hfits w Hw) as [h Hinv].
  destruct (client_turn_keeps _ _ _ Hfits w h t Hinv Hok) as (w' & _ & Hrun & _). by exists w'.
Qed.

(** The gateway reads the answer in two pieces; this is the first. *)
Lemma client_never_faults_witness :
  ∃ w', client_turn demo_world (GatewayTurn (Some (take 20 (cw_downstream demo_world))) 0) = Ok w'.
Proof.
  apply (client_never_faults 1 AlgoType.MAKER limit_cfgs (λ _, arr_new side_count d_zero) 3 turn_feed).
  - exact demo_setup.
  - exact demo_fits.
  - exact client_demo_reachable.
  - split; [|apply (bool_decide_unpack _); by vm_compute].
    intros b Hb. apply (inj Some) in Hb. subst b. split; [by vm_compute|].
    split; [|by vm_compute].
    exists (drop 20 (cw_downstream demo_world)). by rewrite take_drop.
Defined.

(** C13: The position is the sum of the fills read so far and stays within the configured
    limit although the client and the exchange see every order at different times: now, when
    all answers on their way have been read, and if any order that the exchange holds, or
    that is on its way to it, is then filled completely. *)
Theorem client_within_limits client_id algo cfgs garbage inc_fd feed w :
  client_setup client_id algo cfgs garbage inc_fd → feed_fits feed →
  client_reachable client_id (client_start client_id algo cfgs garbage inc_fd feed) w →
  ∃ D G F, cw_answers w = D ++ G ∧ answers_under_way w G ∧ requests_under_way w F ∧
    ∀ t, 0 ≤ t < ME_MAX_TICKERS →
      position_at w t = fills t D ∧ Z.abs (position_at w t) ≤ limit cfgs t ∧
      Z.abs (position_at w t + fills t G) ≤ limit cfgs t ∧
      ∀ s q, s = Side.BUY ∨ s = Side.SELL → place (cw_resting w) F t s = Some q →
        Z.abs (position_at w t + fills t G + sideToValue s * q) ≤ limit cfgs t.
Proof.
  intros Hsetup Hfits Hw. destruct (client_started _ _ _ _ _ _ Hsetup Hfits w Hw) as [h Hinv].
  pose proof (inv_within _ _ _ w h Hinv) as Hin.
  destruct Hinv as [_ _ [_ Hcfg Hrep [Q1 Q2 _] Hpos] [_ _ U3 U4 _ _] [_ _ _ D4 _ _ _ _ _ _] _ _ Hans].
  eexists _, _, _. split; [exact Hans|]. split; [by eexists _, _|]. split; [by eexists _, _, _, _|].
  intros t Ht. destruct (Hin t Ht) as [H1 H2]. split; [apply Hpos|].
  split; [rewrite <-Hcfg; by apply (wi_pos _ _ (tc_world _ _ (tr_core _ _ _ Hrep)))|].
  split; [exact H1|]. intros s q Hs Hq. by apply (H2 s q Hs Hq).
Qed.

Lemma client_within_limits_witness :
  ∃ D G, cw_answers demo_world = D ++ G ∧ answers_under_way demo_world G ∧
    position_at demo_world 0 = fills 0 D ∧ Z.abs (position_at demo_world 0 + fills 0 G) ≤ 15.
Proof.
  assert (0 ≤ 0 < ME_MAX_TICKERS) as H0 by (by vm_compute).
  assert (limit limit_cfgs 0 = 15) as E by (by vm_compute). rewrite <-E.
  destruct (client_within_limits 1 AlgoType.MAKER limit_cfgs (λ _, arr_new side_count d_zero) 3
    turn_feed demo_world) as (D & G & F & HD & HG & _ & H).
  - exact demo_setup.
  - exact demo_fits.
  - exact client_demo_reachable.
  - destruct (H 0 H0) as (H1 & _ & H2 & _). exists D, G.
    split; [exact HD|]. split; [exact HG|]. split; [exact H1|exact H2].
Defined.

(** C14: The client's books follow the feed: after whatever part of it the trade engine has
    handled, every book is the one that part describes, with its best bid and offer; the
    rest is in the queue or still to come, in order. *)
Theorem client_follows_feed client_id algo cfgs garbage inc_fd feed w :
  client_setup client_id algo cfgs garbage inc_fd → feed_fits feed →
  client_reachable client_id (client_start client_id algo cfgs garbage inc_fd feed) w →
  ∃ handled waiting, feed = handled ++ waiting ++ cw_feed w ∧
    lfq_rep (te_md_updates (trade_engine (cw_client w))) waiting ∧
    ∀ t, 0 ≤ t < ME_MAX_TICKERS →
      let book := arr_get (te_order_book (trade_engine (cw_client w))) t in
      mk_refines book (foldl feed_step feed_new handled t).1 ∧
      getBBO book = (foldl feed_step feed_new handled t).2.
Proof.
  intros Hsetup Hfits Hw. destruct (client_started _ _ _ _ _ _ Hsetup Hfits w Hw) as [h Hinv].
  destruct Hinv as [_ _ [_ _ Hrep [_ _ Q3] _] _ _ [F1 _ _] _ _].
  exists (cg_handled h), (cg_updates h). split; [done|]. split; [done|]. apply Hrep.
Qed.

Lemma client_follows_feed_witness :
  ∃ handled waiting, turn_feed = handled ++ waiting ++ cw_feed demo_world ∧
    getBBO (arr_get (te_order_book (trade_engine (cw_client demo_world))) 0) =
      (foldl feed_step feed_new handled 0).2.
Proof.
  assert (0 ≤ 0 < ME_MAX_TICKERS) as H0 by (by vm_compute).
  destruct (client_follows_feed 1 AlgoType.MAKER limit_cfgs (λ _, arr_new side_count d_zero) 3
    turn_feed demo_world) as (handled & waiting & Hf & _ & H).
  - exact demo_setup.
  - exact demo_fits.
  - exact client_demo_reachable.
  - exists handled, waiting. split; [exact Hf|]. destruct (H 0 H0) as [_ H1]. exact H1.
Defined.
