(* ===== verification/Text.v ===== *)
(** * Text: the strings the program prints

    [std::to_string], [operator<<] on integers and doubles, the [%3s]-style padding of
    [sprintf], and what makes printed fields readable: a field made of word characters ends
    at the first character that is none. *)
From S2P Require Import Prelude Double.
From stdpp Require Export strings pretty.
From Stdlib Require Import Ascii SpecFloat.

#[global] Open Scope Z_scope.

#[local] Arguments String.append !_ _ / : simpl nomatch.

(** ** Words *)
Definition word_char (c : ascii) : bool :=
  let n := N_of_ascii c in
  ((48 <=? n) && (n <=? 57) || (65 <=? n) && (n <=? 90) || (n =? 45) || (n =? 95))%N.

Fixpoint word (s : string) : bool :=
  match s with
  | EmptyString => true
  | String c s => word_char c && word s
  end.

Section Words.
Implicit Types (s t u v : string) (c : ascii).

Lemma word_app s t : word (s +:+ t) = word s && word t.
Proof. induction s as [|c s IH]; simpl; [done|]. rewrite <-andb_assoc. f_equal. exact IH. Qed.

(** A printed field can be read back: it ends at the separator. *)
Lemma word_sep_inj c u v s t :
  word u = true → word v = true → word_char c = false →
  u +:+ String c s = v +:+ String c t → u = v ∧ s = t.
Proof.
  intros Hu Hv Hc. revert v Hv. induction u as [|a u IH]; intros [|b v] Hv H; simpl in *.
  - by injection H.
  - injection H as -> _. by rewrite Hc in Hv.
  - injection H as -> _. by rewrite Hc in Hu.
  - injection H as -> H. apply andb_true_iff in Hu as [_ Hu], Hv as [_ Hv].
    by destruct (IH Hu v Hv H) as [-> ->].
Qed.

Lemma word_label_inj c l u v s t :
  word u = true → word v = true → word_char c = false →
  u +:+ String c l +:+ s = v +:+ String c l +:+ t → u = v ∧ s = t.
Proof.
  intros Hu Hv Hc H. apply word_sep_inj in H as [-> H]; [|done..].
  by apply (inj (String.append l)) in H.
Qed.

Lemma string_app_assoc s t u : (s +:+ t) +:+ u = s +:+ (t +:+ u).
Proof. induction s as [|c s IH]; simpl; [done|]. f_equal. exact IH. Qed.
Lemma string_app_nil s : s +:+ "" = s.
Proof. induction s as [|c s IH]; simpl; [done|]. f_equal. exact IH. Qed.
Lemma string_app_length s t : String.length (s +:+ t) = (String.length s + String.length t)%nat.
Proof. induction s as [|c s IH]; simpl; [done|]. f_equal. exact IH. Qed.
End Words.

(** ** Integers *)

(** [std::to_string(z)], and [operator<<] of an integer. *)
Definition to_string (z : Z) : string := pretty z.

Lemma pretty_N_char_word n : word_char (pretty_N_char n) = true.
Proof. unfold pretty_N_char. by repeat case_match. Qed.

(** The digits go in front of the accumulator, and there are at most [k] of a number below
    [10 ^ k]. *)
Lemma pretty_N_go_spec n s :
  ∃ d, pretty_N_go n s = d +:+ s ∧ word d = true ∧
    ∀ k, (n < 10 ^ k)%N → (N.of_nat (String.length d) ≤ k)%N.
Proof.
  revert s. induction (N.lt_wf_0 n) as [n _ IH]; intros s.
  destruct (decide (n = 0%N)) as [->|Hn].
  { exists ""%string. rewrite pretty_N_go_0. split; [done|]. split; [done|]. simpl. lia. }
  rewrite pretty_N_go_step by lia.
  destruct (IH (n `div` 10)%N ltac:(apply N.div_lt; lia)
    (String (pretty_N_char (n `mod` 10)) s)) as (d & -> & Hd & Hlen).
  exists (d +:+ String (pretty_N_char (n `mod` 10)) EmptyString). split_and!.
  - by rewrite string_app_assoc.
  - rewrite word_app, Hd. simpl. by rewrite pretty_N_char_word.
  - intros k Hk. destruct (decide (k = 0%N)) as [->|Hk0]; [simpl in Hk; lia|].
    rewrite string_app_length. simpl. specialize (Hlen (k - 1)%N).
    enough (n `div` 10 < 10 ^ (k - 1))%N as H%Hlen by lia.
    apply N.Div0.div_lt_upper_bound. rewrite <-N.pow_succ_r'. by replace (N.succ (k - 1)) with k by lia.
Qed.

Lemma to_string_word z : word (to_string z) = true.
Proof.
  assert (∀ p : positive, word (pretty p) = true) as Hp.
  { intros p. destruct (pretty_N_go_spec (Npos p) "") as (d & E & Hd & _).
    unfold pretty, pretty_positive, pretty, pretty_N. simpl. rewrite E, word_app, Hd. done. }
  destruct z as [|p|p]; [done|apply Hp|]. change (word ("-" +:+ pretty p) = true).
  by rewrite word_app, Hp.
Qed.

(** The decimal digits of a 64-bit number fit 20 characters, sign included. *)
Lemma to_string_length z :
  - 2 ^ 63 ≤ z < 2 ^ 64 → (String.length (to_string z) ≤ 20)%nat.
Proof.
  assert (∀ (p : positive) k, (Npos p < 10 ^ k)%N → (N.of_nat (String.length (pretty p)) ≤ k)%N) as Hp.
  { intros p k Hk. destruct (pretty_N_go_spec (Npos p) "") as (d & E & _ & Hlen).
    unfold pretty, pretty_positive, pretty, pretty_N. simpl. rewrite E, string_app_nil.
    by apply Hlen. }
  intros Hz. destruct z as [|p|p].
  - simpl. lia.
  - specialize (Hp p 20%N ltac:(lia)). unfold to_string, pretty, pretty_Z. lia.
  - specialize (Hp p 19%N ltac:(lia)).
    change (to_string (Z.neg p)) with ("-" +:+ pretty p). rewrite string_app_length. simpl. lia.
Qed.

#[export] Instance to_string_inj : Inj (=) (=) to_string.
Proof. apply pretty_Z_inj. Qed.

(** No number is printed like a word that starts with a letter. *)
Lemma to_string_not_letter z c s : (65 <=? N_of_ascii c)%N = true → to_string z ≠ String c s.
Proof.
  assert (∀ n, (N_of_ascii (pretty_N_char n) < 65)%N) as Hc.
  { intros n. unfold pretty_N_char. by repeat case_match. }
  assert (∀ n acc c s, (∀ a t, acc = String a t → (N_of_ascii a < 65)%N) → acc ≠ EmptyString →
    (65 <=? N_of_ascii c)%N = true → pretty_N_go n acc ≠ String c s) as Hgo.
  { intros n. induction (N.lt_wf_0 n) as [n _ IH]; intros acc a t Hacc Hne Ha.
    destruct (decide (n = 0%N)) as [->|Hn].
    - rewrite pretty_N_go_0. intros E. apply Hacc in E. apply N.leb_le in Ha. lia.
    - rewrite pretty_N_go_step by lia. apply IH; [apply N.div_lt; lia| |done|done].
      intros a' t' [= <- _]. by apply Hc. }
  intros Ha. destruct z as [|p|p].
  - intros [= <- _]. done.
  - unfold to_string, pretty, pretty_Z, pretty, pretty_positive, pretty, pretty_N. simpl.
    rewrite pretty_N_go_step by lia. apply Hgo; [|done|done]. intros a t [= <- _]. by apply Hc.
  - change (to_string (Z.neg p)) with ("-" +:+ pretty p). intros [= <- _]. done.
Qed.

(** ** Padding: [%ns] and [%-ns] *)
Fixpoint chars (n : nat) (c : ascii) : string :=
  match n with O => EmptyString | S n => String c (chars n c) end.
Definition pad_left (n : nat) (s : string) : string :=
  chars (n - String.length s) " " +:+ s.
Definition pad_right (n : nat) (s : string) : string :=
  s +:+ chars (n - String.length s) " ".

Lemma chars_length n c : String.length (chars n c) = n.
Proof. induction n as [|n IH]; simpl; [done|]. by f_equal. Qed.
Lemma pad_left_length n s : String.length (pad_left n s) = Nat.max n (String.length s).
Proof. unfold pad_left. rewrite string_app_length, chars_length. lia. Qed.
Lemma pad_right_length n s : String.length (pad_right n s) = Nat.max n (String.length s).
Proof. unfold pad_right. rewrite string_app_length, chars_length. lia. Qed.

(** The line feed that [std::endl] writes. *)
Definition endl : string := String (ascii_of_nat 10) EmptyString.

(** ** Doubles: [operator<<] with the stream's default format, which is [%g]

    Six significant digits, trailing zeros removed, an exponent below 1e-4 and from 1e6 on. *)
Section ShowDouble.
Implicit Types (n d q x : Z) (k : nat).

(** [10 ^ e <= n / d]. *)
Definition pow10_le n d (e : Z) : bool :=
  d * 10 ^ Z.max 0 e <=? n * 10 ^ Z.max 0 (- e).

(** The exponent of the first decimal digit of [n / d]. *)
Definition exponent10 n d : Z :=
  let e := Z.of_nat (String.length (to_string n)) - Z.of_nat (String.length (to_string d)) in
  if pow10_le n d e then e else e - 1.

(** To the nearest integer, ties to even. *)
Definition round_even n d : Z :=
  let q := n / d in
  match Z.compare (2 * (n mod d)) d with
  | Lt => q
  | Gt => q + 1
  | Eq => if Z.even q then q else q + 1
  end.

(** The six digits, as a number, and the exponent of the first one. *)
Definition six_digits n d : Z * Z :=
  let x := exponent10 n d in
  let q := round_even (n * 10 ^ Z.max 0 (5 - x)) (d * 10 ^ Z.max 0 (x - 5)) in
  if q =? 10 ^ 6 then (10 ^ 5, x + 1) else (q, x).

(** Drop up to [k] trailing zeros. *)
Fixpoint strip_zeros k q : nat * Z :=
  match k with
  | O => (O, q)
  | S k' => if q mod 10 =? 0 then strip_zeros k' (q / 10) else (k, q)
  end.

Definition zero_padded k q : string :=
  chars (k - String.length (to_string q)) "0" +:+ to_string q.

(** [q] with its last [k] digits after the point. *)
Definition with_point k q : string :=
  let '(k, q) := strip_zeros k q in
  match k with
  | O => to_string q
  | _ => to_string (q / 10 ^ Z.of_nat k) +:+ "." +:+ zero_padded k (q mod 10 ^ Z.of_nat k)
  end.

Definition show_positive n d : string :=
  let '(q, x) := six_digits n d in
  if (-4 <=? x) && (x <? 6) then with_point (Z.to_nat (5 - x)) q
  else with_point 5 q +:+ "e" +:+ (if x <? 0 then "-" else "+") +:+ zero_padded 2 (Z.abs x).

Definition sign_string (s : bool) : string := if s then "-" else "".

Definition show_double (x : double) : string :=
  match x with
  | S754_zero s => sign_string s +:+ "0"
  | S754_infinity s => sign_string s +:+ "inf"
  | S754_nan => "nan"
  | S754_finite s m e =>
      sign_string s +:+
      show_positive (Z.pos m * 2 ^ Z.max 0 e) (2 ^ Z.max 0 (- e))
  end.
End ShowDouble.

(** Rounding is to the nearest, and the six digits are six. *)
Lemma round_even_near n d : 0 < d → 2 * Z.abs (n - round_even n d * d) ≤ d.
Proof.
  intros Hd. pose proof (Z.div_mod n d ltac:(lia)) as E. pose proof (Z.mod_pos_bound n d Hd).
  unfold round_even. destruct (Z.compare_spec (2 * (n mod d)) d); [|nia..].
  destruct (Z.even _); nia.
Qed.

Example show_double_examples :
  show_double (d_of_Z 1500) = "1500"%string ∧
  show_double (d_div (d_of_Z (-1)) (d_of_Z 3)) = "-0.333333"%string ∧
  show_double (d_of_Z 123456789) = "1.23457e+08"%string ∧
  show_double (d_div (d_of_Z 1) (d_of_Z 65536)) = "1.52588e-05"%string ∧
  show_double (d_div (d_of_Z 5) (d_of_Z 2)) = "2.5"%string ∧
  show_double (d_div (d_of_Z 9999999) (d_of_Z 10)) = "1e+06"%string ∧
  show_double d_nan = "nan"%string.
Proof. by vm_compute. Qed.
