(* ===== verification/ToString.v ===== *)
(** * ToString: the texts of identifiers, enumerations and messages

    The [...ToString] functions and [toString] members of [common/types.h], of the message
    headers, of the order structures and of the strategy's state, and what the texts keep:
    two messages with the same text are the same message. *)
From S2P Require Import Prelude Types MemPool PriceLevels Double MEOrderBook MarketOrderBook.
From S2P Require Import PositionKeeper OrderManager Text.

(** ** Identifiers ([common/types.h]) *)
Definition orderIdToString (order_id : OrderId) : string :=
  if order_id =? OrderId_INVALID then "INVALID" else to_string order_id.
Definition tickerIdToString (ticker_id : TickerId) : string :=
  if ticker_id =? TickerId_INVALID then "INVALID" else to_string ticker_id.
Definition clientIdToString (client_id : ClientId) : string :=
  if client_id =? ClientId_INVALID then "INVALID" else to_string client_id.
Definition priceToString (price : Price) : string :=
  if price =? Price_INVALID then "INVALID" else to_string price.
Definition qtyToString (qty : Qty) : string :=
  if qty =? Qty_INVALID then "INVALID" else to_string qty.
Definition priorityToString (priority : Priority) : string :=
  if priority =? Priority_INVALID then "INVALID" else to_string priority.

(** ** Enumerations *)
Definition sideToString (side : Side.t) : string :=
  match side with
  | Side.BUY => "BUY"
  | Side.SELL => "SELL"
  | Side.INVALID => "INVALID"
  | Side.MAX => "MAX"
  end.

Definition algoTypeToString (type : AlgoType.t) : string :=
  match type with
  | AlgoType.RANDOM => "RANDOM"
  | AlgoType.MAKER => "MAKER"
  | AlgoType.TAKER => "TAKER"
  | AlgoType.INVALID => "INVALID"
  | AlgoType.MAX => "MAX"
  end.

(** The values the loop of [stringToAlgoType] goes through, from INVALID to MAX. *)
Definition algo_types : list AlgoType.t :=
  [AlgoType.INVALID; AlgoType.RANDOM; AlgoType.MAKER; AlgoType.TAKER; AlgoType.MAX].

Definition stringToAlgoType (str : string) : AlgoType.t :=
  match list_find (λ a, algoTypeToString a = str) algo_types with
  | Some (_, algo_type) => algo_type
  | None => AlgoType.INVALID
  end.

Definition clientRequestTypeToString (type : ClientRequestType.t) : string :=
  match type with
  | ClientRequestType.NEW => "NEW"
  | ClientRequestType.CANCEL => "CANCEL"
  | ClientRequestType.INVALID => "INVALID"
  end.

Definition clientResponseTypeToString (type : ClientResponseType.t) : string :=
  match type with
  | ClientResponseType.ACCEPTED => "ACCEPTED"
  | ClientResponseType.CANCELED => "CANCELED"
  | ClientResponseType.FILLED => "FILLED"
  | ClientResponseType.CANCEL_REJECTED => "CANCEL_REJECTED"
  | ClientResponseType.INVALID => "INVALID"
  end.

Definition marketUpdateTypeToString (type : MarketUpdateType.t) : string :=
  match type with
  | MarketUpdateType.CLEAR => "CLEAR"
  | MarketUpdateType.ADD => "ADD"
  | MarketUpdateType.MODIFY => "MODIFY"
  | MarketUpdateType.CANCEL => "CANCEL"
  | MarketUpdateType.TRADE => "TRADE"
  | MarketUpdateType.SNAPSHOT_START => "SNAPSHOT_START"
  | MarketUpdateType.SNAPSHOT_END => "SNAPSHOT_END"
  | MarketUpdateType.INVALID => "INVALID"
  end.

Definition OMOrderStateToString (side : OMOrderState.t) : string :=
  match side with
  | OMOrderState.PENDING_NEW => "PENDING_NEW"
  | OMOrderState.LIVE => "LIVE"
  | OMOrderState.PENDING_CANCEL => "PENDING_CANCEL"
  | OMOrderState.DEAD => "DEAD"
  | OMOrderState.INVALID => "INVALID"
  end.

Definition riskCheckResultToString (result : RiskCheckResult.t) : string :=
  match result with
  | RiskCheckResult.INVALID => "INVALID"
  | RiskCheckResult.ORDER_TOO_LARGE => "ORDER_TOO_LARGE"
  | RiskCheckResult.POSITION_TOO_LARGE => "POSITION_TOO_LARGE"
  | RiskCheckResult.LOSS_TOO_LARGE => "LOSS_TOO_LARGE"
  | RiskCheckResult.ALLOWED => "ALLOWED"
  end.

(** ** Messages *)
Definition MEClientRequest_toString (r : MEClientRequest) : string :=
  "MEClientRequest" +:+ " [" +:+
  "type:" +:+ clientRequestTypeToString (rq_type r) +:+
  " client:" +:+ clientIdToString (rq_client_id r) +:+
  " ticker:" +:+ tickerIdToString (rq_ticker_id r) +:+
  " oid:" +:+ orderIdToString (rq_order_id r) +:+
  " side:" +:+ sideToString (rq_side r) +:+
  " qty:" +:+ qtyToString (rq_qty r) +:+
  " price:" +:+ priceToString (rq_price r) +:+
  "]".

Definition OMClientRequest_toString (m : OMClientRequest) : string :=
  "OMClientRequest" +:+ " [" +:+
  "seq:" +:+ to_string (omrq_seq_num m) +:+
  " " +:+ MEClientRequest_toString (omrq_request m) +:+
  "]".

Definition MEClientResponse_toString (r : MEClientResponse) : string :=
  "MEClientResponse" +:+ " [" +:+
  "type:" +:+ clientResponseTypeToString (rs_type r) +:+
  " client:" +:+ clientIdToString (rs_client_id r) +:+
  " ticker:" +:+ tickerIdToString (rs_ticker_id r) +:+
  " coid:" +:+ orderIdToString (rs_client_order_id r) +:+
  " moid:" +:+ orderIdToString (rs_market_order_id r) +:+
  " side:" +:+ sideToString (rs_side r) +:+
  " exec_qty:" +:+ qtyToString (rs_exec_qty r) +:+
  " leaves_qty:" +:+ qtyToString (rs_leaves_qty r) +:+
  " price:" +:+ priceToString (rs_price r) +:+
  "]".

Definition OMClientResponse_toString (m : OMClientResponse) : string :=
  "OMClientResponse" +:+ " [" +:+
  "seq:" +:+ to_string (omrs_seq_num m) +:+
  " " +:+ MEClientResponse_toString (omrs_response m) +:+
  "]".

Definition MEMarketUpdate_toString (u : MEMarketUpdate) : string :=
  "MEMarketUpdate" +:+ " [" +:+
  " type:" +:+ marketUpdateTypeToString (mu_type u) +:+
  " ticker:" +:+ tickerIdToString (mu_ticker_id u) +:+
  " oid:" +:+ orderIdToString (mu_order_id u) +:+
  " side:" +:+ sideToString (mu_side u) +:+
  " qty:" +:+ qtyToString (mu_qty u) +:+
  " price:" +:+ priceToString (mu_price u) +:+
  " priority:" +:+ priorityToString (mu_priority u) +:+
  "]".

Definition MDPMarketUpdate_toString (m : MDPMarketUpdate) : string :=
  "MDPMarketUpdate" +:+ " [" +:+
  " seq:" +:+ to_string (mdp_seq_num m) +:+
  " " +:+ MEMarketUpdate_toString (mdp_update m) +:+
  "]".

(** ** Order structures *)

(** The id printed for a link of an order: [p ? p->id : OrderId_INVALID]. *)
Definition link_id {A} (id : A → OrderId) (at_ : ptr → A) (p : option ptr) : string :=
  orderIdToString (match p with Some q => id (at_ q) | None => OrderId_INVALID end).

(** [MEOrder::toString], of an order of the memory [pl]. *)
Definition MEOrder_toString (pl : PriceLevels MEOrder) (o : MEOrder) : string :=
  "MEOrder" +:+ "[" +:+
  "ticker:" +:+ tickerIdToString (me_ticker_id o) +:+ " " +:+
  "cid:" +:+ clientIdToString (me_client_id o) +:+ " " +:+
  "oid:" +:+ orderIdToString (me_client_order_id o) +:+ " " +:+
  "moid:" +:+ orderIdToString (me_market_order_id o) +:+ " " +:+
  "side:" +:+ sideToString (me_side o) +:+ " " +:+
  "price:" +:+ priceToString (me_price o) +:+ " " +:+
  "qty:" +:+ qtyToString (me_qty o) +:+ " " +:+
  "prio:" +:+ priorityToString (me_priority o) +:+ " " +:+
  "prev:" +:+ link_id me_market_order_id (ord pl) (me_prev_order o) +:+ " " +:+
  "next:" +:+ link_id me_market_order_id (ord pl) (me_next_order o) +:+ "]".

Definition MarketOrder_toString (pl : PriceLevels MarketOrder) (o : MarketOrder) : string :=
  "MarketOrder" +:+ "[" +:+
  "oid:" +:+ orderIdToString (mo_order_id o) +:+ " " +:+
  "side:" +:+ sideToString (mo_side o) +:+ " " +:+
  "price:" +:+ priceToString (mo_price o) +:+ " " +:+
  "qty:" +:+ qtyToString (mo_qty o) +:+ " " +:+
  "prio:" +:+ priorityToString (mo_priority o) +:+ " " +:+
  "prev:" +:+ link_id mo_order_id (ord pl) (mo_prev_order o) +:+ " " +:+
  "next:" +:+ link_id mo_order_id (ord pl) (mo_next_order o) +:+ "]".

(** The price printed for a link of a level. *)
Definition link_price {T} (pl : PriceLevels T) (p : option ptr) : string :=
  priceToString (match p with Some q => oap_price (lvl pl q) | None => Price_INVALID end).

Definition MEOrdersAtPrice_toString (pl : PriceLevels MEOrder) (l : OrdersAtPrice) : string :=
  "MEOrdersAtPrice[" +:+
  "side:" +:+ sideToString (oap_side l) +:+ " " +:+
  "price:" +:+ priceToString (oap_price l) +:+ " " +:+
  "first_me_order:" +:+
    match oap_first l with
    | Some o => MEOrder_toString pl (ord pl o)
    | None => "null"
    end +:+ " " +:+
  "prev:" +:+ link_price pl (oap_prev l) +:+ " " +:+
  "next:" +:+ link_price pl (oap_next l) +:+ "]".

Definition MarketOrdersAtPrice_toString (pl : PriceLevels MarketOrder) (l : OrdersAtPrice)
  : string :=
  "MarketOrdersAtPrice[" +:+
  "side:" +:+ sideToString (oap_side l) +:+ " " +:+
  "price:" +:+ priceToString (oap_price l) +:+ " " +:+
  "first_mkt_order:" +:+
    match oap_first l with
    | Some o => MarketOrder_toString pl (ord pl o)
    | None => "null"
    end +:+ " " +:+
  "prev:" +:+ link_price pl (oap_prev l) +:+ " " +:+
  "next:" +:+ link_price pl (oap_next l) +:+ "]".

Definition BBO_toString (b : BBO) : string :=
  "BBO{" +:+
  qtyToString (bid_qty_ b) +:+ "@" +:+ priceToString (bid_price_ b) +:+
  "X" +:+
  priceToString (ask_price_ b) +:+ "@" +:+ qtyToString (ask_qty_ b) +:+
  "}".

(** ** The strategy's state *)
Definition OMOrder_toString (o : OMOrder) : string :=
  "OMOrder" +:+ "[" +:+
  "tid:" +:+ tickerIdToString (om_ticker_id o) +:+ " " +:+
  "oid:" +:+ orderIdToString (om_order_id o) +:+ " " +:+
  "side:" +:+ sideToString (om_side o) +:+ " " +:+
  "price:" +:+ priceToString (om_price o) +:+ " " +:+
  "qty:" +:+ qtyToString (om_qty o) +:+ " " +:+
  "state:" +:+ OMOrderStateToString (om_state o) +:+ "]".

Definition RiskCfg_toString (c : RiskCfg) : string :=
  "RiskCfg{" +:+
  "max-order-size:" +:+ qtyToString (max_order_size_ c) +:+ " " +:+
  "max-position:" +:+ qtyToString (max_position_ c) +:+ " " +:+
  "max-loss:" +:+ show_double (max_loss_ c) +:+
  "}".

Definition TradeEngineCfg_toString (c : TradeEngineCfg) : string :=
  "TradeEngineCfg{" +:+
  "clip:" +:+ qtyToString (clip_ c) +:+ " " +:+
  "thresh:" +:+ show_double (threshold_ c) +:+ " " +:+
  "risk:" +:+ RiskCfg_toString (risk_cfg_ c) +:+
  "}".

(** The average open price of a side: [position_ ? open_vwap_.at(i) / abs(position_) : 0]. *)
Definition open_price (p : PositionInfo) (side : Side.t) : Res double :=
  if position_ p =? 0 then Ok d_zero
  else
    vwap ← arr_at (open_vwap_ p) (sideToIndex side);
    abs ← std_abs (position_ p);
    Ok (d_div vwap (d_of_Z abs)).

(** [PositionInfo::toString], [bbos] being the summaries its pointer may point to. *)
Definition PositionInfo_toString (bbos : TickerId → BBO) (p : PositionInfo) : Res string :=
  buy ← open_price p Side.BUY;
  sell ← open_price p Side.SELL;
  Ok ("Position{" +:+
    "pos:" +:+ to_string (position_ p) +:+
    " u-pnl:" +:+ show_double (unreal_pnl_ p) +:+
    " r-pnl:" +:+ show_double (real_pnl_ p) +:+
    " t-pnl:" +:+ show_double (total_pnl_ p) +:+
    " vol:" +:+ qtyToString (volume_ p) +:+
    " vwaps:[" +:+ show_double buy +:+
    "X" +:+ show_double sell +:+
    "] " +:+
    match pi_bbo_ p with Some t => BBO_toString (bbos t) | None => "" end +:+ "}").

(** [RiskInfo::toString]. *)
Definition RiskInfo_toString (bbos : TickerId → BBO) (p : PositionInfo) (cfg : RiskCfg)
  : Res string :=
  pos ← PositionInfo_toString bbos p;
  Ok ("RiskInfo" +:+ "[" +:+ "pos:" +:+ pos +:+ " " +:+ RiskCfg_toString cfg +:+ "]").

(** The loop of [PositionKeeper::toString] from instrument [i] on, with [n] to go. *)
Fixpoint keeper_lines (bbos : TickerId → BBO) (pk : arr PositionInfo) (n : nat) (i : TickerId)
    (total_pnl : double) (total_vol : Qty) : Res (string * double * Qty) :=
  match n with
  | O => Ok (EmptyString, total_pnl, total_vol)
  | S n =>
      p ← arr_at pk i;
      line ← PositionInfo_toString bbos p;
      '(rest, total_pnl, total_vol) ← keeper_lines bbos pk n (i + 1)
        (d_add total_pnl (total_pnl_ p)) (u32 (total_vol + volume_ p));
      Ok ("TickerId:" +:+ tickerIdToString i +:+ " " +:+ line +:+ endl +:+ rest,
          total_pnl, total_vol)
  end.

Definition PositionKeeper_toString (bbos : TickerId → BBO) (pk : arr PositionInfo)
  : Res string :=
  '(lines, total_pnl, total_vol) ←
    keeper_lines bbos pk (Z.to_nat ME_MAX_TICKERS) 0 d_zero 0;
  Ok (lines +:+ "Total PnL:" +:+ show_double total_pnl +:+ " Vol:" +:+ to_string total_vol +:+
      endl).

(** ** The texts of fields are words, and tell their values apart *)

(** Every [...IdToString] is this function at its type's sentinel. *)
Definition sentinel_text (bad z : Z) : string :=
  if z =? bad then "INVALID" else to_string z.

Lemma sentinel_text_inj bad x y : sentinel_text bad x = sentinel_text bad y ↔ x = y.
Proof.
  split; [|by intros ->]. unfold sentinel_text.
  destruct (Z.eqb_spec x bad) as [->|Hx], (Z.eqb_spec y bad) as [->|Hy]; intros E; try done.
  - symmetry in E. by apply to_string_not_letter in E.
  - by apply to_string_not_letter in E.
  - by apply (inj to_string) in E.
Qed.
Lemma sentinel_text_word bad z : word (sentinel_text bad z) = true.
Proof. unfold sentinel_text. case_match; [done|apply to_string_word]. Qed.
Lemma sentinel_text_length bad z :
  - 2 ^ 63 ≤ z < 2 ^ 64 → (String.length (sentinel_text bad z) ≤ 20)%nat.
Proof. intros Hz. unfold sentinel_text. case_match; [simpl; lia|by apply to_string_length]. Qed.

Lemma orderIdToString_inj x y : orderIdToString x = orderIdToString y ↔ x = y.
Proof. apply (sentinel_text_inj OrderId_INVALID). Qed.
Lemma tickerIdToString_inj x y : tickerIdToString x = tickerIdToString y ↔ x = y.
Proof. apply (sentinel_text_inj TickerId_INVALID). Qed.
Lemma clientIdToString_inj x y : clientIdToString x = clientIdToString y ↔ x = y.
Proof. apply (sentinel_text_inj ClientId_INVALID). Qed.
Lemma priceToString_inj x y : priceToString x = priceToString y ↔ x = y.
Proof. apply (sentinel_text_inj Price_INVALID). Qed.
Lemma qtyToString_inj x y : qtyToString x = qtyToString y ↔ x = y.
Proof. apply (sentinel_text_inj Qty_INVALID). Qed.
Lemma priorityToString_inj x y : priorityToString x = priorityToString y ↔ x = y.
Proof. apply (sentinel_text_inj Priority_INVALID). Qed.

Lemma sideToString_inj s1 s2 : sideToString s1 = sideToString s2 ↔ s1 = s2.
Proof. by destruct s1, s2. Qed.
Lemma clientRequestTypeToString_inj t1 t2 :
  clientRequestTypeToString t1 = clientRequestTypeToString t2 ↔ t1 = t2.
Proof. by destruct t1, t2. Qed.
Lemma clientResponseTypeToString_inj t1 t2 :
  clientResponseTypeToString t1 = clientResponseTypeToString t2 ↔ t1 = t2.
Proof. by destruct t1, t2. Qed.
Lemma marketUpdateTypeToString_inj t1 t2 :
  marketUpdateTypeToString t1 = marketUpdateTypeToString t2 ↔ t1 = t2.
Proof. by destruct t1, t2. Qed.
Lemma algoTypeToString_inj t1 t2 : algoTypeToString t1 = algoTypeToString t2 ↔ t1 = t2.
Proof. by destruct t1, t2. Qed.

Lemma side_word s : word (sideToString s) = true.
Proof. by destruct s. Qed.
Lemma request_type_word t : word (clientRequestTypeToString t) = true.
Proof. by destruct t. Qed.
Lemma response_type_word t : word (clientResponseTypeToString t) = true.
Proof. by destruct t. Qed.
Lemma update_type_word t : word (marketUpdateTypeToString t) = true.
Proof. by destruct t. Qed.
Lemma orderIdToString_word x : word (orderIdToString x) = true.
Proof. apply (sentinel_text_word OrderId_INVALID). Qed.
Lemma tickerIdToString_word x : word (tickerIdToString x) = true.
Proof. apply (sentinel_text_word TickerId_INVALID). Qed.
Lemma clientIdToString_word x : word (clientIdToString x) = true.
Proof. apply (sentinel_text_word ClientId_INVALID). Qed.
Lemma priceToString_word x : word (priceToString x) = true.
Proof. apply (sentinel_text_word Price_INVALID). Qed.
Lemma qtyToString_word x : word (qtyToString x) = true.
Proof. apply (sentinel_text_word Qty_INVALID). Qed.
Lemma priorityToString_word x : word (priorityToString x) = true.
Proof. apply (sentinel_text_word Priority_INVALID). Qed.

Create HintDb text.
#[export] Hint Resolve to_string_word side_word request_type_word response_type_word
  update_type_word orderIdToString_word tickerIdToString_word clientIdToString_word
  priceToString_word qtyToString_word priorityToString_word : text.

(** Skip the title, the bracket and the first label of two equal texts, and read field after
    field off both. *)
Ltac fields H :=
  do 3 apply (inj (String.append _)) in H;
  repeat (let E := fresh "E" in
          apply word_label_inj in H as [E H]; [|auto with text|auto with text|reflexivity];
          first [apply orderIdToString_inj in E | apply tickerIdToString_inj in E
                | apply clientIdToString_inj in E | apply priceToString_inj in E
                | apply qtyToString_inj in E | apply priorityToString_inj in E
                | apply sideToString_inj in E | apply clientRequestTypeToString_inj in E
                | apply clientResponseTypeToString_inj in E
                | apply marketUpdateTypeToString_inj in E | apply (inj to_string) in E]).

(** A text that is followed by anything. *)
Lemma request_text_inj r1 r2 t1 t2 :
  MEClientRequest_toString r1 +:+ t1 = MEClientRequest_toString r2 +:+ t2 → r1 = r2 ∧ t1 = t2.
Proof.
  unfold MEClientRequest_toString. rewrite !string_app_assoc. intros H.
  fields H. destruct r1, r2; simpl in *. by simplify_eq.
Qed.

Lemma response_text_inj r1 r2 t1 t2 :
  MEClientResponse_toString r1 +:+ t1 = MEClientResponse_toString r2 +:+ t2 →
  r1 = r2 ∧ t1 = t2.
Proof.
  unfold MEClientResponse_toString. rewrite !string_app_assoc. intros H.
  fields H. destruct r1, r2; simpl in *. by simplify_eq.
Qed.

Lemma update_text_inj u1 u2 t1 t2 :
  MEMarketUpdate_toString u1 +:+ t1 = MEMarketUpdate_toString u2 +:+ t2 → u1 = u2 ∧ t1 = t2.
Proof.
  unfold MEMarketUpdate_toString. rewrite !string_app_assoc. intros H.
  fields H. destruct u1, u2; simpl in *. by simplify_eq.
Qed.

(** ** Theorems *)

(** A log line tells its message: two client requests, responses or market updates, with
    or without their sequence numbers, that print the same are the same, so every field of
    a message can be recovered from its text (the sentinels, printed INVALID, included). *)
Theorem log_text_determines_message :
  (∀ r1 r2, MEClientRequest_toString r1 = MEClientRequest_toString r2 ↔ r1 = r2) ∧
  (∀ r1 r2, OMClientRequest_toString r1 = OMClientRequest_toString r2 ↔ r1 = r2) ∧
  (∀ r1 r2, MEClientResponse_toString r1 = MEClientResponse_toString r2 ↔ r1 = r2) ∧
  (∀ r1 r2, OMClientResponse_toString r1 = OMClientResponse_toString r2 ↔ r1 = r2) ∧
  (∀ u1 u2, MEMarketUpdate_toString u1 = MEMarketUpdate_toString u2 ↔ u1 = u2) ∧
  (∀ u1 u2, MDPMarketUpdate_toString u1 = MDPMarketUpdate_toString u2 ↔ u1 = u2).
Proof.
  split_and!; intros x y; (split; [|by intros ->]); intros H.
  - apply (request_text_inj x y "" ""). by rewrite !string_app_nil.
  - unfold OMClientRequest_toString in H. do 3 apply (inj (String.append _)) in H.
    apply (word_label_inj _ "") in H as [E H]; [|auto with text..|done].
    apply (inj to_string) in E. apply request_text_inj in H as [H _].
    destruct x, y; simpl in *. by simplify_eq.
  - apply (response_text_inj x y "" ""). by rewrite !string_app_nil.
  - unfold OMClientResponse_toString in H. do 3 apply (inj (String.append _)) in H.
    apply (word_label_inj _ "") in H as [E H]; [|auto with text..|done].
    apply (inj to_string) in E. apply response_text_inj in H as [H _].
    destruct x, y; simpl in *. by simplify_eq.
  - apply (update_text_inj x y "" ""). by rewrite !string_app_nil.
  - unfold MDPMarketUpdate_toString in H. do 3 apply (inj (String.append _)) in H.
    apply (word_label_inj _ "") in H as [E H]; [|auto with text..|done].
    apply (inj to_string) in E. apply update_text_inj in H as [H _].
    destruct x, y; simpl in *. by simplify_eq.
Qed.

(** The names of the trading algorithms, as given on the command line: every algorithm
    type is read back from its name, and any other word is read as INVALID, which selects
    no algorithm. *)
Theorem algo_type_roundtrip :
  (∀ a, stringToAlgoType (algoTypeToString a) = a) ∧
  (∀ str, (∀ a, algoTypeToString a ≠ str) → stringToAlgoType str = AlgoType.INVALID).
Proof.
  split; [by intros []|]. intros str H. unfold stringToAlgoType.
  destruct (list_find _ _) as [[i a]|] eqn:E; [|done].
  apply list_find_Some in E as (_ & E & _). by destruct (H a).
Qed.
