(* ===== verification/CommandLine.v ===== *)
(** * CommandLine: what [main] of the trading program makes of its arguments

    [trading/trading_main.cpp]: the client id, the algorithm and up to eight groups of five
    numbers, read with [atoi] and [atof] of the C library.  [atoi] of a number that is no
    [int] is undefined, hence a fault here; [atof] is [strtod] in the C locale, which rounds
    correctly. *)
From S2P Require Import Prelude Types Wire Sockets LFQueue FIFOSequencer OrderServer OrderGateway.
From S2P Require Import OrderFlow SnapshotSynthesizer MarketDataPublisher MarketDataConsumer Recovery.
From S2P Require Import PriceLevels MarketOrderBook MarketBookSpec MarketBBO Double PositionKeeper.
From S2P Require Import OrderManager PositionLimit Strategies OrderFields TradeEngine TradeEngineSpec.
From S2P Require Import OrdersInFlight TradingClient ClientRun Text ToString.
From Stdlib Require Import Ascii SpecFloat.

#[local] Open Scope Z_scope.

(** ** Numbers of the C library *)

(** [isspace], and the value of a digit in bases up to 16. *)
Definition is_space (c : ascii) : bool :=
  let n := N_of_ascii c in (n =? 32)%N || ((9 <=? n) && (n <=? 13))%N.
Fixpoint skip_spaces (s : string) : string :=
  match s with
  | String c s' => if is_space c then skip_spaces s' else s
  | EmptyString => s
  end.
Definition lower (c : ascii) : ascii :=
  let n := N_of_ascii c in if ((65 <=? n) && (n <=? 90))%N then ascii_of_N (n + 32) else c.
Definition digit_value (c : ascii) : Z :=
  let n := Z.of_N (N_of_ascii (lower c)) in
  if (48 <=? n) && (n <=? 57) then n - 48 else if (97 <=? n) && (n <=? 102) then n - 87 else 16.

(** The digits in front of a string, and the rest. *)
Fixpoint take_digits (base : Z) (s : string) : list Z * string :=
  match s with
  | String c s' =>
      if digit_value c <? base then
        let '(ds, rest) := take_digits base s' in (digit_value c :: ds, rest)
      else ([], s)
  | EmptyString => ([], s)
  end.
Definition digits_value (base : Z) (ds : list Z) : Z := foldl (λ v d, base * v + d) 0 ds.

(** An optional sign; [true] is minus. *)
Definition take_sign (s : string) : bool * string :=
  match s with
  | String c s' => if decide (c = "-"%char) then (true, s')
                   else if decide (c = "+"%char) then (false, s') else (false, s)
  | EmptyString => (false, s)
  end.
Definition signed (neg : bool) (z : Z) : Z := if neg then - z else z.

Definition atoi (s : string) : Res Z :=
  let '(neg, s) := take_sign (skip_spaces s) in
  chk_i32 (signed neg (digits_value 10 (take_digits 10 s).1)).

(** Digits with a point: the digits, how many follow the point, and the rest. *)
Definition mantissa (base : Z) (s : string) : list Z * Z * string :=
  let '(whole, s) := take_digits base s in
  match s with
  | String c s' =>
      if decide (c = "."%char) then
        let '(part, s') := take_digits base s' in (whole ++ part, Z.of_nat (length part), s')
      else (whole, 0, s)
  | EmptyString => (whole, 0, s)
  end.
Definition exponent (mark : ascii) (s : string) : Z :=
  match s with
  | String c s =>
      if decide (lower c = mark) then
        let '(neg, s) := take_sign s in signed neg (digits_value 10 (take_digits 10 s).1)
      else 0
  | EmptyString => 0
  end.

(** [m * 10 ^ e] and [m * 2 ^ e], rounded. *)
Definition d_decimal (neg : bool) (m e : Z) : double :=
  if 0 <=? e then binary_normalize d_prec d_emax (signed neg (m * 10 ^ e)) 0 neg
  else match m with
       | Z.pos p => d_div (S754_finite neg p 0) (S754_finite false (Z.to_pos (10 ^ (- e))) 0)
       | _ => S754_zero neg
       end.
Definition d_binary (neg : bool) (m e : Z) : double :=
  binary_normalize d_prec d_emax (signed neg m) e neg.

(** A prefix of letters, in either case. *)
Fixpoint has_prefix (p s : string) : bool :=
  match p, s with
  | EmptyString, _ => true
  | String a p, String b s => bool_decide (a = lower b) && has_prefix p s
  | _, EmptyString => false
  end.

Definition atof (s : string) : double :=
  let '(neg, s) := take_sign (skip_spaces s) in
  let '(hex, hex_part, hex_rest) := mantissa 16 (String.substring 2 (String.length s) s) in
  let '(dec, dec_part, dec_rest) := mantissa 10 s in
  if has_prefix "0x" s && bool_decide (hex ≠ []) then
    d_binary neg (digits_value 16 hex) (exponent "p" hex_rest - 4 * hex_part)
  else if bool_decide (dec ≠ []) then
    d_decimal neg (digits_value 10 dec) (exponent "e" dec_rest - dec_part)
  else if has_prefix "inf" s then S754_infinity neg
  else if has_prefix "nan" s then d_nan
  else d_zero.

(** ** [main] *)

(** [argv[i]]; the entry after the last argument is the null pointer, which is then read. *)
Definition arg (argv : list string) (i : nat) : Res string := of_option NullDeref (argv !! i).

(** The group that starts at [argv[i]]. *)
Definition cfg_at (argv : list string) (i : nat) : Res TradeEngineCfg :=
  clip ← (arg argv i ≫= atoi);
  threshold ← arg argv (i + 1);
  max_order_size ← (arg argv (i + 2) ≫= atoi);
  max_position ← (arg argv (i + 3) ≫= atoi);
  max_loss ← arg argv (i + 4);
  Ok (mkTradeEngineCfg (u32 clip) (atof threshold)
        (mkRiskCfg (u32 max_order_size) (u32 max_position) (atof max_loss))).

(** The loop over the groups. *)
Fixpoint cfg_loop (fuel : nat) (argv : list string) (i : nat) (next_ticker_id : Z)
    (ticker_cfg : TradeEngineCfgHashMap) : Res TradeEngineCfgHashMap :=
  match fuel with
  | O => Err OutOfFuel
  | S fuel =>
      if (i <? length argv)%nat then
        cfg ← cfg_at argv i;
        ticker_cfg ← arr_at_set ticker_cfg next_ticker_id cfg;
        cfg_loop fuel argv (i + 5) (u64 (next_ticker_id + 1)) ticker_cfg
      else Ok ticker_cfg
  end.

(** A configuration as it is declared: all zero. *)
Definition TradeEngineCfg_new : TradeEngineCfg := mkTradeEngineCfg 0 d_zero (mkRiskCfg 0 0 d_zero).

Record Settings := mkSettings {
  set_client_id : ClientId;
  set_algo_type : AlgoType.t;
  set_ticker_cfg : TradeEngineCfgHashMap
}.

Definition command_line (argv : list string) : Res Settings :=
  if (length argv <? 3)%nat then FATAL
  else
    client_id ← (arg argv 1 ≫= atoi);
    algo ← arg argv 2;
    ticker_cfg ← cfg_loop (length argv) argv 3 0 (arr_new ME_MAX_TICKERS TradeEngineCfg_new);
    Ok (mkSettings (u32 client_id) (stringToAlgoType algo) ticker_cfg).

(** The client that [main] then makes. *)
Definition main_client (garbage : TickerId → arr double) (inc_fd : Z) (s : Settings) : TradingClient :=
  TradingClient_new (set_client_id s) (set_algo_type s) (set_ticker_cfg s) garbage inc_fd.

(** ** Reading what [std::to_string] prints *)
Lemma digit_value_char n : (n < 10)%N → digit_value (pretty_N_char n) = Z.of_N n.
Proof.
  intros Hn. destruct n as [|p]; [done|]. do 9 (destruct p as [p|p|]; try done; try lia).
Qed.

Lemma digits_value_snoc base ds d : digits_value base (ds ++ [d]) = base * digits_value base ds + d.
Proof. unfold digits_value. by rewrite foldl_app. Qed.

Lemma take_digits_go n : ∀ s, ∃ ds,
  take_digits 10 (pretty_N_go n s) = (ds ++ (take_digits 10 s).1, (take_digits 10 s).2) ∧
  digits_value 10 ds = Z.of_N n.
Proof.
  induction (N.lt_wf_0 n) as [n _ IH]; intros s. destruct (decide (n = 0%N)) as [->|Hn].
  { exists []. rewrite pretty_N_go_0. by destruct (take_digits 10 s). }
  rewrite pretty_N_go_step by lia.
  destruct (IH (n `div` 10)%N ltac:(apply N.div_lt; lia)
    (String (pretty_N_char (n `mod` 10)) s)) as (ds & -> & Hds).
  assert (n `mod` 10 < 10)%N as Hd by by apply N.mod_lt.
  exists (ds ++ [Z.of_N (n `mod` 10)]). split.
  - cbn [take_digits]. rewrite digit_value_char, (proj2 (Z.ltb_lt _ _)) by lia.
    destruct (take_digits 10 s) as [ds' rest]. by rewrite <-app_assoc.
  - rewrite digits_value_snoc, Hds. pose proof (N.div_mod n 10 ltac:(done)) as E. lia.
Qed.

Lemma take_digits_pretty (p : positive) : ∃ ds,
  take_digits 10 (pretty p) = (ds, EmptyString) ∧ digits_value 10 ds = Z.pos p.
Proof.
  destruct (take_digits_go (Npos p) "") as (ds & E & Hds). cbn in E. rewrite app_nil_r in E.
  by exists ds.
Qed.

(** A printed number starts with a digit. *)
Lemma pretty_first (p : positive) : ∃ c s, pretty p = String c s ∧ digit_value c < 10.
Proof.
  destruct (take_digits_pretty p) as (ds & E & Hds). destruct (pretty p) as [|c s].
  - injection E as <-. done.
  - exists c, s. split; [done|]. cbn [take_digits] in E.
    destruct (digit_value c <? 10) eqn:Ec; [lia|]. by injection E as <-.
Qed.

Lemma digit_plain c : digit_value c < 10 →
  is_space c = false ∧ c ≠ "-"%char ∧ c ≠ "+"%char.
Proof.
  intros H. destruct c as [b0 b1 b2 b3 b4 b5 b6 b7].
  destruct b0, b1, b2, b3, b4, b5, b6, b7; split_and!; try done; vm_compute in H; lia.
Qed.

Lemma atoi_to_string z : - 2 ^ 31 ≤ z < 2 ^ 31 → atoi (to_string z) = Ok z.
Proof.
  intros Hz. assert (∀ p : positive, skip_spaces (pretty p) = pretty p ∧
    take_sign (pretty p) = (false, pretty p)) as Hp.
  { intros p. destruct (pretty_first p) as (c & s & -> & Hc).
    destruct (digit_plain c Hc) as (H1 & H2 & H3). cbn [skip_spaces take_sign]. rewrite H1.
    by rewrite !decide_False. }
  unfold atoi. destruct z as [|p|p]; [done|..];
    destruct (take_digits_pretty p) as (ds & E & Hds); destruct (Hp p) as [H1 H2].
  - change (to_string (Z.pos p)) with (pretty p). rewrite H1, H2. cbv beta iota. rewrite E. cbn [fst signed].
    rewrite Hds. apply chk_i32_Ok. lia.
  - change (to_string (Z.neg p)) with (String "-" (pretty p)).
    change (take_sign (skip_spaces (String "-" (pretty p)))) with (true, pretty p).
    cbv beta iota. rewrite E. cbn [fst signed]. rewrite Hds. apply chk_i32_Ok. lia.
Qed.

(** ** Reading a command line *)

(** A group as it is written. *)
Record CfgText := mkCfgText {
  tx_clip : Z;
  tx_threshold : string;
  tx_max_order_size : Z;
  tx_max_position : Z;
  tx_max_loss : string
}.
Definition cfg_args (x : CfgText) : list string :=
  [to_string (tx_clip x); tx_threshold x; to_string (tx_max_order_size x);
   to_string (tx_max_position x); tx_max_loss x].
Definition cfg_of (x : CfgText) : TradeEngineCfg :=
  mkTradeEngineCfg (u32 (tx_clip x)) (atof (tx_threshold x))
    (mkRiskCfg (u32 (tx_max_order_size x)) (u32 (tx_max_position x)) (atof (tx_max_loss x))).
Definition is_int (z : Z) : Prop := - 2 ^ 31 ≤ z < 2 ^ 31.
Definition cfg_ints (x : CfgText) : Prop :=
  is_int (tx_clip x) ∧ is_int (tx_max_order_size x) ∧ is_int (tx_max_position x).
Definition set_cfgs (next : Z) (xs : list CfgText) (cfgs : TradeEngineCfgHashMap)
  : TradeEngineCfgHashMap :=
  (foldl (λ '(a, t) x, (arr_set a t (cfg_of x), t + 1)) (cfgs, next) xs).1.

Section Groups.
Implicit Types (argv pre rest : list string) (x : CfgText) (xs : list CfgText).

Lemma arg_app pre rest k : arg (pre ++ rest) (length pre + k) = of_option NullDeref (rest !! k).
Proof. unfold arg. by rewrite lookup_app_r, Nat.add_comm, Nat.add_sub by lia. Qed.

Lemma cfg_at_app pre rest : cfg_at (pre ++ rest) (length pre) = cfg_at rest 0.
Proof.
  unfold cfg_at. rewrite <-(Nat.add_0_r (length pre)) at 1. by rewrite !arg_app.
Qed.

Lemma cfg_at_group x rest : cfg_ints x → cfg_at (cfg_args x ++ rest) 0 = Ok (cfg_of x).
Proof. intros (H1 & H2 & H3). unfold cfg_at. cbn. by rewrite !atoi_to_string. Qed.

(** A group that is not complete: the null pointer is read. *)
Lemma cfg_at_cut x k : cfg_ints x → (k < 5)%nat → cfg_at (take k (cfg_args x)) 0 = Err NullDeref.
Proof.
  intros (H1 & H2 & H3) Hk. unfold cfg_at.
  do 5 (destruct k as [|k]; [cbn; by rewrite ?atoi_to_string|]). lia.
Qed.

Lemma set_cfgs_cons next x xs cfgs :
  set_cfgs next (x :: xs) cfgs = set_cfgs (next + 1) xs (arr_set cfgs next (cfg_of x)).
Proof. done. Qed.
Lemma set_cfgs_len xs : ∀ next cfgs, arr_len (set_cfgs next xs cfgs) = arr_len cfgs.
Proof. induction xs as [|x xs IH]; intros next cfgs; [done|]. by rewrite set_cfgs_cons, IH, arr_len_set. Qed.

Lemma set_cfgs_get xs t : ∀ next cfgs,
  arr_get (set_cfgs next xs cfgs) t =
  match (if next <=? t then xs !! Z.to_nat (t - next) else None) with
  | Some x => cfg_of x | None => arr_get cfgs t end.
Proof.
  induction xs as [|x xs IH]; intros next cfgs.
  { by destruct (next <=? t). }
  rewrite set_cfgs_cons, IH, arr_get_set. destruct (next <=? t) eqn:E.
  - destruct (decide (next = t)) as [->|Hne].
    + by rewrite Z.sub_diag, (proj2 (Z.leb_gt _ _)) by lia.
    + rewrite (proj2 (Z.leb_le _ _)) by lia.
      replace (Z.to_nat (t - next)) with (S (Z.to_nat (t - (next + 1)))) by lia. done.
  - by rewrite (proj2 (Z.leb_gt _ _)), decide_False by lia.
Qed.

Lemma cfg_loop_groups xs : ∀ pre rest fuel next cfgs,
  Forall cfg_ints xs → 0 ≤ next → next + Z.of_nat (length xs) ≤ arr_len cfgs →
  arr_len cfgs < 2 ^ 63 → (length xs ≤ fuel)%nat →
  cfg_loop fuel (pre ++ (xs ≫= cfg_args) ++ rest) (length pre) next cfgs =
  cfg_loop (fuel - length xs) (pre ++ (xs ≫= cfg_args) ++ rest)
    (length (pre ++ (xs ≫= cfg_args))) (next + Z.of_nat (length xs)) (set_cfgs next xs cfgs).
Proof.
  induction xs as [|x xs IH]; intros pre rest fuel next cfgs Hok H0 Hn H63 Hf.
  { cbn [mbind list_bind length]. by rewrite app_nil_r, Nat.sub_0_r, Z.add_0_r. }
  apply Forall_cons in Hok as [Hx Hok]. destruct fuel as [|fuel]; [cbn in Hf; lia|].
  cbn [length] in *. cbn [cfg_loop mbind list_bind]. change (list_bind _ _ cfg_args xs) with (xs ≫= cfg_args).
  rewrite <-!app_assoc. rewrite (proj2 (Nat.ltb_lt _ _)) by (rewrite !length_app; cbn; lia).
  rewrite cfg_at_app, cfg_at_group by done. cbn [mbind Res_bind].
  rewrite arr_at_set_Ok by lia. cbn [mbind Res_bind]. rewrite u64_id by lia.
  specialize (IH (pre ++ cfg_args x) rest fuel (next + 1) (arr_set cfgs next (cfg_of x)) Hok).
  rewrite length_app, <-!app_assoc in IH. change (length (cfg_args x)) with 5%nat in IH.
  rewrite IH; [|lia|rewrite arr_len_set; lia|by rewrite arr_len_set|lia].
  rewrite set_cfgs_cons. replace (next + 1 + Z.of_nat (length xs)) with (next + Z.of_nat (S (length xs))) by lia.
  done.
Qed.
End Groups.

(** The arguments as a user types them. *)
Definition main_args (prog : string) (client_id : Z) (algo : AlgoType.t) (xs : list CfgText)
  : list string :=
  [prog; to_string client_id; algoTypeToString algo] ++ (xs ≫= cfg_args).

Lemma stringToAlgoType_text a : stringToAlgoType (algoTypeToString a) = a.
Proof. by destruct a. Qed.

Lemma groups_length xs : length (xs ≫= cfg_args) = (5 * length xs)%nat.
Proof.
  induction xs as [|x xs IH]; [done|]. cbn [mbind list_bind].
  change (list_bind _ _ cfg_args xs) with (xs ≫= cfg_args). rewrite length_app, IH. cbn. lia.
Qed.

(** All complete groups have been read, and something follows them. *)
Lemma command_line_groups prog client_id algo xs rest :
  is_int client_id → Forall cfg_ints xs → Z.of_nat (length xs) ≤ ME_MAX_TICKERS →
  let argv := main_args prog client_id algo xs ++ rest in
  command_line argv =
    (ticker_cfg ← cfg_loop (length argv - length xs) argv (length (main_args prog client_id algo xs))
       (Z.of_nat (length xs)) (set_cfgs 0 xs (arr_new ME_MAX_TICKERS TradeEngineCfg_new));
     Ok (mkSettings (u32 client_id) algo ticker_cfg)).
Proof.
  intros Hc Hxs Hn argv. unfold command_line. rewrite (proj2 (Nat.ltb_ge _ _)).
  2: { unfold argv, main_args. rewrite !length_app. cbn. lia. }
  change (arg argv 1) with (Ok (to_string client_id)). change (arg argv 2) with (Ok (algoTypeToString algo)).
  cbn [mbind Res_bind]. rewrite atoi_to_string by done. cbn [mbind Res_bind].
  rewrite stringToAlgoType_text. f_equal. unfold argv at 2 4, main_args at 1 3.
  rewrite <-!app_assoc.
  apply (cfg_loop_groups xs [prog; to_string client_id; algoTypeToString algo] rest); try done.
  - unfold argv, main_args. rewrite !length_app, groups_length. cbn. lia.
Qed.

(** What trading needs of the numbers typed. *)
Definition cfg_trades (x : CfgText) : Prop :=
  0 ≤ tx_clip x < 2 ^ 30 ∧ 0 ≤ tx_max_position x ≤ position_bound.

Lemma settings_ok xs : Forall cfg_ints xs → Forall cfg_trades xs →
  te_cfgs_ok (set_cfgs 0 xs (arr_new ME_MAX_TICKERS TradeEngineCfg_new)) ∧
  ∀ t, 0 ≤ t → limit (set_cfgs 0 xs (arr_new ME_MAX_TICKERS TradeEngineCfg_new)) t =
    match xs !! Z.to_nat t with Some x => tx_max_position x | None => 0 end.
Proof.
  intros Hi Ht. set (cfgs := set_cfgs 0 xs _).
  assert (∀ t, 0 ≤ t → arr_get cfgs t =
    match xs !! Z.to_nat t with Some x => cfg_of x | None => TradeEngineCfg_new end) as Hget.
  { intros t H. unfold cfgs. rewrite set_cfgs_get, arr_get_new, (proj2 (Z.leb_le _ _)), Z.sub_0_r by done.
    done. }
  assert (∀ t x, xs !! Z.to_nat t = Some x → cfg_ints x ∧ cfg_trades x) as Hx.
  { intros t x E. split; [exact (proj1 (Forall_lookup _ _) Hi _ _ E)|exact (proj1 (Forall_lookup _ _) Ht _ _ E)]. }
  assert (∀ t, 0 ≤ t → limit cfgs t =
    match xs !! Z.to_nat t with Some x => tx_max_position x | None => 0 end) as Hlim.
  { intros t H. unfold limit. rewrite Hget by done. destruct (xs !! Z.to_nat t) as [x|] eqn:E; [|done].
    destruct (Hx t x E) as [(_ & _ & H3) [_ H5]]. unfold is_int in H3. cbn. apply u32_id. lia. }
  split; [|exact Hlim]. split; [split|].
  - unfold cfgs. by rewrite set_cfgs_len.
  - intros t H. rewrite Hlim by lia. destruct (xs !! Z.to_nat t) as [x|] eqn:E; [|done].
    by destruct (Hx t x E) as [_ [_ ?]].
  - intros t H. rewrite Hget by lia. destruct (xs !! Z.to_nat t) as [x|] eqn:E; [|done].
    destruct (Hx t x E) as [_ [H1 _]]. cbn. rewrite u32_id by lia. exact H1.
Qed.

(** The line of [scripts/run_clients.sh] for the first client. *)
Definition script_cfgs : list CfgText :=
  [mkCfgText 100 "0.6" 150 300 "-100"; mkCfgText 60 "0.6" 150 300 "-100";
   mkCfgText 150 "0.5" 250 600 "-100"; mkCfgText 200 "0.4" 500 3000 "-100";
   mkCfgText 1000 "0.9" 5000 4000 "-100"; mkCfgText 300 "0.8" 1500 3000 "-100";
   mkCfgText 50 "0.7" 150 300 "-100"; mkCfgText 100 "0.3" 250 300 "-100"].
Definition script_line : list string :=
  ["./cmake-build-release/trading_main"; "1"; "MAKER"; "100"; "0.6"; "150"; "300"; "-100";
   "60"; "0.6"; "150"; "300"; "-100"; "150"; "0.5"; "250"; "600"; "-100";
   "200"; "0.4"; "500"; "3000"; "-100"; "1000"; "0.9"; "5000"; "4000"; "-100";
   "300"; "0.8"; "1500"; "3000"; "-100"; "50"; "0.7"; "150"; "300"; "-100";
   "100"; "0.3"; "250"; "300"; "-100"].
Example script_line_args :
  main_args "./cmake-build-release/trading_main" 1 AlgoType.MAKER script_cfgs = script_line.
Proof. vm_compute. reflexivity. Qed.

(** What [atof] makes of some numbers: the nearest double, signs, exponents, hexadecimal
    digits, the smallest subnormal, overflow, and text that is no number. *)
Example atof_examples :
  atof <$> ["0.6"; " -100"; "6e-1"; "0x1.8p1"; "3e-324"; "1e400"; "five"] =
  [S754_finite false 5404319552844595 (-53); S754_finite true 7036874417766400 (-46);
   S754_finite false 5404319552844595 (-53); S754_finite false 6755399441055744 (-51);
   S754_finite false 1 (-1074); S754_infinity false; S754_zero false].
Proof. vm_compute. reflexivity. Qed.

(** ** Theorems *)

(** C36: [main] reads its arguments back: the client id, the algorithm and up to eight groups,
    printed as [std::to_string] prints them, give exactly these settings, with instruments
    that are not mentioned all zero; and when the algorithm is one that trades, the client it
    then makes is one whose limits are the numbers typed. *)
Theorem command_line_roundtrip prog client_id algo xs :
  0 ≤ client_id < 2 ^ 31 → Forall cfg_ints xs → Z.of_nat (length xs) ≤ ME_MAX_TICKERS →
  ∃ cfgs, command_line (main_args prog client_id algo xs) = Ok (mkSettings client_id algo cfgs) ∧
    (∀ t, 0 ≤ t → arr_get cfgs t =
       match xs !! Z.to_nat t with Some x => cfg_of x | None => TradeEngineCfg_new end) ∧
    ∀ garbage inc_fd, algo = AlgoType.MAKER ∨ algo = AlgoType.TAKER → Forall cfg_trades xs →
      (∀ i, vwap_ok (garbage i)) → 0 ≤ inc_fd →
      client_setup client_id algo cfgs garbage inc_fd ∧
      ∀ t, 0 ≤ t → limit cfgs t =
        match xs !! Z.to_nat t with Some x => tx_max_position x | None => 0 end.
Proof.
  intros Hc Hxs Hn. assert (is_int client_id) as Hci by (unfold is_int; lia).
  exists (set_cfgs 0 xs (arr_new ME_MAX_TICKERS TradeEngineCfg_new)). split_and!.
  - rewrite <-(app_nil_r (main_args _ _ _ _)), command_line_groups by done. rewrite app_nil_r.
    destruct (_ - length xs)%nat as [|fuel] eqn:Ef.
    { unfold main_args in Ef. rewrite length_app, groups_length in Ef. cbn in Ef. lia. }
    cbn [cfg_loop]. rewrite Nat.ltb_irrefl. cbn [mbind Res_bind]. by rewrite u32_id by lia.
  - intros t Ht. rewrite set_cfgs_get, arr_get_new, (proj2 (Z.leb_le _ _)), Z.sub_0_r by done. done.
  - intros garbage inc_fd Ha Ht Hg Hfd. destruct (settings_ok xs Hxs Ht) as [Hcfg Hlim].
    split; [|exact Hlim]. split; try done. lia.
Qed.

(** The script's first client may hold 4000 of instrument 4. *)
Lemma command_line_roundtrip_witness :
  ∃ cfgs, command_line script_line = Ok (mkSettings 1 AlgoType.MAKER cfgs) ∧
    client_setup 1 AlgoType.MAKER cfgs (λ _, arr_new side_count d_zero) 3 ∧ limit cfgs 4 = 4000.
Proof.
  destruct (command_line_roundtrip "./cmake-build-release/trading_main" 1 AlgoType.MAKER script_cfgs)
    as (cfgs & E & _ & H).
  - by vm_compute.
  - apply (bool_decide_unpack _). by vm_compute.
  - by vm_compute.
  - destruct (H (λ _, arr_new side_count d_zero) 3) as [H1 H2].
    + by left.
    + apply (bool_decide_unpack _). by vm_compute.
    + done.
    + by vm_compute.
    + exists cfgs. split; [by rewrite <-E, <-script_line_args|]. split; [exact H1|].
      rewrite (H2 4); [by vm_compute|by vm_compute].
Defined.

(** Command lines that end the program: fewer than two arguments; a last group that is
    not complete, of which the missing argument is read from the null pointer that ends
    [argv]; and a ninth group, for which [std::array::at] throws. *)
Theorem command_line_faults :
  (∀ argv, (length argv < 3)%nat → command_line argv = Err FatalExit) ∧
  ∀ prog client_id algo xs x, is_int client_id → Forall cfg_ints xs → cfg_ints x →
    Z.of_nat (length xs) ≤ ME_MAX_TICKERS →
    (∀ k, (0 < k < 5)%nat →
       command_line (main_args prog client_id algo xs ++ take k (cfg_args x)) = Err NullDeref) ∧
    (Z.of_nat (length xs) = ME_MAX_TICKERS → ∀ more,
       command_line (main_args prog client_id algo xs ++ cfg_args x ++ more) = Err OutOfRange).
Proof.
  split.
  { intros argv H. unfold command_line. by rewrite (proj2 (Nat.ltb_lt _ _) H). }
  intros prog client_id algo xs x Hc Hxs Hx Hn.
  assert (∀ rest, ∃ fuel, length (main_args prog client_id algo xs ++ rest) - length xs = S fuel)%nat as Hf.
  { intros rest. destruct (_ - length xs)%nat as [|fuel] eqn:E; [|by exists fuel].
    unfold main_args in E. rewrite !length_app, groups_length in E. cbn in E. lia. }
  split.
  - intros k Hk. rewrite command_line_groups by done. destruct (Hf (take k (cfg_args x))) as [fuel ->].
    cbn [cfg_loop]. rewrite (proj2 (Nat.ltb_lt _ _)).
    2: { rewrite length_app, length_take. cbn. lia. }
    rewrite cfg_at_app, cfg_at_cut by (done || lia). done.
  - intros Hfull more. rewrite command_line_groups by done.
    destruct (Hf (cfg_args x ++ more)) as [fuel ->].
    cbn [cfg_loop]. rewrite (proj2 (Nat.ltb_lt _ _)) by (rewrite !length_app; cbn; lia).
    rewrite cfg_at_app, cfg_at_group by done. cbn [mbind Res_bind].
    rewrite arr_at_set_out; [done|]. rewrite set_cfgs_len, Hfull. cbn. lia.
Qed.

(** One argument too many after eight groups, and a ninth group. *)
Lemma command_line_faults_witness :
  command_line (script_line ++ ["7"]) = Err NullDeref ∧
  command_line (script_line ++ cfg_args (mkCfgText 1 "0.5" 2 3 "-4")) = Err OutOfRange.
Proof.
  destruct command_line_faults as [_ H].
  destruct (H "./cmake-build-release/trading_main"%string 1 AlgoType.MAKER script_cfgs
    (mkCfgText 7 "0.5" 2 3 "-4")) as [H1 _].
  - by vm_compute.
  - apply (bool_decide_unpack _). by vm_compute.
  - apply (bool_decide_unpack _). by vm_compute.
  - by vm_compute.
  - destruct (H "./cmake-build-release/trading_main"%string 1 AlgoType.MAKER script_cfgs
      (mkCfgText 1 "0.5" 2 3 "-4")) as [_ H2].
    + by vm_compute.
    + apply (bool_decide_unpack _). by vm_compute.
    + apply (bool_decide_unpack _). by vm_compute.
    + by vm_compute.
    + rewrite <-script_line_args. split; [apply (H1 1%nat); lia|].
      rewrite <-(app_nil_r (cfg_args _)). apply H2. by vm_compute.
Defined.
