(* ===== verification/Shutdown.v ===== *)
(** * Shutdown: how the trading program ends

    The end of [main] in [trading/trading_main.cpp], with [initLastEventTime],
    [silentSeconds] and [stop] of [trading/strategy/trade_engine.h]: main sleeps until the
    trade engine has seen no event for a minute, then waits until its queues are empty,
    logs the positions and lets the thread go. *)
From S2P Require Import Prelude Types Wire Sockets LFQueue FIFOSequencer OrderServer OrderGateway.
From S2P Require Import OrderFlow SnapshotSynthesizer MarketDataPublisher MarketDataConsumer Recovery.
From S2P Require Import PriceLevels MarketOrderBook MarketBookSpec MarketBBO Double PositionKeeper.
From S2P Require Import OrderManager PositionLimit Strategies OrderFields TradeEngine TradeEngineSpec.
From S2P Require Import OrdersInFlight TradingClient ClientRun Text ToString.

(** ** Waiting for silence *)
Section Silence.
(** [last_event_time_] at every instant: main sets it once ([initLastEventTime]), the trading
    thread whenever it has handled a response or an update. *)
Context (last_event_time : Nanos → Nanos).

(** [silentSeconds], called at instant [now]. *)
Definition silentSeconds (now : Nanos) : Res Z :=
  silent ← chk_i64 (now - last_event_time now);
  Ok (Z.quot silent NANOS_TO_SECS).

(** The instants at which main looks at the clock: for the condition, and for the message it
    logs before it sleeps.  The loop returns the instant of its last look. *)
Fixpoint wait_silent (fuel : nat) (clock : nat → Nanos) (k : nat) : Res nat :=
  match fuel with
  | O => Err OutOfFuel
  | S fuel =>
      silent ← silentSeconds (clock k);
      if silent <? 60 then
        _ ← silentSeconds (clock (k + 1)%nat);
        wait_silent fuel clock (k + 2)
      else Ok k
  end.

(** For the first [n] looks: the clock is an [int64_t] and never goes back, and
    [sleep_for(30s)] lasts 30 seconds or more.  Events lie in the past. *)
Record clock_ok (clock : nat → Nanos) (n : nat) : Prop := {
  ck_range : ∀ k, (k ≤ n)%nat → 0 ≤ clock k < 2 ^ 63;
  ck_mono : ∀ k, (k < n)%nat → clock k ≤ clock (k + 1)%nat;
  ck_sleep : ∀ k, (k + 1 < n)%nat → Nat.even k = true →
    clock (k + 1)%nat + 30 * NANOS_TO_SECS ≤ clock (k + 2)%nat
}.
Record events_ok : Prop := {
  ev_past : ∀ t, 0 ≤ t → 0 ≤ last_event_time t ≤ t;
  ev_mono : ∀ t t', t ≤ t' → last_event_time t ≤ last_event_time t'
}.
End Silence.

(** ** [TradeEngine::stop] *)

(** One look at the queues: [None] when main goes back to sleep, or the text it logs. *)
Definition te_stop (e : TradeEngine) : Res (option string) :=
  if negb (lfq_size (te_responses e) =? 0) || negb (lfq_size (te_md_updates e) =? 0) then Ok None
  else
    text ← PositionKeeper_toString (λ t, getBBO (arr_get (te_order_book e) t)) (te_position_keeper e);
    Ok (Some text).

(** *** The loop ends *)
Section Wait.
Context (last : Nanos → Nanos) (Hev : events_ok last).
Context (clock : nat → Nanos) (looks : nat) (Hclock : clock_ok clock looks).

Lemma silent_at k : (k ≤ looks)%nat →
  0 ≤ last (clock k) ≤ clock k ∧
  silentSeconds last (clock k) = Ok (Z.quot (clock k - last (clock k)) NANOS_TO_SECS).
Proof.
  intros Hk. pose proof (ck_range _ _ Hclock k Hk) as H. pose proof (ev_past _ Hev (clock k) ltac:(lia)).
  split; [done|]. unfold silentSeconds. by rewrite chk_i64_ok by lia.
Qed.

Lemma quot_60 t : last t ≤ t →
  (Z.quot (t - last t) NANOS_TO_SECS <? 60) = (t - last t <? 60 * NANOS_TO_SECS).
Proof.
  intros H. unfold NANOS_TO_SECS. rewrite Z.quot_div_nonneg by lia.
  apply eq_true_iff_eq. rewrite !Z.ltb_lt. pose proof (Z.div_mod (t - last t) 1000000000 ltac:(lia)).
  pose proof (Z.mod_pos_bound (t - last t) 1000000000 ltac:(lia)). split; intros; lia.
Qed.

(** One look. *)
Lemma wait_look fuel k : (k + 1 ≤ looks)%nat →
  wait_silent last (S fuel) clock k =
  if clock k - last (clock k) <? 60 * NANOS_TO_SECS then wait_silent last fuel clock (k + 2) else Ok k.
Proof.
  intros Hk. destruct (silent_at k ltac:(lia)) as [[_ H1] E1]. destruct (silent_at (k + 1) Hk) as [_ E2].
  cbn [wait_silent]. rewrite E1, E2. cbn [mbind Res_bind]. by rewrite quot_60.
Qed.

(** Every round takes half a minute, so some look comes a minute after the last event. *)
Lemma wait_ends quiet n : ∀ k, Nat.even k = true → (k + 2 * n + 1 ≤ looks)%nat →
  (∀ t, quiet ≤ t → last t ≤ quiet) →
  quiet + 60 * NANOS_TO_SECS ≤ clock k + Z.of_nat n * (30 * NANOS_TO_SECS) →
  ∃ j, (∀ fuel, (n < fuel)%nat → wait_silent last fuel clock k = Ok j) ∧
    60 * NANOS_TO_SECS ≤ clock j - last (clock j) ∧
    ∀ i, (k ≤ i < j)%nat → Nat.even i = true → clock i - last (clock i) < 60 * NANOS_TO_SECS.
Proof.
  induction n as [|n IH]; intros k Hk Hlooks Hquiet Hn;
    destruct (silent_at k ltac:(lia)) as [Hp _];
    destruct (Z.ltb_spec (clock k - last (clock k)) (60 * NANOS_TO_SECS)) as [Hs|Hs].
  - exfalso. specialize (Hquiet (clock k)). unfold NANOS_TO_SECS in *. lia.
  - exists k. split_and!; [|done|lia]. intros [|fuel] Hf; [lia|]. rewrite wait_look by lia.
    by rewrite (proj2 (Z.ltb_ge _ _)).
  - destruct (IH (k + 2)%nat) as (j & Hrun & Hj & Hbefore).
    + by rewrite Nat.even_add, Hk.
    + lia.
    + done.
    + pose proof (ck_mono _ _ Hclock k ltac:(lia)). pose proof (ck_sleep _ _ Hclock k ltac:(lia) Hk).
      unfold NANOS_TO_SECS in *. lia.
    + exists j. split_and!; [|done|].
      * intros [|fuel] Hf; [lia|]. rewrite wait_look by lia. rewrite (proj2 (Z.ltb_lt _ _)) by done.
        apply Hrun. lia.
      * intros i Hi He. destruct (decide (i = k)) as [->|Hne]; [done|].
        apply Hbefore; [|done]. assert (i ≠ k + 1)%nat; [|lia]. intros ->.
        by rewrite Nat.even_add, Hk in He.
  - exists k. split_and!; [|done|lia]. intros [|fuel] Hf; [lia|]. rewrite wait_look by lia.
    by rewrite (proj2 (Z.ltb_ge _ _)).
Qed.
End Wait.

(** *** What is logged *)
Lemma PositionInfo_toString_ok bbos p :
  vwap_ok (open_vwap_ p) → Z.abs (position_ p) < 2 ^ 31 → is_ok (PositionInfo_toString bbos p) = true.
Proof.
  intros Hv Hp. assert (∀ s, is_ok (open_price p s) = true) as Hopen.
  { intros s. unfold open_price. case_match; [done|].
    rewrite arr_at_Ok by (rewrite Hv; apply sideToIndex_range). cbn [mbind Res_bind].
    unfold std_abs. assert (chk_i32 (Z.abs (position_ p)) = Ok (Z.abs (position_ p))) as ->; [|done].
    apply chk_i32_Ok. lia. }
  unfold PositionInfo_toString. pose proof (Hopen Side.BUY). pose proof (Hopen Side.SELL).
  by destruct (open_price p Side.BUY), (open_price p Side.SELL).
Qed.

Lemma keeper_lines_ok bbos pk n : ∀ i pnl vol,
  0 ≤ i → i + Z.of_nat n ≤ arr_len pk →
  (∀ t, 0 ≤ t < arr_len pk → is_ok (PositionInfo_toString bbos (arr_get pk t)) = true) →
  is_ok (keeper_lines bbos pk n i pnl vol) = true.
Proof.
  induction n as [|n IH]; intros i pnl vol Hi Hn Hp; [done|]. cbn [keeper_lines].
  rewrite arr_at_Ok by lia. cbn [mbind Res_bind].
  pose proof (Hp i ltac:(lia)) as Hline. destruct (PositionInfo_toString _ _); [|done].
  cbn [Res_bind]. specialize (IH (i + 1) (d_add pnl (total_pnl_ (arr_get pk i)))
    (u32 (vol + volume_ (arr_get pk i))) ltac:(lia) ltac:(lia) Hp).
  by destruct (keeper_lines bbos pk n (i + 1) _ _) as [[[? ?] ?]|].
Qed.

Lemma keeper_text e rest st bbos : te_rep e rest st →
  ∃ text, PositionKeeper_toString bbos (te_position_keeper e) = Ok text.
Proof.
  intros [[_ [Hc _] _ [_ Hlen Hv Hp _] _] _ _]. cbn [w_pk] in *. unfold PositionKeeper_toString.
  pose proof (keeper_lines_ok bbos (te_position_keeper e) (Z.to_nat ME_MAX_TICKERS) 0 d_zero 0) as H.
  destruct (keeper_lines _ _ _ _ _ _) as [[[lines pnl] vol]|]; [by eexists|].
  exfalso. enough (false = true) by done. apply H; [lia|by rewrite Hlen|].
  intros t Ht. rewrite Hlen in Ht. apply PositionInfo_toString_ok; [by apply Hv|].
  specialize (Hp t Ht). pose proof (proj2 Hc t Ht) as Hl. unfold pos, position_bound in *.
  cbn [w_pk] in Hp. lia.
Qed.

(** ** Theorems *)

(** C38: Main's wait ends: if the trade engine sees no event after instant [quiet], the loop
    ends after at most two half-minute sleeps more than it takes the clock to get there, and
    it ends at a look at which the engine has been silent for a minute, the first such. *)
Theorem main_waits_for_silence last clock quiet :
  let rounds := (3 + Z.to_nat ((quiet - clock 0%nat) / (30 * NANOS_TO_SECS)))%nat in
  events_ok last → clock_ok clock (2 * rounds + 1) → (∀ t, quiet ≤ t → last t ≤ quiet) →
  ∃ j, (∀ fuel, (rounds < fuel)%nat → wait_silent last fuel clock 0 = Ok j) ∧
    60 * NANOS_TO_SECS ≤ clock j - last (clock j) ∧
    ∀ i, (i < j)%nat → Nat.even i = true → clock i - last (clock i) < 60 * NANOS_TO_SECS.
Proof.
  intros rounds Hev Hclock Hquiet.
  destruct (wait_ends last Hev clock _ Hclock quiet rounds 0 eq_refl ltac:(lia) Hquiet)
    as (j & Hrun & Hj & Hbefore).
  - unfold rounds, NANOS_TO_SECS.
    pose proof (Z.div_mod (quiet - clock 0%nat) (30 * 1000000000) ltac:(lia)).
    pose proof (Z.mod_pos_bound (quiet - clock 0%nat) (30 * 1000000000) ltac:(lia)). lia.
  - exists j. split; [done|]. split; [done|]. intros i Hi. apply Hbefore. lia.
Qed.

(** One event, 40 seconds in; main looks every 31 seconds, and goes on at the fifth look. *)
Definition one_event (t : Nanos) : Nanos := if t <? 40 * NANOS_TO_SECS then 0 else 40 * NANOS_TO_SECS.
Definition slow_clock (k : nat) : Nanos := Z.of_nat (Nat.div2 k) * (31 * NANOS_TO_SECS).

Lemma main_waits_for_silence_witness : wait_silent one_event 6 slow_clock 0 = Ok 8%nat ∧
  ∃ j, wait_silent one_event 6 slow_clock 0 = Ok j ∧
    60 * NANOS_TO_SECS ≤ slow_clock j - one_event (slow_clock j).
Proof.
  split; [by vm_compute|].
  destruct (main_waits_for_silence one_event slow_clock (40 * NANOS_TO_SECS)) as (j & Hrun & Hj & _).
  - split; unfold one_event, NANOS_TO_SECS.
    + intros t Ht. destruct (Z.ltb_spec t (40 * 1000000000)); lia.
    + intros t t' Ht. destruct (Z.ltb_spec t (40 * 1000000000)), (Z.ltb_spec t' (40 * 1000000000)); lia.
  - change (2 * (3 + Z.to_nat _) + 1)%nat with 9%nat.
    assert (∀ k, slow_clock (k + 2)%nat = slow_clock k + 31 * NANOS_TO_SECS) as H2.
    { intros k. unfold slow_clock. rewrite Nat.add_comm. cbn [Nat.add Nat.div2]. lia. }
    split.
    + intros k Hk. do 10 (destruct k as [|k]; [by vm_compute|]). lia.
    + intros k Hk. do 10 (destruct k as [|k]; [by vm_compute|]). lia.
    + intros k Hk Hev. rewrite H2. do 10 (destruct k as [|k]; [by vm_compute|]). lia.
  - intros t Ht. unfold one_event. by rewrite (proj2 (Z.ltb_ge _ _) Ht).
  - exists j. split; [apply Hrun; vm_compute; lia|exact Hj].
Defined.

Lemma te_stop_ready e rest st reqs rs us : te_rep e rest st → te_queues e reqs rs us →
  (rs = [] ∧ us = [] ∧ ∃ text, te_stop e = Ok (Some text)) ∨ te_stop e = Ok None.
Proof.
  intros Hrep [_ H2 H3]. unfold te_stop, lfq_size. rewrite (lq_num _ _ H2), (lq_num _ _ H3).
  destruct rs as [|r rs]; [|by right]. destruct us as [|u us]; [|by right]. left. split_and!; try done.
  destruct (keeper_text e rest st (λ t, getBBO (arr_get (te_order_book e) t)) Hrep) as [text E].
  exists text. cbn [length Z.of_nat Z.eqb negb orb]. by rewrite E.
Qed.

(** C35: [stop] ends and reports what the program knows: one turn of the trading thread empties
    the queues, after which main's next look finds them empty; and whenever it does, the text
    it logs exists, every response that the gateway has taken off the connection is in the
    positions it shows, and the books show every update that was received. *)
Theorem stop_reports_positions client_id algo cfgs garbage inc_fd feed w :
  client_setup client_id algo cfgs garbage inc_fd → feed_fits feed →
  client_reachable client_id (client_start client_id algo cfgs garbage inc_fd feed) w →
  (∃ w' text, client_turn w TradeTurn = Ok w' ∧ te_stop (trade_engine (cw_client w')) = Ok (Some text)) ∧
  ∀ text, te_stop (trade_engine (cw_client w)) = Ok (Some text) →
    PositionKeeper_toString (λ t, getBBO (arr_get (te_order_book (trade_engine (cw_client w))) t))
      (te_position_keeper (trade_engine (cw_client w))) = Ok text ∧
    (∃ D ms, cw_answers w = D ++ (omrs_response <$> ms) ∧
       encode_all ms = inbound_data_ (gw_tcp_socket_ (order_gateway (cw_client w))) ++ cw_downstream w ∧
       ∀ t, position_at w t = fills t D) ∧
    ∃ seen, feed = seen ++ cw_feed w ∧ ∀ t, 0 ≤ t < ME_MAX_TICKERS →
      mk_refines (arr_get (te_order_book (trade_engine (cw_client w))) t)
        (foldl feed_step feed_new seen t).1.
Proof.
  intros Hsetup Hfits Hw. destruct (client_started _ _ _ _ _ _ Hsetup Hfits w Hw) as [h Hinv]. split.
  - destruct (trade_turn_keeps _ _ _ Hfits w h Hinv) as (x' & rest' & new & Hrun & Hinv').
    destruct Hinv' as [_ _ [_ _ Hrep' Hq' _] _ _ _ _ _].
    destruct (te_stop_ready _ _ _ _ _ _ Hrep' Hq') as [(_ & _ & text & E)|E].
    + exists (with_client w x'), text. split; [|exact E]. cbn [client_turn]. by rewrite Hrun.
    + exfalso. destruct Hq' as [_ H2 H3]. unfold te_stop, lfq_size in E.
      rewrite (lq_num _ _ H2), (lq_num _ _ H3) in E. cbn in E. by destruct (PositionKeeper_toString _ _).
  - intros text E. destruct Hinv as [_ _ [_ _ Hrep Hq Hpos] _ [_ _ _ D4 _ _ _ _ _ _] [F1 _ _] _ Hans].
    destruct (te_stop_ready _ _ _ _ _ _ Hrep Hq) as [(Hrs & Hus & _)|E']; [|congruence].
    rewrite Hrs in Hans. rewrite Hus in F1. split_and!.
    + unfold te_stop in E. destruct (_ || _); [done|]. by apply res_bind_Ok in E as (text' & -> & [= ->]).
    + by exists (cg_done h), (cg_coming h).
    + exists (cg_handled h). split; [done|]. intros t Ht. by apply Hrep.
Qed.

Lemma stop_reports_positions_witness :
  ∃ w' text, client_turn demo_world TradeTurn = Ok w' ∧
    te_stop (trade_engine (cw_client w')) = Ok (Some text).
Proof.
  destruct (stop_reports_positions 1 AlgoType.MAKER limit_cfgs (λ _, arr_new side_count d_zero) 3
    turn_feed demo_world) as [H _].
  - exact demo_setup.
  - exact demo_fits.
  - exact client_demo_reachable.
  - exact H.
Defined.
