(* ===== verification/SystemCalls.v ===== *)
(** * SystemCalls: programs that make system calls

    The kernel is not part of the program: a program is a tree of calls, each followed by
    what is done with the answer, and it is run against any kernel, a function from the calls
    and answers so far to the next answer.  [sockets_after] reads off such a history what the
    manual pages say of the sockets: which are open, and how each is set up. *)
From S2P Require Import Prelude.
From stdpp Require Export strings gmap.

#[local] Open Scope Z_scope.

(** ** Calls and answers *)

(** Where to bind: any interface at a port, or an address that was resolved. *)
Inductive BindAddr := AnyAddress (port : Z) | Resolved (address : Z).
#[export] Instance BindAddr_eq_dec : EqDecision BindAddr.
Proof. solve_decision. Defined.

Inductive SockOpt := TCP_NODELAY | SO_TIMESTAMP | SO_REUSEADDR | IP_ADD_MEMBERSHIP (group : string).
#[export] Instance SockOpt_eq_dec : EqDecision SockOpt.
Proof. solve_decision. Defined.

Inductive Call :=
  | getifaddrs
  | getnameinfo (address : Z)
  | freeifaddrs
  | getaddrinfo (node service : string) (flags family socktype protocol : Z)
  | socket (family type protocol : Z)
  | fcntl_getfl (fd : Z)
  | fcntl_setfl (fd flags : Z)
  | setsockopt (fd : Z) (opt : SockOpt)
  | connect (fd address : Z)
  | bind_to (fd : Z) (addr : BindAddr)
  | listen_on (fd backlog : Z)
  | epoll_create
  | epoll_add (epoll_fd fd : Z)
  | close (fd : Z).

(** An interface: its name, and its family and address if it has one.  A resolved address:
    what to make a socket with, and the address to connect or bind it to. *)
Record IfAddr := mkIfAddr { ifa_name : string; ifa_addr : option (Z * Z) }.
Record AddrInfo := mkAddrInfo {
  ai_family : Z; ai_socktype : Z; ai_protocol : Z; ai_addr : Z
}.

(** [getifaddrs] and [getaddrinfo] answer a code and a list, [getnameinfo] the text it
    writes, the others a number. *)
Definition answer (c : Call) : Type :=
  match c with
  | getifaddrs => Z * list IfAddr
  | getnameinfo _ => string
  | freeifaddrs => unit
  | getaddrinfo _ _ _ _ _ _ => Z * list AddrInfo
  | _ => Z
  end.

Record Event := mkEvent { ev_call : Call; ev_answer : answer ev_call }.

(** ** Programs *)
Inductive Sys (A : Type) :=
  | Done (a : A)
  | Stops (f : Fault)
  | Does (c : Call) (k : answer c → Sys A).
Arguments Done {A} a.
Arguments Stops {A} f.
Arguments Does {A} c k.

#[export] Instance Sys_ret : MRet Sys := @Done.
#[export] Instance Sys_bind : MBind Sys := λ A B g,
  fix go (p : Sys A) : Sys B :=
    match p with
    | Done a => g a
    | Stops f => Stops f
    | Does c k => Does c (λ x, go (k x))
    end.
Definition sys (c : Call) : Sys (answer c) := Does c Done.
Definition sys_assert (cond : bool) : Sys unit := if cond then Done tt else Stops AssertFailed.

Section Run.
Context (kernel : list Event → ∀ c : Call, answer c).
Implicit Types (tr : list Event).

(** The result, and the history with the calls made. *)
Fixpoint run {A} (p : Sys A) (tr : list Event) : Res A * list Event :=
  match p with
  | Done a => (Ok a, tr)
  | Stops f => (Err f, tr)
  | Does c k => let x := kernel tr c in run (k x) (tr ++ [mkEvent c x])
  end.

Lemma run_bind {A B} (p : Sys A) (g : A → Sys B) tr :
  run (p ≫= g) tr =
  match run p tr with
  | (Ok a, tr') => run (g a) tr'
  | (Err f, tr') => (Err f, tr')
  end.
Proof. revert tr. induction p as [a|f|c k IH]; intros tr; [done|done|]. apply IH. Qed.

Lemma run_sys c tr : run (sys c) tr = (Ok (kernel tr c), tr ++ [mkEvent c (kernel tr c)]).
Proof. done. Qed.
Lemma run_assert cond tr :
  run (sys_assert cond) tr = (if cond then Ok tt else Err AssertFailed, tr).
Proof. by destruct cond. Qed.

(** A program only appends to the history. *)
Lemma run_prefix {A} (p : Sys A) tr : tr `prefix_of` (run p tr).2.
Proof.
  revert tr. induction p as [a|f|c k IH]; intros tr; [done|done|]. cbn [run].
  etrans; [|apply IH]. by eexists.
Qed.

(** What a run that goes on has gone through. *)
Lemma run_bind_Ok {A B} (p : Sys A) (g : A → Sys B) tr b tr' :
  run (p ≫= g) tr = (Ok b, tr') ↔ ∃ a tr1, run p tr = (Ok a, tr1) ∧ run (g a) tr1 = (Ok b, tr').
Proof.
  rewrite run_bind. split.
  - destruct (run p tr) as [[a|f] tr1]; [|done]. by exists a, tr1.
  - by intros (a & tr1 & -> & H).
Qed.
Lemma run_assert_Ok cond tr x tr' :
  run (sys_assert cond) tr = (Ok x, tr') ↔ cond = true ∧ tr' = tr.
Proof. rewrite run_assert. destruct x, cond; naive_solver. Qed.
Lemma run_sys_Ok c tr x tr' :
  run (sys c) tr = (Ok x, tr') ↔ x = kernel tr c ∧ tr' = tr ++ [mkEvent c x].
Proof. rewrite run_sys. naive_solver. Qed.
End Run.

(** Programs that only stop at an [ASSERT]. *)
Fixpoint asserts_only {A} (p : Sys A) : Prop :=
  match p with
  | Done _ => True
  | Stops f => f = AssertFailed
  | Does c k => ∀ x, asserts_only (k x)
  end.

Lemma asserts_only_run {A} kernel (p : Sys A) tr f tr' :
  asserts_only p → run kernel p tr = (Err f, tr') → f = AssertFailed.
Proof.
  revert tr. induction p as [a|f'|c k IH]; intros tr Hp Hrun; [done|by injection Hrun as <- _|].
  by eapply IH.
Qed.
Lemma asserts_only_bind {A B} (p : Sys A) (g : A → Sys B) :
  asserts_only p → (∀ a, asserts_only (g a)) → asserts_only (p ≫= g).
Proof.
  intros Hp Hg. induction p as [a|f|c k IH]; [apply Hg|exact Hp|]. intros x. apply IH, Hp.
Qed.
Lemma asserts_only_done {A} (a : A) : asserts_only (Done a).
Proof. done. Qed.
Lemma asserts_only_assert b : asserts_only (sys_assert b).
Proof. by destruct b. Qed.

Create HintDb sys.
#[export] Hint Resolve asserts_only_bind asserts_only_done asserts_only_assert : sys.
#[export] Hint Extern 0 (asserts_only (sys _)) => exact (λ _, I) : sys.

(** Answers that a caller takes for a failure.  [getaddrinfo] never succeeds with an empty
    list, and [connect] never answers 1, though that is what [createSocket] looks for. *)
Definition noticed (e : Event) : bool :=
  match e with
  | mkEvent getifaddrs r => r.1 =? -1
  | mkEvent (getnameinfo _) _ | mkEvent freeifaddrs _ => false
  | mkEvent (getaddrinfo _ _ _ _ _ _) r => negb (r.1 =? 0) || bool_decide (length r.2 = 0%nat)
  | mkEvent (socket _ _ _) x | mkEvent epoll_create x => x <? 0
  | mkEvent (fcntl_getfl _) x | mkEvent (fcntl_setfl _ _) x => x =? -1
  | mkEvent (connect _ _) x => x =? 1
  | mkEvent (setsockopt _ _) x | mkEvent (bind_to _ _) x | mkEvent (listen_on _ _) x
  | mkEvent (epoll_add _ _) x | mkEvent (close _) x => negb (x =? 0)
  end.

(** Programs that do not stop while no failure is noticed; [good] holds of what they then return. *)
Fixpoint succeeds {A} (good : A → Prop) (p : Sys A) : Prop :=
  match p with
  | Done a => good a
  | Stops _ => False
  | Does c k => ∀ x, noticed (mkEvent c x) = false → succeeds good (k x)
  end.

Lemma succeeds_run {A} (good : A → Prop) kernel (p : Sys A) tr r tr' :
  succeeds good p → run kernel p tr = (r, tr') →
  (∃ a, r = Ok a ∧ good a) ∨ ∃ new e, tr' = tr ++ new ∧ e ∈ new ∧ noticed e = true.
Proof.
  revert tr. induction p as [a|f|c k IH]; intros tr Hp Hrun; cbn in *; [|done|].
  - injection Hrun as <- <-. left. by eexists.
  - set (e := mkEvent c (kernel tr c)) in *. destruct (noticed e) eqn:He.
    + right. pose proof (run_prefix kernel (k (kernel tr c)) (tr ++ [e])) as [new Hnew].
      rewrite Hrun in Hnew. cbn in Hnew. exists (e :: new), e. rewrite Hnew, <-app_assoc.
      split_and!; [done|constructor|done].
    + destruct (IH _ _ (Hp _ He) Hrun) as [Hok|(new & e' & -> & Hin & Hf)]; [by left|]. right.
      exists (e :: new), e'. rewrite <-app_assoc. split_and!; [done|by constructor|done].
Qed.
Lemma succeeds_all {A} (good : A → Prop) kernel (p : Sys A) tr :
  (∀ tr c, noticed (mkEvent c (kernel tr c)) = false) → succeeds good p →
  ∃ a tr', run kernel p tr = (Ok a, tr') ∧ good a.
Proof.
  intros Hk. revert tr. induction p as [a|f|c k IH]; intros tr Hp; [by exists a, tr|done|].
  cbn in *. by apply IH, Hp.
Qed.
Lemma succeeds_bind {A B} (good : A → Prop) (goodb : B → Prop) (p : Sys A) (g : A → Sys B) :
  succeeds good p → (∀ a, good a → succeeds goodb (g a)) → succeeds goodb (p ≫= g).
Proof.
  intros Hp Hg. induction p as [a|f|c k IH]; [by apply Hg|done|].
  intros x Hx. by apply IH, Hp.
Qed.
Lemma succeeds_call {B} (good : B → Prop) c (g : answer c → Sys B) :
  (∀ x, noticed (mkEvent c x) = false → succeeds good (g x)) → succeeds good (x ← sys c; g x).
Proof. done. Qed.
Lemma succeeds_assert {B} (good : B → Prop) b (g : unit → Sys B) :
  b = true → succeeds good (g tt) → succeeds good (sys_assert b ≫= g).
Proof. by intros ->. Qed.
Lemma succeeds_weaken {A} (good good' : A → Prop) (p : Sys A) :
  succeeds good p → (∀ a, good a → good' a) → succeeds good' p.
Proof. intros Hp H. induction p as [a|f|c k IH]; [by apply H|done|]. intros x Hx. by apply IH, Hp. Qed.

(** ** What the calls have done *)
Record SockState := mkSockState {
  sk_nonblocking : bool;
  sk_nodelay : bool;
  sk_reuse : bool;
  sk_timestamps : bool;
  sk_connected : option Z;
  sk_bound : option BindAddr;
  sk_backlog : option Z;
  sk_groups : list string
}.
Definition SockState_new : SockState := mkSockState false false false false None None None [].

Definition O_NONBLOCK : Z := 2048.
Definition nonblocking_flags (flags : Z) : bool := negb (Z.land flags O_NONBLOCK =? 0).

Definition set_nonblocking (b : bool) (s : SockState) : SockState :=
  mkSockState b (sk_nodelay s) (sk_reuse s) (sk_timestamps s) (sk_connected s) (sk_bound s)
    (sk_backlog s) (sk_groups s).
Definition set_opt (o : SockOpt) (s : SockState) : SockState :=
  match o with
  | TCP_NODELAY => mkSockState (sk_nonblocking s) true (sk_reuse s) (sk_timestamps s)
      (sk_connected s) (sk_bound s) (sk_backlog s) (sk_groups s)
  | SO_REUSEADDR => mkSockState (sk_nonblocking s) (sk_nodelay s) true (sk_timestamps s)
      (sk_connected s) (sk_bound s) (sk_backlog s) (sk_groups s)
  | SO_TIMESTAMP => mkSockState (sk_nonblocking s) (sk_nodelay s) (sk_reuse s) true
      (sk_connected s) (sk_bound s) (sk_backlog s) (sk_groups s)
  | IP_ADD_MEMBERSHIP group => mkSockState (sk_nonblocking s) (sk_nodelay s) (sk_reuse s)
      (sk_timestamps s) (sk_connected s) (sk_bound s) (sk_backlog s) (group :: sk_groups s)
  end.
Definition set_connected (a : Z) (s : SockState) : SockState :=
  mkSockState (sk_nonblocking s) (sk_nodelay s) (sk_reuse s) (sk_timestamps s) (Some a)
    (sk_bound s) (sk_backlog s) (sk_groups s).
Definition set_bound (a : BindAddr) (s : SockState) : SockState :=
  mkSockState (sk_nonblocking s) (sk_nodelay s) (sk_reuse s) (sk_timestamps s)
    (sk_connected s) (Some a) (sk_backlog s) (sk_groups s).
Definition set_backlog (n : Z) (s : SockState) : SockState :=
  mkSockState (sk_nonblocking s) (sk_nodelay s) (sk_reuse s) (sk_timestamps s)
    (sk_connected s) (sk_bound s) (Some n) (sk_groups s).

(** A call that fails answers -1 and changes nothing. *)
Definition sock_step (m : gmap Z SockState) (e : Event) : gmap Z SockState :=
  match e with
  | mkEvent (socket _ _ _) fd => if fd =? -1 then m else <[fd := SockState_new]> m
  | mkEvent (fcntl_getfl fd) flags =>
      if flags =? -1 then m else alter (set_nonblocking (nonblocking_flags flags)) fd m
  | mkEvent (fcntl_setfl fd flags) rc =>
      if rc =? -1 then m else alter (set_nonblocking (nonblocking_flags flags)) fd m
  | mkEvent (setsockopt fd o) rc => if rc =? -1 then m else alter (set_opt o) fd m
  | mkEvent (connect fd a) rc => if rc =? 0 then alter (set_connected a) fd m else m
  | mkEvent (bind_to fd a) rc => if rc =? 0 then alter (set_bound a) fd m else m
  | mkEvent (listen_on fd n) rc => if rc =? 0 then alter (set_backlog n) fd m else m
  | mkEvent (close fd) rc => if rc =? 0 then delete fd m else m
  | _ => m
  end.
Definition sockets_after (tr : list Event) : gmap Z SockState := foldl sock_step ∅ tr.

Lemma sockets_after_snoc tr e : sockets_after (tr ++ [e]) = sock_step (sockets_after tr) e.
Proof. unfold sockets_after. by rewrite foldl_app. Qed.

(** Where every [connect] fails no socket is connected. *)
Definition none_connected (m : gmap Z SockState) : Prop :=
  map_Forall (λ _ s, sk_connected s = None) m.

Lemma alter_none_connected f fd m : none_connected m →
  (∀ s, sk_connected (f s) = sk_connected s) → none_connected (alter f fd m).
Proof.
  intros Hm Hf i s. destruct (decide (i = fd)) as [->|Hne].
  - rewrite lookup_alter_eq. intros (s' & Hs' & ->)%fmap_Some. rewrite Hf. by apply (Hm fd).
  - rewrite lookup_alter_ne by done. apply Hm.
Qed.

Lemma run_none_connected {A} (kernel : list Event → ∀ c : Call, answer c) (p : Sys A) tr r tr' :
  (∀ tr fd a, (kernel tr (connect fd a) : Z) ≠ 0) → none_connected (sockets_after tr) →
  run kernel p tr = (r, tr') → none_connected (sockets_after tr').
Proof.
  intros Hc. revert tr. induction p as [a|f|c k IH]; intros tr Htr Hrun;
    [by injection Hrun as _ <-|by injection Hrun as _ <-|].
  eapply IH, Hrun. rewrite sockets_after_snoc. destruct c; cbn [sock_step]; try done;
    try case_match eqn:Hx; try done; try (by apply alter_none_connected; [|intros []]).
  - by apply map_Forall_insert_2.
  - apply alter_none_connected; [done|]. by intros []; destruct opt.
  - apply Z.eqb_eq in Hx. by destruct (Hc tr fd address).
  - by apply map_Forall_delete.
Qed.

(** Calls that are not about a socket. *)
Definition keeps_sockets {A} (p : Sys A) : Prop :=
  ∀ kernel tr r tr', run kernel p tr = (r, tr') → sockets_after tr' = sockets_after tr.

Lemma keeps_done {A} (a : A) : keeps_sockets (Done a).
Proof. by intros kernel tr r tr' [= _ <-]. Qed.
Lemma keeps_sys c : (∀ m x, sock_step m (mkEvent c x) = m) → keeps_sockets (sys c).
Proof. intros H kernel tr r tr' [= _ <-]. by rewrite sockets_after_snoc, H. Qed.
Lemma keeps_bind {A B} (p : Sys A) (g : A → Sys B) :
  keeps_sockets p → (∀ a, keeps_sockets (g a)) → keeps_sockets (p ≫= g).
Proof.
  intros Hp Hg kernel tr r tr'. rewrite run_bind. destruct (run kernel p tr) as [[a|f] tr1] eqn:E.
  - intros H. by rewrite (Hg a _ _ _ _ H), (Hp _ _ _ _ E).
  - intros [= _ <-]. by eapply Hp.
Qed.
#[export] Hint Resolve keeps_done keeps_sys keeps_bind : sys.
