(* ===== verification/SocketUtils.v ===== *)
(** * SocketUtils: making sockets

    [common/socket_utils.h] and the members of [tcp_socket.cpp], [tcp_server.cpp] and
    [mcast_socket.cpp] that open, register, join and leave, with the constructors and
    [start] functions of the components that use them. *)
From S2P Require Import Prelude Text SystemCalls.

#[local] Open Scope Z_scope.

Record SocketCfg := mkSocketCfg {
  ip_ : string;
  iface_ : string;
  port_ : Z;
  is_udp_ : bool;
  is_listening_ : bool;
  needs_so_timestamp_ : bool
}.

(** [operator<<] prints a [bool] as 0 or 1. *)
Definition bool_text (b : bool) : string := if b then "1" else "0".
Definition SocketCfg_toString (cfg : SocketCfg) : string :=
  "SocketCfg[ip:" +:+ ip_ cfg +:+
  " iface:" +:+ iface_ cfg +:+
  " port:" +:+ to_string (port_ cfg) +:+
  " is_udp:" +:+ bool_text (is_udp_ cfg) +:+
  " is_listening:" +:+ bool_text (is_listening_ cfg) +:+
  " needs_SO_timestamp:" +:+ bool_text (needs_so_timestamp_ cfg) +:+
  "]".

Definition MaxTCPServerBacklog : Z := 1024.

(** Constants of the C library. *)
Definition AF_INET : Z := 2.
Definition SOCK_STREAM : Z := 1.
Definition SOCK_DGRAM : Z := 2.
Definition IPPROTO_TCP : Z := 6.
Definition IPPROTO_UDP : Z := 17.
Definition AI_PASSIVE : Z := 1.
Definition AI_NUMERICHOST : Z := 4.
Definition AI_NUMERICSERV : Z := 1024.

(** The interface looked for: it has an IPv4 address and the name. *)
Definition is_wanted (iface : string) (i : IfAddr) : bool :=
  match ifa_addr i with
  | Some (family, _) => (family =? AF_INET) && bool_decide (iface = ifa_name i)
  | None => false
  end.

Definition getIfaceIP (iface : string) : Sys string :=
  r ← sys getifaddrs;
  if (r : Z * list IfAddr).1 =? -1 then Done ""
  else
    ip ← match list_find (λ i, is_wanted iface i = true) r.2 with
         | Some (_, mkIfAddr _ (Some (_, address))) => sys (getnameinfo address)
         | _ => Done ""
         end;
    _ ← sys freeifaddrs;
    Done ip.

Definition setNonBlocking (fd : Z) : Sys bool :=
  flags ← sys (fcntl_getfl fd);
  if nonblocking_flags flags then Done true
  else
    rc ← sys (fcntl_setfl fd (Z.lor flags O_NONBLOCK));
    Done (negb ((rc : Z) =? -1)).

Definition disableNagle (fd : Z) : Sys bool :=
  rc ← sys (setsockopt fd TCP_NODELAY); Done (negb ((rc : Z) =? -1)).
Definition setSOTimestamp (fd : Z) : Sys bool :=
  rc ← sys (setsockopt fd SO_TIMESTAMP); Done (negb ((rc : Z) =? -1)).
Definition join (fd : Z) (ip : string) : Sys bool :=
  rc ← sys (setsockopt fd (IP_ADD_MEMBERSHIP ip)); Done (negb ((rc : Z) =? -1)).

(** A step that is taken only in some configurations. *)
Definition when (b : bool) (p : Sys unit) : Sys unit := if b then p else Done tt.

(** [htons] of an [int]: a 16-bit port. *)
Definition port16 (port : Z) : Z := port mod 2 ^ 16.

(** The body of the loop of [createSocket], for one resolved address. *)
Definition open_one (cfg : SocketCfg) (rp : AddrInfo) : Sys Z :=
  fd ← sys (socket (ai_family rp) (ai_socktype rp) (ai_protocol rp));
  _ ← sys_assert (negb ((fd : Z) =? -1));
  ok ← setNonBlocking fd;
  _ ← sys_assert ok;
  _ ← when (negb (is_udp_ cfg)) (ok ← disableNagle fd; sys_assert ok);
  _ ← when (negb (is_listening_ cfg))
        (rc ← sys (connect fd (ai_addr rp)); sys_assert (negb ((rc : Z) =? 1)));
  _ ← when (is_listening_ cfg)
        (rc ← sys (setsockopt fd SO_REUSEADDR); sys_assert ((rc : Z) =? 0));
  _ ← when (is_listening_ cfg)
        (rc ← sys (bind_to fd (if is_udp_ cfg then AnyAddress (port16 (port_ cfg))
                               else Resolved (ai_addr rp)));
         sys_assert ((rc : Z) =? 0));
  _ ← when (negb (is_udp_ cfg) && is_listening_ cfg)
        (rc ← sys (listen_on fd MaxTCPServerBacklog); sys_assert ((rc : Z) =? 0));
  _ ← when (needs_so_timestamp_ cfg) (ok ← setSOTimestamp fd; sys_assert ok);
  Done fd.

(** The loop: [socket_fd] is that of the last address, or -1. *)
Fixpoint open_all (cfg : SocketCfg) (socket_fd : Z) (rps : list AddrInfo) : Sys Z :=
  match rps with
  | [] => Done socket_fd
  | rp :: rps => fd ← open_one cfg rp; open_all cfg fd rps
  end.

Definition input_flags (cfg : SocketCfg) : Z :=
  Z.lor (if is_listening_ cfg then AI_PASSIVE else 0) (Z.lor AI_NUMERICHOST AI_NUMERICSERV).

Definition createSocket (cfg : SocketCfg) : Sys Z :=
  ip ← (if bool_decide (ip_ cfg = "") then getIfaceIP (iface_ cfg) else Done (ip_ cfg));
  r ← sys (getaddrinfo ip (to_string (port_ cfg)) (input_flags cfg) AF_INET
             (if is_udp_ cfg then SOCK_DGRAM else SOCK_STREAM)
             (if is_udp_ cfg then IPPROTO_UDP else IPPROTO_TCP));
  _ ← sys_assert ((r : Z * list AddrInfo).1 =? 0);
  open_all cfg (-1) r.2.

(** ** The sockets of the program *)

(** [TCPSocket::connect] and [McastSocket::init]. *)
Definition tcp_connect (ip iface : string) (port : Z) (is_listening : bool) : Sys Z :=
  createSocket (mkSocketCfg ip iface port false is_listening true).
Definition mcast_init (ip iface : string) (port : Z) (is_listening : bool) : Sys Z :=
  createSocket (mkSocketCfg ip iface port true is_listening false).

(** [McastSocket::leave]: the descriptor is closed and forgotten. *)
Definition mcast_leave (fd : Z) : Sys Z :=
  _ ← sys (close fd); Done (-1).

(** [TCPServer::addToEpollList] and [TCPServer::listen]. *)
Definition addToEpollList (epoll_fd fd : Z) : Sys bool :=
  rc ← sys (epoll_add epoll_fd fd); Done ((rc : Z) =? 0).
Definition tcp_server_listen (iface : string) (port : Z) : Sys (Z * Z) :=
  epoll_fd ← sys epoll_create;
  _ ← sys_assert (0 <=? (epoll_fd : Z));
  fd ← tcp_connect "" iface port true;
  _ ← sys_assert (0 <=? fd);
  ok ← addToEpollList epoll_fd fd;
  _ ← sys_assert ok;
  Done (epoll_fd, fd).

(** [OrderGateway::start], and the constructors of the publisher, the synthesizer and the
    consumer; [startSnapshotSync] opens the snapshot socket as the latter does. *)
Definition gateway_start (ip iface : string) (port : Z) : Sys Z :=
  fd ← tcp_connect ip iface port false;
  _ ← sys_assert (0 <=? fd);
  Done fd.
Definition publisher_open (ip iface : string) (port : Z) : Sys Z :=
  fd ← mcast_init ip iface port false;
  _ ← sys_assert (0 <=? fd);
  Done fd.
Definition consumer_open (ip iface : string) (port : Z) : Sys Z :=
  fd ← mcast_init ip iface port true;
  _ ← sys_assert (0 <=? fd);
  ok ← join fd ip;
  _ ← sys_assert ok;
  Done fd.

(** [main] of the two programs: the exchange opens the sockets of the incremental and the
    snapshot stream and listens for clients; the trading program connects to it and joins
    the incremental stream. *)
Definition exchange_open : Sys (Z * Z * (Z * Z)) :=
  incremental ← publisher_open "233.252.14.3" "lo" 20001;
  snapshot ← publisher_open "233.252.14.1" "lo" 20000;
  server ← tcp_server_listen "lo" 12345;
  Done (incremental, snapshot, server).
Definition trading_open : Sys (Z * Z) :=
  gateway ← gateway_start "127.0.0.1" "lo" 12345;
  incremental ← consumer_open "233.252.14.3" "lo" 20001;
  Done (gateway, incremental).

(** ** What a successful run has set up *)

(** The state a socket is configured to have; a socket that does not listen may or may not be
    connected. *)
Definition configured (cfg : SocketCfg) (rp : AddrInfo) (connected : option Z) : SockState :=
  mkSockState true (negb (is_udp_ cfg)) (is_listening_ cfg) (needs_so_timestamp_ cfg) connected
    (if is_listening_ cfg
     then Some (if is_udp_ cfg then AnyAddress (port16 (port_ cfg)) else Resolved (ai_addr rp))
     else None)
    (if negb (is_udp_ cfg) && is_listening_ cfg then Some MaxTCPServerBacklog else None) [].

Lemma nonblocking_lor flags : nonblocking_flags (Z.lor flags O_NONBLOCK) = true.
Proof.
  unfold nonblocking_flags. apply negb_true_iff, Z.eqb_neq. intros H.
  apply (f_equal (λ z, Z.testbit z 11)) in H. rewrite Z.land_spec, Z.lor_spec in H.
  change (Z.testbit O_NONBLOCK 11) with true in H. by rewrite orb_true_r in H.
Qed.

Section Configure.
Context (kernel : list Event → ∀ c : Call, answer c).

(** [fcntl(F_GETFL)] fails on a descriptor that is not open, and only then. *)
Definition getfl_answers : Prop :=
  ∀ tr fd, is_Some (sockets_after tr !! fd) → kernel tr (fcntl_getfl fd) ≠ -1.
Context (Hgetfl : getfl_answers).
Implicit Types (tr : list Event) (fd : Z) (s : SockState).

(** A step that ends well takes the state of socket [fd] along [R], and touches no other. *)
Definition changes (fd : Z) (R : SockState → SockState → Prop) (p : Sys unit) : Prop :=
  ∀ tr s x tr', sockets_after tr !! fd = Some s → run kernel p tr = (Ok x, tr') →
  ∃ s', R s s' ∧ sockets_after tr' = <[fd := s']> (sockets_after tr).

Lemma changes_when fd (b : bool) (p : Sys unit) (R : SockState → SockState → Prop) : changes fd R p →
  changes fd (λ s s', if b then R s s' else s' = s) (when b p).
Proof.
  intros Hp tr s x tr' Hs Hrun. destruct b; [by eapply Hp|]. injection Hrun as <- <-.
  exists s. split; [done|]. by rewrite insert_id.
Qed.

Lemma alter_open fd (m : gmap Z SockState) s (f : SockState → SockState) :
  m !! fd = Some s → alter f fd m = <[fd := f s]> m.
Proof. intros H. rewrite <-(insert_id m fd s) at 1 by done. by rewrite alter_insert, decide_True. Qed.

(** One call whose answer is checked. *)
Lemma changes_check fd c (check : answer c → bool) (f : answer c → SockState → SockState) :
  (∀ m s x, m !! fd = Some s → check x = true → sock_step m (mkEvent c x) = <[fd := f x s]> m) →
  changes fd (λ s s', ∃ x, s' = f x s) (x ← sys c; sys_assert (check x)).
Proof.
  intros Hstep tr s x tr' Hs Hrun.
  change (run kernel (sys_assert (check (kernel tr c))) (tr ++ [mkEvent c (kernel tr c)]) = (Ok x, tr'))
    in Hrun. apply run_assert_Ok in Hrun as [Hc ->]. eexists. split; [by eexists|].
  rewrite sockets_after_snoc. by apply Hstep.
Qed.

Lemma changes_opt fd o :
  changes fd (λ s s', ∃ x : Z, s' = set_opt o s)
    (x ← sys (setsockopt fd o); sys_assert (negb ((x : Z) =? -1))).
Proof.
  apply (changes_check fd (setsockopt fd o) (λ x, negb (x =? -1)) (λ _, set_opt o)).
  intros m s x Hs Hx. cbn [sock_step]. apply negb_true_iff in Hx. rewrite Hx. by apply alter_open.
Qed.
Lemma changes_reuse fd :
  changes fd (λ s s', ∃ x : Z, s' = set_opt SO_REUSEADDR s)
    (x ← sys (setsockopt fd SO_REUSEADDR); sys_assert ((x : Z) =? 0)).
Proof.
  apply (changes_check fd (setsockopt fd SO_REUSEADDR) (λ x, x =? 0) (λ _, set_opt SO_REUSEADDR)).
  intros m s x Hs ->%Z.eqb_eq. by apply alter_open.
Qed.
Lemma changes_bound fd a :
  changes fd (λ s s', ∃ x : Z, s' = set_bound a s) (x ← sys (bind_to fd a); sys_assert ((x : Z) =? 0)).
Proof.
  apply (changes_check fd (bind_to fd a) (λ x, x =? 0) (λ _, set_bound a)).
  intros m s x Hs ->%Z.eqb_eq. by apply alter_open.
Qed.
Lemma changes_backlog fd n :
  changes fd (λ s s', ∃ x : Z, s' = set_backlog n s)
    (x ← sys (listen_on fd n); sys_assert ((x : Z) =? 0)).
Proof.
  apply (changes_check fd (listen_on fd n) (λ x, x =? 0) (λ _, set_backlog n)).
  intros m s x Hs ->%Z.eqb_eq. by apply alter_open.
Qed.
(** [connect] may fail. *)
Lemma changes_connected fd a :
  changes fd (λ s s', ∃ x : Z, s' = if x =? 0 then set_connected a s else s)
    (x ← sys (connect fd a); sys_assert (negb ((x : Z) =? 1))).
Proof.
  apply (changes_check fd (connect fd a) (λ x, negb (x =? 1))
    (λ x s, if x =? 0 then set_connected a s else s)).
  intros m s x Hs _. cbn [sock_step]. destruct (x =? 0); [by apply alter_open|by rewrite insert_id].
Qed.

(** A call, then the rest of the program. *)
Lemma run_call {A} c (g : answer c → Sys A) tr r :
  run kernel (x ← sys c; g x) tr = r → run kernel (g (kernel tr c)) (tr ++ [mkEvent c (kernel tr c)]) = r.
Proof. done. Qed.

Lemma setNonBlocking_spec fd tr s tr' :
  sockets_after tr !! fd = Some s → run kernel (setNonBlocking fd) tr = (Ok true, tr') →
  sockets_after tr' = <[fd := set_nonblocking true s]> (sockets_after tr).
Proof.
  intros Hs Hrun. apply (run_call (fcntl_getfl fd)) in Hrun.
  set (flags := kernel tr (fcntl_getfl fd)) in *.
  assert (sockets_after (tr ++ [mkEvent (fcntl_getfl fd) flags]) =
    <[fd := set_nonblocking (nonblocking_flags flags) s]> (sockets_after tr)) as Hm.
  { rewrite sockets_after_snoc. cbn [sock_step].
    rewrite (proj2 (Z.eqb_neq flags (-1))) by (apply Hgetfl; by eexists). by apply alter_open. }
  destruct (nonblocking_flags flags); [by injection Hrun as <-|].
  apply (run_call (fcntl_setfl fd _)) in Hrun. injection Hrun as Hok <-.
  rewrite sockets_after_snoc, Hm. cbn [sock_step]. apply negb_true_iff in Hok. rewrite Hok.
  rewrite nonblocking_lor, (alter_open _ _ (set_nonblocking false s)) by by rewrite lookup_insert_eq.
  by rewrite insert_insert_eq.
Qed.

(** A step, then the rest of the program. *)
Lemma changes_then {A} fd R (p : Sys unit) (g : unit → Sys A) tr s a tr' :
  changes fd R p → sockets_after tr !! fd = Some s → run kernel (p ≫= g) tr = (Ok a, tr') →
  ∃ s' tr1, R s s' ∧ sockets_after tr1 = <[fd := s']> (sockets_after tr) ∧
    sockets_after tr1 !! fd = Some s' ∧ run kernel (g tt) tr1 = (Ok a, tr').
Proof.
  intros Hp Hs Hrun. apply run_bind_Ok in Hrun as ([] & tr1 & H1 & Hrun).
  destruct (Hp _ _ _ _ Hs H1) as (s' & HR & E). exists s', tr1.
  split_and!; try done. by rewrite E, lookup_insert_eq.
Qed.

Lemma when_eq (b : bool) s s' (f : SockState → SockState) :
  (if b then ∃ _ : Z, s' = f s else s' = s) → s' = if b then f s else s.
Proof. destruct b; [by intros [_ ?]|done]. Qed.

Lemma open_one_spec cfg rp tr fd tr' :
  run kernel (open_one cfg rp) tr = (Ok fd, tr') →
  fd = kernel tr (socket (ai_family rp) (ai_socktype rp) (ai_protocol rp)) ∧
  fd ≠ -1 ∧ ∃ conn, (is_listening_ cfg = true → conn = None) ∧
    sockets_after tr' = <[fd := configured cfg rp conn]> (sockets_after tr).
Proof.
  intros Hrun. apply (run_call (socket (ai_family rp) (ai_socktype rp) (ai_protocol rp))) in Hrun.
  set (fd0 := kernel tr _) in Hrun. set (tr0 := tr ++ _) in Hrun. cbv beta in Hrun.
  apply run_bind_Ok in Hrun as ([] & tr1 & [Hfd ->]%run_assert_Ok & Hrun).
  apply negb_true_iff in Hfd.
  assert (sockets_after tr0 = <[fd0 := SockState_new]> (sockets_after tr)) as E0.
  { unfold tr0. rewrite sockets_after_snoc. cbn [sock_step]. fold fd0. by rewrite Hfd. }
  assert (sockets_after tr0 !! fd0 = Some SockState_new) as S0 by by rewrite E0, lookup_insert_eq.
  apply run_bind_Ok in Hrun as (ok & tr1 & Hnb & Hrun).
  apply run_bind_Ok in Hrun as ([] & tr2 & [-> ->]%run_assert_Ok & Hrun).
  pose proof (setNonBlocking_spec fd0 tr0 _ tr1 S0 Hnb) as E1.
  assert (sockets_after tr1 !! fd0 = Some (set_nonblocking true SockState_new)) as S1
    by by rewrite E1, lookup_insert_eq.
  apply (changes_then fd0 _ _ _ _ _ _ _ (changes_when _ _ _ _ (changes_opt fd0 TCP_NODELAY)) S1) in Hrun
    as (s2 & tr2 & R2 & E2 & S2 & Hrun).
  apply (changes_then fd0 _ _ _ _ _ _ _ (changes_when _ _ _ _ (changes_connected fd0 _)) S2) in Hrun
    as (s3 & tr3 & R3 & E3 & S3 & Hrun).
  apply (changes_then fd0 _ _ _ _ _ _ _ (changes_when _ _ _ _ (changes_reuse fd0)) S3) in Hrun
    as (s4 & tr4 & R4 & E4 & S4 & Hrun).
  apply (changes_then fd0 _ _ _ _ _ _ _ (changes_when _ _ _ _ (changes_bound fd0 _)) S4) in Hrun
    as (s5 & tr5 & R5 & E5 & S5 & Hrun).
  apply (changes_then fd0 _ _ _ _ _ _ _ (changes_when _ _ _ _ (changes_backlog fd0 _)) S5) in Hrun
    as (s6 & tr6 & R6 & E6 & S6 & Hrun).
  apply (changes_then fd0 _ _ _ _ _ _ _ (changes_when _ _ _ _ (changes_opt fd0 SO_TIMESTAMP)) S6) in Hrun
    as (s7 & tr7 & R7 & E7 & S7 & [= <- <-]).
  split; [done|]. split; [by apply Z.eqb_neq|].
  rewrite E7, E6, E5, E4, E3, E2, E1, E0, !insert_insert_eq.
  apply when_eq in R2, R4, R5, R6, R7. clear -R2 R3 R4 R5 R6 R7. unfold configured.
  destruct (is_listening_ cfg); cbn [negb] in R3.
  - exists None. split; [done|]. f_equal. subst. by destruct (is_udp_ cfg), (needs_so_timestamp_ cfg).
  - destruct R3 as [x R3]. exists (if x =? 0 then Some (ai_addr rp) else None). split; [done|].
    f_equal. subst. by destruct (x =? 0), (is_udp_ cfg), (needs_so_timestamp_ cfg).
Qed.
Lemma open_all_spec cfg rps : ∀ fd0 tr fd tr',
  run kernel (open_all cfg fd0 rps) tr = (Ok fd, tr') → ∃ made,
    sockets_after tr' = foldl (λ m x, <[x.1 := x.2]> m) (sockets_after tr) made ∧
    Forall2 (λ x rp, x.1 ≠ -1 ∧ ∃ conn, (is_listening_ cfg = true → conn = None) ∧
      x.2 = configured cfg rp conn) made rps ∧
    fd = default fd0 (fst <$> last made).
Proof.
  induction rps as [|rp rps IH]; intros fd0 tr fd tr' Hrun.
  { injection Hrun as <- <-. by exists []. }
  apply run_bind_Ok in Hrun as (fd1 & tr1 & H1 & Hrun).
  destruct (open_one_spec _ _ _ _ _ H1) as (_ & Hfd & conn & Hc & E1).
  destruct (IH _ _ _ _ Hrun) as (made & E & Hall & Hlast).
  exists ((fd1, configured cfg rp conn) :: made). split_and!.
  - cbn [foldl fst snd]. by rewrite <-E1.
  - constructor; [|done]. split; [done|]. by exists conn.
  - rewrite Hlast, last_cons. by destruct (last made).
Qed.

(** A new socket gets a number that no open socket has. *)
Definition fresh_fds : Prop := ∀ tr family type protocol,
  sockets_after tr !! (kernel tr (socket family type protocol) : Z) = None.

Lemma open_all_new cfg rps : fresh_fds → ∀ fd0 tr fd tr',
  run kernel (open_all cfg fd0 rps) tr = (Ok fd, tr') →
  sockets_after tr ⊆ sockets_after tr' ∧ (fd = fd0 ∨ sockets_after tr !! fd = None).
Proof.
  intros Hfresh. induction rps as [|rp rps IH]; intros fd0 tr fd tr' Hrun.
  { injection Hrun as <- <-. by split; [|left]. }
  apply run_bind_Ok in Hrun as (fd1 & tr1 & H1 & Hrun).
  destruct (open_one_spec _ _ _ _ _ H1) as (E & _ & conn & _ & E1).
  assert (sockets_after tr !! fd1 = None) as Hnew by (rewrite E; apply Hfresh).
  assert (sockets_after tr ⊆ sockets_after tr1) as Hsub by (rewrite E1; by apply insert_subseteq).
  destruct (IH _ _ _ _ Hrun) as [Hsub' Hfd]. split; [by etrans|]. right.
  destruct Hfd as [->|Hfd]; [done|]. by eapply lookup_weaken_None.
Qed.
End Configure.

(** *** Resolution leaves the sockets alone *)
Lemma getIfaceIP_keeps iface : keeps_sockets (getIfaceIP iface).
Proof.
  unfold getIfaceIP. apply keeps_bind; [by apply (keeps_sys getifaddrs)|].
  intros r. case_match; [auto with sys|].
  apply keeps_bind; [|intros ip; apply keeps_bind; [by apply (keeps_sys freeifaddrs)|auto with sys]].
  repeat case_match; auto with sys. by apply (keeps_sys (getnameinfo _)).
Qed.

Lemma getIfaceIP_asserts iface : asserts_only (getIfaceIP iface).
Proof. unfold getIfaceIP. apply asserts_only_bind; [by intros x|]. intros r.
  case_match; [auto with sys|]. apply asserts_only_bind; [|by intros ip x].
  by repeat case_match.
Qed.

Lemma when_asserts b p : asserts_only p → asserts_only (when b p).
Proof. by destruct b. Qed.
#[export] Hint Resolve when_asserts getIfaceIP_asserts : sys.

Lemma setNonBlocking_asserts fd : asserts_only (setNonBlocking fd).
Proof. intros flags. cbn. by destruct (nonblocking_flags _). Qed.
#[export] Hint Resolve setNonBlocking_asserts : sys.
Lemma open_one_asserts cfg rp : asserts_only (open_one cfg rp).
Proof. unfold open_one, disableNagle, setSOTimestamp. auto 30 with sys. Qed.
#[export] Hint Resolve open_one_asserts : sys.
Lemma open_all_asserts cfg rps : ∀ fd, asserts_only (open_all cfg fd rps).
Proof. induction rps as [|rp rps IH]; intros fd; [done|]. by apply asserts_only_bind; auto with sys. Qed.
Lemma createSocket_asserts cfg : asserts_only (createSocket cfg).
Proof.
  unfold createSocket. apply asserts_only_bind; [case_match; auto with sys|]. intros ip.
  apply asserts_only_bind; [auto with sys|]. intros r.
  apply asserts_only_bind; [auto with sys|]. intros _. apply open_all_asserts.
Qed.
#[export] Hint Resolve createSocket_asserts : sys.

(** The answer of [getaddrinfo] that [createSocket] works on. *)
Definition resolution (kernel : list Event → ∀ c : Call, answer c) cfg (tr : list Event) (r : Z * list AddrInfo) : Prop :=
  ∃ ip tr1, (ip_ cfg ≠ "" → ip = ip_ cfg) ∧ tr `prefix_of` tr1 ∧
    r = kernel tr1 (getaddrinfo ip (to_string (port_ cfg)) (input_flags cfg) AF_INET
          (if is_udp_ cfg then SOCK_DGRAM else SOCK_STREAM)
          (if is_udp_ cfg then IPPROTO_UDP else IPPROTO_TCP)).

(** A socket for every address, in the order of the addresses. *)
Definition made_for cfg (made : list (Z * SockState)) (rps : list AddrInfo) : Prop :=
  Forall2 (λ x rp, x.1 ≠ -1 ∧ ∃ conn, (is_listening_ cfg = true → conn = None) ∧
    x.2 = configured cfg rp conn) made rps.
Definition all_open (m : gmap Z SockState) (made : list (Z * SockState)) : gmap Z SockState :=
  foldl (λ m x, <[x.1 := x.2]> m) m made.

Lemma createSocket_resolves kernel cfg tr fd tr' :
  run kernel (createSocket cfg) tr = (Ok fd, tr') →
  ∃ r tr1, resolution kernel cfg tr r ∧ r.1 = 0 ∧ sockets_after tr1 = sockets_after tr ∧
    run kernel (open_all cfg (-1) r.2) tr1 = (Ok fd, tr').
Proof.
  intros Hrun. apply run_bind_Ok in Hrun as (ip & tr1 & H1 & Hrun).
  assert (sockets_after tr1 = sockets_after tr ∧ tr `prefix_of` tr1 ∧ (ip_ cfg ≠ "" → ip = ip_ cfg))
    as (E1 & Hpre & Hip).
  { case_bool_decide; [|by injection H1 as <- <-]. split_and!; [by eapply getIfaceIP_keeps| |done].
    pose proof (run_prefix kernel (getIfaceIP (iface_ cfg)) tr) as Hp. by rewrite H1 in Hp. }
  apply (run_call kernel (getaddrinfo _ _ _ _ _ _)) in Hrun.
  apply run_bind_Ok in Hrun as ([] & tr2 & [H0%Z.eqb_eq ->]%run_assert_Ok & Hrun).
  eexists _, _. split_and!; [by exists ip, tr1|done| |exact Hrun].
  by rewrite sockets_after_snoc, E1.
Qed.

Lemma createSocket_spec kernel cfg tr fd tr' : getfl_answers kernel →
  run kernel (createSocket cfg) tr = (Ok fd, tr') → ∃ r made,
    resolution kernel cfg tr r ∧ r.1 = 0 ∧ made_for cfg made r.2 ∧
    sockets_after tr' = all_open (sockets_after tr) made ∧ fd = default (-1) (fst <$> last made).
Proof.
  intros Hg Hrun. destruct (createSocket_resolves _ _ _ _ _ Hrun) as (r & tr1 & Hr & H0 & E1 & Hall).
  destruct (open_all_spec kernel Hg _ _ _ _ _ _ Hall) as (made & E & H & Hfd). exists r, made.
  split_and!; [done..| |exact Hfd]. by rewrite E, E1.
Qed.

(** The sockets that are open stay as they are, and the new one is none of them. *)
Definition opens (kernel : list Event → ∀ c : Call, answer c) (tr : list Event) (fd : Z)
    (tr' : list Event) : Prop :=
  fresh_fds kernel → sockets_after tr ⊆ sockets_after tr' ∧ sockets_after tr !! fd = None.

Lemma createSocket_opens kernel cfg tr fd tr' : getfl_answers kernel →
  run kernel (createSocket cfg) tr = (Ok fd, tr') → fd ≠ -1 → opens kernel tr fd tr'.
Proof.
  intros Hg Hrun Hfd Hfresh. destruct (createSocket_resolves _ _ _ _ _ Hrun) as (r & tr1 & _ & _ & <- & Hall).
  destruct (open_all_new _ Hg _ _ Hfresh _ _ _ _ Hall) as [Hsub [?|Hnew]]; [done|by split].
Qed.

(** *** Runs in which no failure is noticed *)
Lemma succeeds_when {B} (good : B → Prop) b p (g : unit → Sys B) :
  succeeds (λ _, True) p → succeeds good (g tt) → succeeds good (when b p ≫= g).
Proof. intros Hp Hg. destruct b; [|done]. eapply succeeds_bind; [exact Hp|]. by intros []. Qed.

(** A number that is 0 is not -1. *)
Lemma answered_zero (x : Z) : negb (x =? 0) = false →
  (x =? 0) = true ∧ (x =? -1) = false.
Proof. intros H%negb_false_iff. split; [done|]. by apply Z.eqb_eq in H as ->. Qed.
Ltac checked :=
  intros x Hx; cbn in *; first [rewrite Hx; done|
    destruct (answered_zero x Hx) as (?H0 & ?Hm); rewrite ?H0, ?Hm; done].

Lemma setNonBlocking_succeeds fd : succeeds (λ b, b = true) (setNonBlocking fd).
Proof.
  intros flags Hf. cbn. destruct (nonblocking_flags flags); [done|]. intros rc Hrc. cbn in *. by rewrite Hrc.
Qed.

Lemma open_one_succeeds cfg rp : succeeds (λ fd, 0 ≤ fd) (open_one cfg rp).
Proof.
  apply (succeeds_call _ (socket _ _ _)). intros fd Hfd. cbn [noticed] in Hfd. apply Z.ltb_ge in Hfd.
  apply succeeds_assert; [by rewrite (proj2 (Z.eqb_neq fd (-1))) by lia|].
  eapply succeeds_bind; [apply setNonBlocking_succeeds|]. intros ok ->. apply succeeds_assert; [done|].
  do 6 (apply succeeds_when; [checked|]). done.
Qed.

Lemma open_all_succeeds cfg rps : ∀ fd, succeeds (λ fd', 0 ≤ fd' ∨ fd' = fd ∧ rps = []) (open_all cfg fd rps).
Proof.
  induction rps as [|rp rps IH]; intros fd; [by right|].
  eapply succeeds_bind; [apply open_one_succeeds|]. intros fd1 H1.
  eapply succeeds_weaken; [apply IH|]. intros fd' [H|[-> _]]; by left.
Qed.

Lemma createSocket_succeeds cfg : succeeds (λ fd, 0 ≤ fd) (createSocket cfg).
Proof.
  assert (∀ iface, succeeds (λ _, True) (getIfaceIP iface)) as Hip.
  { intros iface. apply (succeeds_call _ getifaddrs). intros r _. case_match; [done|].
    eapply (succeeds_bind (λ _, True)); [|by intros ip _ x _]. by repeat case_match. }
  eapply (succeeds_bind (λ _, True)); [by case_match|]. intros ip _.
  apply (succeeds_call _ (getaddrinfo _ _ _ _ _ _)). intros r [Hr%negb_false_iff Hne]%orb_false_iff.
  apply succeeds_assert; [done|]. eapply succeeds_weaken; [apply open_all_succeeds|].
  intros fd [H|[-> Hnil]]; [done|]. apply bool_decide_eq_false in Hne. by rewrite Hnil in Hne.
Qed.

Lemma exchange_open_asserts : asserts_only exchange_open.
Proof.
  unfold exchange_open, publisher_open, tcp_server_listen, mcast_init, tcp_connect, addToEpollList.
  auto 30 with sys.
Qed.
Lemma trading_open_asserts : asserts_only trading_open.
Proof. unfold trading_open, gateway_start, consumer_open, mcast_init, tcp_connect, join. auto 30 with sys. Qed.

(** ** Theorems *)

(** [createSocket] never hangs or faults but at an [ASSERT], and that only after a call
    whose answer it takes for a failure; otherwise it has opened one socket for every
    resolved address, each non-blocking and set up for the protocol and direction that was
    asked for, touched no other socket, and returns the last one. *)
Theorem createSocket_configures kernel cfg tr : getfl_answers kernel →
  match run kernel (createSocket cfg) tr with
  | (Ok fd, tr') => ∃ r made, resolution kernel cfg tr r ∧ r.1 = 0 ∧ made_for cfg made r.2 ∧
      sockets_after tr' = all_open (sockets_after tr) made ∧ fd = default (-1) (fst <$> last made)
  | (Err f, tr') => f = AssertFailed ∧ ∃ new e, tr' = tr ++ new ∧ e ∈ new ∧ noticed e = true
  end.
Proof.
  intros Hg. destruct (run _ _ _) as [[fd|f] tr'] eqn:E; [by eapply createSocket_spec|].
  split; [by eapply asserts_only_run; [apply createSocket_asserts|]|].
  by destruct (succeeds_run _ _ _ _ _ _ (createSocket_succeeds cfg) E) as [(? & ? & _)|H].
Qed.

Lemma last_open m made fd s : last made = Some (fd, s) → all_open m made !! fd = Some s.
Proof.
  intros (made' & ->)%last_Some. unfold all_open. rewrite foldl_app. cbn. apply lookup_insert_eq.
Qed.
Lemma made_last cfg made rps fd : made_for cfg made rps → fd = default (-1) (fst <$> last made) →
  0 ≤ fd → ∃ rp conn, last made = Some (fd, configured cfg rp conn) ∧
    (is_listening_ cfg = true → conn = None).
Proof.
  intros Hmade -> Hfd. destruct (last made) as [[fd s]|] eqn:E; [|cbn in Hfd; lia].
  rewrite last_lookup in E. destruct (Forall2_lookup_l _ _ _ _ _ Hmade E) as (rp & _ & _ & conn & H & Hs).
  cbn in Hs. subst s. by exists rp, conn.
Qed.
Lemma socket_ready kernel cfg tr fd tr' : getfl_answers kernel →
  run kernel (createSocket cfg) tr = (Ok fd, tr') → 0 ≤ fd → ∃ rp conn,
    sockets_after tr' !! fd = Some (configured cfg rp conn) ∧ (is_listening_ cfg = true → conn = None).
Proof.
  intros Hg Hrun Hfd. destruct (createSocket_spec _ _ _ _ _ Hg Hrun) as (r & made & _ & _ & Hm & E & Hlast).
  destruct (made_last _ _ _ _ Hm Hlast Hfd) as (rp & conn & H & Hc). exists rp, conn.
  by rewrite E, (last_open _ _ _ _ H).
Qed.

Section Ready.
Context (kernel : list Event → ∀ c : Call, answer c) (Hg : getfl_answers kernel).
Implicit Types (tr : list Event) (iface ip : string) (port fd : Z).

(** Where a component's socket has been made and its number checked. *)
Lemma ready_then {A} cfg (g : Z → Sys A) tr a tr' :
  run kernel (fd ← createSocket cfg; _ ← sys_assert (0 <=? fd); g fd) tr = (Ok a, tr') →
  ∃ fd tr1 rp conn, 0 ≤ fd ∧ sockets_after tr1 !! fd = Some (configured cfg rp conn) ∧
    (is_listening_ cfg = true → conn = None) ∧ opens kernel tr fd tr1 ∧
    run kernel (g fd) tr1 = (Ok a, tr').
Proof.
  intros Hrun. apply run_bind_Ok in Hrun as (fd & tr1 & H1 & Hrun).
  apply run_bind_Ok in Hrun as ([] & tr2 & [Hfd%Z.leb_le ->]%run_assert_Ok & Hrun).
  destruct (socket_ready _ _ _ _ _ Hg H1 Hfd) as (rp & conn & Hs & Hc).
  exists fd, tr1, rp, conn. split_and!; try done. apply (createSocket_opens _ _ _ _ _ Hg H1). lia.
Qed.

Lemma listen_ready iface port tr ep fd tr' :
  run kernel (tcp_server_listen iface port) tr = (Ok (ep, fd), tr') →
  0 ≤ ep ∧ 0 ≤ fd ∧ last tr' = Some (mkEvent (epoll_add ep fd) 0) ∧
  ∃ a, sockets_after tr' !! fd =
    Some (mkSockState true true true true None (Some (Resolved a)) (Some MaxTCPServerBacklog) []) ∧
    opens kernel tr fd tr'.
Proof.
  intros Hrun. apply (run_call kernel epoll_create) in Hrun.
  apply run_bind_Ok in Hrun as ([] & tr1 & [Hep%Z.leb_le ->]%run_assert_Ok & Hrun).
  apply (ready_then (mkSocketCfg _ _ _ _ _ _)) in Hrun as (fd1 & tr1 & rp & conn & Hfd & Hs & Hc & Hop & Hrun).
  rewrite (Hc eq_refl) in Hs. apply (run_call kernel (epoll_add _ _)) in Hrun.
  apply run_bind_Ok in Hrun as ([] & tr2 & [Hok%Z.eqb_eq ->]%run_assert_Ok & [= <- <- <-]).
  split_and!; [done..|by rewrite last_snoc, Hok|].
  exists (ai_addr rp). split; [rewrite sockets_after_snoc; exact Hs|].
  intros Hf. destruct (Hop Hf) as [Hsub Hnew]. rewrite sockets_after_snoc in Hsub, Hnew |- *.
  by split.
Qed.

Lemma gateway_ready ip iface port tr fd tr' :
  run kernel (gateway_start ip iface port) tr = (Ok fd, tr') → 0 ≤ fd ∧
  (∃ conn, sockets_after tr' !! fd = Some (mkSockState true true false true conn None None [])) ∧
  opens kernel tr fd tr'.
Proof.
  intros Hrun. apply (ready_then (mkSocketCfg _ _ _ _ _ _)) in Hrun
    as (fd1 & tr1 & rp & conn & Hfd & Hs & _ & Hop & [= <- <-]).
  split; [done|]. split; [by exists conn|done].
Qed.

Lemma publisher_ready ip iface port tr fd tr' :
  run kernel (publisher_open ip iface port) tr = (Ok fd, tr') → 0 ≤ fd ∧
  (∃ conn, sockets_after tr' !! fd = Some (mkSockState true false false false conn None None [])) ∧
  opens kernel tr fd tr'.
Proof.
  intros Hrun. apply (ready_then (mkSocketCfg _ _ _ _ _ _)) in Hrun
    as (fd1 & tr1 & rp & conn & Hfd & Hs & _ & Hop & [= <- <-]).
  split; [done|]. split; [by exists conn|done].
Qed.

Lemma consumer_ready ip iface port tr fd tr' :
  run kernel (consumer_open ip iface port) tr = (Ok fd, tr') → 0 ≤ fd ∧
  sockets_after tr' !! fd =
    Some (mkSockState true false true false None (Some (AnyAddress (port16 port))) None [ip]) ∧
  opens kernel tr fd tr'.
Proof.
  intros Hrun. apply (ready_then (mkSocketCfg _ _ _ _ _ _)) in Hrun
    as (fd1 & tr1 & rp & conn & Hfd & Hs & Hc & Hop & Hrun).
  rewrite (Hc eq_refl) in Hs. apply (run_call kernel (setsockopt _ _)) in Hrun.
  apply run_bind_Ok in Hrun as ([] & tr2 & [Hok%negb_true_iff ->]%run_assert_Ok & [= <- <-]).
  unfold opens. rewrite sockets_after_snoc. cbn [sock_step]. rewrite Hok, (alter_open _ _ _ _ Hs).
  split; [done|]. split; [apply lookup_insert_eq|]. intros Hf. destruct (Hop Hf) as [Hsub Hnew].
  split; [|exact Hnew]. by apply insert_subseteq_r.
Qed.
End Ready.

(** C37: The sockets of the two programs: when [main] of the exchange has gone through its
    start, the two publishers have datagram sockets and the order server listens, without
    delays and with receive timestamps, watched by epoll; when that of the trading program
    has, the gateway has a stream socket and the consumer is bound to its port and joined to
    its group.  All of a program's sockets are different and none waits for data.  A start
    that does not go through has stopped at an [ASSERT]. *)
Theorem programs_open_sockets kernel : getfl_answers kernel → fresh_fds kernel →
  match run kernel exchange_open [] with
  | (Ok (incremental, snapshot, (epoll_fd, server)), tr) =>
      NoDup [incremental; snapshot; server] ∧ last tr = Some (mkEvent (epoll_add epoll_fd server) 0) ∧
      ∃ conn conn' address,
        sockets_after tr !! incremental = Some (mkSockState true false false false conn None None []) ∧
        sockets_after tr !! snapshot = Some (mkSockState true false false false conn' None None []) ∧
        sockets_after tr !! server = Some (mkSockState true true true true None
          (Some (Resolved address)) (Some MaxTCPServerBacklog) [])
  | (Err f, _) => f = AssertFailed
  end ∧
  match run kernel trading_open [] with
  | (Ok (gateway, incremental), tr) =>
      gateway ≠ incremental ∧ ∃ conn,
        sockets_after tr !! gateway = Some (mkSockState true true false true conn None None []) ∧
        sockets_after tr !! incremental = Some (mkSockState true false true false None
          (Some (AnyAddress 20001)) None ["233.252.14.3"])
  | (Err f, _) => f = AssertFailed
  end.
Proof.
  intros Hg Hf. split.
  - destruct (run kernel exchange_open []) as [[[[inc snap] [ep srv]]|f] tr] eqn:Hrun;
      [|by eapply asserts_only_run; [apply exchange_open_asserts|]].
    apply run_bind_Ok in Hrun as (inc' & tr1 & H1 & Hrun).
    apply run_bind_Ok in Hrun as (snap' & tr2 & H2 & Hrun).
    apply run_bind_Ok in Hrun as ([ep' srv'] & tr3 & H3 & [= -> -> -> -> ->]).
    destruct (publisher_ready _ Hg _ _ _ _ _ _ H1) as (_ & [conn S1] & _).
    destruct (publisher_ready _ Hg _ _ _ _ _ _ H2) as (_ & [conn' S2] & O2).
    destruct (listen_ready _ Hg _ _ _ _ _ _ H3) as (_ & _ & Hlast & a & S3 & O3).
    destruct (O2 Hf) as [Sub2 N2], (O3 Hf) as [Sub3 N3].
    pose proof (lookup_weaken _ _ _ _ S1 Sub2) as S1'.
    split; [|split; [exact Hlast|]].
    + rewrite !NoDup_cons, !not_elem_of_cons. split_and!; try apply not_elem_of_nil; try apply NoDup_nil_2;
        congruence.
    + exists conn, conn', a. split_and!; [by eapply lookup_weaken|by eapply lookup_weaken|exact S3].
  - destruct (run kernel trading_open []) as [[[gw inc]|f] tr] eqn:Hrun;
      [|by eapply asserts_only_run; [apply trading_open_asserts|]].
    apply run_bind_Ok in Hrun as (gw' & tr1 & H1 & Hrun).
    apply run_bind_Ok in Hrun as (inc' & tr2 & H2 & [= -> -> ->]).
    destruct (gateway_ready _ Hg _ _ _ _ _ _ H1) as (_ & [conn S1] & _).
    destruct (consumer_ready _ Hg _ _ _ _ _ _ H2) as (_ & S2 & O2). destruct (O2 Hf) as [Sub N2].
    split; [congruence|]. exists conn. split; [by eapply lookup_weaken|exact S2].
Qed.

(** A refused connection goes unnoticed: [connect] fails with -1 and [createSocket] looks
    for 1, so when every [connect] fails and nothing else does, the gateway starts all the
    same, on a socket that is not connected. *)
Theorem refused_connection_unnoticed kernel ip iface port :
  (∀ tr c, noticed (mkEvent c (kernel tr c)) = false) →
  (∀ tr fd a, (kernel tr (connect fd a) : Z) = -1) →
  ∃ fd tr' s, run kernel (gateway_start ip iface port) [] = (Ok fd, tr') ∧
    sockets_after tr' !! fd = Some s ∧ sk_connected s = None.
Proof.
  intros Hok Hconn.
  assert (getfl_answers kernel) as Hg.
  { intros tr fd _ E. specialize (Hok tr (fcntl_getfl fd)). rewrite E in Hok. done. }
  assert (succeeds (λ fd, 0 ≤ fd) (gateway_start ip iface port)) as Hs.
  { eapply succeeds_bind; [apply createSocket_succeeds|]. intros fd Hfd.
    by apply succeeds_assert; [apply Z.leb_le|]. }
  destruct (succeeds_all _ kernel _ [] Hok Hs) as (fd & tr' & Hrun & Hfd).
  destruct (gateway_ready kernel Hg _ _ _ _ _ _ Hrun) as (_ & [conn Hsock] & _). exists fd, tr'. eexists. split_and!; [done..|].
  eapply (run_none_connected kernel _ _ _ _ ltac:(intros tr x a; by rewrite Hconn)); [|exact Hrun|exact Hsock].
  apply map_Forall_empty.
Qed.

(** *** A kernel on which all goes well, but that [connect] answers as it is told *)
Definition loopback : Z := 2130706433.
(** A number above those of all open sockets. *)
Definition unused_fd (m : gmap Z SockState) : Z := 1 + foldr Z.max 2 (map_to_list m).*1.
Definition plain_kernel (connected : Z) (tr : list Event) (c : Call) : answer c :=
  match c with
  | getifaddrs => (0, [mkIfAddr "lo" None; mkIfAddr "lo" (Some (10, 1));
                       mkIfAddr "eth0" (Some (AF_INET, 7)); mkIfAddr "lo" (Some (AF_INET, loopback))])
  | getnameinfo a => if a =? loopback then "127.0.0.1" else "elsewhere"
  | freeifaddrs => tt
  | getaddrinfo _ _ _ family socktype protocol => (0, [mkAddrInfo family socktype protocol loopback])
  | socket _ _ _ => unused_fd (sockets_after tr)
  | fcntl_getfl _ => 2
  | connect _ _ => connected
  | _ => 0
  end.

Lemma plain_getfl connected : getfl_answers (plain_kernel connected).
Proof. intros tr fd _. done. Qed.
Lemma foldr_max_le l x : x ∈ l → x ≤ foldr Z.max 2 l.
Proof. induction 1; cbn; lia. Qed.
Lemma foldr_max_ge l : 2 ≤ foldr Z.max 2 l.
Proof. induction l; cbn; lia. Qed.
Lemma plain_fresh connected : fresh_fds (plain_kernel connected).
Proof.
  intros tr family type protocol. cbn [plain_kernel]. apply eq_None_not_Some. intros [s Hs].
  apply elem_of_map_to_list, (list_elem_of_fmap_2 fst), foldr_max_le in Hs. cbn [fst] in Hs.
  unfold unused_fd in Hs. lia.
Qed.
Lemma plain_quiet connected tr c : connected ≠ 1 →
  noticed (mkEvent c (plain_kernel connected tr c)) = false.
Proof.
  intros H. destruct c; try done; cbn; [|by apply Z.eqb_neq].
  apply Z.ltb_ge. unfold unused_fd. pose proof (foldr_max_ge (map_to_list (sockets_after tr)).*1). lia.
Qed.

(** The listener of the order server: found by its interface, and open as number 3. *)
Lemma createSocket_configures_witness :
  (run (plain_kernel (-1)) (createSocket (mkSocketCfg "" "lo" 12345 false true true)) []).1 = Ok 3 ∧
  ∃ r made, r.1 = 0 ∧ made_for (mkSocketCfg "" "lo" 12345 false true true) made r.2 ∧
    3 = default (-1) (fst <$> last made).
Proof.
  split; [by vm_compute|].
  pose proof (createSocket_configures (plain_kernel (-1)) (mkSocketCfg "" "lo" 12345 false true true) []
    (plain_getfl (-1))) as H.
  destruct (run _ _ _) as [res tr'] eqn:E.
  assert (res = Ok 3) as -> by (change res with (res, tr').1; rewrite <-E; by vm_compute).
  destruct H as (r & made & _ & H0 & Hm & _ & Hl). by exists r, made.
Defined.

(** The two programs on it: the exchange has sockets 3, 4 and 5, the client 3 and 4. *)
Lemma programs_open_sockets_witness :
  (run (plain_kernel 0) exchange_open []).1 = Ok (3, 4, (0, 5)) ∧
  (run (plain_kernel (-1)) trading_open []).1 = Ok (3, 4) ∧
  match run (plain_kernel (-1)) trading_open [] with
  | (Ok (_, incremental), tr) => sockets_after tr !! incremental =
      Some (mkSockState true false true false None (Some (AnyAddress 20001)) None ["233.252.14.3"])
  | _ => False
  end.
Proof.
  split; [by vm_compute|]. split; [by vm_compute|].
  destruct (programs_open_sockets (plain_kernel (-1)) (plain_getfl (-1)) (plain_fresh (-1))) as [_ H].
  destruct (run _ trading_open []) as [[[gw inc]|f] tr] eqn:E.
  - by destruct H as (_ & conn & _ & H).
  - apply (f_equal fst) in E. vm_compute in E. discriminate E.
Defined.

Lemma refused_connection_unnoticed_witness :
  ∃ fd tr' s, run (plain_kernel (-1)) (gateway_start "127.0.0.1" "lo" 12345) [] = (Ok fd, tr') ∧
    sockets_after tr' !! fd = Some s ∧ sk_connected s = None.
Proof.
  apply (refused_connection_unnoticed (plain_kernel (-1)) "127.0.0.1" "lo" 12345).
  - intros tr c. by apply plain_quiet.
  - intros tr fd a. reflexivity.
Defined.
