(* ===== verification/BookPrinter.v ===== *)
(** * BookPrinter: the texts of the two order books

    [MEOrderBook::toString] ([exchange/matcher/me_order_book.cpp]) and
    [MarketOrderBook::toString] ([trading/strategy/market_order_book.cpp]), which are the same
    code over the two order structures.  The printer walks the circular lists, formats into a
    buffer of 4096 bytes and, asked to check the book, ends the process when a side is not
    sorted. *)
From S2P Require Import Prelude Types MemPool Ring PriceLevels BookInv LevelsAbs.
From S2P Require Import MEOrderBook MarketOrderBook BookSpec MEBookRefine MarketBookSpec.
From S2P Require Import BookProps BookTheorems Text ToString.

(** [sprintf] into [char buf[4096]]: a longer text, with its terminating zero, overruns it. *)
Definition sprintf_buf (s : string) : Res string :=
  if Z.of_nat (String.length s) <? 4096 then Ok s else Err BadIndex.

Section Printer.
Context {T D : Type} `{OrderNode T D} (oid : D → OrderId) (qty : D → Qty).
Implicit Types (pl : PriceLevels T) (s : Side.t) (itr : ptr) (ss : string).

(** The first loop of [printer]: the total quantity and the number of orders of a level. *)
Definition count_step pl (first : option ptr) (st : option ptr * (Qty * Z))
  : Res ((option ptr * (Qty * Z)) + (Qty * Z)) :=
  let '(o_itr, (total, num_orders)) := st in
  o ← deref o_itr;
  let total := u32 (total + qty (o_data (ord pl o))) in
  let num_orders := u64 (num_orders + 1) in
  if bool_decide (o_next (ord pl o) = first) then Ok (inr (total, num_orders))
  else Ok (inl (o_next (ord pl o), (total, num_orders))).

(** The line of an order in the detailed text. *)
Definition order_text pl (o : ptr) : string :=
  "[oid:" +:+ orderIdToString (oid (o_data (ord pl o))) +:+
  " q:" +:+ qtyToString (qty (o_data (ord pl o))) +:+
  " p:" +:+ link_id (λ t, oid (o_data t)) (ord pl) (o_prev (ord pl o)) +:+
  " n:" +:+ link_id (λ t, oid (o_data t)) (ord pl) (o_next (ord pl o)) +:+ "] ".

(** The second loop. *)
Definition detail_step pl (detailed : bool) (first : option ptr) (st : option ptr * string)
  : Res ((option ptr * string) + string) :=
  let '(o_itr, ss) := st in
  o ← deref o_itr;
  ss ← (if detailed then t ← sprintf_buf (order_text pl o); Ok (ss +:+ t) else Ok ss);
  if bool_decide (o_next (ord pl o) = first) then Ok (inr ss)
  else Ok (inl (o_next (ord pl o), ss)).

Definition level_text (price prev_price next_price : Price) (total : Qty) (num_orders : Z)
  : string :=
  " <px:" +:+ pad_left 3 (priceToString price) +:+
  " p:" +:+ pad_left 3 (priceToString prev_price) +:+
  " n:" +:+ pad_left 3 (priceToString next_price) +:+
  "> " +:+ pad_right 3 (priceToString price) +:+
  " @ " +:+ pad_right 5 (qtyToString total) +:+
  "(" +:+ pad_right 4 (to_string num_orders) +:+ ")".

Definition order_fuel : positive := Z.to_pos (ME_MAX_ORDER_IDS + 1).

(** The lambda [printer]: the text and the new [last_price]. *)
Definition printer pl (detailed sanity_check : bool) ss itr s (last_price : Price)
  : Res (string * Price) :=
  let first := oap_first (lvl pl itr) in
  '(total, num_orders) ← loop (count_step pl first) order_fuel (first, (0, 0));
  prev ← deref (oap_prev (lvl pl itr));
  next ← deref (oap_next (lvl pl itr));
  t ← sprintf_buf (level_text (oap_price (lvl pl itr)) (oap_price (lvl pl prev))
                     (oap_price (lvl pl next)) total num_orders);
  ss ← loop (detail_step pl detailed first) order_fuel (first, ss +:+ t);
  let ss := ss +:+ endl in
  if sanity_check then
    if bool_decide (s = Side.SELL) && (last_price >=? oap_price (lvl pl itr)) ||
       bool_decide (s = Side.BUY) && (last_price <=? oap_price (lvl pl itr))
    then FATAL
    else Ok (ss, oap_price (lvl pl itr))
  else Ok (ss, last_price).

(** One turn of the loop over the levels of a side. *)
Definition side_step pl (detailed sanity_check : bool) (title : string) s
    (st : option ptr * (Z * string * Price))
  : Res ((option ptr * (Z * string * Price)) + string) :=
  let '(itr, (count, ss, last_price)) := st in
  match itr with
  | None => Ok (inr ss)
  | Some itr =>
      let ss := ss +:+ title +:+ to_string count +:+ " => " in
      let next := if bool_decide (oap_next (lvl pl itr) = best pl s) then None
                  else oap_next (lvl pl itr) in
      '(ss, last_price) ← printer pl detailed sanity_check ss itr s last_price;
      Ok (inl (next, (u64 (count + 1), ss, last_price)))
  end.

Definition print_side pl (detailed sanity_check : bool) (title : string) s ss
    (last_price : Price) : Res string :=
  loop (side_step pl detailed sanity_check title s) (Z.to_pos (ME_MAX_PRICE_LEVELS + 2))
    (best pl s, (0, ss, last_price)).

Definition levels_toString pl (ticker_id : TickerId) (detailed validity_check : bool)
  : Res string :=
  let ss := "Ticker:" +:+ tickerIdToString ticker_id +:+ endl in
  ss ← print_side pl detailed validity_check "ASKS L:" Side.SELL ss (- 2 ^ 63);
  let ss := ss +:+ endl +:+ "                          X" +:+ endl +:+ endl in
  print_side pl detailed validity_check "BIDS L:" Side.BUY ss (2 ^ 63 - 1).

(** ** The text of a book, from its levels *)
Definition order_line (prev next d : D) : string :=
  "[oid:" +:+ orderIdToString (oid d) +:+ " q:" +:+ qtyToString (qty d) +:+
  " p:" +:+ orderIdToString (oid prev) +:+ " n:" +:+ orderIdToString (oid next) +:+ "] ".

(** The orders after [prev]; the one after the last is [first]. *)
Fixpoint order_lines (first prev : D) (ds : list D) : string :=
  match ds with
  | [] => ""
  | d :: ds => order_line prev (default first (head ds)) d +:+ order_lines first d ds
  end.

Definition orders_text (ds : list D) : string :=
  match ds with
  | [] => ""
  | d :: k => order_lines d (default d (last k)) ds
  end.

Definition level_line (prev next : Price) (pd : Price * list D) : string :=
  level_text pd.1 prev next (u32 (sumZ (qty <$> pd.2))) (Z.of_nat (length pd.2)).

Fixpoint level_lines (detailed : bool) (title : string) (first prev : Price) (count : Z)
    (l : side_levels D) : string :=
  match l with
  | [] => ""
  | pd :: l =>
      title +:+ to_string count +:+ " => " +:+
      level_line prev (default first (head l.*1)) pd +:+
      (if detailed then orders_text pd.2 else "") +:+ endl +:+
      level_lines detailed title first pd.1 (count + 1) l
  end.

Definition side_text (detailed : bool) (title : string) (l : side_levels D) : string :=
  match l with
  | [] => ""
  | pd :: k => level_lines detailed title pd.1 (default pd.1 (last k.*1)) 0 l
  end.

Definition book_text (detailed : bool) (ticker_id : TickerId) (bids asks : side_levels D)
  : string :=
  "Ticker:" +:+ tickerIdToString ticker_id +:+ endl +:+
  side_text detailed "ASKS L:" asks +:+
  endl +:+ "                          X" +:+ endl +:+ endl +:+
  side_text detailed "BIDS L:" bids.
End Printer.

Definition MEOrderBook_toString (bk : MEOrderBook) (detailed validity_check : bool)
  : Res string :=
  levels_toString oi_market_order_id oi_qty (ob_levels bk) (ob_ticker_id bk) detailed
    validity_check.
Definition MarketOrderBook_toString (bk : MarketOrderBook) (detailed validity_check : bool)
  : Res string :=
  levels_toString mi_order_id mi_qty (mb_levels bk) (mb_ticker_id bk) detailed validity_check.

(** ** The printer prints the book *)
#[local] Arguments odata : simpl never.

Lemma sprintf_buf_Ok s : (String.length s < 4096)%nat → sprintf_buf s = Ok s.
Proof. intros Hs. unfold sprintf_buf. by rewrite (proj2 (Z.ltb_lt _ _)) by lia. Qed.

Section Printing.
Context {T D : Type} `{OrderData D} `{OrderNode T D} (oid : D → OrderId) (qty : D → Qty).
Implicit Types (g : glevel) (ds : list D) (d : D).

(** The data of an order are in the range of their types. *)
Definition printable d : Prop := 0 ≤ oid d < 2 ^ 64 ∧ 0 ≤ qty d < 2 ^ 32.

Lemma order_line_length p n d :
  printable p → printable n → printable d → (String.length (order_line oid qty p n d) < 4096)%nat.
Proof.
  intros [Hp _] [Hn _] [Hd Hq]. unfold order_line. rewrite !string_app_length.
  pose proof (sentinel_text_length OrderId_INVALID (oid p) ltac:(lia)).
  pose proof (sentinel_text_length OrderId_INVALID (oid n) ltac:(lia)).
  pose proof (sentinel_text_length OrderId_INVALID (oid d) ltac:(lia)).
  pose proof (sentinel_text_length Qty_INVALID (qty d) ltac:(lia)).
  unfold orderIdToString, qtyToString, sentinel_text in *. simpl String.length. lia.
Qed.

Lemma level_text_length p q r total n :
  - 2 ^ 63 ≤ p < 2 ^ 63 → - 2 ^ 63 ≤ q < 2 ^ 63 → - 2 ^ 63 ≤ r < 2 ^ 63 →
  0 ≤ total < 2 ^ 32 → 0 ≤ n < 2 ^ 64 →
  (String.length (level_text p q r total n) < 4096)%nat.
Proof.
  intros Hp Hq Hr Ht Hn. unfold level_text.
  rewrite !string_app_length, !pad_left_length, !pad_right_length.
  pose proof (sentinel_text_length Price_INVALID p ltac:(lia)).
  pose proof (sentinel_text_length Price_INVALID q ltac:(lia)).
  pose proof (sentinel_text_length Price_INVALID r ltac:(lia)).
  pose proof (sentinel_text_length Qty_INVALID total ltac:(lia)).
  pose proof (to_string_length n ltac:(lia)).
  unfold priceToString, qtyToString, sentinel_text in *. simpl String.length. lia.
Qed.

Context (pl : PriceLevels T) (extra : list ptr) (G : ghost) (Hrep : book_rep pl extra G).
Context (Hprint : ∀ o, o ∈ gorders (glevels G) → printable (odata pl o)).
Context (Hprice : ∀ g, g ∈ glevels G → - 2 ^ 63 < g_price g < 2 ^ 63 - 1).

(** A level's list: its first order, its ring, and fuel enough to walk it. *)
Lemma level_walk g :
  g ∈ glevels G → ∃ o k, g_orders g = o :: k ∧ oap_first (lvl pl (g_ptr g)) = Some o ∧
    ring (onext pl) (oprev pl) (o :: k) ∧ (length (o :: k) ≤ Pos.to_nat order_fuel)%nat ∧
    (∀ x, x ∈ o :: k → printable (odata pl x)) ∧
    Z.of_nat (length (g_orders g)) ≤ ME_MAX_ORDER_IDS.
Proof.
  intros Hg. pose proof (br_levels _ _ _ Hrep) as Hl. rewrite Forall_forall in Hl.
  destruct (Hl g Hg) as (_ & _ & Hf & Hne & Hr & _).
  assert (∀ x, x ∈ g_orders g → x ∈ gorders (glevels G)) as Hin.
  { intros x Hx. apply elem_of_gorders. eauto. }
  assert (length (g_orders g) ≤ Z.to_nat ME_MAX_ORDER_IDS)%nat as Hlen.
  { destruct (br_opool _ _ _ Hrep) as (_ & _ & Hall).
    rewrite <-(length_seqZ 0 ME_MAX_ORDER_IDS). apply submseteq_length.
    apply NoDup_submseteq; [by eapply ring_NoDup|]. intros x Hx%Hin. apply elem_of_seqZ.
    assert (x ∈ extra ++ gorders (glevels G)) as Hx' by (apply elem_of_app; by right).
    apply Hall in Hx' as [Hx' _]. rewrite (br_osize _ _ _ Hrep) in Hx'. lia. }
  destruct (g_orders g) as [|o k]; [done|]. exists o, k.
  unfold ME_MAX_ORDER_IDS in *.
  split; [done|]. split; [done|]. split; [done|]. split; [|split].
  - unfold order_fuel, ME_MAX_ORDER_IDS. lia.
  - by intros x Hx%Hin; apply Hprint.
  - lia.
Qed.

Lemma count_orders_ok g :
  g ∈ glevels G →
  loop (count_step qty pl (oap_first (lvl pl (g_ptr g)))) order_fuel
    (oap_first (lvl pl (g_ptr g)), (0, 0)) =
  Ok (u32 (sumZ (qty <$> (odata pl <$> g_orders g))), Z.of_nat (length (g_orders g))).
Proof.
  intros Hg. destruct (level_walk g Hg) as (o & k & Eo & -> & Hring & Hfuel & _ & Hlen).
  rewrite Eo in Hlen |- *.
  rewrite (ring_loop _ _ _ _ Hring
    (λ (st : Qty * Z) p, Ok (u32 (st.1 + qty (odata pl p)), u64 (st.2 + 1)))); [|by intros p [a b] _|done].
  assert (∀ l x n, 0 ≤ n → n + Z.of_nat (length l) < 2 ^ 64 →
    fold_res (λ (st : Qty * Z) p, Ok (u32 (st.1 + qty (odata pl p)), u64 (st.2 + 1))) (u32 x, n) l
    = Ok (u32 (x + sumZ (qty <$> (odata pl <$> l))), n + Z.of_nat (length l))) as Hfold.
  { induction l as [|p l IH]; intros x n Hn Hl; cbn [fold_res fst snd].
    - simpl. by rewrite !Z.add_0_r.
    - simpl in Hl. rewrite u64_id by lia. cbn [mbind Res_bind].
      replace (u32 (u32 x + qty (odata pl p))) with (u32 (x + qty (odata pl p)))
        by (unfold u32; by rewrite Zplus_mod_idemp_l).
      rewrite IH by lia. cbn [fmap list_fmap length]. rewrite sumZ_cons.
      do 2 f_equal; [f_equal; lia|lia]. }
  change (0, 0) with (u32 0, 0). rewrite Hfold; [done|lia|].
  unfold ME_MAX_ORDER_IDS in Hlen. lia.
Qed.

Lemma order_text_line p prev next :
  oprev pl p = Some prev → onext pl p = Some next →
  order_text oid qty pl p = order_line oid qty (odata pl prev) (odata pl next) (odata pl p).
Proof. unfold order_text, oprev, onext. by intros -> ->. Qed.

Lemma detail_ok g detailed ss :
  g ∈ glevels G →
  loop (detail_step oid qty pl detailed (oap_first (lvl pl (g_ptr g)))) order_fuel
    (oap_first (lvl pl (g_ptr g)), ss) =
  Ok (ss +:+ if detailed then orders_text oid qty (odata pl <$> g_orders g) else "").
Proof.
  intros Hg. destruct (level_walk g Hg) as (o & k & -> & -> & Hring & Hfuel & Hpr & _).
  rewrite (ring_loop _ _ _ _ Hring (λ ss p,
    if detailed then t ← sprintf_buf (order_text oid qty pl p); Ok (ss +:+ t) else Ok ss));
    [|by intros p x _|done].
  destruct detailed.
  2: { rewrite string_app_nil. clear. generalize (o :: k). intros l.
       induction l as [|p l IH]; [done|]. exact IH. }
  assert (∀ k2 k1 ss, o :: k = k1 ++ k2 →
    fold_res (λ ss p, t ← sprintf_buf (order_text oid qty pl p); Ok (ss +:+ t)) ss k2 =
    Ok (ss +:+ order_lines oid qty (odata pl o)
                 (odata pl (default (default o (last k)) (last k1))) (odata pl <$> k2))) as Hfold.
  { induction k2 as [|p k2 IH]; intros k1 ss' E; cbn [fold_res]; [by rewrite string_app_nil|].
    rewrite (order_text_line p _ _ (ring_prev_split _ _ _ _ Hring _ _ _ E)
      (ring_next_split _ _ _ _ Hring _ _ _ E)).
    assert (∀ x, x ∈ k1 ++ p :: k2 → printable (odata pl x)) as Hx by (by rewrite <-E).
    rewrite sprintf_buf_Ok.
    - cbn [mbind Res_bind]. rewrite (IH (k1 ++ [p])) by by rewrite <-app_assoc.
      rewrite last_snoc. cbn [fmap list_fmap order_lines default from_option id].
      rewrite string_app_assoc. do 3 f_equal. by destruct k2.
    - apply order_line_length; [| |apply Hx; set_solver +].
      + destruct (last k1) as [y|] eqn:Ey; simpl.
        * apply Hx, elem_of_app. left. by apply last_Some_elem_of.
        * apply Hpr, lastof_elem.
      + destruct k2 as [|y k2]; simpl; [apply Hpr; by left|apply Hx; set_solver +]. }
  rewrite (Hfold (o :: k) []) by done. cbn [last default from_option id].
  unfold orders_text. cbn [fmap list_fmap]. do 2 f_equal. f_equal.
  change (odata pl <$> k) with (odata pl <$> k). rewrite fmap_last. by destruct (last k).
Qed.

(** What [printer] writes for a level between two others. *)
Definition level_entry (detailed : bool) (prev next : Price) (pd : Price * list D) : string :=
  level_line qty prev next pd +:+ (if detailed then orders_text oid qty pd.2 else "") +:+ endl.

(** The neighbours of a level, and their prices. *)
Lemma level_neighbours s l1 g l2 b l :
  tradable s → gside G s = l1 ++ g :: l2 → gside G s = b :: l →
  ∃ n q, oap_next (lvl pl (g_ptr g)) = Some n ∧ oap_prev (lvl pl (g_ptr g)) = Some q ∧
    oap_price (lvl pl (g_ptr g)) = g_price g ∧
    oap_price (lvl pl n) = default (g_price b) (head (g_price <$> l2)) ∧
    oap_price (lvl pl q) =
      default (default (g_price b) (last (g_price <$> l))) (last (g_price <$> l1)) ∧
    (∀ x, x ∈ [g_ptr g; n; q] → - 2 ^ 63 ≤ oap_price (lvl pl x) < 2 ^ 63).
Proof.
  intros Hs E Eb.
  assert (∀ x, x ∈ gside G s → oap_price (lvl pl (g_ptr x)) = g_price x ∧
    - 2 ^ 63 ≤ oap_price (lvl pl (g_ptr x)) < 2 ^ 63) as Hpr.
  { intros x Hx%(gside_elem _ _ _ Hs). pose proof (br_levels _ _ _ Hrep) as Hl.
    rewrite Forall_forall in Hl. destruct (Hl x Hx) as (_ & E' & _). specialize (Hprice x Hx).
    rewrite E'. split; [done|lia]. }
  destruct (br_side _ _ _ Hrep s Hs) as (_ & Hring & _).
  assert (g_ptr b :: (g_ptr <$> l) = (g_ptr <$> l1) ++ g_ptr g :: (g_ptr <$> l2)) as Esplit.
  { by rewrite <-fmap_cons, <-Eb, E, fmap_app. }
  rewrite Eb in Hring. cbn [fmap list_fmap] in Hring.
  assert (∃ x, x ∈ gside G s ∧ default (g_ptr b) (head (g_ptr <$> l2)) = g_ptr x ∧
    default (g_price b) (head (g_price <$> l2)) = g_price x) as (n & Hn & En & ->).
  { destruct l2 as [|y l2]; [exists b; rewrite Eb; set_solver +|exists y; rewrite E; set_solver +]. }
  assert (∃ x, x ∈ gside G s ∧
    default (default (g_ptr b) (last (g_ptr <$> l))) (last (g_ptr <$> l1)) = g_ptr x ∧
    default (default (g_price b) (last (g_price <$> l))) (last (g_price <$> l1)) = g_price x)
    as (q & Hq & Eq & ->).
  { rewrite !fmap_last. destruct (last l1) as [y|] eqn:Ey; [|destruct (last l) as [y|] eqn:Ey'].
    - exists y. split; [|done]. rewrite E. apply last_Some_elem_of in Ey. set_solver + Ey.
    - exists y. split; [|done]. rewrite Eb. apply last_Some_elem_of in Ey'. set_solver + Ey'.
    - exists b. split; [|done]. rewrite Eb. by left. }
  assert (g ∈ gside G s) as Hg by (rewrite E; set_solver +).
  exists (g_ptr n), (g_ptr q). split_and!.
  - rewrite <-En. exact (ring_next_split _ _ _ _ Hring _ _ _ Esplit).
  - rewrite <-Eq. exact (ring_prev_split _ _ _ _ Hring _ _ _ Esplit).
  - by apply Hpr.
  - by apply Hpr.
  - by apply Hpr.
  - intros x. rewrite !elem_of_cons. intros [->|[->|[->|[]%not_elem_of_nil]]]; by apply Hpr.
Qed.

(** Looking ahead, the check of the order of the levels passes. *)
Lemma sanity_passes s last_price price :
  tradable s → better s last_price price →
  bool_decide (s = Side.SELL) && (last_price >=? price) ||
  bool_decide (s = Side.BUY) && (last_price <=? price) = false.
Proof.
  intros [->| ->]; simpl; intros Hb; [apply Z.leb_gt; lia|].
  rewrite orb_false_r, Z.geb_leb. apply Z.leb_gt. lia.
Qed.

Lemma printer_ok s l1 g l2 b l detailed check ss last_price :
  tradable s → gside G s = l1 ++ g :: l2 → gside G s = b :: l →
  (check = true → better s last_price (g_price g)) →
  printer oid qty pl detailed check ss (g_ptr g) s last_price =
  Ok (ss +:+ level_entry detailed
        (default (default (g_price b) (last (g_price <$> l))) (last (g_price <$> l1)))
        (default (g_price b) (head (g_price <$> l2))) (abs_level pl g),
      if check then g_price g else last_price).
Proof.
  intros Hs E Eb Hcheck.
  assert (g ∈ glevels G) as Hg by (apply (gside_elem _ s); [done|rewrite E; set_solver +]).
  destruct (level_neighbours s l1 g l2 b l Hs E Eb) as (n & q & Hn & Hq & E1 & E2 & E3 & Hb).
  destruct (level_walk g Hg) as (_ & _ & _ & _ & _ & _ & _ & Hlen).
  unfold printer. cbv zeta.
  apply res_bind_Ok. eexists. split; [by apply count_orders_ok|]. cbv beta iota.
  rewrite Hq, Hn. apply res_bind_Ok. exists q. split; [done|].
  apply res_bind_Ok. exists n. split; [done|].
  apply res_bind_Ok. eexists. split.
  { unfold ME_MAX_ORDER_IDS in Hlen. apply sprintf_buf_Ok, level_text_length;
      [apply Hb; set_solver +..|apply u32_range|lia]. }
  apply res_bind_Ok. eexists. split; [by apply detail_ok|]. cbv beta.
  rewrite E1, E2, E3. unfold level_entry, level_line. cbn [abs_level fst snd].
  rewrite length_fmap, !string_app_assoc. destruct check; [|done].
  by rewrite sanity_passes by auto.
Qed.

(** The entries of a side from a level on. *)
Lemma level_lines_cons detailed title first prev count pd (l : side_levels D) :
  level_lines oid qty detailed title first prev count (pd :: l) =
  title +:+ to_string count +:+ " => " +:+
  level_entry detailed prev (default first (head l.*1)) pd +:+
  level_lines oid qty detailed title first pd.1 (count + 1) l.
Proof. unfold level_entry. cbn [level_lines]. by rewrite !string_app_assoc. Qed.

(** The levels of a side fit the pool. *)
Lemma side_levels_few s : tradable s → Z.of_nat (length (gside G s)) ≤ ME_MAX_PRICE_LEVELS.
Proof.
  intros Hs. destruct (br_lpool _ _ _ Hrep) as (_ & _ & Hall).
  destruct (br_side _ _ _ Hrep s Hs) as (_ & Hring & _).
  assert (g_ptr <$> gside G s ⊆+ seqZ 0 ME_MAX_PRICE_LEVELS) as Hsub%submseteq_length.
  { apply NoDup_submseteq; [by eapply ring_NoDup|]. intros x Hx. apply elem_of_seqZ.
    apply list_elem_of_fmap in Hx as (g & -> & Hg%(gside_elem _ _ _ Hs)).
    apply (list_elem_of_fmap_2 g_ptr), Hall in Hg as [Hg _]. rewrite (br_lsize _ _ _ Hrep) in Hg. lia. }
  rewrite length_fmap, length_seqZ in Hsub. unfold ME_MAX_PRICE_LEVELS in *. lia.
Qed.

(** The walk over a side goes from each level to the next, and stops at the best one. *)
Lemma next_level s l1 g l2 :
  tradable s → gside G s = l1 ++ g :: l2 →
  (if bool_decide (oap_next (lvl pl (g_ptr g)) = best pl s) then None
   else oap_next (lvl pl (g_ptr g))) = head (g_ptr <$> l2).
Proof.
  intros Hs E. destruct (br_side _ _ _ Hrep s Hs) as (Hbest & Hring & _).
  rewrite Hbest. rewrite E, fmap_app, fmap_cons in *. pose proof (ring_NoDup _ _ _ Hring) as Hnd.
  change (oap_next (lvl pl (g_ptr g))) with (lnext pl (g_ptr g)).
  destruct ((g_ptr <$> l1) ++ g_ptr g :: (g_ptr <$> l2)) as [|b l] eqn:Eb; [by destruct (g_ptr <$> l1)|].
  pose proof (ring_next_split _ _ _ _ Hring _ _ _ (eq_sym Eb)) as Hn'. rewrite Hn'.
  destruct l2 as [|y l2]; cbn [fmap list_fmap head default from_option id].
  - by rewrite bool_decide_eq_true_2.
  - rewrite bool_decide_eq_false_2; [done|]. intros [= Ey]. rewrite <-Eb in Hnd.
    destruct l1 as [|x l1]; injection Eb as Ex _; cbn in Hnd;
      apply NoDup_cons in Hnd as [Hnd _]; apply Hnd; rewrite Ex, <-Ey; set_solver +.
Qed.

Lemma print_walk s b l detailed check title : tradable s → gside G s = b :: l →
  ∀ l2 l1 n count ss last_price, gside G s = l1 ++ l2 → (length l2 < n)%nat →
    count = Z.of_nat (length l1) → (check = true → Forall (better s last_price) (g_price <$> l2)) →
    loop_nat (side_step oid qty pl detailed check title s) n
      (head (g_ptr <$> l2), (count, ss, last_price)) =
    Ok (inr (ss +:+ level_lines oid qty detailed title (g_price b)
      (default (default (g_price b) (last (g_price <$> l))) (last (g_price <$> l1))) count
      (abs_side pl l2))).
Proof.
  intros Hs Eb. pose proof (side_levels_few s Hs) as Hlen.
  destruct (br_side _ _ _ Hrep s Hs) as (_ & _ & Hsort & _).
  induction l2 as [|g l2 IH]; intros l1 n count ss' last' E Hn -> Hlast;
    (destruct n as [|n]; [simpl in Hn; lia|]); cbn [loop_nat].
  { cbn. by rewrite string_app_nil. }
  cbn [fmap list_fmap head side_step].
  rewrite (printer_ok s l1 g l2 b l) by
    (done || intros Hc; specialize (Hlast Hc); by apply Forall_cons in Hlast as [? _]).
  cbn [mbind Res_bind and_then]. rewrite (next_level s l1 g l2 Hs E).
  rewrite E in Hlen, Hsort. rewrite length_app in Hlen. cbn [length] in Hlen, Hn.
  unfold ME_MAX_PRICE_LEVELS in Hlen. rewrite u64_id by lia. rewrite (IH (l1 ++ [g])).
  - change (abs_side pl (g :: l2)) with (abs_level pl g :: abs_side pl l2).
    rewrite level_lines_cons, fmap_app, last_app, prices_abs, !string_app_assoc. done.
  - by rewrite <-app_assoc.
  - lia.
  - rewrite length_app. simpl. lia.
  - intros Hc. rewrite Hc. rewrite fmap_app in Hsort.
    apply StronglySorted_app in Hsort as (_ & _ & Hsort). by apply StronglySorted_cons in Hsort as [? _].
Qed.

Lemma print_side_ok s detailed check title ss last_price :
  tradable s → (check = true → Forall (better s last_price) (g_price <$> gside G s)) →
  print_side oid qty pl detailed check title s ss last_price =
  Ok (ss +:+ side_text oid qty detailed title (abs_side pl (gside G s))).
Proof.
  intros Hs Hlast. destruct (br_side _ _ _ Hrep s Hs) as (Hbest & _).
  pose proof (side_levels_few s Hs) as Hlen. unfold print_side.
  destruct (gside G s) as [|b l] eqn:Eb.
  { rewrite Hbest. cbn [fmap list_fmap head]. rewrite loop_unfold_nat.
    destruct (Pos.to_nat _) as [|n] eqn:En; [lia|]. cbn. by rewrite string_app_nil. }
  rewrite Hbest, loop_unfold_nat.
  rewrite (print_walk s b l detailed check title Hs Eb (b :: l) [] _ 0 ss last_price); try done.
  - cbn [mbind Res_bind]. unfold side_text. change (abs_side pl (b :: l)) with
      (abs_level pl b :: abs_side pl l). cbv iota beta. by rewrite prices_abs.
  - unfold ME_MAX_PRICE_LEVELS in *. lia.
Qed.
End Printing.

(** A whole book. *)
Lemma levels_toString_ok {T D} `{OrderData D} `{OrderNode T D} (oid qty : D → Z)
    (pl : PriceLevels T) extra G ticker_id detailed check :
  book_rep pl extra G → (∀ o, o ∈ gorders (glevels G) → printable oid qty (odata pl o)) →
  (∀ g, g ∈ glevels G → - 2 ^ 63 < g_price g < 2 ^ 63 - 1) →
  levels_toString oid qty pl ticker_id detailed check =
  Ok (book_text oid qty detailed ticker_id (abs_side pl (g_bids G)) (abs_side pl (g_asks G))).
Proof.
  intros Hrep Hprint Hprice. unfold levels_toString. cbv zeta.
  assert (∀ s last_price, tradable s →
    (∀ p, - 2 ^ 63 < p < 2 ^ 63 - 1 → better s last_price p) →
    check = true → Forall (better s last_price) (g_price <$> gside G s)) as Hall.
  { intros s last_price Hs Hb _. apply Forall_fmap, Forall_forall. intros g Hg.
    apply Hb, Hprice. by eapply gside_elem. }
  apply res_bind_Ok. eexists. split.
  { apply (print_side_ok oid qty pl extra G Hrep Hprint Hprice Side.SELL); [by right|].
    apply Hall; [by right|]. simpl. lia. }
  cbv beta. rewrite (print_side_ok oid qty pl extra G Hrep Hprint Hprice Side.BUY);
    [|by left|apply Hall; [by left|simpl; lia]].
  unfold book_text, gside. simpl. by rewrite !string_app_assoc.
Qed.

(** Prices that the initial values of [last_price] do not meet. *)
Definition inner_price (p : Price) : Prop := - 2 ^ 63 < p < 2 ^ 63 - 1.

(** ** Theorems *)

(** C31: Both books print what they hold: on any well-formed book the two nested walks over
    the circular lists end, no line overruns the 4096-byte buffer, the check of the order of
    the levels does not end the process, and the text lists the asks and the bids from the
    most aggressive price on, each level with its neighbours' prices, its total quantity,
    its number of orders and, in detail, its orders in order of priority. *)
Theorem books_print_themselves :
  (∀ bk a detailed check, refines bk a →
     Forall (λ d, 0 ≤ oi_market_order_id d < 2 ^ 64) (sb_orders a) →
     Forall inner_price (sb_levels a).*1 →
     MEOrderBook_toString bk detailed check =
     Ok (book_text oi_market_order_id oi_qty detailed (ob_ticker_id bk) (sb_bids a) (sb_asks a))) ∧
  (∀ bk b detailed check, mk_refines bk b → Forall inner_price (sm_levels b).*1 →
     MarketOrderBook_toString bk detailed check =
     Ok (book_text mi_order_id mi_qty detailed (mb_ticker_id bk) (sm_bids b) (sm_asks b))).
Proof.
  split.
  - intros bk a detailed check [G [Hrep Hbids Hasks _]] Hids Hprices.
    unfold MEOrderBook_toString. rewrite <-Hbids, <-Hasks.
    unfold sb_orders, sb_levels in *. rewrite <-Hbids, <-Hasks, <-abs_side_app in *.
    rewrite level_orders_abs in Hids. rewrite prices_abs in Hprices.
    apply (levels_toString_ok _ _ _ [] G); [apply Hrep| |].
    + intros o Ho. rewrite Forall_fmap, Forall_forall in Hids. split; [by apply Hids|].
      by apply (mr_data _ _ Hrep).
    + intros g Hg. rewrite Forall_fmap, Forall_forall in Hprices. by apply Hprices.
  - intros bk b detailed check [G [Hrep Hbids Hasks]] Hprices.
    unfold MarketOrderBook_toString. rewrite <-Hbids, <-Hasks.
    unfold sm_levels in *. rewrite <-Hbids, <-Hasks, <-abs_side_app, prices_abs in Hprices.
    apply (levels_toString_ok _ _ _ [] G); [apply Hrep| |].
    + intros o Ho. destruct (mk_data _ _ Hrep o Ho) as [Hi Hq]. split; [|done].
      unfold market_id_ok, ME_MAX_ORDER_IDS in Hi. lia.
    + intros g Hg. rewrite Forall_fmap, Forall_forall in Hprices. by apply Hprices.
Qed.

Lemma books_print_themselves_witness :
  ∃ bk, refines bk (spec_run 0 SpecBook_new (take 3 demo)).1 ∧
    MEOrderBook_toString bk true true =
    Ok (book_text oi_market_order_id oi_qty true (ob_ticker_id bk)
          (sb_bids (spec_run 0 SpecBook_new (take 3 demo)).1)
          (sb_asks (spec_run 0 SpecBook_new (take 3 demo)).1)).
Proof.
  destruct (demo_reached 3) as (bk & Hbk & _). exists bk. split; [exact Hbk|].
  destruct books_print_themselves as [Hme _]. apply Hme; [exact Hbk|..];
    apply (bool_decide_unpack _); by vm_compute.
Defined.
