(* ===== verification/Logger.v ===== *)
(** * Logger: formatting on the hot path, writing on a thread of its own

    [common/logging.h].  [log] cuts its format at the [%] signs and pushes characters and
    arguments, unformatted, to a lock-free queue; the logger's thread prints them to the
    file.  The file is the string written so far. *)
From S2P Require Import Prelude Double Text LFQueue.
From Stdlib Require Import Ascii.

Definition LOG_QUEUE_SIZE : Z := 8 * 1024 * 1024.

(** [enum LogType] and the union of [struct LogElement]. *)
Inductive LogElement :=
  | CHAR (c : ascii)
  | INTEGER (i : Z)
  | LONG_INTEGER (l : Z)
  | LONG_LONG_INTEGER (ll : Z)
  | UNSIGNED_INTEGER (u : Z)
  | UNSIGNED_LONG_INTEGER (ul : Z)
  | UNSIGNED_LONG_LONG_INTEGER (ull : Z)
  | FLOAT (f : double)
  | DOUBLE (d : double).

(** What [log] takes: a primitive value, or a C string ([std::string] is passed on as one). *)
Inductive LogValue :=
  | Prim (e : LogElement)
  | CStr (s : string).

Record Logger := mkLogger {
  file_ : string;
  queue_ : LFQueue LogElement
}.
Definition Logger_new : Logger :=
  mkLogger EmptyString (LFQueue_new LOG_QUEUE_SIZE (CHAR "000")).

(** ** Pushing *)
Definition pushElement (lg : Logger) (e : LogElement) : Logger :=
  mkLogger (file_ lg) (updateWriteIndex (write_slot (queue_ lg) (getNextToWriteTo (queue_ lg)) e)).

(** The characters of a C string up to its terminating zero, which the model leaves out. *)
Fixpoint pushChars (lg : Logger) (s : string) : Logger :=
  match s with
  | EmptyString => lg
  | String c s => pushChars (pushElement lg (CHAR c)) s
  end.

Definition pushValue (lg : Logger) (v : LogValue) : Logger :=
  match v with
  | Prim e => pushElement lg e
  | CStr s => pushChars lg s
  end.

(** Both overloads of [log]: with arguments left, the end of the format is fatal; without,
    a [%] is. *)
Fixpoint log (lg : Logger) (s : string) (args : list LogValue) : Res Logger :=
  match s with
  | EmptyString =>
      match args with
      | [] => Ok lg
      | _ :: _ => FATAL
      end
  | String "%" (String "%" s) => log (pushElement lg (CHAR "%")) s args
  | String "%" s =>
      match args with
      | [] => FATAL
      | value :: args => log (pushValue lg value) s args
      end
  | String c s => log (pushElement lg (CHAR c)) s args
  end.

(** ** Writing *)

(** [file_ << ...]. *)
Definition element_text (e : LogElement) : string :=
  match e with
  | CHAR c => String c EmptyString
  | INTEGER z | LONG_INTEGER z | LONG_LONG_INTEGER z
  | UNSIGNED_INTEGER z | UNSIGNED_LONG_INTEGER z | UNSIGNED_LONG_LONG_INTEGER z => to_string z
  | FLOAT d | DOUBLE d => show_double d
  end.

Definition flush_step (lg : Logger) : Res (Logger + Logger) :=
  match getNextToRead (queue_ lg) with
  | None => Ok (inr lg)
  | Some next =>
      let text := element_text (read_slot (queue_ lg) next) in
      q ← updateReadIndex (queue_ lg);
      Ok (inl (mkLogger (file_ lg +:+ text) q))
  end.

(** One turn of the thread's loop in [flushQueue]. *)
Definition flushQueue (lg : Logger) : Res Logger :=
  loop flush_step (Z.to_pos (LOG_QUEUE_SIZE + 1)) lg.

(** ** Formats, piece by piece *)
Inductive Piece :=
  | PText (s : string)
  | PPercent
  | PArg (v : LogValue).

(** Literal text has no [%]. *)
Fixpoint plain (s : string) : bool :=
  match s with
  | EmptyString => true
  | String c s => negb (Ascii.eqb c "%") && plain s
  end.

Definition piece_format (p : Piece) : string :=
  match p with PText s => s | PPercent => "%%" | PArg _ => "%" end.
Definition piece_args (p : Piece) : list LogValue :=
  match p with PArg v => [v] | _ => [] end.
Definition value_text (v : LogValue) : string :=
  match v with Prim e => element_text e | CStr s => s end.
Definition piece_text (p : Piece) : string :=
  match p with PText s => s | PPercent => "%" | PArg v => value_text v end.

Definition format_of (ps : list Piece) : string := foldr (λ p s, piece_format p +:+ s) EmptyString ps.
Definition args_of (ps : list Piece) : list LogValue := ps ≫= piece_args.
Definition text_of (ps : list Piece) : string := foldr (λ p s, piece_text p +:+ s) EmptyString ps.

(** An argument is not followed by another [%]: the two signs would be read as the escape. *)
Definition starts_percent (s : string) : bool :=
  match s with String c _ => Ascii.eqb c "%" | EmptyString => false end.
Fixpoint well_formed (ps : list Piece) : bool :=
  match ps with
  | [] => true
  | PText s :: ps => plain s && well_formed ps
  | PPercent :: ps => well_formed ps
  | PArg _ :: ps => negb (starts_percent (format_of ps)) && well_formed ps
  end.

(** The elements an action pushes. *)
Definition value_elements (v : LogValue) : list LogElement :=
  match v with
  | Prim e => [e]
  | CStr s => CHAR <$> String.list_ascii_of_string s
  end.
Definition piece_elements (p : Piece) : list LogElement :=
  match p with
  | PText s => value_elements (CStr s)
  | PPercent => [CHAR "%"]
  | PArg v => value_elements v
  end.
Definition pushes (lg : Logger) (es : list LogElement) : Logger :=
  mkLogger (file_ lg) (lfq_push_all (queue_ lg) es).
Definition elements_text (es : list LogElement) : string :=
  foldr (λ e s, element_text e +:+ s) EmptyString es.

#[local] Arguments String.append !_ _ / : simpl nomatch.

Lemma pushes_app lg es es' : pushes lg (es ++ es') = pushes (pushes lg es) es'.
Proof. unfold pushes, lfq_push_all. simpl. by rewrite foldl_app. Qed.

Lemma pushChars_pushes lg s : pushChars lg s = pushes lg (value_elements (CStr s)).
Proof.
  revert lg. induction s as [|c s IH]; intros lg; [by destruct lg|].
  simpl. rewrite IH. done.
Qed.
Lemma pushValue_pushes lg v : pushValue lg v = pushes lg (value_elements v).
Proof. destruct v; [done|]. apply pushChars_pushes. Qed.

Lemma elements_text_app es es' :
  elements_text (es ++ es') = elements_text es +:+ elements_text es'.
Proof.
  induction es as [|e es IH]; simpl; [done|]. by rewrite IH, string_app_assoc.
Qed.
Lemma value_elements_text v : elements_text (value_elements v) = value_text v.
Proof.
  destruct v as [e|s]; simpl; [apply string_app_nil|].
  induction s as [|c s IH]; simpl; [done|]. f_equal. exact IH.
Qed.
Lemma piece_elements_text p : elements_text (piece_elements p) = piece_text p.
Proof. destruct p; [apply value_elements_text|done|apply value_elements_text]. Qed.
Lemma pieces_text ps : elements_text (ps ≫= piece_elements) = text_of ps.
Proof.
  induction ps as [|p ps IH]; [done|].
  change ((p :: ps) ≫= piece_elements) with (piece_elements p ++ (ps ≫= piece_elements)).
  rewrite elements_text_app, piece_elements_text, IH. done.
Qed.

(** ** [log] reads well-formed formats piece by piece *)
Lemma log_char lg c s args :
  Ascii.eqb c "%" = false → log lg (String c s) args = log (pushElement lg (CHAR c)) s args.
Proof. intros Hc. destruct c as [[] [] [] [] [] [] [] []]; done. Qed.

Lemma log_plain lg s t args :
  plain s = true → log lg (s +:+ t) args = log (pushes lg (value_elements (CStr s))) t args.
Proof.
  revert lg. induction s as [|c s IH]; intros lg Hs; [by destruct lg|].
  apply andb_true_iff in Hs as [Hc Hs]. apply negb_true_iff in Hc.
  change (String c s +:+ t) with (String c (s +:+ t)). rewrite log_char by done.
  rewrite IH by done. done.
Qed.

Lemma log_arg lg s v args :
  starts_percent s = false →
  log lg (String "%" s) (v :: args) = log (pushValue lg v) s args.
Proof.
  intros Hs. destruct s as [|c s]; [done|].
  destruct c as [[] [] [] [] [] [] [] []]; done.
Qed.

Lemma log_missing lg s : starts_percent s = false → log lg (String "%" s) [] = FATAL.
Proof.
  intros Hs. destruct s as [|c s]; [done|]. destruct c as [[] [] [] [] [] [] [] []]; done.
Qed.

(** With [args] for the arguments of [ps] and whatever follows them. *)
Lemma log_pieces lg ps extra :
  well_formed ps = true →
  log lg (format_of ps) (args_of ps ++ extra) =
  match extra with
  | [] => Ok (pushes lg (ps ≫= piece_elements))
  | _ :: _ => FATAL
  end.
Proof.
  revert lg. induction ps as [|p ps IH]; intros lg Hwf; [by destruct lg, extra|].
  change ((p :: ps) ≫= piece_elements) with (piece_elements p ++ (ps ≫= piece_elements)).
  rewrite pushes_app. unfold args_of in *. cbn [mbind list_bind]. rewrite <-app_assoc.
  destruct p as [s| |v]; cbn [well_formed piece_args app] in *.
  - apply andb_true_iff in Hwf as [Hs Hwf].
    change (format_of (PText s :: ps)) with (s +:+ format_of ps).
    rewrite log_plain by done. by apply IH.
  - change (format_of (PPercent :: ps)) with (String "%" (String "%" (format_of ps))).
    cbn [log]. by apply IH.
  - apply andb_true_iff in Hwf as [Hs Hwf]. apply negb_true_iff in Hs.
    change (format_of (PArg v :: ps)) with (String "%" (format_of ps)).
    rewrite log_arg, pushValue_pushes by done. by apply IH.
Qed.

Lemma format_of_app ps1 ps2 : format_of (ps1 ++ ps2) = format_of ps1 +:+ format_of ps2.
Proof. induction ps1 as [|p ps IH]; simpl; [done|]. by rewrite IH, string_app_assoc. Qed.

Lemma log_too_few lg ps1 v ps2 :
  well_formed (ps1 ++ PArg v :: ps2) = true →
  log lg (format_of (ps1 ++ PArg v :: ps2)) (args_of ps1) = FATAL.
Proof.
  revert lg. induction ps1 as [|p ps IH]; intros lg Hwf.
  - cbn [app] in *. cbn [well_formed] in Hwf. apply andb_true_iff in Hwf as [Hs _].
    apply negb_true_iff in Hs. change (format_of (PArg v :: ps2)) with (String "%" (format_of ps2)).
    by apply log_missing.
  - unfold args_of in *. cbn [mbind list_bind]. rewrite <-app_comm_cons in *.
    destruct p as [s| |w]; cbn [well_formed piece_args app] in *.
    + apply andb_true_iff in Hwf as [Hs Hwf].
      change (format_of (PText s :: ?l)) with (s +:+ format_of l).
      rewrite log_plain by done. by apply IH.
    + cbn [format_of foldr piece_format]. change ("%%" +:+ ?t) with (String "%" (String "%" t)).
      cbn [log]. by apply IH.
    + apply andb_true_iff in Hwf as [Hs Hwf]. apply negb_true_iff in Hs.
      change (format_of (PArg w :: ?l)) with (String "%" (format_of l)).
      rewrite log_arg by done. by apply IH.
Qed.

(** ** The thread writes what was pushed *)
Definition holds (lg : Logger) (es : list LogElement) : Prop :=
  lfq_rep (queue_ lg) es ∧ lfq_cap (queue_ lg) = LOG_QUEUE_SIZE.

Lemma Logger_new_holds : holds Logger_new [].
Proof. split; [|done]. apply LFQueue_new_rep. by compute. Qed.

Lemma flush_step_spec lg es :
  holds lg es →
  match es with
  | [] => flush_step lg = Ok (inr lg)
  | e :: es => ∃ lg', flush_step lg = Ok (inl lg') ∧ holds lg' es ∧
                      file_ lg' = file_ lg +:+ element_text e
  end.
Proof.
  intros [Hq Hc]. pose proof (lfq_pop_rep _ _ Hq) as Hpop. unfold lfq_pop, flush_step in *.
  destruct es as [|e es].
  - destruct (getNextToRead (queue_ lg)) as [slot|]; [|done].
    by destruct (updateReadIndex (queue_ lg)).
  - destruct Hpop as (q' & Hpop & Hq' & Hc').
    destruct (getNextToRead (queue_ lg)) as [slot|]; [|done].
    destruct (updateReadIndex (queue_ lg)) as [q|]; [|done].
    injection Hpop as <- <-. eexists. split; [done|]. split; [|done]. split; [done|]. simpl. congruence.
Qed.

Lemma flushQueue_spec lg es :
  holds lg es →
  ∃ lg', flushQueue lg = Ok lg' ∧ holds lg' [] ∧ file_ lg' = file_ lg +:+ elements_text es.
Proof.
  intros Hh. unfold flushQueue.
  apply (loop_measure flush_step
    (λ s, ∃ rest, holds s rest ∧ file_ s +:+ elements_text rest = file_ lg +:+ elements_text es)
    (λ s, Z.to_nat (num_elements_ (queue_ s)))
    (λ s, holds s [] ∧ file_ s = file_ lg +:+ elements_text es)).
  - intros s (rest & Hs & Ht). pose proof (flush_step_spec s rest Hs) as Hstep.
    pose proof (lq_num _ _ (proj1 Hs)) as Hn. destruct rest as [|e rest].
    + eexists. split; [done|]. split; [done|]. by rewrite string_app_nil in Ht.
    + destruct Hstep as (s' & -> & Hs' & Hf). eexists. split; [done|].
      pose proof (lq_num _ _ (proj1 Hs')) as Hn'. split; [|simpl in Hn; lia].
      exists rest. split; [done|]. rewrite Hf, string_app_assoc. exact Ht.
  - by exists es.
  - pose proof (lq_num _ _ (proj1 Hh)). pose proof (lq_fits _ _ (proj1 Hh)).
    rewrite (proj2 Hh) in *. unfold LOG_QUEUE_SIZE in *. lia.
Qed.

Lemma pushes_holds lg es es' :
  holds lg es → Z.of_nat (length es + length es') ≤ LOG_QUEUE_SIZE →
  holds (pushes lg es') (es ++ es').
Proof.
  intros [Hq Hc] Hn. unfold holds, pushes. cbn [queue_].
  destruct (lfq_push_all_rep (queue_ lg) es es' Hq) as [H1 H2]; [by rewrite Hc|].
  split; [done|]. by rewrite H2.
Qed.

(** ** Lines logged and flushed in any order *)
Inductive LogAction :=
  | LogLine (ps : list Piece)
  | Flush.

Definition action_run (lg : Logger) (a : LogAction) : Res Logger :=
  match a with
  | LogLine ps => log lg (format_of ps) (args_of ps)
  | Flush => flushQueue lg
  end.
Definition line_text (a : LogAction) : string :=
  match a with LogLine ps => text_of ps | Flush => EmptyString end.
Definition lines_text (acts : list LogAction) : string :=
  foldr (λ a s, line_text a +:+ s) EmptyString acts.

(** No format has adjacent [%]s, and the thread keeps up: the queue never holds more than
    its size. *)
Fixpoint keeps_up (pending : Z) (acts : list LogAction) : bool :=
  match acts with
  | [] => true
  | LogLine ps :: acts =>
      let pending := pending + Z.of_nat (length (ps ≫= piece_elements)) in
      well_formed ps && (pending <=? LOG_QUEUE_SIZE) && keeps_up pending acts
  | Flush :: acts => keeps_up 0 acts
  end.

Lemma logger_run_spec lg es acts :
  holds lg es → keeps_up (Z.of_nat (length es)) acts = true →
  ∃ lg' es', fold_res action_run lg acts = Ok lg' ∧ holds lg' es' ∧
    file_ lg' +:+ elements_text es' = file_ lg +:+ elements_text es +:+ lines_text acts.
Proof.
  revert lg es. induction acts as [|a acts IH]; intros lg es Hh Hk.
  { exists lg, es. split; [done|]. split; [done|]. simpl. by rewrite string_app_nil. }
  destruct a as [ps|]; cbn [keeps_up fold_res action_run] in *.
  - apply andb_true_iff in Hk as [Hk Hk']. apply andb_true_iff in Hk as [Hwf Hn].
    apply Z.leb_le in Hn. pose proof (log_pieces lg ps [] Hwf) as Hlog.
    rewrite app_nil_r in Hlog. rewrite Hlog. cbn [mbind Res_bind].
    destruct (IH (pushes lg (ps ≫= piece_elements)) (es ++ (ps ≫= piece_elements)))
      as (lg' & es' & Hrun & Hh' & Ht).
    + apply pushes_holds; [done|lia].
    + by rewrite length_app, Nat2Z.inj_add.
    + exists lg', es'. split; [done|]. split; [done|]. rewrite Ht. cbn [file_ pushes].
      rewrite elements_text_app, pieces_text, !string_app_assoc. done.
  - destruct (flushQueue_spec lg es Hh) as (lg1 & -> & Hh1 & Hf). cbn [mbind Res_bind].
    destruct (IH lg1 [] Hh1 Hk) as (lg' & es' & Hrun & Hh' & Ht). exists lg', es'.
    split; [done|]. split; [done|]. rewrite Ht, Hf. simpl. by rewrite string_app_assoc.
Qed.

(** ** Theorems *)

(** C32: The log file holds the lines: as long as the logger's thread keeps up and no
    argument is directly followed by another [%], any sequence of [log] calls and turns of
    the thread runs without a fault, and once the thread has run again the file is the
    lines one after the other, every [%] replaced by its argument and every [%%] by one. A
    call with an argument too many, or one too few, ends the process. *)
Theorem log_file_holds_lines :
  (∀ acts, keeps_up 0 acts = true →
     ∃ lg lg', fold_res action_run Logger_new acts = Ok lg ∧ flushQueue lg = Ok lg' ∧
       file_ lg' = lines_text acts) ∧
  (∀ lg ps v extra, well_formed ps = true →
     log lg (format_of ps) (args_of ps ++ v :: extra) = Err FatalExit) ∧
  (∀ lg ps v ps', well_formed (ps ++ PArg v :: ps') = true →
     log lg (format_of (ps ++ PArg v :: ps')) (args_of ps) = Err FatalExit).
Proof.
  split_and!.
  - intros acts Hk. destruct (logger_run_spec _ _ acts Logger_new_holds Hk)
      as (lg & es & Hrun & Hh & Ht).
    destruct (flushQueue_spec lg es Hh) as (lg' & Hfl & _ & Hf).
    exists lg, lg'. split; [done|]. split; [done|]. rewrite Hf, Ht. done.
  - intros lg ps v extra Hwf. apply (log_pieces lg ps (v :: extra) Hwf).
  - intros lg ps v ps' Hwf. by apply log_too_few.
Qed.

(** Two lines with a flush between them, one of them with the escape. *)
Definition demo_log : list LogAction :=
  [LogLine [PText "sent "; PArg (CStr "NEW"); PText " x"; PArg (Prim (INTEGER (-3)))]; Flush;
   LogLine [PText " 100"; PPercent; PText " at "; PArg (Prim (DOUBLE (d_of_Z 5)))]].

Lemma log_file_holds_lines_witness :
  ∃ lg lg', fold_res action_run Logger_new demo_log = Ok lg ∧ flushQueue lg = Ok lg' ∧
    file_ lg' = "sent NEW x-3 100% at 5"%string.
Proof.
  destruct log_file_holds_lines as [Hrun _].
  destruct (Hrun demo_log) as (lg & lg' & H1 & H2 & H3); [by vm_compute|].
  exists lg, lg'. split; [exact H1|]. split; [exact H2|]. rewrite H3. by vm_compute.
Defined.

(** Two arguments in a row cannot be written: the signs are read as the escape. *)
Example adjacent_arguments :
  log Logger_new "%%" [Prim (INTEGER 1); Prim (INTEGER 2)] = Err FatalExit.
Proof. reflexivity. Qed.
