(* ===== verification/TCPServer.v ===== *)
(** * TCPServer: connections, and a turn of the order server's thread

    [common/tcp_server.h], [tcp_server.cpp] and the loop body of [OrderServer::run].  What
    the kernel does is an argument: the events of [epoll_wait], the connections [accept]
    returns until it fails, what [recvmsg] reads from a socket and how much [send] takes.
    The sockets themselves are kept by [OrderServer]'s map. *)
From S2P Require Import Prelude Types Wire Sockets LFQueue FIFOSequencer OrderServer OrderGateway.
From S2P Require Import OrderFlow.

(** The size of the array [events_]. *)
Definition EVENTS_SIZE : Z := 1024.

Record TCPServer := mkTCPServer {
  listener_socket_ : Z;
  receive_sockets_ : list Z;
  send_sockets_ : list Z
}.
Definition TCPServer_new (listener : Z) : TCPServer := mkTCPServer listener [] [].

(** An [epoll_event]: the socket, and the flags [EPOLLIN], [EPOLLOUT] and
    [EPOLLERR | EPOLLHUP]. *)
Record EpollEvent := mkEpollEvent {
  ev_socket : Z;
  ev_in : bool;
  ev_out : bool;
  ev_err : bool
}.

(** A connection that [accept] returned: its descriptor, the address of the new
    [TCPSocket], and whether the three system calls that set it up succeed. *)
Record Connection := mkConnection {
  cn_fd : Z;
  cn_socket : Z;
  cn_options : bool;
  cn_epoll : bool
}.

(** [if (std::find(v.begin(), v.end(), s) == v.end()) v.push_back(s)]. *)
Definition add_socket (s : Z) (v : list Z) : list Z :=
  if decide (s ∈ v) then v else v ++ [s].

Definition with_receive (ts : TCPServer) (v : list Z) : TCPServer :=
  mkTCPServer (listener_socket_ ts) v (send_sockets_ ts).
Definition with_send (ts : TCPServer) (v : list Z) : TCPServer :=
  mkTCPServer (listener_socket_ ts) (receive_sockets_ ts) v.

(** The body of the loop over the events; the flag is [have_new_connection]. *)
Definition poll_event (st : bool * TCPServer) (ev : EpollEvent) : bool * TCPServer :=
  let '(have_new_connection, ts) := st in
  if ev_in ev && (ev_socket ev =? listener_socket_ ts) then (true, ts)
  else
    let ts := if ev_in ev
              then with_receive ts (add_socket (ev_socket ev) (receive_sockets_ ts)) else ts in
    let ts := if ev_out ev
              then with_send ts (add_socket (ev_socket ev) (send_sockets_ ts)) else ts in
    let ts := if ev_err ev
              then with_receive ts (add_socket (ev_socket ev) (receive_sockets_ ts)) else ts in
    (have_new_connection, ts).

(** The [while (have_new_connection)] loop. *)
Fixpoint accept_loop (ts : TCPServer) (sv : OrderServer) (conns : list Connection)
  : Res (TCPServer * OrderServer) :=
  match conns with
  | [] => Ok (ts, sv)
  | c :: conns =>
      _ ← ASSERT (cn_options c);
      let sv := set_socket sv (cn_socket c) (Socket_new (cn_fd c)) in
      _ ← ASSERT (cn_epoll c);
      accept_loop (with_receive ts (add_socket (cn_socket c) (receive_sockets_ ts))) sv conns
  end.

(** The kernel was offered room for this many events ... *)
Definition max_events (ts : TCPServer) : Z :=
  i32 (1 + Z.of_nat (length (send_sockets_ ts)) + Z.of_nat (length (receive_sockets_ ts))).

(** ... and wrote [events] to the array. *)
Definition poll (ts : TCPServer) (sv : OrderServer) (events : list EpollEvent)
    (conns : list Connection) : Res (TCPServer * OrderServer) :=
  if Z.of_nat (length events) >? EVENTS_SIZE then Err BadIndex
  else
    let '(have_new_connection, ts) := foldl poll_event (false, ts) events in
    if (have_new_connection : bool) then accept_loop ts sv conns else Ok (ts, sv).

(** ** Reading and writing *)
Section Traffic.
Context (net : Z → option (Nanos * bytes)) (kernel_takes : Z → nat).

(** [TCPSocket::sendAndRecv]: whether something was read, and what the kernel was sent. *)
Definition socket_sendAndRecv (st : bool * OrderServer * list (Z * bytes)) (socket : Z)
  : Res (bool * OrderServer * list (Z * bytes)) :=
  let '(recv, sv, wire) := st in
  '(read, sv) ← match net socket with
                | None => Ok (false, sv)
                | Some (rx_time, chunk) =>
                    let called := (socket_recv TCPBufferSize (socket_at sv socket) chunk).2 in
                    sv ← os_receive sv socket rx_time chunk;
                    Ok (called, sv)
                end;
  let '(s, sent) := socket_flush (socket_at sv socket) (kernel_takes socket) in
  let wire := if next_send_valid_index_ (socket_at sv socket) >? 0
              then wire ++ [(socket, sent)] else wire in
  Ok (recv || read, set_socket sv socket s, wire).

(** [TCPServer::sendAndRecv], with the order server's callbacks. *)
Definition tcp_sendAndRecv `{StdSort} (ts : TCPServer) (sv : OrderServer)
  : Res (OrderServer * list (Z * bytes)) :=
  '(recv, sv, wire) ← fold_res socket_sendAndRecv (false, sv, []) (receive_sockets_ ts);
  let sv := if (recv : bool) then recvFinishedCallback sv else sv in
  '(_, sv, wire) ← fold_res socket_sendAndRecv (false, sv, wire) (send_sockets_ ts);
  Ok (sv, wire).
End Traffic.

(** What the kernel does in one turn of the thread. *)
Record KernelTurn := mkKernelTurn {
  kt_events : list EpollEvent;
  kt_conns : list Connection;
  kt_net : Z → option (Nanos * bytes);
  kt_takes : Z → nat
}.

(** The body of the loop of [OrderServer::run]. *)
Definition order_server_turn `{StdSort} (kt : KernelTurn) (fuel : nat)
    (st : TCPServer * OrderServer) : Res (TCPServer * OrderServer * list (Z * bytes)) :=
  let '(ts, sv) := st in
  '(ts, sv) ← poll ts sv (kt_events kt) (kt_conns kt);
  '(sv, wire) ← tcp_sendAndRecv (kt_net kt) (kt_takes kt) ts sv;
  sv ← os_send_responses fuel sv;
  Ok (ts, sv, wire).

(** ** Connections *)
Section Sockets.
Implicit Types (s : Z) (v : list Z) (ts : TCPServer).

Lemma add_socket_prefix s v : v `prefix_of` add_socket s v.
Proof. unfold add_socket. case_decide; [done|by apply prefix_app_r]. Qed.
Lemma add_socket_elem s v : s ∈ add_socket s v.
Proof. unfold add_socket. case_decide; [done|set_solver]. Qed.
Lemma add_socket_NoDup s v : NoDup v → NoDup (add_socket s v).
Proof.
  intros Hv. unfold add_socket. case_decide; [done|].
  rewrite <-Permutation_cons_append. by constructor.
Qed.
Lemma add_socket_id s v : s ∈ v → add_socket s v = v.
Proof. intros Hs. unfold add_socket. by rewrite decide_True. Qed.
Lemma add_socket_incl s v x : x ∈ add_socket s v → x = s ∨ x ∈ v.
Proof. unfold add_socket. case_decide; set_solver. Qed.

(** What [poll] keeps: nothing is ever taken out of the two vectors. *)
Record ts_extends ts ts' : Prop := {
  te_listener : listener_socket_ ts' = listener_socket_ ts;
  te_receive : receive_sockets_ ts `prefix_of` receive_sockets_ ts';
  te_send : send_sockets_ ts `prefix_of` send_sockets_ ts';
  te_receive_nodup : NoDup (receive_sockets_ ts) → NoDup (receive_sockets_ ts');
  te_send_nodup : NoDup (send_sockets_ ts) → NoDup (send_sockets_ ts')
}.

#[export] Instance ts_extends_preorder : PreOrder ts_extends.
Proof.
  split; [by split|]. intros t1 t2 t3 [] []. split; try (by etrans); tauto.
Qed.

Lemma ts_extends_receive ts s :
  ts_extends ts (with_receive ts (add_socket s (receive_sockets_ ts))).
Proof.
  split; simpl; auto using add_socket_prefix, add_socket_NoDup.
Qed.
Lemma ts_extends_send ts s : ts_extends ts (with_send ts (add_socket s (send_sockets_ ts))).
Proof.
  split; simpl; auto using add_socket_prefix, add_socket_NoDup.
Qed.

Lemma poll_event_extends st ev : ts_extends st.2 (poll_event st ev).2.
Proof.
  destruct st as [b ts]. unfold poll_event. cbn [fst snd].
  destruct (ev_in ev && _); [done|]. cbn [snd].
  destruct (ev_in ev), (ev_out ev), (ev_err ev);
    repeat first [done | etrans; [|apply ts_extends_receive] | etrans; [|apply ts_extends_send]].
Qed.

Lemma poll_event_registers b ts ev :
  ev_in ev = true → ev_socket ev ≠ listener_socket_ ts →
  ev_socket ev ∈ receive_sockets_ (poll_event (b, ts) ev).2.
Proof.
  intros Hin Hl. unfold poll_event. rewrite Hin, (proj2 (Z.eqb_neq _ _)) by done. cbn [andb snd].
  destruct (ev_out ev), (ev_err ev); apply add_socket_elem.
Qed.

Lemma poll_events_spec evs b ts :
  ts_extends ts (foldl poll_event (b, ts) evs).2 ∧
  (∀ ev, ev ∈ evs → ev_in ev = true → ev_socket ev ≠ listener_socket_ ts →
     ev_socket ev ∈ receive_sockets_ (foldl poll_event (b, ts) evs).2) ∧
  ((foldl poll_event (b, ts) evs).1 = true ↔
     b = true ∨ ∃ ev, ev ∈ evs ∧ ev_in ev = true ∧ ev_socket ev = listener_socket_ ts).
Proof.
  revert b ts. induction evs as [|ev evs IH]; intros b ts.
  { simpl. split; [done|]. split; [set_solver|]. set_solver. }
  cbn [foldl]. pose proof (poll_event_extends (b, ts) ev) as He. cbn [snd] in He.
  destruct (poll_event (b, ts) ev) as [b1 ts1] eqn:E1. cbn [snd] in He.
  destruct (IH b1 ts1) as (H1 & H2 & H3). rewrite (te_listener _ _ He) in H2, H3.
  split; [by etrans|]. split.
  - intros ev' Hev Hin Hl. apply elem_of_cons in Hev as [->|Hev]; [|by apply H2].
    eapply elem_of_prefix; [|exact (te_receive _ _ H1)].
    pose proof (poll_event_registers b ts ev Hin Hl) as Hr. by rewrite E1 in Hr.
  - rewrite H3. unfold poll_event in E1.
    destruct (ev_in ev && (ev_socket ev =? listener_socket_ ts)) eqn:Eb; injection E1 as <- _.
    + apply andb_true_iff in Eb as [Ei El%Z.eqb_eq].
      split; intros _; [|by left]. right. exists ev. split; [by left|done].
    + split; (intros [Hb|(ev' & Hev & Hi & Hl)]; [by left|right; exists ev']).
      * split; [by right|done].
      * apply elem_of_cons in Hev as [->|Hev]; [|done].
        by rewrite Hi, Hl, Z.eqb_refl in Eb.
Qed.

Lemma accept_loop_spec ts sv conns :
  Forall (λ c, cn_options c = true ∧ cn_epoll c = true) conns →
  ∃ ts' sv', accept_loop ts sv conns = Ok (ts', sv') ∧ ts_extends ts ts' ∧
    (∀ c, c ∈ conns → cn_socket c ∈ receive_sockets_ ts') ∧
    (∀ s, s ∈ receive_sockets_ ts' → s ∈ receive_sockets_ ts ∨ s ∈ (cn_socket <$> conns)) ∧
    send_sockets_ ts' = send_sockets_ ts ∧
    sv' = foldl (λ sv c, set_socket sv (cn_socket c) (Socket_new (cn_fd c))) sv conns.
Proof.
  revert ts sv. induction conns as [|c conns IH]; intros ts sv Hok.
  { exists ts, sv. split; [done|]. split; [done|]. set_solver. }
  apply Forall_cons in Hok as [[Ho He] Hok]. cbn [accept_loop].
  rewrite Ho, He. cbn [ASSERT mbind Res_bind].
  destruct (IH (with_receive ts (add_socket (cn_socket c) (receive_sockets_ ts)))
    (set_socket sv (cn_socket c) (Socket_new (cn_fd c))) Hok)
    as (ts' & sv' & Hrun & Hext & Hc & Hs & Hsend & ->).
  exists ts'. eexists. split; [exact Hrun|]. split; [etrans; [apply ts_extends_receive|done]|].
  split_and!; [| |done|done].
  - intros c' [->|Hc']%elem_of_cons; [|by apply Hc].
    eapply elem_of_prefix; [|exact (te_receive _ _ Hext)]. apply add_socket_elem.
  - intros s Hin%Hs. cbn [with_receive receive_sockets_ fmap list_fmap] in Hin |- *.
    destruct Hin as [[->|Hin]%add_socket_incl|Hin]; [right; by left|by left|right; by right].
Qed.
End Sockets.

(** ** Theorems *)

(** C34: [TCPServer::poll] keeps its books: while there are fewer than 1024 sockets, whatever
    events the kernel reports and connections it hands out are taken without a fault; the
    vectors only grow, without duplicates, and hold every new connection and every socket
    with data, also when no new connection is pending.  No socket is ever removed, not even
    one the kernel reports as dead, and [epoll_wait] is offered one slot per socket, so
    with more than 1024 events it writes past the end of [events_]. *)
Theorem poll_registers ts sv events conns :
  NoDup (receive_sockets_ ts) → NoDup (send_sockets_ ts) →
  Forall (λ c, cn_options c = true ∧ cn_epoll c = true) conns →
  (Z.of_nat (length events) ≤ max_events ts →
   Z.of_nat (length (receive_sockets_ ts) + length (send_sockets_ ts)) < EVENTS_SIZE →
   ∃ ts' sv', poll ts sv events conns = Ok (ts', sv') ∧
     NoDup (receive_sockets_ ts') ∧ NoDup (send_sockets_ ts') ∧
     receive_sockets_ ts `prefix_of` receive_sockets_ ts' ∧
     send_sockets_ ts `prefix_of` send_sockets_ ts' ∧
     (∀ ev, ev ∈ events → ev_in ev = true → ev_socket ev ≠ listener_socket_ ts →
        ev_socket ev ∈ receive_sockets_ ts') ∧
     ((∃ ev, ev ∈ events ∧ ev_in ev = true ∧ ev_socket ev = listener_socket_ ts) →
        ∀ c, c ∈ conns → cn_socket c ∈ receive_sockets_ ts')) ∧
  (EVENTS_SIZE < Z.of_nat (length events) → poll ts sv events conns = Err BadIndex).
Proof.
  intros Hr Hs Hok. split.
  - intros Hmax Hfew. unfold poll.
    assert (max_events ts =
      1 + Z.of_nat (length (send_sockets_ ts)) + Z.of_nat (length (receive_sockets_ ts))) as Hm.
    { unfold max_events. unfold EVENTS_SIZE in *. rewrite i32_id; lia. }
    rewrite Z.gtb_ltb, (proj2 (Z.ltb_ge _ _)) by lia.
    destruct (poll_events_spec events false ts) as (He & Hev & Hnew).
    destruct (foldl poll_event (false, ts) events) as [b ts1]. cbn [fst snd] in *.
    destruct b.
    + destruct (accept_loop_spec ts1 sv conns Hok) as (ts2 & sv2 & Hrun & He2 & Hc & _).
      exists ts2, sv2. split; [done|]. assert (ts_extends ts ts2) as [_ ? ? Hn1 Hn2] by by etrans.
      split_and!; [by apply Hn1|by apply Hn2|done|done| |by intros _].
      intros ev H1 H2 H3. eapply elem_of_prefix; [by apply (Hev ev)|apply He2].
    + exists ts1, sv. destruct He as [_ ? ? Hn1 Hn2].
      split; [done|]. split_and!; [by apply Hn1|by apply Hn2|done|done|done|].
      intros Hex. exfalso. by assert (false = true) by (apply Hnew; by right).
  - intros Hmany. unfold poll. by rewrite Z.gtb_ltb, (proj2 (Z.ltb_lt _ _)).
Qed.

(** A listener event and one on a known socket that died. *)
Lemma poll_registers_witness :
  ∃ ts' sv', poll (mkTCPServer 1 [5] []) (OrderServer_new (LFQueue_new 8 MEClientRequest_default)
      (LFQueue_new 8 MEClientResponse_default))
      [mkEpollEvent 1 true false false; mkEpollEvent 5 false false true]
      [mkConnection 9 6 true true] = Ok (ts', sv') ∧ 6 ∈ receive_sockets_ ts' ∧
    [5] `prefix_of` receive_sockets_ ts'.
Proof.
  destruct (poll_registers (mkTCPServer 1 [5] []) (OrderServer_new
    (LFQueue_new 8 MEClientRequest_default) (LFQueue_new 8 MEClientResponse_default))
    [mkEpollEvent 1 true false false; mkEpollEvent 5 false false true]
    [mkConnection 9 6 true true]) as [H _].
  - apply NoDup_singleton.
  - apply NoDup_nil. exact I.
  - repeat constructor.
  - destruct H as (ts' & sv' & H1 & _ & _ & H2 & _ & _ & H3).
    + by vm_compute.
    + by vm_compute.
    + exists ts', sv'. split; [exact H1|]. split; [|exact H2].
      apply (H3 (ex_intro _ (mkEpollEvent 1 true false false)
        (conj (list_elem_of_here _ _) (conj eq_refl eq_refl))) (mkConnection 9 6 true true)).
      by left.
Defined.
