(* ===== verification/EngineSession.v ===== *)
(** * EngineSession: what any traffic makes of the matching engine

    The reference engine on whole sessions, for all instruments at once: which messages it
    sends and how many, to whom, and that its market updates are feeds in the sense of
    [MarketBBO] and valid for the snapshot synthesizer.  The composed exchange is built on
    these facts. *)
From S2P Require Import Prelude Types BookInv LevelsAbs MEOrderBook BookSpec BookMatch.
From S2P Require Import MEBookRefine MEBookSpec BookProps Sessions LFQueue MatchingEngine.
From S2P Require Import MarketOrderBook MarketBookSpec MarketBBO FeedMirror.
From S2P Require Import SnapshotSynthesizer MarketDataPublisher MarketDataConsumer.
From S2P Require Import SnapshotRebuild LateJoiner.

(** ** One instrument of the reference engine *)
Definition engine_after (P : list MEClientRequest) : SpecEngine :=
  foldl spec_process SpecEngine_new P.

(** What the engine sends for a request. *)
Definition process_events (s : SpecEngine) (r : MEClientRequest) : list Event :=
  match book_request r with
  | None => []
  | Some br => (spec_step (rq_ticker_id r) (se_books s (rq_ticker_id r)) br).2
  end.

Section Instrument.
Implicit Types (s : SpecEngine) (r : MEClientRequest) (t : TickerId) (a : SpecBook).

Lemma spec_process_messages s r :
  se_responses (spec_process s r) = se_responses s ++ responses (process_events s r) ∧
  se_updates (spec_process s r) = se_updates s ++ updates (process_events s r).
Proof.
  unfold spec_process, process_events. destruct (book_request r) as [br|].
  - by destruct (spec_step _ _ br).
  - by rewrite !app_nil_r.
Qed.

Lemma spec_process_book s r t :
  se_books (spec_process s r) t =
  match ticker_request t r with
  | Some br => (spec_step t (se_books s t) br).1
  | None => se_books s t
  end.
Proof.
  unfold spec_process, ticker_request. destruct (decide (rq_ticker_id r = t)) as [<-|Hne].
  - destruct (book_request r) as [br|]; [|done].
    destruct (spec_step _ _ br). cbn [se_books]. by rewrite decide_True.
  - destruct (book_request r) as [br|]; [|done].
    destruct (spec_step _ _ br). cbn [se_books]. by rewrite decide_False.
Qed.

(** The messages depend on the books only. *)
Lemma spec_process_pending s rp up r :
  spec_process (mkSpecEngine (se_books s) rp up) r =
  mkSpecEngine (se_books (spec_process s r)) (rp ++ responses (process_events s r))
    (up ++ updates (process_events s r)).
Proof.
  unfold spec_process, process_events. destruct (book_request r) as [br|].
  - cbn [se_books]. by destruct (spec_step _ _ br).
  - by rewrite !app_nil_r.
Qed.

Lemma ticker_requests_app t P Q :
  ticker_requests t (P ++ Q) = ticker_requests t P ++ ticker_requests t Q.
Proof. apply omap_app. Qed.

Lemma engine_after_snoc P r : engine_after (P ++ [r]) = spec_process (engine_after P) r.
Proof. unfold engine_after. by rewrite foldl_app. Qed.

(** Every instrument's book sees its own requests. *)
Lemma engine_after_book P t :
  se_books (engine_after P) t = (spec_run t SpecBook_new (ticker_requests t P)).1.
Proof.
  induction P as [|r P IH] using rev_ind; [done|].
  rewrite engine_after_snoc, spec_process_book, IH, ticker_requests_app.
  change (ticker_requests t [r]) with (list_omap _ _ (ticker_request t) [r]). cbn [list_omap].
  destruct (ticker_request t r) as [br|]; [by rewrite spec_run_snoc|by rewrite app_nil_r].
Qed.
End Instrument.

(** ** Events of a request *)
Section Events.
Context (P : Event → Prop).
Implicit Types (d : OrderInfo) (l : side_levels OrderInfo) (t : TickerId) (a : SpecBook).

(** A property of the messages of every execution holds of all messages of matching. *)
Lemma match_level_events c i t s moid ds lv :
  (∀ d fill rest leaves, d ∈ ds → Forall P (fill_events c i t s moid d fill rest leaves)) →
  Forall P (match_level c i t s moid ds lv).2.
Proof.
  revert lv. induction ds as [|d ds IH]; intros lv Hf; cbn [match_level]; [done|].
  destruct (lv =? 0); [done|]. destruct (oi_qty d <=? lv); [|by apply Hf; left].
  pose proof (IH (lv - oi_qty d) ltac:(intros; apply Hf; by right)) as H.
  destruct (match_level c i t s moid ds (lv - oi_qty d)) as [[ds' lv'] ev].
  apply Forall_app. split; [by apply Hf; left|exact H].
Qed.

Lemma match_side_events c i t s price moid l lv :
  (∀ d fill rest leaves, d ∈ level_orders l →
     Forall P (fill_events c i t s moid d fill rest leaves)) →
  Forall P (match_side c i t s price moid l lv).2.
Proof.
  revert lv. induction l as [|[p ds] l IH]; intros lv Hf; cbn [match_side]; [done|].
  rewrite level_orders_cons in Hf. destruct (_ || _); [done|].
  pose proof (match_level_events c i t s moid ds lv ltac:(intros; apply Hf; set_solver)) as H.
  destruct (match_level c i t s moid ds lv) as [[[|x ds'] lv'] ev]; [|exact H].
  pose proof (IH lv' ltac:(intros; apply Hf; set_solver)) as H'.
  destruct (match_side c i t s price moid l lv') as [[l' lv''] ev'].
  apply Forall_app. by split.
Qed.

(** The same for a whole request: its replies, the executions, and the order that rests. *)
Lemma spec_step_events t a br :
  match br with
  | ReqNew c i s p q =>
      P (SendResponse (mkMEClientResponse ClientResponseType.ACCEPTED c t i (sb_next_id a) s p
           0 q)) ∧
      (∀ d fill rest leaves, d ∈ sb_orders a →
         Forall P (fill_events c i t s (u32 (sb_next_id a)) d fill rest leaves)) ∧
      (∀ leaves prio, P (SendUpdate (mkMEMarketUpdate MarketUpdateType.ADD (sb_next_id a) t s
         p leaves prio)))
  | ReqCancel c i =>
      P (SendResponse (mkMEClientResponse ClientResponseType.CANCEL_REJECTED c t i
           OrderId_INVALID Side.INVALID Price_INVALID Qty_INVALID Qty_INVALID)) ∧
      ∀ d, d ∈ sb_orders a →
        P (SendUpdate (mkMEMarketUpdate MarketUpdateType.CANCEL (oi_market_order_id d) t
             (oi_side d) (oi_price d) 0 (oi_priority d))) ∧
        P (SendResponse (mkMEClientResponse ClientResponseType.CANCELED c t i
             (oi_market_order_id d) (oi_side d) (oi_price d) Qty_INVALID (oi_qty d)))
  end → Forall P (spec_step t a br).2.
Proof.
  destruct br as [c i s p q|c i]; cbn [spec_step].
  - intros (Hacc & Hfill & Hadd). unfold spec_add.
    pose proof (match_side_events c i t s p (u32 (sb_next_id a)) (sb_side a (opp s)) q) as H.
    destruct (match_side _ _ _ _ _ _ _ _) as [[other lv] ev]. cbn [snd] in H.
    specialize (H ltac:(intros; by apply Hfill, (sb_side_orders a (opp s)))).
    destruct (lv =? 0); cbn [snd]; constructor; [done|done|done|].
    apply Forall_app. split; [done|]. by repeat constructor.
  - intros [Hrej Hc]. unfold spec_cancel, find_order.
    destruct (list_find _ _) as [[n d]|] eqn:E; cbn [fmap option_fmap option_map snd];
      [|by repeat constructor].
    apply list_find_Some in E as (E & _). apply list_elem_of_lookup_2 in E.
    destruct (Hc d E). by repeat constructor.
Qed.
End Events.

(** ** Whom and what the messages are about *)
Definition market_type (t : MarketUpdateType.t) : bool :=
  match t with
  | MarketUpdateType.ADD | MarketUpdateType.MODIFY | MarketUpdateType.CANCEL
  | MarketUpdateType.TRADE => true
  | _ => false
  end.

(** A message about instrument [t], with clients in [Q]. *)
Definition event_about (t : TickerId) (Q : ClientId → Prop) (e : Event) : Prop :=
  match e with
  | SendResponse r => rs_ticker_id r = t ∧ Q (rs_client_id r)
  | SendUpdate u => mu_ticker_id u = t ∧ market_type (mu_type u) = true
  end.

Definition request_client (br : BookRequest) : ClientId :=
  match br with ReqNew c _ _ _ _ | ReqCancel c _ => c end.
Definition orders_of (Q : ClientId → Prop) (a : SpecBook) : Prop :=
  Forall (λ d, Q (oi_client_id d)) (sb_orders a).

Section About.
Context (Q : ClientId → Prop).
Implicit Types (t : TickerId) (a : SpecBook) (br : BookRequest) (P : list MEClientRequest).

Lemma step_about t a br :
  Q (request_client br) → orders_of Q a → Forall (event_about t Q) (spec_step t a br).2.
Proof.
  unfold orders_of. rewrite Forall_forall. intros Hc Ho.
  apply spec_step_events. destruct br as [c i s p q|c i]; cbn [request_client] in Hc.
  - split; [by split|]. split; [|by split]. intros d fill rest leaves Hd.
    specialize (Ho d Hd). unfold fill_events. destruct (rest =? 0); repeat constructor; done.
  - split; [by split|]. intros d Hd. by split.
Qed.

Lemma step_orders t bk a br :
  refines bk a → valid_req a br → Q (request_client br) → orders_of Q a →
  orders_of Q (spec_step t a br).1.
Proof.
  unfold orders_of. intros Href Hv Hc Ho. rewrite Forall_forall in Ho |- *.
  assert (∀ keys d, (order_key <$> sb_orders (spec_step t a br).1) ⊆+ keys →
    d ∈ sb_orders (spec_step t a br).1 → order_key d ∈ keys) as Hin.
  { intros keys d Hk Hd. eapply elem_of_submseteq; [|exact Hk].
    by apply (list_elem_of_fmap_2 order_key). }
  intros d Hd. destruct br as [c i s p q|c i]; cbn [spec_step request_client] in *.
  - destruct (spec_add_sub bk a c i t s p q Href Hv) as [_ Hk].
    apply (Hin _ _ Hk), elem_of_cons in Hd as [E|(x & E & Hx)%list_elem_of_fmap].
    + injection E as -> _. exact Hc.
    + injection E as -> _. by apply Ho.
  - destruct (spec_cancel_sub a c i t) as [_ Hk].
    apply (Hin _ _ Hk), list_elem_of_fmap in Hd as (x & E & Hx). injection E as -> _. by apply Ho.
Qed.
End About.

(** The updates of an instrument are those of its own book. *)
Lemma about_for_ticker t Q evs : Forall (event_about t Q) evs →
  ∀ t', for_ticker t' (updates evs) = if decide (t' = t) then updates evs else [].
Proof.
  intros Hall t'. assert (Forall (λ u, mu_ticker_id u = t) (updates evs)) as Hu.
  { apply Forall_forall. intros u (e & He & E)%list_elem_of_omap.
    rewrite Forall_forall in Hall. specialize (Hall e He). destruct e; [done|].
    injection E as ->. apply Hall. }
  unfold for_ticker. case_decide as E.
  - apply filter_none_or_all. eapply Forall_impl; [exact Hu|]. by intros ? ->.
  - apply filter_none_or_all. eapply Forall_impl; [exact Hu|]. intros ? <- ?. by apply E.
Qed.

Lemma for_ticker_app t us vs : for_ticker t (us ++ vs) = for_ticker t us ++ for_ticker t vs.
Proof. apply filter_app. Qed.

Lemma engine_after_feed P t :
  for_ticker t (se_updates (engine_after P)) =
  updates (spec_run t SpecBook_new (ticker_requests t P)).2.
Proof.
  induction P as [|r P IH] using rev_ind; [done|].
  rewrite engine_after_snoc, (proj2 (spec_process_messages _ _)), for_ticker_app, IH,
    ticker_requests_app.
  change (ticker_requests t [r]) with (list_omap _ _ (ticker_request t) [r]).
  cbn [list_omap]. unfold process_events, ticker_request.
  destruct (book_request r) as [br|] eqn:Ebr.
  2: { assert ((if decide (rq_ticker_id r = t) then @None BookRequest else None) = None) as ->
         by by case_decide. by rewrite !app_nil_r. }
  rewrite (about_for_ticker (rq_ticker_id r) (λ _, True)).
  2: { apply step_about; [done|]. by apply Forall_forall. }
  destruct (decide (rq_ticker_id r = t)) as [->|Hne].
  - rewrite decide_True, spec_run_snoc by done. cbn [snd]. rewrite updates_app.
    by rewrite engine_after_book.
  - by rewrite decide_False, !app_nil_r by congruence.
Qed.

(** ** Traffic the engine takes *)

(** Requests with tickers and types of the market, tame for every instrument. *)
Record traffic_ok (lo hi : TickerId → Price) (rs : list MEClientRequest) : Prop := {
  tr_ok : Forall (λ r, ticker_ok (rq_ticker_id r) ∧ rq_type r ≠ ClientRequestType.INVALID) rs;
  tr_tame : ∀ t, ticker_ok t → tame (lo t) (hi t) (ticker_requests t rs)
}.

Lemma tame_prefix lo hi rs rs' : tame lo hi (rs ++ rs') → tame lo hi rs.
Proof.
  intros [Hb Hok Hnd Hn]. unfold new_keys in *. rewrite omap_app in Hnd, Hn.
  rewrite length_app in Hn. apply NoDup_app in Hnd as [Hnd _]. apply Forall_app in Hok as [Hok _].
  split; [done..|]. unfold new_keys. lia.
Qed.

(** Whatever part of the traffic has arrived, in whatever order, is such traffic. *)
Lemma traffic_sub lo hi rs rs' : rs' ⊆+ rs → traffic_ok lo hi rs → traffic_ok lo hi rs'.
Proof.
  intros (k & E)%submseteq_Permutation [Hok Htame]. rewrite E in Hok.
  apply Forall_app in Hok as [Hok _]. split; [done|]. intros t Ht.
  eapply tame_prefix. rewrite <-ticker_requests_app.
  eapply tame_perm; [|by apply Htame]. unfold ticker_requests. by rewrite E.
Qed.

Section Traffic.
Context (lo hi : TickerId → Price).
Implicit Types (t : TickerId) (r : MEClientRequest) (P : list MEClientRequest).

Lemma traffic_valid P t : traffic_ok lo hi P → ticker_ok t →
  valid_run t SpecBook_new (ticker_requests t P).
Proof. intros Htr Ht. eapply tame_valid, (tr_tame _ _ _ Htr t Ht). Qed.

Lemma engine_after_refines P t : traffic_ok lo hi P → ticker_ok t →
  ∃ bk, refines bk (se_books (engine_after P) t) ∧ book_ok (se_books (engine_after P) t).
Proof.
  intros Htr Ht. rewrite engine_after_book.
  destruct (book_run_spec t _ _ [] _ (MEOrderBook_new_refines t) book_ok_new (traffic_valid P t Htr Ht))
    as (bk & _ & Hbk & Hok). by exists bk.
Qed.

(** The next request is one the engine handles. *)
Lemma traffic_next P r : traffic_ok lo hi (P ++ [r]) → valid_engine_req (engine_after P) r.
Proof.
  intros Htr. pose proof (tr_ok _ _ _ Htr) as Hok. apply Forall_app in Hok as [_ Hok].
  apply Forall_cons in Hok as [[Ht Hty] _]. split; [done|].
  pose proof (traffic_valid _ _ Htr Ht) as Hv. rewrite ticker_requests_app in Hv.
  apply valid_run_app in Hv as [_ Hv]. rewrite engine_after_book.
  change (ticker_requests ?t [r]) with (list_omap _ _ (ticker_request t) [r]) in Hv.
  cbn [list_omap] in Hv. unfold ticker_request in Hv. rewrite decide_True in Hv by done.
  unfold book_request in *. destruct (rq_type r); [done|apply Hv..].
Qed.
End Traffic.

(** ** How many messages *)

(** Every execution sends two responses and two updates, and takes an order off the book
    unless it is the last one of its request: over a session a request accounts for at most
    three messages of each kind. *)
Definition orders_count (l : side_levels OrderInfo) : nat := length (level_orders l).
Definition book_count (a : SpecBook) : nat := length (sb_orders a).

Lemma responses_app ev ev' : responses (ev ++ ev') = responses ev ++ responses ev'.
Proof. apply omap_app. Qed.

Lemma book_count_sides a s : tradable s →
  book_count a = (orders_count (sb_side a s) + orders_count (sb_side a (opp s)))%nat.
Proof.
  intros Hs. unfold book_count, orders_count, sb_orders.
  by rewrite (level_orders_perm _ _ (sb_levels_perm a s Hs)), level_orders_app, length_app.
Qed.

Lemma responses_reply r ev : responses (SendResponse r :: ev) = r :: responses ev.
Proof. done. Qed.
Lemma updates_reply r ev : updates (SendResponse r :: ev) = updates ev.
Proof. done. Qed.

Lemma fill_responses c i t s moid d fill rest leaves :
  length (responses (fill_events c i t s moid d fill rest leaves)) = 2%nat.
Proof. done. Qed.
Lemma fill_updates c i t s moid d fill rest leaves :
  length (updates (fill_events c i t s moid d fill rest leaves)) = 2%nat.
Proof. done. Qed.

Lemma match_side_count c i t s price moid l lv l' lv' ev :
  Forall (λ pd, pd.2 ≠ []) l → match_side c i t s price moid l lv = (l', lv', ev) →
  (length (updates ev) = length (responses ev) ∧
   length (responses ev) + 2 * orders_count l' ≤ 2 * orders_count l + 2 ∧
   (lv' ≠ 0%Z → length (responses ev) + 2 * orders_count l' ≤ 2 * orders_count l))%nat.
Proof.
  revert l lv l' lv' ev.
  apply (match_side_ind _ _ _ _ _ _ (λ l lv l' lv' ev,
    length (updates ev) = length (responses ev) ∧
    length (responses ev) + 2 * orders_count l' ≤ 2 * orders_count l + 2 ∧
    (lv' ≠ 0%Z → length (responses ev) + 2 * orders_count l' ≤ 2 * orders_count l))%nat).
  - intros l lv _. cbn. lia.
  - intros p d ds l lv l' lv' ev _ _ _ _. unfold orders_count.
    rewrite level_orders_app, level_orders_some, level_orders_cons, updates_app, responses_app.
    rewrite !length_app, fill_responses, fill_updates. cbn [length].
    intros (H1 & H2 & H3). split; [|split]; [lia|lia|]. intros H. specialize (H3 H). lia.
  - intros p d ds l lv _ _ Hlt. unfold orders_count. rewrite !level_orders_cons, !length_app.
    rewrite fill_responses, fill_updates. cbn [length]. lia.
Qed.

Lemma insert_count s d l :
  orders_count (insert_order s d l) = S (orders_count l).
Proof. unfold orders_count. by rewrite insert_order_orders. Qed.

Lemma spec_step_count t bk a br : refines bk a → valid_req a br →
  (length (responses (spec_step t a br).2) + 2 * book_count (spec_step t a br).1 ≤
     2 * book_count a + 3 ∧
   length (updates (spec_step t a br).2) + 2 * book_count (spec_step t a br).1 ≤
     2 * book_count a + 3)%nat.
Proof.
  intros Href Hv. destruct br as [c i s p q|c i]; cbn [spec_step].
  - pose proof Hv as (Hs & _).
    destruct (refines_level_prices bk a _ Href (opp_tradable s)) as (_ & Hne & _).
    destruct (match_side c i t s p (u32 (sb_next_id a)) (sb_side a (opp s)) q)
      as [[other lv] ev] eqn:Em.
    rewrite (spec_add_eq _ _ _ _ _ _ _ _ _ _ Em). cbv zeta.
    destruct (match_side_count _ _ _ _ _ _ _ _ _ _ _ Hne Em) as (H1 & H2 & H3).
    rewrite (book_count_sides a s Hs).
    assert (∀ a', sb_side a' (opp s) = other → sb_side a' s = sb_side a s →
      book_count a' = (orders_count (sb_side a s) + orders_count other)%nat) as Hcount.
    { intros a' E1 E2. by rewrite (book_count_sides a' s Hs), E1, E2. }
    destruct (lv =? 0)%Z eqn:E0; cbn [fst snd].
    + rewrite Hcount by (by rewrite ?spec_matched_opp, ?spec_matched_same).
      rewrite responses_reply, updates_reply. cbn [length]. lia.
    + apply Z.eqb_neq in E0. specialize (H3 E0).
      rewrite (book_count_sides _ s Hs), sb_side_set, sb_side_set_opp by done.
      rewrite spec_matched_opp, spec_matched_same by done. rewrite insert_count.
      rewrite responses_reply, updates_reply, responses_app, updates_app. cbn [length].
      rewrite !length_app. cbn. lia.
  - destruct (spec_cancel_sub a c i t) as [_ Hk%submseteq_length].
    rewrite !length_fmap in Hk. fold (book_count a) in Hk.
    fold (book_count (spec_cancel a c i t).1) in Hk.
    assert (length (responses (spec_cancel a c i t).2) = 1%nat ∧
      length (updates (spec_cancel a c i t).2) ≤ 1)%nat as [H1 H2]; [|lia].
    unfold spec_cancel. destruct (find_order a c i); cbn; lia.
Qed.

Lemma sum_list_update {A} (f g : A → nat) (l : list A) x :
  NoDup l → x ∈ l → (∀ y, y ≠ x → f y = g y) →
  (sum_list (f <$> l) + g x = sum_list (g <$> l) + f x)%nat.
Proof.
  intros Hnd Hx Hfg. induction Hnd as [|y l Hy Hnd IH]; [by apply elem_of_nil in Hx|].
  change (sum_list (f <$> y :: l)) with (f y + sum_list (f <$> l))%nat.
  change (sum_list (g <$> y :: l)) with (g y + sum_list (g <$> l))%nat.
  apply elem_of_cons in Hx as [->|Hx].
  - assert (f <$> l = g <$> l) as ->; [|lia]. apply list_fmap_ext. intros i z Hz.
    apply Hfg. intros ->. by apply Hy, (list_elem_of_lookup_2 l i).
  - rewrite (Hfg y) by (intros ->; done). specialize (IH Hx). lia.
Qed.

Definition book_total (s : SpecEngine) : nat :=
  sum_list ((λ t, book_count (se_books s t)) <$> seqZ 0 ME_MAX_TICKERS).

Section Counts.
Context (lo hi : TickerId → Price).
Implicit Types (t : TickerId) (r : MEClientRequest) (P : list MEClientRequest).

Lemma engine_after_count P : traffic_ok lo hi P →
  (length (se_responses (engine_after P)) + 2 * book_total (engine_after P) ≤ 3 * length P ∧
   length (se_updates (engine_after P)) + 2 * book_total (engine_after P) ≤ 3 * length P)%nat.
Proof.
  induction P as [|r P IH] using rev_ind; intros Htr; [by vm_compute|].
  assert (traffic_ok lo hi P) as HP by by (eapply traffic_sub; [apply submseteq_inserts_r|]).
  specialize (IH HP). pose proof (traffic_next _ _ _ _ Htr) as [Ht Hv].
  rewrite engine_after_snoc. set (s := engine_after P) in *.
  destruct (spec_process_messages s r) as [-> ->]. rewrite !length_app.
  pose proof (sum_list_update (λ t, book_count (se_books (spec_process s r) t))
    (λ t, book_count (se_books s t)) (seqZ 0 ME_MAX_TICKERS) (rq_ticker_id r)) as Hsum.
  cbv beta in Hsum. fold (book_total s) in Hsum. fold (book_total (spec_process s r)) in Hsum.
  specialize (Hsum (NoDup_seqZ _ _)). rewrite elem_of_seqZ, spec_process_book in Hsum.
  unfold ticker_request, process_events in *. rewrite decide_True in Hsum by done.
  destruct (book_request r) as [br|]; [|done].
  destruct (engine_after_refines lo hi P (rq_ticker_id r) HP Ht) as (bk & Hbk & _).
  destruct (spec_step_count (rq_ticker_id r) bk _ br Hbk Hv) as [H1 H2]. fold s in H1, H2.
  cbn [length]. unfold ticker_ok in Ht. specialize (Hsum ltac:(lia)).
  assert (∀ t, t ≠ rq_ticker_id r →
    book_count (se_books (spec_process s r) t) = book_count (se_books s t)) as Hsame.
  { intros t Hne. rewrite spec_process_book. unfold ticker_request.
    by rewrite decide_False by congruence. }
  specialize (Hsum Hsame). lia.
Qed.

(** Every message goes to a client whose request was taken. *)
Lemma engine_after_clients P (Q : ClientId → Prop) : traffic_ok lo hi P →
  Forall (λ r, Q (rq_client_id r)) P →
  Forall (λ x, Q (rs_client_id x)) (se_responses (engine_after P)) ∧
  (∀ t, orders_of Q (se_books (engine_after P) t)) ∧
  Forall (λ u, ticker_ok (mu_ticker_id u) ∧ market_type (mu_type u) = true)
    (se_updates (engine_after P)).
Proof.
  induction P as [|r P IH] using rev_ind; intros Htr HQ.
  { split; [constructor|]. split; [intros t; apply Forall_forall; intros d Hd; by apply elem_of_nil in Hd|constructor]. }
  assert (traffic_ok lo hi P) as HP by by (eapply traffic_sub; [apply submseteq_inserts_r|]).
  apply Forall_app in HQ as [HQ HQr]. apply Forall_cons in HQr as [HQr _].
  destruct (IH HP HQ) as (IH1 & IH2 & IH3). clear IH.
  pose proof (traffic_next _ _ _ _ Htr) as [Ht Hv].
  rewrite engine_after_snoc. set (s := engine_after P) in *.
  destruct (spec_process_messages s r) as [-> ->].
  assert (Forall (event_about (rq_ticker_id r) Q) (process_events s r)) as Hev.
  { unfold process_events. unfold book_request in *.
    destruct (rq_type r); [done|by apply step_about..]. }
  rewrite Forall_forall in Hev. split; [|split].
  - apply Forall_app. split; [done|]. apply Forall_forall.
    intros x (e & He & Ex)%list_elem_of_omap. specialize (Hev e He). destruct e; [|done].
    injection Ex as ->. apply Hev.
  - intros t. rewrite spec_process_book. unfold ticker_request.
    destruct (decide (rq_ticker_id r = t)) as [<-|Hne]; [|done].
    destruct (book_request r) as [br|] eqn:Ebr; [|done].
    destruct (engine_after_refines lo hi P (rq_ticker_id r) HP Ht) as (bk & Hbk & _).
    eapply step_orders; [exact Hbk|done| |done]. unfold book_request in Ebr.
    destruct (rq_type r); simplify_eq; done.
  - apply Forall_app. split; [done|]. apply Forall_forall.
    intros x (e & He & Ex)%list_elem_of_omap. specialize (Hev e He). destruct e; [done|].
    injection Ex as ->. destruct Hev as [-> ?]. by split.
Qed.
End Counts.

(** ** The updates as feeds *)
Lemma snap_apply_size S u : (size (snap_apply S u) ≤ size S + 1)%nat.
Proof.
  unfold snap_apply. destruct (mu_type u); try lia.
  - rewrite map_size_insert. destruct (S !! snap_key u); simpl; lia.
  - by rewrite <-size_dom, dom_alter_L, size_dom; lia.
  - rewrite map_size_delete. destruct (S !! snap_key u); simpl; lia.
Qed.

(** The updates of a feed are valid for the synthesizer as well. *)
Lemma feed_snap_valid S b u :
  snap_wf S → snap_matches S (mu_ticker_id u) b → valid_update b u → consistent b u →
  ticker_ok (mu_ticker_id u) → Z.of_nat (size S) + 2 ≤ ME_MAX_ORDER_IDS → snap_valid S u.
Proof.
  intros Hw [Hs Hc] Hv Hcons Ht Hsize. unfold snap_valid.
  assert (mu_type u = MarketUpdateType.MODIFY ∨ mu_type u = MarketUpdateType.CANCEL →
    mu_order_id u ∈ mi_order_id <$> sm_orders b →
    Some (mu_side u) = mu_side <$> S !! snap_key u) as Hold.
  { intros Hty (d & Hid & Hd)%list_elem_of_fmap. destruct (Hc d Hd) as (v & Hv' & <-).
    unfold snap_key. rewrite Hid, Hv'. cbn [fmap option_fmap option_map]. f_equal.
    specialize (Hcons Hty). rewrite Forall_forall in Hcons.
    destruct (Hcons _ Hd (eq_sym Hid)) as [<- _]. done. }
  unfold valid_update in Hv. destruct (mu_type u) eqn:Et; try done.
  - destruct Hv as (_ & Hid & _ & Hno & _). split; [by split|]. split; [|done].
    destruct (S !! snap_key u) as [v|] eqn:E; [|done]. destruct Hno.
    pose proof (snap_id S _ _ v Hw E) as Hid'. rewrite <-Hid'.
    apply (list_elem_of_fmap_2 mi_order_id _ (update_info v)). by eapply Hs.
  - apply Hold; [by left|apply Hv].
  - apply Hold; [by right|done].
Qed.

Lemma feeds_snap_valid us : ∀ (b : TickerId → SpecMarket) S,
  Forall (λ u, ticker_ok (mu_ticker_id u)) us → snap_wf S →
  (∀ t, ticker_ok t → sm_good (b t) ∧ snap_matches S t (b t) ∧ feed_ok (b t) (for_ticker t us)) →
  Z.of_nat (size S + length us) + 2 ≤ ME_MAX_ORDER_IDS → snap_valid_all S us.
Proof.
  induction us as [|u us IH]; intros b S Hall Hw Hb Hsize; [done|].
  apply Forall_cons in Hall as [Ht Hall]. cbn [length] in Hsize.
  destruct (Hb _ Ht) as (Hg & Hm & Hf). unfold for_ticker in Hf.
  rewrite filter_cons_True in Hf by done. destruct Hf as (Hv & Hc & Hfr & Hf).
  split; [apply (feed_snap_valid S (b (mu_ticker_id u))); try done; lia|].
  apply (IH (λ t, if decide (t = mu_ticker_id u) then sm_apply (b t) u else b t)).
  - done.
  - by apply snap_wf_apply.
  - intros t Ht'. destruct (decide (t = mu_ticker_id u)) as [->|Hne].
    + split; [by apply sm_good_step|]. split; [by apply matches_step|done].
    + destruct (Hb t Ht') as (Hg' & Hm' & Hf'). unfold for_ticker in Hf'.
      rewrite filter_cons_False in Hf' by congruence.
      split; [done|]. split; [by apply matches_other|done].
  - pose proof (snap_apply_size S u). lia.
Qed.

Section Feeds.
Context (lo hi : TickerId → Price).
Implicit Types (P : list MEClientRequest).

Lemma engine_after_feed_ok P t :
  traffic_ok lo hi P → ticker_ok t → Z.of_nat (length P) < ME_MAX_ORDER_IDS →
  feed_ok SpecMarket_new (for_ticker t (se_updates (engine_after P))) ∧
  sm_run SpecMarket_new (for_ticker t (se_updates (engine_after P))) =
    proj_book (se_books (engine_after P) t).
Proof.
  intros Htr Ht Hlen. rewrite engine_after_feed, engine_after_book.
  change SpecMarket_new with (proj_book SpecBook_new). apply (run_mirror t (MEOrderBook_new t)).
  - apply MEOrderBook_new_refines.
  - apply book_ok_new.
  - by apply (traffic_valid lo hi).
  - apply ids_ok_new.
  - pose proof (ticker_requests_length t P). simpl. lia.
Qed.

(** The synthesizer takes all updates of the engine. *)
Lemma engine_after_snap_valid P :
  traffic_ok lo hi P → Z.of_nat (3 * length P) + 2 ≤ ME_MAX_ORDER_IDS →
  snap_valid_all ∅ (se_updates (engine_after P)).
Proof.
  intros Htr Hlen.
  destruct (engine_after_clients lo hi P (λ _, True) Htr) as (_ & _ & Hu).
  { by apply Forall_forall. }
  apply (feeds_snap_valid _ (λ _, SpecMarket_new)).
  - eapply Forall_impl; [exact Hu|]. by intros u [? _].
  - intros k u H. by rewrite lookup_empty in H.
  - intros t Ht. split; [apply sm_good_new|]. split; [apply matches_new|].
    apply (engine_after_feed_ok P t Htr Ht). lia.
  - destruct (engine_after_count lo hi P Htr) as [_ Hn]. rewrite map_size_empty. lia.
Qed.
End Feeds.
