(* ===== verification/EngineTypes.v ===== *)
(** * EngineTypes: the values of the exchange fit their types

    Starting from requests whose fields the message structures hold, every order of every
    book and every message the matching engine sends has field values in the range of the
    C++ types: nothing is cut off on the wire, and every receiver decodes what was sent. *)
From S2P Require Import Prelude Types Wire BookInv LevelsAbs MEOrderBook BookSpec BookMatch.
From S2P Require Import MEBookRefine MEBookSpec BookProps Sessions MatchingEngine EngineSession.

(** ** Types *)
Definition qty_ok (q : Qty) : Prop := 0 ≤ q < 2 ^ 32.

(** An order of a book: everything but the quantity, which [refines] bounds. *)
Record order_typed (lo hi : Price) (d : OrderInfo) : Prop := {
  ot_client : 0 ≤ oi_client_id d < 2 ^ 32;
  ot_client_order : 0 ≤ oi_client_order_id d < 2 ^ 64;
  ot_market_order : 0 ≤ oi_market_order_id d < 2 ^ 64;
  ot_price : lo ≤ oi_price d ≤ hi;
  ot_priority : 0 ≤ oi_priority d < 2 ^ 64
}.

Record book_typed (lo hi : Price) (a : SpecBook) : Prop := {
  bt_next : 0 ≤ sb_next_id a < 2 ^ 64;
  bt_orders : ∀ d, d ∈ sb_orders a → order_typed lo hi d
}.

(** An update: in range, and a new order's price is in the band. *)
Definition update_typed (lo hi : Price) (u : MEMarketUpdate) : Prop :=
  c_ok u ∧ (mu_type u = MarketUpdateType.ADD → lo ≤ mu_price u ≤ hi).
Definition event_typed (lo hi : Price) (e : Event) : Prop :=
  match e with SendResponse r => c_ok r | SendUpdate u => update_typed lo hi u end.

Definition request_typed (br : BookRequest) : Prop :=
  match br with
  | ReqNew c i _ p q => 0 ≤ c < 2 ^ 32 ∧ 0 ≤ i < 2 ^ 64 ∧ qty_ok q
  | ReqCancel c i => 0 ≤ c < 2 ^ 32 ∧ 0 ≤ i < 2 ^ 64
  end.

Lemma response_c_ok ty c t i m s p x l :
  0 ≤ c < 2 ^ 32 → 0 ≤ t < 2 ^ 32 → 0 ≤ i < 2 ^ 64 → 0 ≤ m < 2 ^ 64 → - 2 ^ 63 ≤ p < 2 ^ 63 →
  qty_ok x → qty_ok l → c_ok (mkMEClientResponse ty c t i m s p x l).
Proof. intros. by split_and!. Qed.

Lemma update_c_ok ty i t s p q pr :
  0 ≤ i < 2 ^ 64 → 0 ≤ t < 2 ^ 32 → - 2 ^ 63 ≤ p < 2 ^ 63 → qty_ok q → 0 ≤ pr < 2 ^ 64 →
  c_ok (mkMEMarketUpdate ty i t s p q pr).
Proof. intros. by split_and!. Qed.

Lemma order_typed_qty lo hi q d : order_typed lo hi d → order_typed lo hi (oi_set_qty q d).
Proof. by intros []. Qed.

(** ** Quantities *)
Lemma refines_qty bk a d : refines bk a → d ∈ sb_orders a → qty_ok (oi_qty d).
Proof.
  intros [G HG] Hd. rewrite (refines_orders _ _ _ HG) in Hd.
  apply list_elem_of_fmap in Hd as (p & -> & Hp).
  by apply (info_qty_range _ _ p (rf_rep _ _ _ HG)).
Qed.

Section Step.
Context (lo hi : Price) (Hband : band lo hi) (t : TickerId) (Ht : ticker_ok t).
Implicit Types (a : SpecBook) (d : OrderInfo) (br : BookRequest).

Lemma band_price p : lo ≤ p ≤ hi → - 2 ^ 63 ≤ p < 2 ^ 63.
Proof. destruct Hband as (H0 & _ & _ & H). lia. Qed.

Lemma ticker_word : 0 ≤ t < 2 ^ 32.
Proof. unfold ticker_ok, ME_MAX_TICKERS in Ht. lia. Qed.

(** Executions. *)
Lemma fill_typed c i s moid d fill rest leaves :
  0 ≤ c < 2 ^ 32 → 0 ≤ i < 2 ^ 64 → 0 ≤ moid < 2 ^ 64 → order_typed lo hi d →
  qty_ok (oi_qty d) → qty_ok fill → qty_ok rest → qty_ok leaves →
  Forall (event_typed lo hi) (fill_events c i t s moid d fill rest leaves).
Proof.
  intros Hc Hi Hm [D1 D2 D3 D4%band_price D5] Hq Hf Hr Hl. pose proof ticker_word.
  assert (0 ≤ OrderId_INVALID < 2 ^ 64 ∧ 0 ≤ Priority_INVALID < 2 ^ 64) as [] by by vm_compute.
  unfold fill_events. constructor; [by apply response_c_ok|].
  constructor; [by apply response_c_ok|]. constructor; [split; [by apply update_c_ok|done]|].
  constructor; [|done]. destruct (rest =? 0); (split; [by apply update_c_ok|done]).
Qed.

Lemma match_typed c i s p moid l lv l' lv' ev :
  Forall (λ pd, pd.2 ≠ []) l → match_side c i t s p moid l lv = (l', lv', ev) →
  0 ≤ c < 2 ^ 32 → 0 ≤ i < 2 ^ 64 → 0 ≤ moid < 2 ^ 64 → qty_ok lv →
  (∀ d, d ∈ level_orders l → order_typed lo hi d ∧ qty_ok (oi_qty d)) →
  Forall (event_typed lo hi) ev ∧ qty_ok lv'.
Proof.
  intros Hne E Hc Hi Hm. revert l lv l' lv' ev Hne E.
  apply (match_side_ind _ _ _ _ _ _ (λ l lv l' lv' ev, qty_ok lv →
    (∀ d, d ∈ level_orders l → order_typed lo hi d ∧ qty_ok (oi_qty d)) →
    Forall (event_typed lo hi) ev ∧ qty_ok lv')).
  - done.
  - intros q d ds l lv l' lv' ev H0 _ Hle _ IH Hlv Hd.
    destruct (Hd d) as [Hdt Hdq]; [rewrite level_orders_cons; by left|].
    assert (qty_ok (lv - oi_qty d)) as Hrest by (unfold qty_ok in *; lia).
    destruct IH as [IH1 IH2]; [done| |].
    { intros d' Hd'. apply Hd. rewrite level_orders_cons. rewrite level_orders_app, level_orders_some in Hd'.
      set_solver + Hd'. }
    split; [|done]. apply Forall_app. split; [|done]. by apply fill_typed.
  - intros q d ds l lv H0 _ Hlt Hlv Hd.
    destruct (Hd d) as [Hdt Hdq]; [rewrite level_orders_cons; by left|].
    split; [|done]. apply fill_typed; try done. unfold qty_ok in *. lia.
Qed.

Lemma step_typed bk a br :
  refines bk a → valid_req a br → request_ok lo hi br → request_typed br → book_typed lo hi a →
  book_typed lo hi (spec_step t a br).1 ∧ Forall (event_typed lo hi) (spec_step t a br).2.
Proof.
  intros Href Hv Hok Hty [Hn Ho]. pose proof ticker_word as Htw.
  assert (0 ≤ OrderId_INVALID < 2 ^ 64 ∧ 0 ≤ Qty_INVALID < 2 ^ 32 ∧
    - 2 ^ 63 ≤ Price_INVALID < 2 ^ 63) as (I1 & I2 & I3) by by vm_compute.
  destruct br as [c i s p q|c i]; cbn [spec_step request_ok request_typed] in *.
  - destruct Hok as (Hs & _ & _ & _ & Hp). destruct Hty as (Hc & Hi & Hq).
    pose proof (band_price p Hp) as Hp64. split; [split|].
    + unfold spec_add. destruct (match_side _ _ _ _ _ _ _ _) as [[other lv] ev].
      destruct (lv =? 0); cbn [fst]; rewrite ?sb_next_set; apply u64_range.
    + intros d Hd. destruct (spec_add_orders bk a c i t s p q d Href Hv Hd)
        as [(d0 & Hd0 & E)|(lv & prio & -> & Hprio)]; [|by split].
      destruct (Ho d0 Hd0), d, d0. injection E as -> -> -> -> -> -> ->. by split.
    + destruct (match_side c i t s p (u32 (sb_next_id a)) (sb_side a (opp s)) q)
        as [[other lv] ev] eqn:Em.
      rewrite (spec_add_eq _ _ _ _ _ _ _ _ _ _ Em). cbv zeta.
      destruct (refines_level_prices bk a _ Href (opp_tradable s)) as (_ & Hne & _).
      destruct (match_typed _ _ _ _ _ _ _ _ _ _ Hne Em) as [Hev Hlv]; try done.
      { pose proof (u32_range (sb_next_id a)). lia. }
      { intros d Hd%sb_side_orders. split; [by apply Ho|by eapply refines_qty]. }
      destruct (lv =? 0); cbn [snd]; (constructor; [by apply response_c_ok|]); [done|].
      apply Forall_app. split; [done|]. constructor; [|done].
      split; [|done]. apply update_c_ok; try done. apply next_priority_range.
  - destruct Hty as (Hc & Hi). split.
    + unfold spec_cancel. destruct (find_order a c i); cbn [fst]; [|done]. split; [done|].
      intros d. unfold sb_orders, sb_levels. cbn [sb_bids sb_asks]. unfold remove_from.
      rewrite level_orders_app, !remove_where_orders, elem_of_app, !list_elem_of_filter.
      intros Hd. apply Ho. unfold sb_orders, sb_levels. rewrite level_orders_app, elem_of_app.
      tauto.
    + pose proof (refines_qty bk a) as Hq. unfold spec_cancel, find_order.
      destruct (list_find _ _) as [[n d]|] eqn:E; cbn [fmap option_fmap option_map snd].
      * apply list_find_Some in E as (E & _). apply list_elem_of_lookup_2 in E.
        destruct (Ho d E) as [D1 D2 D3 D4%band_price D5]. specialize (Hq d Href E).
        constructor; [split; [by apply update_c_ok|done]|]. constructor; [|done]. by apply response_c_ok.
      * constructor; [|done]. by apply response_c_ok.
Qed.
End Step.

(** ** Sessions *)
Record engine_typed (lo hi : TickerId → Price) (s : SpecEngine) : Prop := {
  et_books : ∀ t, ticker_ok t → book_typed (lo t) (hi t) (se_books s t);
  et_responses : Forall c_ok (se_responses s);
  et_updates : Forall (λ u, update_typed (lo (mu_ticker_id u)) (hi (mu_ticker_id u)) u) (se_updates s)
}.

Lemma SpecBook_new_typed lo hi : book_typed lo hi SpecBook_new.
Proof. split; [by vm_compute|]. intros d Hd. by apply elem_of_nil in Hd. Qed.

Lemma request_fields r br : c_ok r → book_request r = Some br → request_typed br.
Proof.
  intros [[[[[[_ Hc] _] Hi] _] _] Hq] E. unfold book_request in E.
  destruct (rq_type r); [done|by injection E as <-..].
Qed.

Lemma events_typed lo hi t Q evs :
  Forall (event_typed (lo t) (hi t)) evs → Forall (event_about t Q) evs →
  Forall c_ok (responses evs) ∧
  Forall (λ u, update_typed (lo (mu_ticker_id u)) (hi (mu_ticker_id u)) u) (updates evs).
Proof.
  induction 1 as [|e evs He _ IH]; [done|]. intros [Ha Hall]%Forall_cons.
  destruct (IH Hall) as [IH1 IH2]. destruct e as [r|u]; (split; [try done|try done]).
  - by constructor.
  - constructor; [|done]. destruct Ha as [-> _]. exact He.
Qed.

Section Session.
Context (lo hi : TickerId → Price).

(** The request as the book sees it is one of the tame session. *)
Lemma traffic_request P r br : traffic_ok lo hi (P ++ [r]) → book_request r = Some br →
  request_ok (lo (rq_ticker_id r)) (hi (rq_ticker_id r)) br.
Proof.
  intros Htr E. pose proof (traffic_next _ _ _ _ Htr) as [Ht _].
  pose proof (tm_ok _ _ _ (tr_tame _ _ _ Htr _ Ht)) as Hok. rewrite ticker_requests_app in Hok.
  apply Forall_app in Hok as [_ Hok].
  change (ticker_requests ?t [r]) with (list_omap _ _ (ticker_request t) [r]) in Hok.
  cbn [list_omap] in Hok. unfold ticker_request in Hok. rewrite decide_True, E in Hok by done.
  by apply Forall_cons in Hok as [Hok _].
Qed.

Lemma process_typed P r :
  traffic_ok lo hi (P ++ [r]) → c_ok r → engine_typed lo hi (engine_after P) →
  engine_typed lo hi (engine_after (P ++ [r])).
Proof.
  intros Htr Hr [Hb Hrs Hup]. pose proof (traffic_next _ _ _ _ Htr) as [Ht Hv].
  assert (traffic_ok lo hi P) as HP by by (eapply traffic_sub; [apply submseteq_inserts_r|]).
  destruct (engine_after_refines lo hi P _ HP Ht) as (bk & Hbk & _).
  pose proof (tm_band _ _ _ (tr_tame _ _ _ Htr _ Ht)) as Hband.
  destruct (book_request r) as [br|] eqn:Ebr; [|done].
  destruct (step_typed _ _ Hband _ Ht bk _ br Hbk Hv (traffic_request P r br Htr Ebr)
    (request_fields r br Hr Ebr) (Hb _ Ht)) as [Hb' Hev].
  destruct (events_typed lo hi _ (λ _, True) _ Hev) as [Hev1 Hev2].
  { apply step_about; [done|]. by apply Forall_forall. }
  rewrite engine_after_snoc. split.
  - intros t Ht'. rewrite spec_process_book. unfold ticker_request.
    destruct (decide (rq_ticker_id r = t)) as [<-|]; [by rewrite Ebr|by apply Hb].
  - rewrite (proj1 (spec_process_messages _ _)). apply Forall_app. split; [done|].
    unfold process_events. by rewrite Ebr.
  - rewrite (proj2 (spec_process_messages _ _)). apply Forall_app. split; [done|].
    unfold process_events. by rewrite Ebr.
Qed.

Lemma engine_after_typed P :
  traffic_ok lo hi P → Forall c_ok P → engine_typed lo hi (engine_after P).
Proof.
  induction P as [|r P IH] using rev_ind; intros Htr HP.
  { split; [intros t _; apply SpecBook_new_typed|constructor..]. }
  apply Forall_app in HP as [HP Hr]. apply Forall_cons in Hr as [Hr _].
  apply process_typed; [done|done|]. apply IH; [|done].
  by eapply traffic_sub; [apply submseteq_inserts_r|].
Qed.
End Session.
