(* ===== verification/RestingOrders.v ===== *)
(** * RestingOrders: the exchange answers as the client expects

    [PositionLimit] and the trading client's theorems take an exchange that answers the
    orders it was sent ([answers]).  Here the matching engine is shown to be one: for a
    client with at most one order per instrument and side, whatever the other clients do,
    the engine's responses to it are such answers, and what is left of its orders is what
    rests in the books. *)
From S2P Require Import Prelude Types Wire BookInv LevelsAbs MEOrderBook BookSpec BookMatch.
From S2P Require Import MEBookRefine MEBookSpec BookProps Sessions MatchingEngine EngineSession.
From S2P Require Import EngineTypes Double PositionKeeper OrderManager PositionLimit.
From S2P Require Import TradeEngineSpec OrdersInFlight.

Section Client.
Context (c : ClientId).
Implicit Types (a : SpecBook) (d : OrderInfo) (l : side_levels OrderInfo) (s : Side.t).
Implicit Types (X : TickerId → Side.t → option Qty).

(** The client's orders of a side, and what the client counts as left of its order. *)
Definition held (l : side_levels OrderInfo) : list Qty :=
  oi_qty <$> filter (λ d, oi_client_id d = c) (level_orders l).
Definition left_of (q : option Qty) : list Qty :=
  match q with Some q => if q =? 0 then [] else [q] | None => [] end.
Definition to_client (evs : list Event) : list MEClientResponse :=
  filter (λ r, rs_client_id r = c) (responses evs).

(** The books hold what the client expects. *)
Definition holds_in (X : TickerId → Side.t → option Qty) (t : TickerId) (a : SpecBook) : Prop :=
  ∀ s, tradable s → held (sb_side a s) = left_of (X t s).

Lemma held_app l k : held (l ++ k) = held l ++ held k.
Proof. unfold held. by rewrite level_orders_app, filter_app, fmap_app. Qed.

Lemma held_cons p d ds l :
  held ((p, d :: ds) :: l) =
  (if decide (oi_client_id d = c) then [oi_qty d] else []) ++ held (some_level p ds ++ l).
Proof.
  unfold held. rewrite level_orders_app, level_orders_some, level_orders_cons. cbn [app].
  rewrite filter_cons. by case_decide.
Qed.

Lemma held_cons' p d ds l :
  held ((p, d :: ds) :: l) =
  (if decide (oi_client_id d = c) then [oi_qty d] else []) ++ held ((p, ds) :: l).
Proof.
  unfold held. rewrite !level_orders_cons. cbn [app]. rewrite filter_cons. by case_decide.
Qed.

Lemma to_client_app ev ev' : to_client (ev ++ ev') = to_client ev ++ to_client ev'.
Proof. unfold to_client. by rewrite responses_app, filter_app. Qed.

Lemma to_client_reply r : to_client [SendResponse r] = if decide (rs_client_id r = c) then [r] else [].
Proof.
  unfold to_client. change (responses [SendResponse r]) with [r].
  rewrite filter_cons, filter_nil. by case_decide.
Qed.
Lemma to_client_cancel u r :
  to_client [SendUpdate u; SendResponse r] = if decide (rs_client_id r = c) then [r] else [].
Proof. apply to_client_reply. Qed.

(** The response to whoever sent the incoming order, and the one to the resting order. *)
Lemma to_client_fill i t s moid d fill rest leaves c' :
  to_client (fill_events c' i t s moid d fill rest leaves) =
  (if decide (c' = c) then [mkMEClientResponse ClientResponseType.FILLED c' t i moid s
     (oi_price d) fill leaves] else []) ++
  (if decide (oi_client_id d = c) then [mkMEClientResponse ClientResponseType.FILLED
     (oi_client_id d) t (oi_client_order_id d) (oi_market_order_id d) (oi_side d) (oi_price d)
     fill rest] else []).
Proof.
  unfold to_client. change (responses (fill_events c' i t s moid d fill rest leaves)) with
    [mkMEClientResponse ClientResponseType.FILLED c' t i moid s (oi_price d) fill leaves;
     mkMEClientResponse ClientResponseType.FILLED (oi_client_id d) t (oi_client_order_id d)
       (oi_market_order_id d) (oi_side d) (oi_price d) fill rest].
  rewrite !filter_cons, filter_nil. cbn [rs_client_id]. by repeat case_decide.
Qed.

(** *** Executions *)
Definition cheap (p : Price) : Prop := Z.abs p < 2 ^ 32.

Lemma left_of_Some q (n : Qty) k : n :: k = left_of q → q = Some n ∧ k = [] ∧ n ≠ 0.
Proof.
  destruct q as [m|]; cbn [left_of]; [|done]. destruct (m =? 0) eqn:E; [done|].
  intros [= -> ->]. apply Z.eqb_neq in E. done.
Qed.

Lemma answers_one X r X' : ours r → answers X r X' → answers_run X [r] X'.
Proof. intros Ho Ha. eapply answers_cons; [done|done|constructor]. Qed.
Lemma answers_run_app X rs1 X1 rs2 X2 :
  answers_run X rs1 X1 → answers_run X1 rs2 X2 → answers_run X (rs1 ++ rs2) X2.
Proof.
  induction 1 as [|X r rs X0 X1 Ho Ha _ IH]; intros H; [done|].
  cbn [app]. eapply answers_cons; [done|done|by apply IH].
Qed.

(** A fill of an order of which the client knows [q] to be left. *)
Lemma fill_answer X r q :
  ours r → rs_type r = ClientResponseType.FILLED → X (rs_ticker_id r) (rs_side r) = Some q →
  0 < rs_exec_qty r ≤ q → rs_leaves_qty r = q - rs_exec_qty r → cheap (rs_price r) →
  answers_run X [r] (set_rest X (rs_ticker_id r) (rs_side r)
    (if rs_leaves_qty r =? 0 then None else Some (rs_leaves_qty r))).
Proof.
  intros Ho Ht Hq Hx Hl Hp. apply answers_one; [done|]. unfold cheap in Hp.
  apply (ans_filled X r q); try done. lia.
Qed.

(** One execution, of the incoming order of [c'] against the resting order [d]. *)
Lemma fill_answers X c' i t s moid d fill rest leaves lv tail :
  tradable s → ticker_ok t → oi_side d = opp s → cheap (oi_price d) →
  0 < fill ≤ lv → leaves = lv - fill → rest = oi_qty d - fill → 0 ≤ rest →
  (c' = c → X t s = Some lv) →
  (if decide (oi_client_id d = c) then [oi_qty d] else []) ++ tail = left_of (X t (opp s)) →
  ∃ X', answers_run X (to_client (fill_events c' i t s moid d fill rest leaves)) X' ∧
    (if decide (oi_client_id d = c) then (if rest =? 0 then [] else [rest]) else []) ++ tail =
      left_of (X' t (opp s)) ∧
    (c' = c → X' t s = if leaves =? 0 then None else Some leaves) ∧
    (c' ≠ c → X' t s = X t s) ∧ (∀ t' s', t' ≠ t → X' t' s' = X t' s').
Proof.
  intros Hs Ht Hside Hp Hfill -> -> Hrest Hin Hmine. pose proof (opp_ne s Hs) as Hopp.
  assert (∀ X0 r, rs_ticker_id r = t → ∀ t' s', t' ≠ t →
    set_rest X0 (rs_ticker_id r) (rs_side r)
      (if rs_leaves_qty r =? 0 then None else Some (rs_leaves_qty r)) t' s' = X0 t' s') as Hoth.
  { intros X0 r E t' s' Hne. apply set_rest_ne. intros [? _]. congruence. }
  rewrite to_client_fill.
  set (r1 := mkMEClientResponse _ c' _ _ _ _ _ _ _).
  set (r2 := mkMEClientResponse _ (oi_client_id d) _ _ _ _ _ _ _).
  assert (∃ X1, answers_run X (if decide (c' = c) then [r1] else []) X1 ∧
    X1 t (opp s) = X t (opp s) ∧
    (c' = c → X1 t s = if lv - fill =? 0 then None else Some (lv - fill)) ∧
    (c' ≠ c → X1 t s = X t s) ∧ (∀ t' s', t' ≠ t → X1 t' s' = X t' s'))
    as (X1 & HX1 & Ho1 & Hc1 & Hn1 & Ht1).
  { destruct (decide (c' = c)) as [E|E]; [|exists X; by split_and!; [constructor|..]].
    eexists. split; [by apply (fill_answer X r1 lv); [split| |apply Hin|..]|].
    split; [apply set_rest_ne; cbn; by intros [_ ?]|]. split; [intros _; apply set_rest_eq|].
    split; [done|]. by apply Hoth. }
  destruct (decide (oi_client_id d = c)) as [Ed|Ed].
  - rewrite <-Ho1 in Hmine. cbn [app] in Hmine.
    apply left_of_Some in Hmine as (HX & -> & Hq0).
    eexists. split; [eapply answers_run_app; [exact HX1|]; apply (fill_answer X1 r2 (oi_qty d))|].
    all: cbn [rs_ticker_id rs_side rs_exec_qty rs_leaves_qty rs_price r2]; rewrite ?Hside; try done; try lia.
    + split; [done|]. intros _. cbn [rs_side r2]. rewrite Hside. apply opp_tradable.
    + rewrite set_rest_eq, app_nil_r, !set_rest_ne by (intros [_ ?]; by apply Hopp).
      split; [|split_and!; [done|done|intros; rewrite set_rest_ne by (intros [? _]; congruence); auto]].
      destruct (oi_qty d - fill =? 0) eqn:E; [done|]. cbn [left_of]. by rewrite E.
  - exists X1. rewrite app_nil_r. split; [done|]. rewrite Ho1. by split_and!.
Qed.

(** *** Matching *)
Definition side_fits (s : Side.t) (d : OrderInfo) : Prop :=
  0 < oi_qty d ∧ oi_side d = s ∧ cheap (oi_price d).

(** What the client knows of the incoming order, if it is its own. *)
Definition knows (q : option Qty) (lv : Qty) : Prop := q = Some lv ∨ (lv = 0 ∧ q = None).

Lemma knows_left q lv : knows q lv → left_of q = if lv =? 0 then [] else [lv].
Proof. by intros [-> | [-> ->]]. Qed.

Lemma knows_after leaves : knows (if leaves =? 0 then None else Some leaves) leaves.
Proof. destruct (leaves =? 0) eqn:E; [right; split; [lia|done]|by left]. Qed.

Lemma match_answers c' i t s p moid l lv l' lv' ev :
  tradable s → ticker_ok t → Forall (λ pd, pd.2 ≠ []) l →
  match_side c' i t s p moid l lv = (l', lv', ev) →
  0 ≤ lv → Forall (side_fits (opp s)) (level_orders l) → ∀ X,
  held l = left_of (X t (opp s)) → (c' = c → knows (X t s) lv) →
  ∃ X', answers_run X (to_client ev) X' ∧ held l' = left_of (X' t (opp s)) ∧
    (c' = c → knows (X' t s) lv') ∧ (c' ≠ c → X' t s = X t s) ∧
    (∀ t' s', t' ≠ t → X' t' s' = X t' s').
Proof.
  intros Hs Ht. revert l lv l' lv' ev.
  apply (match_side_ind _ _ _ _ _ _ (λ l lv l' lv' ev, 0 ≤ lv →
    Forall (side_fits (opp s)) (level_orders l) → ∀ X,
    held l = left_of (X t (opp s)) → (c' = c → knows (X t s) lv) →
    ∃ X', answers_run X (to_client ev) X' ∧ held l' = left_of (X' t (opp s)) ∧
      (c' = c → knows (X' t s) lv') ∧ (c' ≠ c → X' t s = X t s) ∧
      (∀ t' s', t' ≠ t → X' t' s' = X t' s'))).
  - intros l lv _ Hlv _ X Hm Hk. exists X. split; [constructor|done].
  - intros q d ds l lv l' lv' ev H0 _ Hle _ IH Hlv Hfit X Hm Hk.
    rewrite level_orders_cons in Hfit. apply Forall_cons in Hfit as [(Hq & Hd & Hp) Hfit].
    rewrite held_cons in Hm.
    destruct (fill_answers X c' i t s moid d (oi_qty d) 0 (lv - oi_qty d) lv
      (held (some_level q ds ++ l)) Hs Ht Hd Hp) as (X1 & HX1 & Hm1 & Hc1 & Hn1 & Ho1);
      try done; try lia.
    { intros E. by destruct (Hk E) as [?|[? _]]. }
    destruct (IH ltac:(lia)) with (X := X1) as (X2 & HX2 & Hm2 & Hc2 & Hn2 & Ho2).
    { by rewrite level_orders_app, level_orders_some. }
    { rewrite <-Hm1. by case_decide. }
    { intros E. rewrite Hc1 by done. apply knows_after. }
    exists X2. rewrite to_client_app. split; [by eapply answers_run_app|]. split; [done|].
    split; [done|]. split; [intros E; by rewrite Hn2, Hn1|].
    intros t' s' Hne. by rewrite Ho2, Ho1.
  - intros q d ds l lv H0 _ Hlt Hlv Hfit X Hm Hk.
    rewrite level_orders_cons in Hfit. apply Forall_cons in Hfit as [(Hq & Hd & Hp) Hfit].
    rewrite held_cons' in Hm.
    destruct (fill_answers X c' i t s moid d lv (oi_qty d - lv) 0 lv
      (held ((q, ds) :: l)) Hs Ht Hd Hp) as (X1 & HX1 & Hm1 & Hc1 & Hn1 & Ho1); try done; try lia.
    { intros E. by destruct (Hk E) as [?|[? _]]. }
    exists X1. split; [done|]. split.
    { rewrite held_cons', <-Hm1. cbn [oi_client_id oi_qty oi_set_qty].
      by rewrite (proj2 (Z.eqb_neq (oi_qty d - lv) 0)) by lia. }
    split; [|done]. intros E. right. by rewrite Hc1.
Qed.

(** *** Requests *)

Lemma order_side bk a s d :
  refines bk a → tradable s → d ∈ level_orders (sb_side a s) → oi_side d = s.
Proof.
  intros Href Hs Hd. destruct (refines_level_prices bk a s Href Hs) as (Hall & _).
  rewrite Forall_forall in Hall. apply elem_of_level_orders in Hd as (p & ds & Hpd & Hd).
  specialize (Hall _ Hpd). cbn [snd] in Hall. rewrite Forall_forall in Hall. by apply (Hall d Hd).
Qed.

(** The orders of a side fit. *)
Lemma sides_fit bk a s :
  refines bk a → book_ok a → (∀ d, d ∈ sb_orders a → cheap (oi_price d)) → tradable s →
  Forall (side_fits s) (level_orders (sb_side a s)).
Proof.
  intros Href [_ Hpos] Hcheap Hs. apply Forall_forall. intros d Hd.
  pose proof (sb_side_orders a s d Hd) as Hd'. split; [by apply Hpos|]. split; [|by apply Hcheap].
  by eapply order_side.
Qed.

Lemma left_of_short q : (length (left_of q) ≤ 1)%nat.
Proof. destruct q as [q|]; cbn; [destruct (q =? 0)|]; simpl; lia. Qed.

(** The new order is the client's only one on its side. *)
Lemma held_insert s d l :
  (oi_client_id d = c → held l = []) → (length (held l) ≤ 1)%nat →
  held (insert_order s d l) = if decide (oi_client_id d = c) then [oi_qty d] else held l.
Proof.
  intros Hnone Hshort. assert (held (insert_order s d l) ≡ₚ
    (if decide (oi_client_id d = c) then [oi_qty d] else []) ++ held l) as Hins.
  { unfold held. rewrite insert_order_orders, filter_cons. by case_decide. }
  case_decide as E.
  - rewrite Hnone in Hins by done. by apply Permutation_singleton_r in Hins.
  - destruct (held l) as [|y [|? ?]]; [by apply Permutation_nil_r in Hins| |simpl in Hshort; lia].
    by apply Permutation_singleton_r in Hins.
Qed.

(** A request the client or another one sends. *)
Definition new_of (t : TickerId) (br : BookRequest) (X : TickerId → Side.t → option Qty)
  : TickerId → Side.t → option Qty :=
  match br with
  | ReqNew c' _ s _ q => if decide (c' = c) then set_rest X t s (Some q) else X
  | ReqCancel _ _ => X
  end.

Lemma new_of_spec t c' i s p q X :
  let X0 := new_of t (ReqNew c' i s p q) X in
  (∀ s', s' ≠ s → X0 t s' = X t s') ∧ (c' = c → X0 t s = Some q) ∧ (c' ≠ c → X0 t s = X t s) ∧
  ∀ t' s', t' ≠ t → X0 t' s' = X t' s'.
Proof.
  cbn zeta. unfold new_of. case_decide as E; [|done].
  split; [intros s' Hne; apply set_rest_ne; by intros [_ ?]|].
  split; [intros _; apply set_rest_eq|]. split; [done|].
  intros t' s' Hn. apply set_rest_ne. intros [? _]. congruence.
Qed.

Lemma add_answers bk a c' i t s p q X :
  refines bk a → book_ok a → (∀ d, d ∈ sb_orders a → cheap (oi_price d)) → ticker_ok t →
  valid_new a c' i s p q → holds_in X t a → (c' = c → X t s = None) →
  ∃ X', answers_run (new_of t (ReqNew c' i s p q) X) (to_client (spec_add a c' i t s p q).2) X' ∧
    holds_in X' t (spec_add a c' i t s p q).1 ∧ (∀ t' s', t' ≠ t → X' t' s' = X t' s').
Proof.
  intros Href Hok Hcheap Ht Hv HX Hfree. pose proof Hv as (Hs & _ & _ & Hq & _).
  pose proof (opp_tradable s) as Hos.
  destruct (match_side c' i t s p (u32 (sb_next_id a)) (sb_side a (opp s)) q)
    as [[other lv] ev] eqn:Em.
  destruct (refines_level_prices bk a _ Href Hos) as (_ & Hnonempty & _).
  destruct (new_of_spec t c' i s p q X) as (Hopp & Hk0 & Hn0 & Ho0).
  set (X0 := new_of t (ReqNew c' i s p q) X) in *.
  destruct (match_answers c' i t s p _ _ _ _ _ _ Hs Ht Hnonempty Em (proj1 Hq)
    (sides_fit bk a _ Href Hok Hcheap Hos) X0) as (X' & HX' & Hm & Hk & Hn & Ho).
  { rewrite Hopp by (by apply opp_ne). by apply HX. }
  { intros E. left. by apply Hk0. }
  assert (c' = c → held (sb_side a s) = []) as Hnone.
  { intros E. rewrite HX, Hfree by done. done. }
  assert (c' ≠ c → held (sb_side a s) = left_of (X' t s)) as Hsame.
  { intros E. rewrite Hn, Hn0 by done. by apply HX. }
  rewrite (spec_add_eq _ _ _ _ _ _ _ _ _ _ Em). cbv zeta. exists X'.
  set (acc := SendResponse _). set (m := next_priority _ _).
  assert (answers_run X0 (to_client (acc :: ev)) X') as Hrun.
  { unfold to_client. unfold acc at 1. rewrite responses_reply, filter_cons. cbn [rs_client_id].
    destruct (decide (c' = c)) as [E|E]; [|exact HX'].
    eapply answers_cons; [split; [exact Ht|intros _; exact Hs]| |exact HX'].
    by apply (ans_accepted _ _ q); [|apply Hk0]. }
  split.
  { destruct (lv =? 0); cbn [snd]; [exact Hrun|].
    rewrite app_comm_cons, to_client_app. unfold to_client at 2. cbn. by rewrite app_nil_r. }
  split; [|intros t' s' Hne; by rewrite Ho, Ho0]. intros s' Hs'.
  destruct (tradable_cases s s' Hs Hs') as [-> | ->].
  - destruct (lv =? 0) eqn:E0; cbn [fst].
    + rewrite spec_matched_same by done. destruct (decide (c' = c)) as [E|E]; [|by apply Hsame].
      by rewrite Hnone, (knows_left _ _ (Hk E)), E0.
    + rewrite sb_side_set, spec_matched_same, held_insert by (done || rewrite HX by done; apply left_of_short).
      cbn [oi_client_id oi_qty]. case_decide as E; [|by apply Hsame].
      by rewrite (knows_left _ _ (Hk E)), E0.
  - by destruct (lv =? 0); cbn [fst]; rewrite ?sb_side_set_opp, spec_matched_opp.
Qed.

(** A cancel: of the client's order, of nothing, or of another client's order. *)
Lemma held_remove c' i l :
  held (remove_from c' i l) =
  if decide (c' = c) then oi_qty <$> filter (λ d, oi_client_order_id d ≠ i)
    (filter (λ d, oi_client_id d = c) (level_orders l))
  else held l.
Proof.
  unfold held, remove_from. rewrite remove_where_orders, list_filter_filter.
  case_decide as E; f_equal; rewrite ?list_filter_filter; apply list_filter_iff; intros d;
    unfold is_order; [subst c'; tauto|].
  split; [tauto|]. intros Hd. split; [done|]. intros [? _]. congruence.
Qed.

Lemma order_unique bk a d d' :
  refines bk a → d ∈ sb_orders a → d' ∈ sb_orders a → order_key d = order_key d' → d = d'.
Proof.
  intros [G HG] Hd Hd' Ek. pose proof (rf_rep _ _ _ HG) as Hrep.
  rewrite (refines_orders _ _ _ HG) in Hd, Hd'.
  apply list_elem_of_fmap in Hd as (p & -> & Hp), Hd' as (p' & -> & Hp').
  destruct (mr_data _ _ Hrep p Hp) as (Hc & Hi & _). injection Ek as Ec Ei.
  assert (∀ x, x ∈ gorders (glevels G) → is_order (oi_client_id (data bk p))
    (oi_client_order_id (data bk p)) (data bk x) →
    cid_get bk (oi_client_id (data bk p)) (oi_client_order_id (data bk p)) = Some x) as Hx.
  { intros x Hin Hio. by apply (mr_cid _ _ Hrep). }
  pose proof (Hx p Hp (conj eq_refl eq_refl)) as E1.
  pose proof (Hx p' Hp' (conj (eq_sym Ec) (eq_sym Ei))) as E2. congruence.
Qed.

Lemma find_order_elem a c' i d : find_order a c' i = Some d →
  d ∈ sb_orders a ∧ is_order c' i d.
Proof.
  unfold find_order. destruct (list_find _ _) as [[n d']|] eqn:E; [|done].
  intros [= <-]. apply list_find_Some in E as (E & Hd & _). by apply list_elem_of_lookup_2 in E.
Qed.

(** The only order of a side. *)
Lemma held_only l d q : d ∈ level_orders l → oi_client_id d = c → held l = left_of q →
  q = Some (oi_qty d) ∧ filter (λ d, oi_client_id d = c) (level_orders l) = [d].
Proof.
  intros Hd Hc Hm. unfold held in Hm.
  assert (d ∈ filter (λ d, oi_client_id d = c) (level_orders l)) as Hin by by apply list_elem_of_filter.
  destruct (filter (λ d, oi_client_id d = c) (level_orders l)) as [|x k]; [by apply elem_of_nil in Hin|].
  cbn [fmap list_fmap] in Hm. apply left_of_Some in Hm as (-> & Hk & _).
  apply fmap_nil_inv in Hk as ->. by apply list_elem_of_singleton in Hin as ->.
Qed.

Lemma cancel_sides a c' i s :
  sb_side (mkSpecBook (remove_from c' i (sb_bids a)) (remove_from c' i (sb_asks a)) (sb_next_id a)) s =
  remove_from c' i (sb_side a s).
Proof. unfold sb_side. by case_bool_decide. Qed.

Lemma cancel_answers bk a c' i t X :
  refines bk a → ticker_ok t → holds_in X t a →
  ∃ X', answers_run X (to_client (spec_cancel a c' i t).2) X' ∧
    holds_in X' t (spec_cancel a c' i t).1 ∧ (∀ t' s', t' ≠ t → X' t' s' = X t' s').
Proof.
  intros Href Ht HX. unfold spec_cancel.
  destruct (find_order a c' i) as [d|] eqn:Ef; cbn [fst snd].
  2: { exists X. split; [|done]. rewrite to_client_reply. cbn [rs_client_id]. case_decide; [|constructor].
       apply answers_one; [split; [exact Ht|done]|by apply ans_rejected]. }
  destruct (decide (c' = c)) as [E|E].
  2: { exists X. split; [|split; [|done]].
       - rewrite to_client_cancel, decide_False by done. constructor.
       - intros s Hs. by rewrite <-HX, cancel_sides, held_remove, decide_False. }
  subst c'. apply find_order_elem in Ef as [Hd [Hdc Hdi]].
  assert (∃ s, tradable s ∧ d ∈ level_orders (sb_side a s)) as (s & Hs & Hds).
  { unfold sb_orders, sb_levels in Hd. rewrite level_orders_app, elem_of_app in Hd.
    destruct Hd; [exists Side.BUY|exists Side.SELL]; by split; [by (left + right)|]. }
  pose proof (order_side bk a s d Href Hs Hds) as Hside.
  destruct (held_only _ d _ Hds Hdc (HX s Hs)) as [Hq Hall].
  exists (set_rest X t s None). split; [|split].
  - rewrite to_client_cancel, decide_True by done.
    apply answers_one; [split; [exact Ht|intros _; cbn; by rewrite Hside]|].
    cbn [rs_ticker_id]. rewrite <-Hside in *.
    by apply (ans_canceled X (mkMEClientResponse ClientResponseType.CANCELED c t i
      (oi_market_order_id d) (oi_side d) (oi_price d) Qty_INVALID (oi_qty d)) (oi_qty d)).
  - intros s' Hs'. rewrite cancel_sides, held_remove, decide_True by done.
    destruct (decide (s' = s)) as [->|Hne].
    + rewrite Hall, set_rest_eq, filter_cons_False, filter_nil by tauto. done.
    + rewrite set_rest_ne by (intros [_ ?]; congruence). rewrite <-HX by done. unfold held. f_equal.
      apply filter_none_or_all, Forall_forall. intros x [Hxc Hx]%list_elem_of_filter Hxi.
      apply Hne. rewrite <-(order_side bk a s' x Href Hs' Hx), <-Hside. f_equal.
      apply (order_unique bk a x d Href); [by eapply sb_side_orders|done|].
      unfold order_key. congruence.
  - intros t' s' Hne. apply set_rest_ne. intros [? _]. congruence.
Qed.
End Client.

(** ** The engine *)
Section Engine.
Context (c : ClientId) (lo hi : TickerId → Price) (Hcheap : ∀ t, ticker_ok t → hi t < 2 ^ 32).
Implicit Types (X : TickerId → Side.t → option Qty) (P : list MEClientRequest).

Definition holds X (s : SpecEngine) : Prop := ∀ t, ticker_ok t → holds_in c X t (se_books s t).

(** The NEW request of the client itself is counted from when it is taken. *)
Definition taken_by_engine X (r : MEClientRequest) : TickerId → Side.t → option Qty :=
  if decide (rq_client_id r = c) then place X [r] else X.

Lemma new_of_request X r br : book_request r = Some br →
  new_of c (rq_ticker_id r) br X = taken_by_engine X r.
Proof.
  unfold taken_by_engine, book_request. intros E. rewrite place_one.
  destruct (rq_type r); [done|..]; injection E as <-; cbn [new_of]; case_decide; try done;
    by rewrite ?decide_True, ?decide_False by done.
Qed.

Lemma holds_new : holds (λ _ _, None) SpecEngine_new.
Proof. by intros t _ s [-> | ->]. Qed.

Lemma engine_after_cheap P t : traffic_ok lo hi P → Forall c_ok P → ticker_ok t →
  ∀ d, d ∈ sb_orders (se_books (engine_after P) t) → cheap (oi_price d).
Proof.
  intros Htr HP Ht d Hd.
  pose proof (bt_orders _ _ _ (et_books _ _ _ (engine_after_typed lo hi P Htr HP) t Ht) d Hd) as Hd'.
  destruct (tm_band _ _ _ (tr_tame _ _ _ Htr t Ht)) as (H0 & _). pose proof (ot_price _ _ _ Hd').
  specialize (Hcheap t Ht). unfold cheap. lia.
Qed.

Lemma step_answers P r br X :
  traffic_ok lo hi (P ++ [r]) → Forall c_ok P → book_request r = Some br →
  holds_in c X (rq_ticker_id r) (se_books (engine_after P) (rq_ticker_id r)) →
  (rq_client_id r = c → rq_type r = ClientRequestType.NEW → X (rq_ticker_id r) (rq_side r) = None) →
  let step := spec_step (rq_ticker_id r) (se_books (engine_after P) (rq_ticker_id r)) br in
  ∃ X', answers_run (taken_by_engine X r) (to_client c step.2) X' ∧
    holds_in c X' (rq_ticker_id r) step.1 ∧
    (∀ t' s', t' ≠ rq_ticker_id r → X' t' s' = X t' s').
Proof.
  intros Htr HP Ebr HX Hfree. pose proof (traffic_next _ _ _ _ Htr) as [Ht Hv].
  assert (traffic_ok lo hi P) as HtrP by by (eapply traffic_sub; [apply submseteq_inserts_r|]).
  destruct (engine_after_refines lo hi P _ HtrP Ht) as (bk & Hbk & Hok).
  pose proof (engine_after_cheap P _ HtrP HP Ht) as Hch.
  rewrite <-(new_of_request X r br Ebr). rewrite Ebr in Hv. unfold book_request in Ebr.
  destruct (rq_type r); [done|..]; injection Ebr as <-; cbn [spec_step].
  - apply (add_answers c bk); try done. intros E. by apply Hfree.
  - by apply (cancel_answers c bk).
Qed.

Lemma engine_answers P r X :
  traffic_ok lo hi (P ++ [r]) → Forall c_ok P → holds X (engine_after P) →
  (rq_client_id r = c → rq_type r = ClientRequestType.NEW → X (rq_ticker_id r) (rq_side r) = None) →
  ∃ X', answers_run (taken_by_engine X r) (to_client c (process_events (engine_after P) r)) X' ∧
    holds X' (engine_after (P ++ [r])).
Proof.
  intros Htr HP HX Hfree. pose proof (traffic_next _ _ _ _ Htr) as [Ht Hv].
  destruct (book_request r) as [br|] eqn:Ebr; [|done].
  destruct (step_answers P r br X Htr HP Ebr (HX _ Ht) Hfree) as (X' & Hrun & HX' & Ho).
  exists X'. unfold process_events. rewrite Ebr. split; [exact Hrun|].
  intros t Ht'. rewrite engine_after_snoc, spec_process_book. unfold ticker_request.
  destruct (decide (rq_ticker_id r = t)) as [<-|Hne]; [by rewrite Ebr|].
  intros s Hs. rewrite Ho by congruence. by apply HX.
Qed.
End Engine.
