(* ===== verification/ServerRound.v ===== *)
(** * ServerRound: a turn of the order server among well-behaved clients

    Every client sends consecutively numbered requests on one connection.  How far the
    server has got with each connection then determines its tables: which sequence number it
    expects from a client, and which socket it has bound the client to.  A turn of
    [OrderServer::run] takes what the kernel has for every connection, publishes it to the
    matching thread, and answers. *)
From stdpp Require Import functions.
From S2P Require Import Prelude Types Wire Sockets LFQueue FIFOSequencer OrderServer.
From S2P Require Import OrderGateway OrderFlow TCPServer.

(** ** Connections *)
Definition mine (c : ClientId) (l : list OMClientRequest) : list OMClientRequest :=
  filter (λ r, client_of r = c) l.

Lemma mine_app c l k : mine c (l ++ k) = mine c l ++ mine c k.
Proof. apply filter_app. Qed.

Lemma mine_self r : mine (client_of r) [r] = [r].
Proof. unfold mine. by rewrite filter_cons_True. Qed.
Lemma mine_other c r : c ≠ client_of r → mine c [r] = [].
Proof. intros Hne. unfold mine. by rewrite filter_cons_False by congruence. Qed.

(** What the clients send on each socket, and the socket of each client. *)
Record streams_ok (stream : Z → list OMClientRequest) (owner : ClientId → Z) : Prop := {
  st_owner : ∀ k, Forall (λ r, c_ok r ∧ known_client r ∧ owner (client_of r) = k) (stream k);
  st_seq : ∀ c, omrq_seq_num <$> mine c (stream (owner c)) =
                seqZ 1 (Z.of_nat (length (mine c (stream (owner c)))));
  st_len : ∀ k, Z.of_nat (length (stream k)) < 2 ^ 63
}.

Section Server.
Context (stream : Z → list OMClientRequest) (owner : ClientId → Z).
Context (Hst : streams_ok stream owner).
Implicit Types (d : Z → nat) (k : Z) (c : ClientId) (sv : OrderServer) (fut : Z → bytes).

(** The requests taken from [k] when [d k] of them have been, and the rest. *)
Definition taken d k : list OMClientRequest := take (d k) (stream k).
Definition untaken d k : list OMClientRequest := drop (d k) (stream k).

(** The two tables of the server. *)
Definition expected d c : Z := 1 + Z.of_nat (length (mine c (taken d (owner c)))).
Definition bound d c : option Z :=
  if decide (mine c (taken d (owner c)) = []) then None else Some (owner c).
Definition tables d : (ClientId → Z) * (ClientId → option Z) := (expected d, bound d).

Lemma tables_other d k n c : owner c ≠ k →
  expected (<[k := n]> d) c = expected d c ∧ bound (<[k := n]> d) c = bound d c.
Proof.
  intros Hne. unfold expected, bound, taken. by rewrite fn_lookup_insert_ne by congruence.
Qed.

Lemma stream_lookup d k r :
  stream k !! d k = Some r →
  owner (client_of r) = k ∧ taken (<[k := S (d k)]> d) k = taken d k ++ [r] ∧
  omrq_seq_num r = expected d (client_of r).
Proof.
  intros Hr. pose proof (st_owner _ _ Hst k) as Ho. rewrite Forall_forall in Ho.
  destruct (Ho r) as (_ & _ & Hk); [by eapply list_elem_of_lookup_2|].
  split; [done|]. unfold taken. rewrite fn_lookup_insert. split; [by apply take_S_r|].
  pose proof (st_seq _ _ Hst (client_of r)) as Hseq. rewrite Hk in Hseq.
  rewrite <-(take_drop_middle _ _ _ Hr) in Hseq at 1. unfold expected, taken. rewrite Hk.
  rewrite mine_app in Hseq. unfold mine in Hseq at 2. rewrite filter_cons_True in Hseq by done.
  rewrite fmap_app, fmap_cons in Hseq.
  set (a := mine (client_of r) (take (d k) (stream k))) in *.
  assert ((seqZ 1 (Z.of_nat (length (mine (client_of r) (stream k))))) !! length a =
    Some (omrq_seq_num r)) as Hl.
  { rewrite <-Hseq, lookup_app_r by (rewrite length_fmap; lia).
    by rewrite length_fmap, Nat.sub_diag. }
  apply lookup_seqZ in Hl as [-> _]. done.
Qed.

(** The next request of a socket is accepted. *)
Lemma accept_next d k r :
  stream k !! d k = Some r →
  (accept_one k (tables d) r).1 = true ∧
  same_state (accept_one k (tables d) r).2 (tables (<[k := S (d k)]> d)).
Proof.
  intros Hr. destruct (stream_lookup d k r Hr) as (Hk & Htk & Hseq).
  unfold accept_one, tables. cbv beta iota zeta.
  assert (match bound d (client_of r) with None => Some k | b => b end = Some k) as Hb.
  { unfold bound. case_decide; [done|by rewrite Hk]. }
  rewrite decide_True, Hb, bool_decide_eq_true_2, Hseq, Z.eqb_refl by done. cbn [andb fst snd].
  split; [done|].
  assert (∀ c, owner c = k → mine c (taken (<[k := S (d k)]> d) k) =
    mine c (taken d k) ++ mine c [r]) as Hmine.
  { intros c _. by rewrite Htk, mine_app. }
  assert (Z.of_nat (length (mine (client_of r) (taken d k))) < 2 ^ 63) as Hlen.
  { eapply Z.le_lt_trans; [|apply (st_len _ _ Hst k)]. apply inj_le. unfold mine, taken.
    etrans; [apply length_filter|]. rewrite length_take. lia. }
  split; intros c; cbn [fst snd].
  - destruct (decide (c = client_of r)) as [->|Hne].
    + unfold expected. rewrite Hk, Hmine, mine_self, length_app by done. cbn [length].
      rewrite u64_id; lia.
    + destruct (decide (owner c = k)) as [E|E]; [|by rewrite (proj1 (tables_other d k _ c E))].
      unfold expected. by rewrite E, Hmine, mine_other, app_nil_r.
  - destruct (decide (c = client_of r)) as [->|Hne].
    + unfold bound. rewrite Hk, Hmine, mine_self by done. by destruct (mine _ (taken d k)).
    + destruct (decide (owner c = k)) as [E|E]; [|by rewrite (proj2 (tables_other d k _ c E))].
      unfold bound. by rewrite E, Hmine, mine_other, app_nil_r.
Qed.

Lemma tables_ext d d' : (∀ k, d k = d' k) → same_state (tables d) (tables d').
Proof.
  intros E. split; intros c; cbn [tables fst snd]; unfold expected, bound, taken; by rewrite E.
Qed.

(** So is any number of them. *)
Lemma accept_many n d k :
  (d k + n ≤ length (stream k))%nat →
  accepted k (tables d) (take n (untaken d k)) = take n (untaken d k) ∧
  same_state (state_after k (tables d) (take n (untaken d k))) (tables (<[k := (d k + n)%nat]> d)).
Proof.
  revert d. induction n as [|n IH]; intros d Hn.
  { rewrite take_0. split; [done|]. apply tables_ext. intros j.
    destruct (decide (k = j)) as [<-|Hne]; [by rewrite fn_lookup_insert, Nat.add_0_r|].
    by rewrite fn_lookup_insert_ne. }
  destruct (lookup_lt_is_Some_2 (stream k) (d k)) as [r Hr]; [lia|].
  unfold untaken at 1 2 3. rewrite (drop_S _ _ _ Hr). cbn [take accepted].
  destruct (accept_next d k r Hr) as [Ha Hs].
  set (d1 := <[k := S (d k)]> d) in *.
  destruct (IH d1) as [IH1 IH2]; [unfold d1; rewrite fn_lookup_insert; lia|].
  assert (untaken d1 k = drop (S (d k)) (stream k)) as Hu.
  { unfold untaken, d1. by rewrite fn_lookup_insert. }
  rewrite Hu in IH1, IH2.
  destruct (accept_one k (tables d) r) as [b st] eqn:Eo. cbn [fst snd] in Ha, Hs. subst b.
  split; [by rewrite Hs, IH1|].
  change (state_after k (tables d) (r :: ?l)) with (state_after k (accept_one k (tables d) r).2 l).
  rewrite Eo. cbn [snd]. rewrite Hs, IH2. apply tables_ext. intros j.
  destruct (decide (k = j)) as [<-|Hne].
  - rewrite !fn_lookup_insert. unfold d1. rewrite fn_lookup_insert. lia.
  - rewrite !fn_lookup_insert_ne by done. unfold d1. by rewrite fn_lookup_insert_ne.
Qed.

(** ** Reading and writing the sockets *)

(** The server has taken [d k] requests of each socket; the bytes [fut k] are still to come. *)
Record serves d fut sv : Prop := {
  sv_rep : os_rep sv;
  sv_taken : ∀ k, (d k ≤ length (stream k))%nat;
  sv_bytes : ∀ k, encode_all (untaken d k) = inbound sv k ++ fut k;
  sv_short : ∀ k, (length (inbound sv k) ≤ 37)%nat;
  sv_tables : same_state (os_state sv) (tables d)
}.

(** The bytes sent to a socket. *)
Definition sent_to k (wire : list (Z * bytes)) : bytes :=
  concat (snd <$> filter (λ p : Z * bytes, p.1 = k) wire).

Lemma sent_to_app k w w' : sent_to k (w ++ w') = sent_to k w ++ sent_to k w'.
Proof. unfold sent_to. by rewrite filter_app, fmap_app, concat_app. Qed.
Lemma sent_to_one j k b : sent_to j [(k, b)] = if decide (j = k) then b else [].
Proof.
  unfold sent_to. destruct (decide (j = k)) as [->|Hne].
  - rewrite filter_cons_True by done. cbn. by rewrite app_nil_r.
  - by rewrite filter_cons_False by (cbn; congruence).
Qed.

(** What the kernel may do in a turn. *)
Definition got (net : Z → option (Nanos * bytes)) k : bytes :=
  match net k with Some (_, chunk) => chunk | None => [] end.

Definition delivers (net : Z → option (Nanos * bytes)) fut sv k : Prop :=
  ∀ rx chunk, net k = Some (rx, chunk) →
    chunk ≠ [] ∧ chunk `prefix_of` fut k ∧
    Z.of_nat (length (inbound sv k) + length chunk) ≤ TCPBufferSize.

(** One message of the sockets other than [k] is not touched. *)
Definition same_others k sv sv' : Prop :=
  ∀ j, j ≠ k → socket_at sv' j = socket_at sv j.

Lemma serves_ext d d' fut fut' sv :
  (∀ k, d k = d' k) → (∀ k, fut k = fut' k) → serves d fut sv → serves d' fut' sv.
Proof.
  intros Ed Ef [H1 H2 H3 H4 H5]. split; [done|intros k; by rewrite <-Ed| |done|].
  - intros k. unfold untaken. rewrite <-Ed, <-Ef. apply H3.
  - etrans; [exact H5|]. by apply tables_ext.
Qed.

Lemma serves_receive d fut sv k rx chunk :
  serves d fut sv → chunk ≠ [] → chunk `prefix_of` fut k →
  Z.of_nat (length (inbound sv k) + length chunk) ≤ TCPBufferSize →
  pending_size_ (fifo_sequencer_ sv) + whole_requests (length (inbound sv k) + length chunk)
    ≤ ME_MAX_PENDING_REQUESTS →
  ∃ n sv', os_receive sv k rx chunk = Ok sv' ∧
    serves (<[k := (d k + n)%nat]> d) (<[k := drop (length chunk) (fut k)]> fut) sv' ∧
    request_ <$> pending sv' =
      (request_ <$> pending sv) ++ (omrq_request <$> take n (untaken d k)) ∧
    Z.of_nat n = whole_requests (length (inbound sv k) + length chunk) ∧ same_outgoing sv sv' ∧
    same_others k sv sv' ∧ outbound sv' k = outbound sv k.
Proof.
  intros [Hrep Hd Hb Hsh Htab] Hne [f Hf] Hfit Hroom.
  pose proof (st_owner _ _ Hst k) as Ho.
  destruct (os_receive_spec sv k rx chunk (untaken d k) f Hrep)
    as (sv' & ms1 & ms2 & Hms & Hr & Hrep' & Hp & Htab' & Hb' & Hout & Hsh' & Hn & Hsk).
  { apply Forall_drop. eapply Forall_impl; [exact Ho|]. by intros r (? & _). }
  { apply Forall_drop. eapply Forall_impl; [exact Ho|]. by intros r (_ & ? & _). }
  { by rewrite Hb, Hf. }
  { exact Hfit. }
  { exact Hne. }
  { lia. }
  assert (ms1 = take (length ms1) (untaken d k)) as Hms1 by by rewrite Hms, take_app_length.
  assert (d k + length ms1 ≤ length (stream k))%nat as Hlen.
  { apply (f_equal length) in Hms. unfold untaken in Hms.
    rewrite length_drop, length_app in Hms. specialize (Hd k). lia. }
  destruct (accept_many (length ms1) d k Hlen) as [Hacc Hst'].
  rewrite <-Hms1 in Hacc, Hst'.
  assert (∀ j, socket_at sv' j = if decide (k = j)
    then with_inbound (socket_at sv k) (inbound sv' k) else socket_at sv j) as Hat.
  { intros j. unfold socket_at at 1. rewrite Hsk, lookup_insert. by case_decide. }
  exists (length ms1), sv'. split; [exact Hr|]. split; [split|].
  - exact Hrep'.
  - intros j. destruct (decide (k = j)) as [<-|Hj]; [by rewrite fn_lookup_insert|].
    by rewrite fn_lookup_insert_ne.
  - intros j. unfold untaken. destruct (decide (k = j)) as [<-|Hj].
    + rewrite !fn_lookup_insert, Hf, drop_app_length, <-drop_drop. fold (untaken d k).
      by rewrite Hms, drop_app_length.
    + rewrite !fn_lookup_insert_ne by done. unfold inbound. rewrite Hat, decide_False by done.
      apply Hb.
  - intros j. unfold inbound. destruct (decide (k = j)) as [<-|Hj].
    + rewrite OMClientRequest_size in Hsh'. fold (inbound sv' k). lia.
    + rewrite Hat, decide_False by done. apply Hsh.
  - rewrite Htab', <-Hst'. by rewrite Htab.
  - rewrite <-Hms1. split; [|split; [lia|]].
    + rewrite Hp, fmap_app, Htab, Hacc. f_equal. rewrite <-list_fmap_compose.
      by apply list_fmap_ext.
    + split; [exact Hout|]. split.
      * intros j Hj. by rewrite Hat, decide_False by done.
      * unfold outbound. by rewrite Hat, decide_True.
Qed.

(** One request more than the sequencer holds ends the process. *)
Lemma serves_overflow d fut sv k rx chunk :
  serves d fut sv → chunk ≠ [] → chunk `prefix_of` fut k →
  Z.of_nat (length (inbound sv k) + length chunk) ≤ TCPBufferSize →
  pending_size_ (fifo_sequencer_ sv) ≤ ME_MAX_PENDING_REQUESTS <
    pending_size_ (fifo_sequencer_ sv) +
    whole_requests (length (inbound sv k) + length chunk) →
  os_receive sv k rx chunk = Err FatalExit.
Proof.
  intros [Hrep Hd Hb Hsh Htab] Hne [f Hf] Hfit Hroom.
  pose proof (st_owner _ _ Hst k) as Ho.
  apply (os_receive_overflow sv k rx chunk (untaken d k) f Hrep); try done.
  - apply Forall_drop. eapply Forall_impl; [exact Ho|]. by intros r (? & _).
  - apply Forall_drop. eapply Forall_impl; [exact Ho|]. by intros r (_ & ? & _).
  - by rewrite Hb, Hf.
  - intros n Hn. rewrite Htab. apply accept_many. unfold untaken in Hn.
    rewrite length_drop in Hn. specialize (Hd k). lia.
Qed.

(** The kernel takes what it is offered. *)
Lemma serves_flush d fut sv k taken_bytes :
  serves d fut sv → (length (outbound sv k) ≤ taken_bytes)%nat →
  let '(s, sent) := socket_flush (socket_at sv k) taken_bytes in
  sent = outbound sv k ∧ serves d fut (set_socket sv k s) ∧
  outbound (set_socket sv k s) k = [] ∧ same_others k sv (set_socket sv k s) ∧
  same_outgoing sv (set_socket sv k s) ∧ pending (set_socket sv k s) = pending sv.
Proof.
  intros [[H1 H2 H3] Hd Hb Hsh Htab] Htake. unfold socket_flush.
  set (s := with_outbound _ _).
  assert (∀ j, inbound (set_socket sv k s) j = inbound sv j) as Hin.
  { intros j. unfold inbound, socket_at, set_socket. cbn [os_sockets].
    destruct (decide (k = j)) as [<-|Hj]; [by rewrite lookup_insert_eq|].
    by rewrite lookup_insert_ne. }
  split; [by apply take_ge|]. split; [split|].
  - by split.
  - exact Hd.
  - intros j. by rewrite Hin.
  - intros j. by rewrite Hin.
  - exact Htab.
  - split; [unfold outbound; by rewrite socket_at_set|]. split; [|by split].
    intros j Hj. unfold socket_at, set_socket. cbn [os_sockets]. by rewrite lookup_insert_ne.
Qed.

Section Sockets.
Context (net : Z → option (Nanos * bytes)) (takes : Z → nat).

(** The requests that what is read from a socket completes. *)
Definition arriving sv k : Z := whole_requests (length (inbound sv k) + length (got net k)).
Definition arrivals sv (L : list Z) : Z := sumZ (arriving sv <$> L).

Lemma arriving_nonneg sv k : 0 ≤ arriving sv k.
Proof. unfold arriving, whole_requests. apply Z.div_pos; lia. Qed.
Lemma arriving_none d fut sv k : serves d fut sv → net k = None → arriving sv k = 0.
Proof.
  intros Hs E. unfold arriving, got, whole_requests. rewrite E.
  pose proof (sv_short _ _ _ Hs k). apply Z.div_small. cbn [length]. lia.
Qed.
Lemma arrivals_cons sv k L : arrivals sv (k :: L) = arriving sv k + arrivals sv L.
Proof. unfold arrivals. by rewrite fmap_cons, sumZ_cons. Qed.
Lemma arrivals_nonneg sv L : 0 ≤ arrivals sv L.
Proof.
  induction L as [|k L IH]; [done|]. rewrite arrivals_cons. pose proof (arriving_nonneg sv k). lia.
Qed.
Lemma arrivals_ext sv sv' L : (∀ k, k ∈ L → inbound sv' k = inbound sv k) →
  arrivals sv' L = arrivals sv L.
Proof.
  intros E. unfold arrivals. f_equal. apply Forall_fmap_ext, Forall_forall. intros k Hk.
  unfold arriving. by rewrite E.
Qed.

(** [TCPSocket::sendAndRecv]: the socket's requests go to the sequencer, its buffer to the
    kernel, and no other socket is touched. *)
Lemma socket_sendAndRecv_spec d fut sv k b wire :
  serves d fut sv → delivers net fut sv k → (length (outbound sv k) ≤ takes k)%nat →
  pending_size_ (fifo_sequencer_ sv) + arriving sv k ≤ ME_MAX_PENDING_REQUESTS →
  ∃ n sv' wire', socket_sendAndRecv net takes (b, sv, wire) k =
      Ok (b || bool_decide (is_Some (net k)), sv', wire') ∧
    serves (<[k := (d k + n)%nat]> d) (<[k := drop (length (got net k)) (fut k)]> fut) sv' ∧
    request_ <$> pending sv' =
      (request_ <$> pending sv) ++ (omrq_request <$> take n (untaken d k)) ∧
    Z.of_nat n = arriving sv k ∧ (net k = None → n = 0%nat) ∧
    same_outgoing sv sv' ∧ same_others k sv sv' ∧ outbound sv' k = [] ∧
    (∀ j, sent_to j wire' = sent_to j wire ++ (if decide (j = k) then outbound sv k else [])).
Proof.
  intros Hs Hdel Htake Hroom. unfold socket_sendAndRecv, delivers in *.
  assert (∃ n sv1, match net k with
      | Some (rx_time, chunk) =>
          sv1 ← os_receive sv k rx_time chunk;
          Ok ((socket_recv TCPBufferSize (socket_at sv k) chunk).2, sv1)
      | None => Ok (false, sv)
      end = Ok (bool_decide (is_Some (net k)), sv1) ∧
    serves (<[k := (d k + n)%nat]> d) (<[k := drop (length (got net k)) (fut k)]> fut) sv1 ∧
    request_ <$> pending sv1 =
      (request_ <$> pending sv) ++ (omrq_request <$> take n (untaken d k)) ∧
    Z.of_nat n = arriving sv k ∧ (net k = None → n = 0%nat) ∧
    same_outgoing sv sv1 ∧ same_others k sv sv1 ∧ outbound sv1 k = outbound sv k)
    as (n & sv1 & Hrun & Hs1 & Hp1 & Hn & Hn0 & Ho1 & Hsame1 & Hout1).
  { pose proof (arriving_none d fut sv k Hs) as Hzero. unfold arriving, got in *.
    destruct (net k) as [[rx chunk]|].
    - destruct (Hdel rx chunk eq_refl) as (Hne & Hpre & Hfit).
      destruct (serves_receive d fut sv k rx chunk Hs Hne Hpre Hfit Hroom)
        as (n & sv1 & Hr & H1 & H2 & H3 & H4 & H5 & H6).
      exists n, sv1. rewrite Hr. cbn [mbind Res_bind]. unfold socket_recv. cbn [snd].
      unfold next_rcv_valid_index_. fold (inbound sv k). rewrite take_ge by lia.
      rewrite !bool_decide_eq_false_2, bool_decide_eq_true_2 by done. by split_and!.
    - exists 0%nat, sv. rewrite bool_decide_eq_false_2 by (by intros [? ?]).
      split; [done|]. split; [|by rewrite take_0, app_nil_r, Hzero].
      eapply serves_ext; [..|exact Hs]; intros j; cbn [length];
        (destruct (decide (k = j)) as [<-|Hj];
         [rewrite fn_lookup_insert, ?drop_0; lia || done|by rewrite fn_lookup_insert_ne]). }
  rewrite Hrun. cbn [mbind Res_bind].
  pose proof (serves_flush _ _ sv1 k (takes k) Hs1) as Hfl. rewrite Hout1 in Hfl.
  specialize (Hfl Htake).
  destruct (socket_flush (socket_at sv1 k) (takes k)) as [s sent].
  destruct Hfl as (-> & Hs2 & Hout2 & Hsame2 & Ho2 & Hp2).
  eexists n, (set_socket sv1 k s), _. split; [reflexivity|]. split; [exact Hs2|].
  split; [by rewrite Hp2|]. split; [exact Hn|]. split; [exact Hn0|].
  split; [by etrans|]. split; [intros j Hj; by rewrite Hsame2, Hsame1|]. split; [exact Hout2|].
  intros j. unfold next_send_valid_index_. fold (outbound sv1 k). rewrite Hout1.
  destruct (_ >? 0) eqn:E.
  - by rewrite sent_to_app, sent_to_one.
  - rewrite Z.gtb_ltb in E. apply Z.ltb_ge in E.
    assert (outbound sv k = []) as -> by (destruct (outbound sv k); [done|cbn [length] in E; lia]).
    case_decide; by rewrite app_nil_r.
Qed.

(** All sockets of a list, one after the other. *)
Definition remaining (L : list Z) fut k : bytes :=
  if decide (k ∈ L) then drop (length (got net k)) (fut k) else fut k.
Definition newly d d' k : list OMClientRequest := take (d' k - d k) (untaken d k).
Lemma remaining_cons k L fut j : k ∉ L →
  remaining L (<[k := drop (length (got net k)) (fut k)]> fut) j = remaining (k :: L) fut j.
Proof.
  intros Hk. unfold remaining. destruct (decide (j = k)) as [->|Hj].
  - by rewrite decide_False, decide_True, fn_lookup_insert by (done || by left).
  - rewrite fn_lookup_insert_ne by done. destruct (decide (j ∈ L)).
    + by rewrite decide_True by by right.
    + by rewrite decide_False by (by intros [?|?]%elem_of_cons).
Qed.

Lemma newly_cons d d' k n L : k ∉ L → d' k = (d k + n)%nat →
  (k :: L) ≫= newly d d' = take n (untaken d k) ++ (L ≫= newly (<[k := (d k + n)%nat]> d) d').
Proof.
  intros Hk Hd. cbn [mbind list_bind]. f_equal; [unfold newly; f_equal; lia|].
  clear Hd. induction L as [|j L IH]; [done|]. apply not_elem_of_cons in Hk as [Hj Hk].
  cbn [mbind list_bind]. f_equal; [|by apply IH]. unfold newly, untaken. by rewrite fn_lookup_insert_ne.
Qed.

Lemma sendAndRecv_all L : ∀ d fut sv b wire,
  NoDup L → serves d fut sv → (∀ k, k ∈ L → delivers net fut sv k) →
  (∀ k, k ∈ L → (length (outbound sv k) ≤ takes k)%nat) →
  pending_size_ (fifo_sequencer_ sv) + arrivals sv L ≤ ME_MAX_PENDING_REQUESTS →
  ∃ d' sv' b' wire', fold_res (socket_sendAndRecv net takes) (b, sv, wire) L = Ok (b', sv', wire') ∧
    serves d' (remaining L fut) sv' ∧
    (∀ k, (d k ≤ d' k)%nat) ∧ (∀ k, k ∉ L ∨ net k = None → d' k = d k) ∧
    (b' = false → b = false ∧ ∀ k, d' k = d k) ∧
    request_ <$> pending sv' =
      (request_ <$> pending sv) ++ (omrq_request <$> (L ≫= newly d d')) ∧
    pending_size_ (fifo_sequencer_ sv') ≤ pending_size_ (fifo_sequencer_ sv) + arrivals sv L ∧
    same_outgoing sv sv' ∧
    (∀ k, k ∈ L → outbound sv' k = []) ∧ (∀ k, k ∉ L → socket_at sv' k = socket_at sv k) ∧
    (∀ j, sent_to j wire' = sent_to j wire ++ (if decide (j ∈ L) then outbound sv j else [])).
Proof.
  induction L as [|k L IH]; intros d fut sv b wire Hnd Hs Hdel Htake Hroom.
  { exists d, sv, b, wire. rewrite app_nil_r. split_and!; try done.
    - change (arrivals sv []) with 0. lia.
    - by intros k ?%elem_of_nil.
    - intros j. by rewrite app_nil_r. }
  apply NoDup_cons in Hnd as [Hk Hnd]. rewrite arrivals_cons in Hroom.
  pose proof (arrivals_nonneg sv L) as HL.
  destruct (socket_sendAndRecv_spec d fut sv k b wire Hs) as
    (n & sv1 & wire1 & Hrun & Hs1 & Hp1 & Hn & Hn0 & Ho1 & Hsame1 & Hout1 & Hw1);
    [apply Hdel; by left|apply Htake; by left|lia|].
  assert (∀ j, j ∈ L → j ≠ k) as Hne by (intros j Hj ->; done).
  assert (arrivals sv1 L = arrivals sv L) as Harr.
  { apply arrivals_ext. intros j Hj. unfold inbound. by rewrite (Hsame1 j) by auto. }
  assert (pending_size_ (fifo_sequencer_ sv1) ≤
    pending_size_ (fifo_sequencer_ sv) + arriving sv k) as Hps1.
  { unfold pending_size_. apply (f_equal length) in Hp1. unfold pending in Hp1.
    rewrite length_app, !length_fmap, length_take in Hp1. lia. }
  set (d1 := <[k := (d k + n)%nat]> d) in *. set (fut1 := <[k := _]> fut) in *.
  assert (∀ j, j ≠ k → d1 j = d j ∧ fut1 j = fut j) as Hoth.
  { intros j Hj. unfold d1, fut1. by rewrite !fn_lookup_insert_ne. }
  assert (d1 k = d k + n)%nat as Hd1k by (unfold d1; by rewrite fn_lookup_insert).
  destruct (IH d1 fut1 sv1 (b || bool_decide (is_Some (net k))) wire1 Hnd Hs1) as
    (d' & sv' & b' & wire' & Hrun' & Hs' & Hmono & Hkeep & Hb & Hp & Hps & Ho & Hout & Hsame & Hw).
  { intros j Hj rx chunk E. unfold inbound. rewrite (Hsame1 j) by auto.
    rewrite (proj2 (Hoth j (Hne j Hj))). exact (Hdel j (list_elem_of_further _ _ _ Hj) rx chunk E). }
  { intros j Hj. unfold outbound. rewrite (Hsame1 j) by auto. apply Htake. by right. }
  { lia. }
  assert (d' k = d k + n)%nat as Hdk' by (rewrite Hkeep by (by left); exact Hd1k).
  exists d', sv', b', wire'. cbn [fold_res]. rewrite Hrun. cbn [mbind Res_bind]. split_and!.
  - exact Hrun'.
  - eapply serves_ext; [done| |exact Hs']. intros j. by apply remaining_cons.
  - intros j. specialize (Hmono j). destruct (decide (j = k)) as [->|Hj]; [lia|].
    by rewrite (proj1 (Hoth j Hj)) in Hmono.
  - intros j Hj. destruct (decide (j = k)) as [->|Hjk].
    + destruct Hj as [Hj|Hj]; [destruct Hj; by left|]. rewrite Hdk', (Hn0 Hj). lia.
    + rewrite Hkeep, (proj1 (Hoth j Hjk)); [done|].
      destruct Hj as [[_ Hj]%not_elem_of_cons|]; [by left|by right].
  - intros Hf. destruct (Hb Hf) as [[-> Hnk]%orb_false_iff Hd]. split; [done|]. intros j. rewrite Hd.
    apply bool_decide_eq_false in Hnk. destruct (decide (j = k)) as [->|Hj]; [|apply (Hoth j Hj)].
    rewrite Hd1k, Hn0 by by apply eq_None_not_Some. lia.
  - by rewrite (newly_cons _ _ _ n), Hp, Hp1, fmap_app, <-app_assoc.
  - rewrite arrivals_cons. lia.
  - by etrans.
  - intros j [->|Hj]%elem_of_cons; [|by apply Hout]. unfold outbound. by rewrite Hsame.
  - intros j [Hj1 Hj2]%not_elem_of_cons. by rewrite Hsame, Hsame1.
  - intros j. rewrite Hw, Hw1, <-app_assoc. f_equal. destruct (decide (j = k)) as [->|Hj].
    + rewrite decide_False, app_nil_r by done. by rewrite decide_True by (by left).
    + cbn [app]. unfold outbound. rewrite (Hsame1 j Hj). destruct (decide (j ∈ L)).
      * by rewrite decide_True by (by right).
      * by rewrite decide_False by (by intros [?|?]%elem_of_cons).
Qed.

(** More requests than the sequencer holds, from however many sockets, end the process. *)
Lemma sendAndRecv_overflow L : ∀ d fut sv b wire,
  NoDup L → serves d fut sv → (∀ k, k ∈ L → delivers net fut sv k) →
  (∀ k, k ∈ L → (length (outbound sv k) ≤ takes k)%nat) →
  pending_size_ (fifo_sequencer_ sv) ≤ ME_MAX_PENDING_REQUESTS <
    pending_size_ (fifo_sequencer_ sv) + arrivals sv L →
  fold_res (socket_sendAndRecv net takes) (b, sv, wire) L = Err FatalExit.
Proof.
  induction L as [|k L IH]; intros d fut sv b wire Hnd Hs Hdel Htake [Hle Hlt].
  { change (arrivals sv []) with 0 in Hlt. lia. }
  apply NoDup_cons in Hnd as [Hk Hnd]. rewrite arrivals_cons in Hlt. cbn [fold_res].
  destruct (decide (pending_size_ (fifo_sequencer_ sv) + arriving sv k ≤ ME_MAX_PENDING_REQUESTS))
    as [Hroom|Hfull].
  - destruct (socket_sendAndRecv_spec d fut sv k b wire Hs) as
      (n & sv1 & wire1 & -> & Hs1 & Hp1 & Hn & _ & _ & Hsame1 & _);
      [apply Hdel; by left|apply Htake; by left|done|]. cbn [mbind Res_bind].
    assert (∀ j, j ∈ L → j ≠ k) as Hne by (intros j Hj ->; done).
    assert (arrivals sv1 L = arrivals sv L) as Harr.
    { apply arrivals_ext. intros j Hj. unfold inbound. by rewrite (Hsame1 j) by auto. }
    assert (pending_size_ (fifo_sequencer_ sv1) =
      pending_size_ (fifo_sequencer_ sv) + arriving sv k) as Hps1.
    { unfold pending_size_. apply (f_equal length) in Hp1. unfold pending in Hp1.
      rewrite length_app, !length_fmap, length_take in Hp1.
      pose proof (sv_taken _ _ _ Hs1 k) as Hd1. rewrite fn_lookup_insert in Hd1.
      unfold untaken in Hp1. rewrite length_drop in Hp1. lia. }
    eapply IH; [done|exact Hs1| | |lia].
    + intros j Hj rx chunk E. unfold inbound. rewrite (Hsame1 j) by auto.
      rewrite fn_lookup_insert_ne by (intros ->; by apply (Hne j)).
      exact (Hdel j (list_elem_of_further _ _ _ Hj) rx chunk E).
    + intros j Hj. unfold outbound. rewrite (Hsame1 j) by auto. apply Htake. by right.
  - unfold socket_sendAndRecv. destruct (net k) as [[rx chunk]|] eqn:E.
    2: { rewrite (arriving_none d fut sv k Hs E) in Hfull. lia. }
    destruct (Hdel k (list_elem_of_here _ _) rx chunk E) as (Hne & Hpre & Hfit).
    unfold arriving, got in Hfull. rewrite E in Hfull.
    by rewrite (serves_overflow d fut sv k rx chunk Hs Hne Hpre Hfit ltac:(lia)).
Qed.
End Sockets.

(** ** What a turn needs *)

(** The listener is among the sockets reported, so connections are accepted. *)
Definition have_connection (ts : TCPServer) (events : list EpollEvent) : bool :=
  existsb (λ ev, ev_in ev && (ev_socket ev =? listener_socket_ ts)) events.
(** A socket that an event makes the server read from now on. *)
Definition reported (ts : TCPServer) (ev : EpollEvent) : bool :=
  (ev_in ev || ev_err ev) && negb (ev_in ev && (ev_socket ev =? listener_socket_ ts)).
Definition add_sockets (v : list Z) (l : list Z) : list Z := foldl (λ v s, add_socket s v) v l.

(** The sockets read in a turn: those known, those reported and the new connections. *)
Definition sockets_read (kt : KernelTurn) (ts : TCPServer) : list Z :=
  add_sockets (receive_sockets_ ts)
    ((ev_socket <$> filter (λ ev, reported ts ev = true) (kt_events kt)) ++
     (if have_connection ts (kt_events kt) then cn_socket <$> kt_conns kt else [])).

(** How a turn of the order server ends the process, if it does: more events than the array
    holds, a connection that cannot be set up, or more requests than the sequencer holds. *)
Definition server_fault (kt : KernelTurn) (ts : TCPServer) (sv : OrderServer) : option Fault :=
  if Z.of_nat (length (kt_events kt)) >? EVENTS_SIZE then Some BadIndex
  else if have_connection ts (kt_events kt) &&
          negb (forallb (λ x, cn_options x && cn_epoll x) (kt_conns kt)) then Some AssertFailed
  else if arrivals (kt_net kt) sv (sockets_read kt ts) >? ME_MAX_PENDING_REQUESTS
  then Some FatalExit
  else None.

Lemma add_sockets_app v l l' : add_sockets v (l ++ l') = add_sockets (add_sockets v l) l'.
Proof. apply foldl_app. Qed.

Lemma poll_event_reads b ts ev :
  let '(b', ts') := poll_event (b, ts) ev in
  b' = b || (ev_in ev && (ev_socket ev =? listener_socket_ ts)) ∧
  listener_socket_ ts' = listener_socket_ ts ∧
  receive_sockets_ ts' =
    if reported ts ev then add_socket (ev_socket ev) (receive_sockets_ ts) else receive_sockets_ ts.
Proof.
  unfold poll_event, reported. destruct (ev_in ev && (_ =? _)) eqn:E.
  - rewrite orb_true_r, andb_false_r. by split_and!.
  - rewrite orb_false_r, andb_true_r.
    destruct (ev_in ev), (ev_out ev), (ev_err ev); cbn [orb with_receive with_send
      receive_sockets_ listener_socket_]; split_and!; try done.
    all: by rewrite (add_socket_id _ (add_socket _ _)) by apply add_socket_elem.
Qed.

Lemma poll_events_reads evs b ts :
  let '(b', ts') := foldl poll_event (b, ts) evs in
  b' = b || have_connection ts evs ∧ listener_socket_ ts' = listener_socket_ ts ∧
  receive_sockets_ ts' = add_sockets (receive_sockets_ ts)
    (ev_socket <$> filter (λ ev, reported ts ev = true) evs).
Proof.
  revert b ts. induction evs as [|ev evs IH]; intros b ts.
  { cbn. by rewrite orb_false_r. }
  cbn [foldl have_connection existsb]. pose proof (poll_event_reads b ts ev) as H.
  destruct (poll_event (b, ts) ev) as [b1 ts1]. destruct H as (-> & Hl & Hr).
  specialize (IH (b || (ev_in ev && (ev_socket ev =? listener_socket_ ts))) ts1).
  destruct (foldl poll_event _ evs) as [b2 ts2]. destruct IH as (-> & -> & ->).
  unfold have_connection. rewrite <-orb_assoc. rewrite Hl. split; [done|]. split; [done|].
  rewrite Hr. assert (∀ e, reported ts1 e = reported ts e) as E by (intros e; unfold reported; by rewrite Hl).
  rewrite (list_filter_iff _ (λ ev, reported ts ev = true) evs) by (intros e; by rewrite E).
  destruct (reported ts ev) eqn:Ev.
  - by rewrite filter_cons_True.
  - by rewrite filter_cons_False by (by rewrite Ev).
Qed.

Lemma accept_loop_reads ts sv conns ts' sv' :
  accept_loop ts sv conns = Ok (ts', sv') →
  receive_sockets_ ts' = add_sockets (receive_sockets_ ts) (cn_socket <$> conns).
Proof.
  revert ts sv. induction conns as [|x conns IH]; intros ts sv; cbn [accept_loop].
  { by intros [= <- _]. }
  destruct (cn_options x), (cn_epoll x); cbn [ASSERT mbind Res_bind]; try done.
  by intros ->%IH.
Qed.

Lemma accept_loop_fails ts sv conns :
  forallb (λ x, cn_options x && cn_epoll x) conns = false →
  accept_loop ts sv conns = Err AssertFailed.
Proof.
  revert ts sv. induction conns as [|x conns IH]; intros ts sv; cbn [forallb accept_loop]; [done|].
  destruct (cn_options x), (cn_epoll x); cbn [andb ASSERT mbind Res_bind]; try done. apply IH.
Qed.

(** [poll] fails for the first two reasons. *)
Lemma poll_fails kt ts sv :
  (EVENTS_SIZE < Z.of_nat (length (kt_events kt)) →
   poll ts sv (kt_events kt) (kt_conns kt) = Err BadIndex) ∧
  (Z.of_nat (length (kt_events kt)) ≤ EVENTS_SIZE → have_connection ts (kt_events kt) = true →
   forallb (λ x, cn_options x && cn_epoll x) (kt_conns kt) = false →
   poll ts sv (kt_events kt) (kt_conns kt) = Err AssertFailed).
Proof.
  unfold poll. rewrite Z.gtb_ltb. split.
  - intros Hm. by rewrite (proj2 (Z.ltb_lt _ _)).
  - intros Hm Hc Hf. rewrite (proj2 (Z.ltb_ge _ _)) by done.
    pose proof (poll_events_reads (kt_events kt) false ts) as H.
    destruct (foldl _ _ _) as [b ts1]. destruct H as (-> & _ & _). rewrite Hc. cbn [orb].
    by apply accept_loop_fails.
Qed.

(** ** New connections *)

(** The state of the server between two turns of its loop. *)
Record connected d fut (ts : TCPServer) sv : Prop := {
  cd_serves : serves d fut sv;
  cd_nodup : NoDup (receive_sockets_ ts);
  cd_send : send_sockets_ ts = [];
  cd_quiet : ∀ k, k ∉ receive_sockets_ ts → d k = 0%nat ∧ inbound sv k = [] ∧ outbound sv k = [];
  cd_pending : pending sv = []
}.

(** A new server, before any connection; everything is still to come. *)
Lemma connected_new q1 q2 listener fut :
  (∀ k, fut k = encode_all (stream k)) →
  connected (λ _, 0%nat) fut (TCPServer_new listener) (OrderServer_new q1 q2).
Proof.
  intros Hf. assert (∀ k, inbound (OrderServer_new q1 q2) k = []) as Hin by done.
  split; [split| | | |].
  - done.
  - intros k. lia.
  - intros k. rewrite Hin, Hf. done.
  - intros k. rewrite Hin. cbn [length]. lia.
  - split; intros c; unfold tables, expected, bound, taken; cbn [fst snd];
      rewrite take_0; unfold os_state; cbn; by rewrite arr_get_new.
  - apply NoDup_nil_2.
  - done.
  - done.
  - done.
Qed.

(** The kernel: it reports only what was asked for, a new connection gets a socket of its
    own, and what is read from a connection is what comes next on it and fits the buffer. *)
Record kernel_contract (kt : KernelTurn) fut (ts : TCPServer) sv : Prop := {
  kc_flags : Forall (λ ev, ev_out ev = false) (kt_events kt);
  kc_conns : Forall (λ x, cn_socket x ∉ receive_sockets_ ts) (kt_conns kt);
  kc_net : ∀ k, delivers (kt_net kt) fut sv k
}.

(** It also takes all that is sent. *)
Record kernel_ok (kt : KernelTurn) fut (ts : TCPServer) sv : Prop := {
  ko_contract : kernel_contract kt fut ts sv;
  ko_takes : ∀ k, (length (outbound sv k) ≤ kt_takes kt k)%nat
}.

Lemma poll_event_send st ev :
  ev_out ev = false → send_sockets_ (poll_event st ev).2 = send_sockets_ st.2.
Proof.
  intros E. destruct st as [b ts]. unfold poll_event. rewrite E.
  destruct (ev_in ev && _); [done|]. by destruct (ev_in ev), (ev_err ev).
Qed.

Lemma poll_events_send evs st :
  Forall (λ ev, ev_out ev = false) evs →
  send_sockets_ (foldl poll_event st evs).2 = send_sockets_ st.2.
Proof.
  intros H. revert st. induction H as [|ev evs Hev _ IH]; intros st; [done|].
  cbn [foldl]. by rewrite IH, poll_event_send.
Qed.

Lemma new_sockets_frame conns sv :
  let sv' := foldl (λ sv x, set_socket sv (cn_socket x) (Socket_new (cn_fd x))) sv conns in
  (∀ k, k ∉ (cn_socket <$> conns) → socket_at sv' k = socket_at sv k) ∧
  (∀ k, k ∈ (cn_socket <$> conns) → inbound sv' k = [] ∧ outbound sv' k = []) ∧
  same_outgoing sv sv' ∧ os_state sv' = os_state sv ∧ pending sv' = pending sv ∧
  (os_rep sv → os_rep sv').
Proof.
  cbn zeta. revert sv. induction conns as [|x conns IH]; intros sv.
  { split_and!; try done. by intros k ?%elem_of_nil. }
  cbn [foldl]. set (sv1 := set_socket sv (cn_socket x) (Socket_new (cn_fd x))).
  destruct (IH sv1) as (H1 & H2 & H3 & H4 & H5 & H6). rewrite fmap_cons. split_and!.
  - intros k [Hx Hk]%not_elem_of_cons. rewrite H1 by done. unfold socket_at, sv1, set_socket.
    cbn [os_sockets]. by rewrite lookup_insert_ne.
  - intros k Hk. destruct (decide (k ∈ (cn_socket <$> conns))) as [Hin|Hout]; [by apply H2|].
    apply elem_of_cons in Hk as [->|Hk]; [|done]. unfold inbound, outbound.
    rewrite H1 by done. unfold sv1. by rewrite socket_at_set.
  - etrans; [|exact H3]. by split.
  - by rewrite H4.
  - by rewrite H5.
  - intros [Hr1 Hr2 Hr3]. apply H6. by split.
Qed.

Lemma serves_frame d fut sv sv' :
  serves d fut sv → (os_rep sv → os_rep sv') → (∀ k, inbound sv' k = inbound sv k) →
  os_state sv' = os_state sv → serves d fut sv'.
Proof.
  intros [H1 H2 H3 H4 H5] Hr Hi Ht. split; [auto|done|..].
  - intros k. by rewrite Hi.
  - intros k. by rewrite Hi.
  - by rewrite Ht.
Qed.

Lemma poll_spec kt d fut ts sv :
  connected d fut ts sv → kernel_contract kt fut ts sv →
  Z.of_nat (length (kt_events kt)) ≤ EVENTS_SIZE →
  have_connection ts (kt_events kt) &&
    negb (forallb (λ x, cn_options x && cn_epoll x) (kt_conns kt)) = false →
  ∃ ts' sv', poll ts sv (kt_events kt) (kt_conns kt) = Ok (ts', sv') ∧
    connected d fut ts' sv' ∧ receive_sockets_ ts' = sockets_read kt ts ∧
    receive_sockets_ ts `prefix_of` receive_sockets_ ts' ∧ same_outgoing sv sv' ∧
    (∀ k, inbound sv' k = inbound sv k ∧ outbound sv' k = outbound sv k).
Proof.
  intros [Hs Hnd Hsend Hquiet Hp] [Hflag Hconn _] Hle Hset. unfold poll.
  rewrite Z.gtb_ltb, (proj2 (Z.ltb_ge _ _)) by done.
  destruct (poll_events_spec (kt_events kt) false ts) as (Hext & _ & _).
  pose proof (poll_events_reads (kt_events kt) false ts) as Hreads.
  pose proof (poll_events_send (kt_events kt) (false, ts) Hflag) as Hsend1.
  unfold sockets_read. rewrite add_sockets_app.
  destruct (foldl poll_event (false, ts) (kt_events kt)) as [b ts1]. cbn [snd] in *.
  destruct Hreads as (-> & _ & <-). cbn [orb].
  assert (connected d fut ts1 sv) as Hc1.
  { destruct Hext as [_ Hpre _ Hn _]. split; [done|by apply Hn|congruence| |done].
    intros k Hk. apply Hquiet. intros ?. apply Hk. by eapply elem_of_prefix. }
  destruct (have_connection ts (kt_events kt)).
  2: { exists ts1, sv. split; [done|]. split; [done|]. split; [done|]. split; [apply Hext|]. by split. }
  cbn [andb] in Hset. apply negb_false_iff in Hset.
  destruct (accept_loop_spec ts1 sv (kt_conns kt)) as (ts2 & sv2 & Hrun & Hext2 & Hin2 & Hrec2 & Hsend2 & ->).
  { apply Forall_forall. intros x Hx. rewrite forallb_forall in Hset.
    by apply andb_true_iff, Hset, list_elem_of_In. }
  set (sv2 := foldl _ sv (kt_conns kt)) in *.
  destruct (new_sockets_frame (kt_conns kt) sv) as (H1 & H2 & H3 & H4 & H5 & H6).
  fold sv2 in H1, H2, H3, H4, H5, H6.
  assert (∀ k, inbound sv2 k = inbound sv k ∧ outbound sv2 k = outbound sv k) as Hsame.
  { intros k. destruct (decide (k ∈ (cn_socket <$> kt_conns kt))) as [Hin|Hout].
    - destruct (H2 k Hin) as [-> ->]. apply list_elem_of_fmap in Hin as (c & -> & Hc).
      rewrite Forall_forall in Hconn. pose proof (Hconn c Hc) as Hno.
      by destruct (Hquiet _ Hno) as (_ & -> & ->).
    - unfold inbound, outbound. by rewrite H1. }
  exists ts2, sv2. split; [exact Hrun|].
  split; [|split; [by eapply accept_loop_reads|split; [etrans; [apply Hext|apply Hext2]|by split]]].
  destruct Hc1 as [_ Hnd1 Hs1 Hq1 _]. split.
  - apply (serves_frame _ _ sv); try done. intros k. apply Hsame.
  - by apply (te_receive_nodup _ _ Hext2).
  - congruence.
  - intros k Hk. destruct (Hsame k) as [-> ->]. apply Hq1. intros ?. apply Hk.
    by eapply elem_of_prefix; [|apply Hext2].
  - by rewrite H5.
Qed.

(** ** A whole turn *)

(** A response goes to a client the server has heard of. *)
Definition answerable d (r : MEClientResponse) : Prop :=
  0 ≤ rs_client_id r < ME_MAX_NUM_CLIENTS ∧
  mine (rs_client_id r) (taken d (owner (rs_client_id r))) ≠ [].

Lemma filter_elem_iff {A} (P Q : A → Prop) `{∀ x, Decision (P x), ∀ x, Decision (Q x)}
    (l : list A) :
  (∀ x, x ∈ l → P x ↔ Q x) → filter P l = filter Q l.
Proof.
  induction l as [|x l IH]; intros HPQ; [done|].
  assert (filter P l = filter Q l) as E by (apply IH; intros; apply HPQ; by right).
  specialize (HPQ x (list_elem_of_here _ _)). destruct (decide (P x)).
  - by rewrite !filter_cons_True, E by tauto.
  - by rewrite !filter_cons_False, E by tauto.
Qed.

Lemma numbered_clients (n : ClientId → Z) rs m :
  m ∈ numbered_responses n rs → omrs_response m ∈ rs.
Proof.
  revert n. induction rs as [|r rs IH]; intros n; cbn [numbered_responses]; [by intros ?%elem_of_nil|].
  intros [->|Hm]%elem_of_cons; [by left|]. right. by eapply IH.
Qed.

Lemma answerable_mono d d' r : (∀ k, (d k ≤ d' k)%nat) → answerable d r → answerable d' r.
Proof.
  intros Hd [Hc Hm]. split; [done|]. intros E. apply Hm.
  set (c := rs_client_id r) in *. unfold taken in *.
  rewrite <-(take_drop (d (owner c)) (take (d' (owner c)) _)), take_take, mine_app in E.
  rewrite Nat.min_l in E by done. by apply app_nil in E as [? _].
Qed.

Lemma bound_answerable d r :
  answerable d r → bound d (rs_client_id r) = Some (owner (rs_client_id r)).
Proof. intros [_ Hm]. unfold bound. by rewrite decide_False. Qed.

(** What the responses [rp] add to a socket, [n] being the numbers used next. *)
Definition reply_bytes (n : ClientId → Z) (rp : list MEClientResponse) k : bytes :=
  encode_all (filter (λ m, owner (response_client m) = k) (numbered_responses n rp)).

(** The loop over the responses. *)
Lemma respond_spec d fut sv rp fuel :
  serves d fut sv → lfq_rep (os_outgoing_responses_ sv) rp → Forall (answerable d) rp →
  (length rp ≤ fuel)%nat → Z.of_nat (50 * length rp) ≤ TCPBufferSize →
  (∀ k, outbound sv k = []) →
  (∀ c, 0 ≤ arr_get (cid_next_outgoing_seq_num_ sv) c < 2 ^ 64 - Z.of_nat (length rp)) →
  ∃ sv', os_send_responses fuel sv = Ok sv' ∧ serves d fut sv' ∧
    lfq_rep (os_outgoing_responses_ sv') [] ∧ same_receiving sv sv' ∧
    (∀ k, outbound sv' k = reply_bytes (arr_get (cid_next_outgoing_seq_num_ sv)) rp k) ∧
    (∀ c, arr_get (cid_next_outgoing_seq_num_ sv') c =
          arr_get (cid_next_outgoing_seq_num_ sv) c + client_count c rp).
Proof.
  intros Hs Hq Ha Hfuel Hfit Hout Hn. destruct (sv_tables _ _ _ Hs) as [_ Htab].
  cbn [os_state tables snd] in Htab.
  destruct (os_send_responses_spec fuel sv rp (sv_rep _ _ _ Hs) Hq)
    as (sv' & Hrun & Hq' & Ho & Hrep & Hsame & Hcount).
  { eapply Forall_impl; [exact Ha|]. intros r Hr. split; [apply Hr|].
    rewrite Htab, bound_answerable by done. by eexists. }
  { exact Hfuel. }
  { intros k. unfold next_send_valid_index_. fold (outbound sv k). rewrite Hout. exact Hfit. }
  { exact Hn. }
  exists sv'. split; [exact Hrun|]. split; [|split; [exact Hq'|split; [exact Hsame|split; [|exact Hcount]]]].
  - destruct Hsame as [H1 H2 H3 H4 _]. apply (serves_frame _ _ sv); [done|done|done|].
    unfold os_state. by rewrite H1, H2.
  - intros k. rewrite Ho, Hout. unfold reply_bytes. cbn [app]. f_equal. apply filter_elem_iff.
    intros m Hm%numbered_clients. rewrite Forall_forall in Ha.
    unfold response_client. rewrite Htab, (bound_answerable _ _ (Ha _ Hm)).
    split; [by intros [= ->]|by intros ->].
Qed.

(** [TCPServer::sendAndRecv]. *)
Lemma tcp_sendAndRecv_spec `{StdSort} kt d fut ts sv reqs :
  connected d fut ts sv → (∀ k, delivers (kt_net kt) fut sv k) →
  (∀ k, (length (outbound sv k) ≤ kt_takes kt k)%nat) →
  arrivals (kt_net kt) sv (receive_sockets_ ts) ≤ ME_MAX_PENDING_REQUESTS →
  lfq_rep (fs_incoming_requests_ (fifo_sequencer_ sv)) reqs →
  Z.of_nat (length reqs) + ME_MAX_PENDING_REQUESTS ≤
    lfq_cap (fs_incoming_requests_ (fifo_sequencer_ sv)) →
  ∃ d' sv' wire batch,
    tcp_sendAndRecv (kt_net kt) (kt_takes kt) ts sv = Ok (sv', wire) ∧
    connected d' (remaining (kt_net kt) (receive_sockets_ ts) fut) ts sv' ∧
    (∀ k, (d k ≤ d' k)%nat) ∧ (∀ k, outbound sv' k = []) ∧
    batch ≡ₚ omrq_request <$> (receive_sockets_ ts ≫= newly d d') ∧
    lfq_rep (fs_incoming_requests_ (fifo_sequencer_ sv')) (reqs ++ batch) ∧
    lfq_cap (fs_incoming_requests_ (fifo_sequencer_ sv')) =
      lfq_cap (fs_incoming_requests_ (fifo_sequencer_ sv)) ∧
    cid_next_outgoing_seq_num_ sv' = cid_next_outgoing_seq_num_ sv ∧
    os_outgoing_responses_ sv' = os_outgoing_responses_ sv ∧
    (∀ k, sent_to k wire = outbound sv k).
Proof.
  intros [Hs Hnd Hsend Hquiet Hp] Hnet Htakes Hroom Hq Hcap.
  assert (pending_size_ (fifo_sequencer_ sv) = 0) as Hp0.
  { unfold pending_size_. fold (pending sv). by rewrite Hp. }
  destruct (sendAndRecv_all (kt_net kt) (kt_takes kt) (receive_sockets_ ts) d fut sv false [])
    as (d' & sv1 & b & wire & Hrun & Hs1 & Hmono & Hkeep & Hb & Hp1 & Hps1 & Ho1 & Hout1 & Hsame1 & Hw).
  { done. } { done. } { done. } { done. } { lia. }
  unfold tcp_sendAndRecv. rewrite Hrun, Hsend. cbn [mbind Res_bind fold_res].
  rewrite Hp in Hp1. cbn [fmap list_fmap app] in Hp1.
  pose proof Ho1 as [Hseq Hresp Hreq]. rewrite <-Hreq in Hq, Hcap |- *.
  assert (∀ k, outbound sv1 k = []) as Hout.
  { intros k. destruct (decide (k ∈ receive_sockets_ ts)) as [Hk|Hk]; [by apply Hout1|].
    unfold outbound. rewrite Hsame1 by done. apply (Hquiet k Hk). }
  assert (∀ k, sent_to k wire = outbound sv k) as Hsent.
  { intros k. rewrite Hw. case_decide as Hk; [done|]. by destruct (Hquiet k Hk) as (_ & _ & ->). }
  assert (∀ sv2, serves d' (remaining (kt_net kt) (receive_sockets_ ts) fut) sv2 →
    os_sockets sv2 = os_sockets sv1 → pending sv2 = [] →
    connected d' (remaining (kt_net kt) (receive_sockets_ ts) fut) ts sv2) as Hconn.
  { intros sv2 Hs2 Hk2 Hp2. split; try done. intros k Hk. destruct (Hquiet k Hk) as (Hd & Hi & Ho).
    rewrite Hkeep by by left. split; [done|]. unfold inbound, outbound, socket_at in *.
    rewrite Hk2. specialize (Hsame1 k Hk). unfold socket_at in Hsame1. by rewrite Hsame1. }
  destruct b.
  - (* the round is published *)
    destruct (sequence_rep (fifo_sequencer_ sv1) reqs Hq) as (batch & Hperm & _ & Hq2 & Hcap2 & Hp2).
    { lia. }
    exists d', (recvFinishedCallback sv1), wire, (request_ <$> batch).
    split; [done|]. split.
    { apply Hconn; [|done|exact Hp2]. apply (serves_frame _ _ sv1); try done. by intros [? ? ?]; split. }
    split; [exact Hmono|]. split; [exact Hout|]. split; [by rewrite Hperm, <-Hp1|].
    split; [exact Hq2|]. split; [exact Hcap2|]. split; [exact Hseq|]. split; [exact Hresp|done].
  - (* nothing was read *)
    destruct (Hb eq_refl) as [_ Hd].
    assert (∀ L, omrq_request <$> (L ≫= newly d d') = []) as Hnone.
    { induction L as [|k L IH]; [done|]. cbn [mbind list_bind].
      change (list_bind _ _ (newly d d') L) with (L ≫= newly d d').
      rewrite fmap_app, IH, app_nil_r. unfold newly. by rewrite Hd, Nat.sub_diag. }
    rewrite Hnone in Hp1. apply fmap_nil_inv in Hp1.
    exists d', sv1, wire, []. rewrite app_nil_r, Hnone.
    split; [done|]. split; [by apply Hconn|]. by split_and!.
Qed.

Lemma server_fault_none kt ts sv : server_fault kt ts sv = None →
  Z.of_nat (length (kt_events kt)) ≤ EVENTS_SIZE ∧
  have_connection ts (kt_events kt) &&
    negb (forallb (λ x, cn_options x && cn_epoll x) (kt_conns kt)) = false ∧
  arrivals (kt_net kt) sv (sockets_read kt ts) ≤ ME_MAX_PENDING_REQUESTS.
Proof.
  unfold server_fault. rewrite !Z.gtb_ltb. destruct (_ <? _) eqn:E1; [done|].
  destruct (_ && _); [done|]. destruct (ME_MAX_PENDING_REQUESTS <? _) eqn:E2; [done|].
  apply Z.ltb_ge in E1, E2. done.
Qed.

(** The faults of a turn. *)
Lemma order_server_turn_fault `{StdSort} kt fuel d fut ts sv f :
  connected d fut ts sv → kernel_ok kt fut ts sv → server_fault kt ts sv = Some f →
  order_server_turn kt fuel (ts, sv) = Err f.
Proof.
  intros Hc [Hko Htakes] Hf. unfold server_fault in Hf. rewrite !Z.gtb_ltb in Hf.
  unfold order_server_turn. destruct (EVENTS_SIZE <? _) eqn:E1.
  { apply Z.ltb_lt in E1. injection Hf as <-. by rewrite (proj1 (poll_fails kt ts sv)). }
  apply Z.ltb_ge in E1. destruct (_ && _) eqn:E2.
  { apply andb_true_iff in E2 as [Ec Es%negb_true_iff]. injection Hf as <-.
    by rewrite (proj2 (poll_fails kt ts sv)). }
  destruct (ME_MAX_PENDING_REQUESTS <? _) eqn:E3; [|done]. apply Z.ltb_lt in E3. injection Hf as <-.
  destruct (poll_spec kt d fut ts sv Hc Hko E1 E2)
    as (ts1 & sv1 & -> & Hc1 & Hread & _ & _ & Hsame1). cbn [mbind Res_bind].
  unfold tcp_sendAndRecv. destruct Hc1 as [Hs1 Hnd1 _ _ Hp1].
  assert (pending_size_ (fifo_sequencer_ sv1) = 0) as Hp0.
  { unfold pending_size_. fold (pending sv1). by rewrite Hp1. }
  rewrite (sendAndRecv_overflow (kt_net kt) (kt_takes kt) _ d fut sv1); try done.
  - intros k _ rx chunk E. destruct (Hsame1 k) as [-> _]. exact (kc_net _ _ _ _ Hko k rx chunk E).
  - intros k _. destruct (Hsame1 k) as [_ ->]. apply Htakes.
  - rewrite Hp0, Hread, (arrivals_ext _ sv sv1) by (intros k _; apply Hsame1). by split.
Qed.

(** A turn of [OrderServer::run]: the new requests of all connections are published, in the
    order of their receive times, behind those still queued; the queued responses are
    numbered and put in the send buffers; what was in the send buffers before has gone out. *)
Lemma order_server_turn_spec `{StdSort} kt fuel d fut ts sv reqs rp :
  connected d fut ts sv → kernel_ok kt fut ts sv → server_fault kt ts sv = None →
  lfq_rep (fs_incoming_requests_ (fifo_sequencer_ sv)) reqs →
  Z.of_nat (length reqs) + ME_MAX_PENDING_REQUESTS ≤
    lfq_cap (fs_incoming_requests_ (fifo_sequencer_ sv)) →
  lfq_rep (os_outgoing_responses_ sv) rp → Forall (answerable d) rp →
  (length rp ≤ fuel)%nat → Z.of_nat (50 * length rp) ≤ TCPBufferSize →
  (∀ c, 0 ≤ arr_get (cid_next_outgoing_seq_num_ sv) c < 2 ^ 64 - Z.of_nat (length rp)) →
  ∃ d' fut' ts' sv' wire batch,
    order_server_turn kt fuel (ts, sv) = Ok (ts', sv', wire) ∧
    connected d' fut' ts' sv' ∧ (∀ k, (d k ≤ d' k)%nat) ∧
    receive_sockets_ ts `prefix_of` receive_sockets_ ts' ∧
    batch ≡ₚ omrq_request <$> (receive_sockets_ ts' ≫= newly d d') ∧
    lfq_rep (fs_incoming_requests_ (fifo_sequencer_ sv')) (reqs ++ batch) ∧
    lfq_cap (fs_incoming_requests_ (fifo_sequencer_ sv')) =
      lfq_cap (fs_incoming_requests_ (fifo_sequencer_ sv)) ∧
    lfq_rep (os_outgoing_responses_ sv') [] ∧
    lfq_cap (os_outgoing_responses_ sv') = lfq_cap (os_outgoing_responses_ sv) ∧
    (∀ c, arr_get (cid_next_outgoing_seq_num_ sv') c =
          arr_get (cid_next_outgoing_seq_num_ sv) c + client_count c rp) ∧
    (∀ k, sent_to k wire = outbound sv k) ∧
    (∀ k, outbound sv' k = reply_bytes (arr_get (cid_next_outgoing_seq_num_ sv)) rp k) ∧
    (∀ k, fut' k = remaining (kt_net kt) (receive_sockets_ ts') fut k).
Proof.
  intros Hc [Hko Htakes] (Hev & Hset & Harr)%server_fault_none Hq Hcap Hr Ha Hfuel Hfit Hn.
  destruct (poll_spec kt d fut ts sv Hc Hko Hev Hset)
    as (ts1 & sv1 & Hpoll & Hc1 & Hread & Hpre & Ho1 & Hsame1).
  destruct Ho1 as [Hs1 Hr1 Hq1]. pose proof (kc_net _ _ _ _ Hko) as Hnet.
  rewrite <-Hq1 in Hq, Hcap.
  destruct (tcp_sendAndRecv_spec kt d fut ts1 sv1 reqs Hc1)
    as (d' & sv2 & wire & batch & Hrun & Hc2 & Hmono & Hout2 & Hperm & Hq2 & Hcap2 & Hs2 & Hr2 & Hw).
  { intros k rx chunk E. destruct (Hsame1 k) as [-> _]. exact (Hnet k rx chunk E). }
  { intros k. destruct (Hsame1 k) as [_ ->]. apply Htakes. }
  { rewrite Hread, (arrivals_ext _ sv sv1); [done|]. intros k _. apply Hsame1. }
  { exact Hq. }
  { exact Hcap. }
  destruct (respond_spec d' (remaining (kt_net kt) (receive_sockets_ ts1) fut) sv2 rp fuel)
    as (sv3 & Hresp & Hs3 & Hr3 & Hsame3 & Hout3 & Hn3).
  { apply Hc2. }
  { by rewrite Hr2, Hr1. }
  { eapply Forall_impl; [exact Ha|]. intros r. by apply answerable_mono. }
  { exact Hfuel. }
  { exact Hfit. }
  { exact Hout2. }
  { by rewrite Hs2, Hs1. }
  rewrite Hs2, Hs1 in Hout3, Hn3. pose proof Hsame3 as [He3 Hb3 Hf3 Hi3 Hcap3].
  exists d', (remaining (kt_net kt) (receive_sockets_ ts1) fut), ts1, sv3, wire, batch.
  unfold order_server_turn. rewrite Hpoll. cbn [mbind Res_bind]. rewrite Hrun.
  cbn [mbind Res_bind]. rewrite Hresp. cbn [mbind Res_bind]. split; [done|]. split.
  { destruct Hc2 as [_ Hnd Hsend Hquiet Hp]. split; [done|done|done| |].
    - intros k Hk. destruct (Hquiet k Hk) as (Hd & Hi & _). split; [done|].
      split; [by rewrite Hi3|]. rewrite Hout3. unfold reply_bytes.
      rewrite (filter_elem_iff _ (λ _, False)); [by induction (numbered_responses _ rp)|].
      intros m Hm%numbered_clients. split; [|done]. intros E.
      rewrite Forall_forall in Ha. destruct (answerable_mono _ _ _ Hmono (Ha _ Hm)) as [_ Hne].
      apply Hne. change (rs_client_id (omrs_response m)) with (response_client m).
      rewrite E. unfold taken. by rewrite Hd, take_0.
    - unfold pending. by rewrite Hf3. }
  split; [exact Hmono|]. split; [exact Hpre|]. split; [exact Hperm|]. rewrite Hf3.
  split; [exact Hq2|]. split; [by rewrite Hcap2, Hq1|]. split; [exact Hr3|].
  split; [by rewrite Hcap3, Hr2, Hr1|]. split; [exact Hn3|]. split; [|done].
  intros k. rewrite Hw. by destruct (Hsame1 k) as [_ ->].
Qed.
End Server.
