(* ===== verification/Exchange.v ===== *)
(** * Exchange: the exchange's threads together

    [exchange/exchange_main.cpp]: the order server, the matching engine, the market data
    publisher and the snapshot synthesizer, each a thread, joined by four lock-free queues.
    A step of the exchange is one turn of one thread's loop, the threads taking turns in any
    order; every component holds a pointer to the queues it shares, so a turn leaves its
    queues to the thread at the other end. *)
From stdpp Require Import functions.
From S2P Require Import Prelude Types Wire Sockets LFQueue FIFOSequencer OrderServer.
From S2P Require Import OrderGateway OrderFlow TCPServer ServerRound.
From S2P Require Import BookInv LevelsAbs MEOrderBook BookSpec BookMatch MEBookRefine MEBookSpec.
From S2P Require Import BookProps Sessions MatchingEngine MarketOrderBook MarketBookSpec MarketBBO.
From S2P Require Import FeedMirror SnapshotSynthesizer MarketDataPublisher LateJoiner EngineSession.

Record Exchange := mkExchange {
  x_tcp_server : TCPServer;
  order_server : OrderServer;
  matching_engine : MatchingEngine;
  market_data_publisher : MarketDataPublisher;
  snapshot_synthesizer : SnapshotSynthesizer
}.

(** [main]: the queues, then the components. *)
Definition Exchange_new (listener : Z) : Exchange :=
  let client_requests := LFQueue_new ME_MAX_CLIENT_UPDATES MEClientRequest_default in
  let client_responses := LFQueue_new ME_MAX_CLIENT_UPDATES MEClientResponse_default in
  let market_updates := LFQueue_new ME_MAX_MARKET_UPDATES MEMarketUpdate_default in
  let publisher := MarketDataPublisher_new market_updates in
  mkExchange (TCPServer_new listener) (OrderServer_new client_requests client_responses)
    (MatchingEngine_new client_requests client_responses market_updates) publisher
    (SnapshotSynthesizer_new (snapshot_md_updates_ publisher)).

(** ** The queues at their other ends *)
Definition server_with_queues (sv : OrderServer) (requests : LFQueue MEClientRequest)
    (responses : LFQueue MEClientResponse) : OrderServer :=
  mkOrderServer responses (cid_next_outgoing_seq_num_ sv) (cid_next_exp_seq_num_ sv)
    (cid_tcp_socket_ sv) (os_sockets sv)
    (mkFIFOSequencer requests (pending_client_requests_ (fifo_sequencer_ sv))).
Definition engine_with_server_queues (e : MatchingEngine) (requests : LFQueue MEClientRequest)
    (responses : LFQueue MEClientResponse) : MatchingEngine :=
  mkMatchingEngine (ticker_order_book_ e) requests responses
    (MatchingEngine.outgoing_md_updates_ e).
Definition engine_with_updates (e : MatchingEngine) (updates : LFQueue MEMarketUpdate)
  : MatchingEngine :=
  mkMatchingEngine (ticker_order_book_ e) (incoming_requests_ e) (outgoing_ogw_responses_ e)
    updates.
Definition publisher_with_updates (pb : MarketDataPublisher) (updates : LFQueue MEMarketUpdate)
  : MarketDataPublisher :=
  mkMarketDataPublisher (next_inc_seq_num_ pb) updates (snapshot_md_updates_ pb)
    (incremental_socket_ pb) (pub_sent pb).
Definition publisher_with_snapshots (pb : MarketDataPublisher)
    (snapshots : LFQueue MDPMarketUpdate) : MarketDataPublisher :=
  mkMarketDataPublisher (next_inc_seq_num_ pb) (outgoing_md_updates_ pb) snapshots
    (incremental_socket_ pb) (pub_sent pb).

(** ** The threads *)

(** No queue holds more than this. *)
Definition queue_fuel : nat := Z.to_nat ME_MAX_CLIENT_UPDATES.

Definition order_server_thread `{StdSort} (kt : KernelTurn) (x : Exchange)
  : Res (Exchange * list (Z * bytes)) :=
  '(ts, sv, wire) ← order_server_turn kt queue_fuel (x_tcp_server x, order_server x);
  Ok (mkExchange ts sv
        (engine_with_server_queues (matching_engine x)
           (fs_incoming_requests_ (fifo_sequencer_ sv)) (os_outgoing_responses_ sv))
        (market_data_publisher x) (snapshot_synthesizer x), wire).

Definition matching_thread (x : Exchange) : Res Exchange :=
  e ← engine_step (matching_engine x);
  Ok (mkExchange (x_tcp_server x)
        (server_with_queues (order_server x) (incoming_requests_ e) (outgoing_ogw_responses_ e))
        e (publisher_with_updates (market_data_publisher x) (MatchingEngine.outgoing_md_updates_ e))
        (snapshot_synthesizer x)).

Definition publisher_thread (x : Exchange) : Res Exchange :=
  pb ← publisher_turn queue_fuel (market_data_publisher x);
  Ok (mkExchange (x_tcp_server x) (order_server x)
        (engine_with_updates (matching_engine x) (outgoing_md_updates_ pb)) pb
        (ss_with_queue (snapshot_synthesizer x) (snapshot_md_updates_ pb))).

Definition synthesizer_thread (now now' : Nanos) (x : Exchange) : Res Exchange :=
  ss ← synthesizer_turn queue_fuel now now' (snapshot_synthesizer x);
  Ok (mkExchange (x_tcp_server x) (order_server x) (matching_engine x)
        (publisher_with_snapshots (market_data_publisher x) (ss_snapshot_md_updates_ ss)) ss).

(** ** The exchange and its clients *)

(** For every connection: the bytes the client has sent or will send and the server has not
    read, and the bytes the server has handed to the kernel. *)
Record World := mkWorld {
  w_exchange : Exchange;
  w_incoming : Z → bytes;
  w_sent : Z → bytes
}.

Definition World_new (listener : Z) (stream : Z → list OMClientRequest) : World :=
  mkWorld (Exchange_new listener) (λ k, encode_all (stream k)) (λ _, []).

Inductive Turn :=
  | OrderServerTurn (kt : KernelTurn)
  | MatchingTurn
  | PublisherTurn
  | SynthesizerTurn (now now' : Nanos).

Definition world_turn `{StdSort} (w : World) (t : Turn) : Res World :=
  match t with
  | OrderServerTurn kt =>
      '(x, wire) ← order_server_thread kt (w_exchange w);
      Ok (mkWorld x
            (remaining (kt_net kt) (receive_sockets_ (x_tcp_server x)) (w_incoming w))
            (λ k, w_sent w k ++ sent_to k wire))
  | MatchingTurn => x ← matching_thread (w_exchange w); Ok (mkWorld x (w_incoming w) (w_sent w))
  | PublisherTurn => x ← publisher_thread (w_exchange w); Ok (mkWorld x (w_incoming w) (w_sent w))
  | SynthesizerTurn now now' =>
      x ← synthesizer_thread now now' (w_exchange w); Ok (mkWorld x (w_incoming w) (w_sent w))
  end.

(** In the turns of the order server the kernel keeps its contract and takes what is sent. *)
Definition turn_ok (w : World) (t : Turn) : Prop :=
  match t with
  | OrderServerTurn kt =>
      kernel_ok kt (w_incoming w) (x_tcp_server (w_exchange w)) (order_server (w_exchange w))
  | _ => True
  end.

(** How a turn ends the process, if it does: only the order server's can. *)
Definition turn_fault (w : World) (t : Turn) : option Fault :=
  match t with
  | OrderServerTurn kt =>
      server_fault kt (x_tcp_server (w_exchange w)) (order_server (w_exchange w))
  | _ => None
  end.

Inductive reachable `{StdSort} (w0 : World) : World → Prop :=
  | reach_start : reachable w0 w0
  | reach_turn w t w' :
      reachable w0 w → turn_ok w t → world_turn w t = Ok w' → reachable w0 w'.

(** ** Counting *)
Lemma client_count_app c rs rp : client_count c (rs ++ rp) = client_count c rs + client_count c rp.
Proof. unfold client_count. rewrite filter_app, length_app. lia. Qed.

Lemma numbered_responses_app n rs rp :
  numbered_responses n (rs ++ rp) =
  numbered_responses n rs ++ numbered_responses (λ c, n c + client_count c rs) rp.
Proof.
  revert n. induction rs as [|r rs IH]; intros n.
  - cbn [app numbered_responses]. apply numbered_responses_ext. intros c.
    unfold client_count. cbn. lia.
  - cbn [app numbered_responses]. rewrite IH. do 2 f_equal. apply numbered_responses_ext.
    intros c. unfold client_count. destruct (decide (c = rs_client_id r)) as [->|Hne].
    + rewrite filter_cons_True by done. cbn [length]. lia.
    + by rewrite filter_cons_False by congruence.
Qed.

Lemma reply_bytes_app owner n rs rp k :
  reply_bytes owner n (rs ++ rp) k =
  reply_bytes owner n rs k ++ reply_bytes owner (λ c, n c + client_count c rs) rp k.
Proof.
  unfold reply_bytes. by rewrite numbered_responses_app, filter_app, encode_all_app.
Qed.

Lemma reply_bytes_ext owner n n' rp k :
  (∀ c, n c = n' c) → reply_bytes owner n rp k = reply_bytes owner n' rp k.
Proof. intros E. unfold reply_bytes. by rewrite (numbered_responses_ext n n'). Qed.

Lemma client_count_bounds c rs : 0 ≤ client_count c rs ≤ Z.of_nat (length rs).
Proof.
  unfold client_count. split; [lia|]. apply Nat2Z.inj_le, length_filter.
Qed.

Lemma bind_app_perm {A B} (L : list A) (f g : A → list B) :
  L ≫= (λ x, f x ++ g x) ≡ₚ (L ≫= f) ++ (L ≫= g).
Proof.
  induction L as [|x L IH]; [done|]. cbn [mbind list_bind].
  change (list_bind _ _ ?h L) with (L ≫= h). rewrite IH. solve_Permutation.
Qed.

Lemma bind_none {A B} (L : list A) (f : A → list B) : (∀ x, x ∈ L → f x = []) → L ≫= f = [].
Proof.
  induction L as [|x L IH]; intros Hf; [done|]. cbn [mbind list_bind].
  change (list_bind _ _ f L) with (L ≫= f).
  rewrite (Hf x), IH; [done|intros; apply Hf; by right|by left].
Qed.

Lemma bind_submseteq {A B} (L M : list A) (f g : A → list B) :
  NoDup L → (∀ x, x ∈ L → f x ≠ [] → x ∈ M) → (∀ x, f x ⊆+ g x) → L ≫= f ⊆+ M ≫= g.
Proof.
  intros Hnd. revert M. induction Hnd as [|x L Hx Hnd IH]; intros M Hin Hfg.
  { apply submseteq_nil_l. }
  cbn [mbind list_bind]. change (list_bind _ _ f L) with (L ≫= f).
  destruct (f x) as [|y l] eqn:Ef.
  - apply IH; [|done]. intros z Hz. apply Hin. by right.
  - assert (x ∈ M) as HxM by (apply Hin; [by left|by rewrite Ef]).
    apply elem_of_Permutation in HxM as [M' HM]. rewrite HM, <-Ef. cbn [mbind list_bind].
    change (list_bind _ _ g M') with (M' ≫= g). apply submseteq_app; [done|].
    apply IH; [|done]. intros z Hz Hne.
    assert (z ∈ x :: M') as [->|?]%elem_of_cons; [|done|done].
    rewrite <-HM. apply Hin; [by right|done].
Qed.

Lemma bind_perm {A B} (L M : list A) (f : A → list B) :
  NoDup L → NoDup M → (∀ x, f x ≠ [] → x ∈ L ↔ x ∈ M) → L ≫= f ≡ₚ M ≫= f.
Proof.
  intros HL HM Hin. apply submseteq_length_Permutation.
  - apply bind_submseteq; [done|intros x Hx Hne; by apply Hin|done].
  - apply submseteq_length, bind_submseteq; [done|intros x Hx Hne; by apply Hin|done].
Qed.

(** The requests of a round are those the sockets moved on by. *)
Lemma taken_newly stream (L L' : list Z) (d d' : Z → nat) :
  (∀ k, (d k ≤ d' k)%nat) → L `prefix_of` L' → (∀ k, k ∉ L → d k = 0%nat) → NoDup L' →
  L' ≫= taken stream d' ≡ₚ (L ≫= taken stream d) ++ (L' ≫= newly stream d d').
Proof.
  intros Hd [M ->] Hout Hnd.
  assert (L ≫= taken stream d = (L ++ M) ≫= taken stream d) as ->.
  { rewrite bind_app. rewrite (bind_none M); [by rewrite app_nil_r|]. intros k Hk.
    unfold taken. rewrite Hout; [by rewrite take_0|]. intros Hin.
    apply NoDup_app in Hnd as (_ & Hdis & _). by apply (Hdis k). }
  rewrite <-bind_app_perm.
  assert (∀ k, taken stream d' k = taken stream d k ++ newly stream d d' k) as E.
  { intros k. unfold taken, newly, untaken. rewrite take_drop_commute.
    rewrite <-(take_drop (d k) (take (d' k) (stream k))) at 1. specialize (Hd k).
    rewrite take_take, Nat.min_l by done. do 3 f_equal. lia. }
  clear -E. induction (L ++ M) as [|k K IH]; [done|]. cbn [mbind list_bind].
  change (list_bind _ _ ?h K) with (K ≫= h). by rewrite IH, E.
Qed.

(** ** The invariant *)

(** A cycle of snapshots after the first [k] updates. *)
Definition cycle_after (us : list MEMarketUpdate) (k : nat) : bytes :=
  encode_all (numbered_updates 0 (snapshot_cycle (snap_run ∅ (take k us)) (Z.of_nat k))).

(** Both ends of every queue. *)
Record coherent (x : Exchange) : Prop := {
  co_requests : incoming_requests_ (matching_engine x) =
                fs_incoming_requests_ (fifo_sequencer_ (order_server x));
  co_responses : os_outgoing_responses_ (order_server x) =
                 outgoing_ogw_responses_ (matching_engine x);
  co_updates : outgoing_md_updates_ (market_data_publisher x) =
               MatchingEngine.outgoing_md_updates_ (matching_engine x);
  co_snapshots : ss_snapshot_md_updates_ (snapshot_synthesizer x) =
                 snapshot_md_updates_ (market_data_publisher x)
}.

Record full_size (x : Exchange) : Prop := {
  fz_requests : lfq_cap (incoming_requests_ (matching_engine x)) = ME_MAX_CLIENT_UPDATES;
  fz_responses : lfq_cap (outgoing_ogw_responses_ (matching_engine x)) = ME_MAX_CLIENT_UPDATES;
  fz_updates : lfq_cap (MatchingEngine.outgoing_md_updates_ (matching_engine x)) =
               ME_MAX_MARKET_UPDATES;
  fz_snapshots : lfq_cap (snapshot_md_updates_ (market_data_publisher x)) =
                 ME_MAX_MARKET_UPDATES
}.

(** Where everything that was ever sent is: [d] counts the requests taken from each socket;
    the engine has processed [P] and will process [Q]; of its responses [rs] are numbered
    and [rp] wait; of its updates [uz] are in the snapshot, [uw] published but not yet in the
    snapshot, and [up] wait; [ks] are the snapshots published. *)
Record Ghost := mkGhost {
  g_taken : Z → nat;
  g_processed : list MEClientRequest;
  g_queued : list MEClientRequest;
  g_answered : list MEClientResponse;
  g_unanswered : list MEClientResponse;
  g_snapshot : list MEMarketUpdate;
  g_published : list MEMarketUpdate;
  g_unpublished : list MEMarketUpdate;
  g_cycles : list nat
}.

Ltac xsimpl := cbn [w_exchange w_incoming w_sent x_tcp_server order_server matching_engine
  market_data_publisher snapshot_synthesizer server_with_queues engine_with_server_queues
  engine_with_updates publisher_with_updates publisher_with_snapshots
  next_inc_seq_num_ outgoing_md_updates_ snapshot_md_updates_ incremental_socket_ pub_published
  g_taken g_processed g_queued g_answered g_unanswered g_snapshot g_published g_unpublished
  g_cycles] in *.

Section Invariant.
Context (stream : Z → list OMClientRequest) (owner : ClientId → Z) (socks : list Z).
Context (lo hi : TickerId → Price).

(** Everything the clients will ever send. *)
Definition traffic : list MEClientRequest := omrq_request <$> (socks ≫= stream).

(** The clients: consecutive numbers, one connection each, tame requests, and few enough for
    the queues. *)
Record clients_ok : Prop := {
  ck_streams : streams_ok stream owner;
  ck_socks : ∀ k, k ∉ socks → stream k = [];
  ck_nodup : NoDup socks;
  ck_traffic : traffic_ok lo hi traffic;
  ck_few : 3 * Z.of_nat (length traffic) ≤ ME_MAX_CLIENT_UPDATES
}.

Record order_side (w : World) (g : Ghost) : Prop := {
  xi_connected : connected stream owner (g_taken g) (w_incoming w)
    (x_tcp_server (w_exchange w)) (order_server (w_exchange w));
  xi_requests : g_processed g ++ g_queued g ≡ₚ
    omrq_request <$> (receive_sockets_ (x_tcp_server (w_exchange w)) ≫= taken stream (g_taken g));
  xi_seq : ∀ c, arr_get (cid_next_outgoing_seq_num_ (order_server (w_exchange w))) c =
                1 + client_count c (g_answered g);
  xi_replies : ∀ k, w_sent w k ++ outbound (order_server (w_exchange w)) k =
                    reply_bytes owner (λ _, 1) (g_answered g) k
}.

Record engine_side (x : Exchange) (g : Ghost) : Prop := {
  xi_engine : engine_rep (matching_engine x)
    (mkSpecEngine (se_books (engine_after (g_processed g))) (g_unanswered g) (g_unpublished g))
    (g_queued g);
  xi_responses : se_responses (engine_after (g_processed g)) = g_answered g ++ g_unanswered g;
  xi_updates : se_updates (engine_after (g_processed g)) =
               g_snapshot g ++ g_published g ++ g_unpublished g
}.

Record publisher_side (pb : MarketDataPublisher) (g : Ghost) : Prop := {
  xi_pub_seq : next_inc_seq_num_ pb =
               1 + Z.of_nat (length (g_snapshot g ++ g_published g));
  xi_pub_out : outbound_data_ (incremental_socket_ pb) = [];
  xi_published : pub_published pb =
                 encode_all (numbered_updates 1 (g_snapshot g ++ g_published g));
  xi_snap_queue : lfq_rep (snapshot_md_updates_ pb)
    (numbered_updates (1 + Z.of_nat (length (g_snapshot g))) (g_published g))
}.

Record snapshot_side (ss : SnapshotSynthesizer) (g : Ghost) : Prop := {
  xi_synth : synthesizes ss (snap_run ∅ (g_snapshot g));
  xi_last : last_inc_seq_num_ ss = Z.of_nat (length (g_snapshot g));
  xi_snap_out : outbound_data_ (snapshot_socket_ ss) = [];
  xi_cycles : published ss = concat (cycle_after (g_snapshot g) <$> g_cycles g);
  xi_prefixes : Forall (λ k, (k ≤ length (g_snapshot g))%nat) (g_cycles g)
}.

Record exchange_inv (w : World) (g : Ghost) : Prop := {
  xi_coherent : coherent (w_exchange w);
  xi_size : full_size (w_exchange w);
  xi_order : order_side w g;
  xi_match : engine_side (w_exchange w) g;
  xi_publish : publisher_side (market_data_publisher (w_exchange w)) g;
  xi_snap : snapshot_side (snapshot_synthesizer (w_exchange w)) g
}.

Lemma exchange_inv_new listener :
  exchange_inv (World_new listener stream) (mkGhost (λ _, 0%nat) [] [] [] [] [] [] [] []).
Proof.
  split; [by split|by split| | | |].
  - split; [by apply connected_new|done| |done].
    intros c. unfold client_count. cbn. by rewrite arr_get_new.
  - split; [|done|done]. apply MatchingEngine_new_rep; [by vm_compute..|].
    apply LFQueue_new_rep. by vm_compute.
  - split; [done|done|done|]. apply LFQueue_new_rep. by vm_compute.
  - split; [apply SnapshotSynthesizer_new_rep|done|done|done|constructor].
Qed.

(** ** Bounds on what is under way *)
Section Bounds.
Context (Hck : clients_ok).
Implicit Types (w : World) (g : Ghost) (x : Exchange).

Lemma ghost_traffic w g : order_side w g → g_processed g ++ g_queued g ⊆+ traffic.
Proof.
  intros [Hc Hreq _ _]. rewrite Hreq. unfold traffic. apply fmap_submseteq.
  apply bind_submseteq; [apply Hc| |].
  - intros k _ Hne. destruct (decide (k ∈ socks)) as [|Hno]; [done|]. destruct Hne.
    unfold taken. by rewrite (ck_socks Hck k Hno), take_nil.
  - intros k. unfold taken. apply sublist_submseteq, sublist_take.
Qed.

Lemma ghost_next w g r Q : order_side w g → g_queued g = r :: Q →
  traffic_ok lo hi (g_processed g ++ [r]) ∧ g_processed g ++ [r] ⊆+ traffic.
Proof.
  intros Hw Eq. pose proof (ghost_traffic w g Hw) as Hsub. rewrite Eq in Hsub.
  assert (g_processed g ++ [r] ⊆+ traffic) as H.
  { etrans; [|exact Hsub]. apply submseteq_app; [done|]. apply submseteq_skip, submseteq_nil_l. }
  split; [|done]. eapply traffic_sub; [exact H|apply Hck].
Qed.

Lemma processed_traffic w g : order_side w g → traffic_ok lo hi (g_processed g).
Proof.
  intros Hw. eapply traffic_sub; [|apply Hck]. etrans; [|by eapply ghost_traffic].
  by apply submseteq_inserts_r.
Qed.

(** All messages that processed requests ever cause fit in a queue. *)
Lemma few_messages P : P ⊆+ traffic → traffic_ok lo hi P →
  Z.of_nat (length (se_responses (engine_after P))) ≤ ME_MAX_CLIENT_UPDATES ∧
  Z.of_nat (length (se_updates (engine_after P))) ≤ ME_MAX_MARKET_UPDATES.
Proof.
  intros Hsub Htr. pose proof (engine_after_count lo hi P Htr).
  apply submseteq_length in Hsub. pose proof (ck_few Hck) as Hfew.
  unfold ME_MAX_MARKET_UPDATES, ME_MAX_CLIENT_UPDATES in *. lia.
Qed.

(** ** The matching thread *)
Lemma connected_queues d fut ts sv q1 q2 :
  connected stream owner d fut ts sv →
  connected stream owner d fut ts (server_with_queues sv q1 q2).
Proof.
  intros [H1 H2 H3 H4 H5]. split; try done.
  apply (serves_frame _ _ _ _ sv); try done. by intros [? ? ?]; split.
Qed.

Definition ghost_match (g : Ghost) (r : MEClientRequest) (Q : list MEClientRequest) : Ghost :=
  let ev := process_events (engine_after (g_processed g)) r in
  mkGhost (g_taken g) (g_processed g ++ [r]) Q (g_answered g) (g_unanswered g ++ responses ev)
    (g_snapshot g) (g_published g) (g_unpublished g ++ updates ev) (g_cycles g).

(** What a turn makes of the ghost state: nothing, when no request waits. *)
Definition ghost_turn (g : Ghost) : Ghost :=
  match g_queued g with [] => g | r :: Q => ghost_match g r Q end.

Lemma ghost_turn_frame g :
  g_processed (ghost_turn g) ++ g_queued (ghost_turn g) = g_processed g ++ g_queued g ∧
  g_taken (ghost_turn g) = g_taken g ∧ g_answered (ghost_turn g) = g_answered g ∧
  g_snapshot (ghost_turn g) = g_snapshot g ∧ g_published (ghost_turn g) = g_published g ∧
  g_cycles (ghost_turn g) = g_cycles g.
Proof.
  unfold ghost_turn. destruct (g_queued g) as [|r Q] eqn:E; [by rewrite E|].
  unfold ghost_match. xsimpl. by rewrite <-app_assoc.
Qed.

(** The engine's side of it. *)
Lemma engine_turn_spec w g : order_side w g → full_size (w_exchange w) →
  engine_side (w_exchange w) g →
  let e := matching_engine (w_exchange w) in
  ∃ e', engine_step e = Ok e' ∧
    (∀ x', matching_engine x' = e' → engine_side x' (ghost_turn g)) ∧
    lfq_cap (outgoing_ogw_responses_ e') = lfq_cap (outgoing_ogw_responses_ e) ∧
    lfq_cap (MatchingEngine.outgoing_md_updates_ e') =
      lfq_cap (MatchingEngine.outgoing_md_updates_ e) ∧
    lfq_cap (incoming_requests_ e') = lfq_cap (incoming_requests_ e).
Proof.
  intros Hord Hsz Hmat. pose proof Hmat as [Hrep Hresp Hupd]. cbn zeta. unfold ghost_turn.
  destruct (g_queued g) as [|r Q] eqn:Eq.
  - exists (matching_engine (w_exchange w)). split.
    + pose proof (lfq_pop_rep _ _ (er_in _ _ _ Hrep)) as Hpop. unfold lfq_pop in Hpop.
      unfold engine_step. destruct (getNextToRead _); [|done]. by destruct (updateReadIndex _).
    + split; [|done]. intros x' Ex. split; [by rewrite Ex, Eq|done|done].
  - destruct (ghost_next w g r Q Hord Eq) as [Htr Hsub].
    pose proof (traffic_next _ _ _ _ Htr) as Hv.
    destruct (few_messages _ Hsub Htr) as [Hn1 Hn2]. rewrite engine_after_snoc in Hn1, Hn2.
    destruct (spec_process_messages (engine_after (g_processed g)) r) as [E1 E2].
    rewrite E1, Hresp, <-app_assoc, length_app in Hn1.
    rewrite E2, Hupd, <-!app_assoc, !length_app in Hn2.
    destruct (engine_step_spec _ _ r Q Hrep) as (e' & Hstep & Hrep' & Hcaps); [exact Hv| |].
    { unfold has_room. rewrite spec_process_pending. cbn [se_responses se_updates].
      rewrite (fz_responses _ Hsz), (fz_updates _ Hsz), !length_app in *. lia. }
    rewrite spec_process_pending in Hrep'. exists e'. split; [done|]. split; [|done].
    intros x' Ex. unfold ghost_match.
    split; xsimpl; rewrite ?Ex, engine_after_snoc, ?E1, ?E2, ?Hresp, ?Hupd, <-?app_assoc; done.
Qed.

Lemma matching_turn_spec w g : exchange_inv w g →
  ∃ x', matching_thread (w_exchange w) = Ok x' ∧
    exchange_inv (mkWorld x' (w_incoming w) (w_sent w)) (ghost_turn g).
Proof.
  intros [Hco Hsz Hord Hmat Hpub Hsnap].
  destruct (engine_turn_spec w g Hord Hsz Hmat) as (e' & Hstep & Hmat' & Hf1 & Hf2 & Hf3).
  destruct (ghost_turn_frame g) as (Hreq & Ht & Ha & Hs & Hp & Hc).
  eexists. split; [unfold matching_thread; rewrite Hstep; reflexivity|].
  destruct Hco as [C1 C2 C3 C4], Hsz as [Z1 Z2 Z3 Z4]. split; cbn [w_exchange w_incoming w_sent].
  - by split.
  - by split; cbn; congruence.
  - destruct Hord as [O1 O2 O3 O4]. split; cbn.
    + rewrite Ht. by apply connected_queues.
    + by rewrite Hreq, Ht.
    + by rewrite Ha.
    + by rewrite Ha.
  - by apply Hmat'.
  - destruct Hpub as [P1 P2 P3 P4]. split; cbn; by rewrite ?Hs, ?Hp.
  - destruct Hsnap as [S1 S2 S3 S4 S5]. split; by rewrite ?Hs, ?Hc.
Qed.

(** ** The publisher and the synthesizer *)
Lemma fits_fuel {A} (l : list A) : Z.of_nat (length l) ≤ ME_MAX_CLIENT_UPDATES →
  (length l ≤ queue_fuel)%nat.
Proof.
  intros H. unfold queue_fuel. apply Nat2Z.inj_le. rewrite Z2Nat.id; [done|].
  etrans; [|exact H]. lia.
Qed.

Lemma pending_few w g : exchange_inv w g →
  Z.of_nat (length (g_answered g ++ g_unanswered g)) ≤ ME_MAX_CLIENT_UPDATES ∧
  Z.of_nat (length (g_snapshot g ++ g_published g ++ g_unpublished g)) ≤ ME_MAX_MARKET_UPDATES.
Proof.
  intros [_ _ Hord [_ <- <-] _ _]. apply few_messages; [|by eapply processed_traffic].
  etrans; [|by eapply ghost_traffic]. by apply submseteq_inserts_r.
Qed.

Definition ghost_publish (g : Ghost) : Ghost :=
  mkGhost (g_taken g) (g_processed g) (g_queued g) (g_answered g) (g_unanswered g)
    (g_snapshot g) (g_published g ++ g_unpublished g) [] (g_cycles g).

(** What is buffered goes out. *)
Lemma publisher_flush pb :
  outbound_data_ (incremental_socket_ (publisher_sendAndRecv pb)) = [] ∧
  pub_published (publisher_sendAndRecv pb) = pub_published pb ∧
  next_inc_seq_num_ (publisher_sendAndRecv pb) = next_inc_seq_num_ pb ∧
  outgoing_md_updates_ (publisher_sendAndRecv pb) = outgoing_md_updates_ pb ∧
  snapshot_md_updates_ (publisher_sendAndRecv pb) = snapshot_md_updates_ pb.
Proof.
  unfold publisher_sendAndRecv, pub_published.
  unfold next_send_valid_index_. destruct (_ >? 0) eqn:E.
  - cbn. split_and!; try done. by rewrite concat_app, app_nil_r; cbn; rewrite app_nil_r.
  - rewrite Z.gtb_ltb in E. apply Z.ltb_ge in E.
    split_and!; try done. apply nil_length_inv. lia.
Qed.

Lemma publisher_turn_spec w g : exchange_inv w g →
  ∃ x', publisher_thread (w_exchange w) = Ok x' ∧
    exchange_inv (mkWorld x' (w_incoming w) (w_sent w)) (ghost_publish g).
Proof.
  intros Hinv. pose proof (pending_few w g Hinv) as [_ Hfew].
  destruct Hinv as [Hco Hsz Hord Hmat Hpub Hsnap].
  destruct Hco as [C1 C2 C3 C4], Hsz as [Z1 Z2 Z3 Z4], Hmat as [M1 M2 M3], Hpub as [P1 P2 P3 P4].
  rewrite !length_app in Hfew.
  destruct (publish_updates_spec queue_fuel (market_data_publisher (w_exchange w))
    (g_unpublished g) (numbered_updates (1 + Z.of_nat (length (g_snapshot g))) (g_published g)))
    as (pb & Hrun & Hq & Hq2 & Hn & Hbytes & Hc1 & Hc2).
  { rewrite C3. apply M1. }
  { exact P4. }
  { apply fits_fuel. unfold ME_MAX_CLIENT_UPDATES, ME_MAX_MARKET_UPDATES in *. lia. }
  { rewrite Z4. unfold numbered_updates. rewrite length_imap. lia. }
  { unfold next_send_valid_index_. rewrite P2. cbn [length].
    unfold ME_MAX_MARKET_UPDATES, McastBufferSize in *. lia. }
  { rewrite P1. lia. }
  { rewrite P1, length_app. unfold ME_MAX_MARKET_UPDATES in *. lia. }
  rewrite P1 in Hn, Hq2, Hbytes.
  destruct (publisher_flush pb) as (F1 & F2 & F3 & F4 & F5).
  eexists. split; [unfold publisher_thread, publisher_turn; rewrite Hrun; reflexivity|].
  split; cbn [w_exchange w_incoming w_sent].
  - by split; cbn.
  - split; cbn; congruence.
  - destruct Hord as [O1 O2 O3 O4]. by split.
  - split; [|done|etrans; [exact M3|]; cbn; by rewrite app_nil_r].
    destruct M1 as [E1 E2 E3 E4 E5]. split; try done. cbn. by rewrite F4.
  - split; xsimpl; unfold ghost_publish; xsimpl.
    + rewrite F3, Hn, !length_app. lia.
    + exact F1.
    + rewrite F2, Hbytes, P3, <-encode_all_app, app_assoc.
      by rewrite (numbered_updates_app 1 (g_snapshot g ++ g_published g)).
    + rewrite F5, numbered_updates_app. rewrite length_app, Nat2Z.inj_add, Z.add_assoc in Hq2.
      exact Hq2.
  - destruct Hsnap as [[P S1] S2 S3 S4 S5]. split; cbn; try done.
    exists P. by destruct S1; split.
Qed.

Definition ghost_synth (g : Ghost) (ks : list nat) : Ghost :=
  mkGhost (g_taken g) (g_processed g) (g_queued g) (g_answered g) (g_unanswered g)
    (g_snapshot g ++ g_published g) [] (g_unpublished g) (g_cycles g ++ ks).

(** A cycle only looks at the updates it is about. *)
Lemma cycle_after_app us vs k : (k ≤ length us)%nat → cycle_after (us ++ vs) k = cycle_after us k.
Proof. intros Hk. unfold cycle_after. by rewrite take_app_le. Qed.

Lemma cycles_app us vs ks : Forall (λ k, (k ≤ length us)%nat) ks →
  cycle_after (us ++ vs) <$> ks = cycle_after us <$> ks.
Proof.
  intros H. apply list_fmap_ext. intros i k Hk. apply cycle_after_app.
  by apply (proj1 (Forall_lookup _ _) H i k).
Qed.

(** The synthesizer takes what was published. *)
Lemma published_valid w g : exchange_inv w g →
  snap_valid_all (snap_run ∅ (g_snapshot g)) (g_published g).
Proof.
  intros [_ _ Hord Hmat _ _].
  assert (snap_valid_all ∅ ((g_snapshot g ++ g_published g) ++ g_unpublished g)) as Hvalid.
  { rewrite <-app_assoc, <-(xi_updates _ _ Hmat). apply (engine_after_snap_valid lo hi).
    - by eapply processed_traffic.
    - pose proof (ghost_traffic w g Hord) as Hsub%submseteq_length.
      rewrite length_app in Hsub. pose proof (ck_few Hck) as Hck3.
      unfold ME_MAX_ORDER_IDS, ME_MAX_CLIENT_UPDATES in *. lia. }
  apply snap_valid_all_app in Hvalid as [Hvalid _].
  by apply snap_valid_all_app in Hvalid as [_ Hvalid].
Qed.

(** The loop over the queue. *)
Lemma drain_side ss g :
  snapshot_side ss g → snap_valid_all (snap_run ∅ (g_snapshot g)) (g_published g) →
  Z.of_nat (length (g_snapshot g ++ g_published g)) ≤ ME_MAX_MARKET_UPDATES →
  lfq_rep (ss_snapshot_md_updates_ ss)
    (numbered_updates (1 + Z.of_nat (length (g_snapshot g))) (g_published g)) →
  ∃ ss1, drain_updates queue_fuel ss = Ok ss1 ∧ snapshot_side ss1 (ghost_synth g []) ∧
    lfq_rep (ss_snapshot_md_updates_ ss1) [] ∧
    lfq_cap (ss_snapshot_md_updates_ ss1) = lfq_cap (ss_snapshot_md_updates_ ss).
Proof.
  intros [S1 S2 S3 S4 S5] Hvalid Hfew Hq. rewrite length_app in Hfew.
  destruct (drain_updates_spec queue_fuel ss _ (g_published g) S1 Hvalid)
    as (ss1 & Hrun & Hs1 & Hq1 & Hl1 & Hk1 & Ht1 & Hc1).
  { apply fits_fuel. unfold ME_MAX_CLIENT_UPDATES, ME_MAX_MARKET_UPDATES in *. lia. }
  { rewrite S2. lia. }
  { rewrite S2. unfold ME_MAX_MARKET_UPDATES in *. lia. }
  { rewrite S2, Z.add_comm. exact Hq. }
  exists ss1. split; [done|]. split; [|done]. split; unfold ghost_synth; xsimpl.
  - unfold snap_run in *. by rewrite foldl_app.
  - rewrite Hl1, S2, length_app. lia.
  - by rewrite Hk1.
  - rewrite app_nil_r, cycles_app by done. unfold published in *. by rewrite Hk1, Ht1.
  - rewrite app_nil_r. eapply Forall_impl; [exact S5|]. cbn. intros k Hk. rewrite length_app. lia.
Qed.

(** The snapshot, when it is due. *)
Lemma snapshot_due (due : bool) now' ss g : snapshot_side ss g →
  ∃ ss' ks, (if due then publishSnapshot (ss_with_time ss now') else Ok ss) = Ok ss' ∧
    snapshot_side ss' (mkGhost (g_taken g) (g_processed g) (g_queued g) (g_answered g)
      (g_unanswered g) (g_snapshot g) (g_published g) (g_unpublished g) (g_cycles g ++ ks)) ∧
    ss_snapshot_md_updates_ ss' = ss_snapshot_md_updates_ ss.
Proof.
  intros Hside. destruct due; [|exists ss, []; by destruct Hside; rewrite app_nil_r].
  destruct Hside as [[P HP] S2 S3 S4 S5].
  assert (ss_rep (ss_with_time ss now') P (snap_run ∅ (g_snapshot g))) as HP2.
  { destruct HP. by split. }
  destruct (publishSnapshot_spec HP2) as (ss2 & Hpu & [B1 B2 B3 B4 B5 B6]); [exact S3|].
  exists ss2, [length (g_snapshot g)]. split; [exact Hpu|]. split; [|exact B4].
  split; xsimpl.
  - exists P. destruct HP2. by split; rewrite ?B1, ?B2.
  - rewrite B3. exact S2.
  - unfold next_send_valid_index_ in B6. apply nil_length_inv. lia.
  - rewrite B5. change (published (ss_with_time ss now')) with (published ss).
    change (last_inc_seq_num_ (ss_with_time ss now')) with (last_inc_seq_num_ ss).
    rewrite S4, S2, fmap_app, concat_app. f_equal. cbn [fmap list_fmap concat].
    rewrite app_nil_r. unfold cycle_after. by rewrite take_ge.
  - apply Forall_app. split; [done|]. by constructor.
Qed.

Lemma synthesizer_turn_spec now now' w g : exchange_inv w g →
  ∃ x' ks, synthesizer_thread now now' (w_exchange w) = Ok x' ∧
    exchange_inv (mkWorld x' (w_incoming w) (w_sent w)) (ghost_synth g ks).
Proof.
  intros Hinv. pose proof (pending_few w g Hinv) as [_ Hfew].
  pose proof (published_valid w g Hinv) as Hvalid.
  destruct Hinv as [[C1 C2 C3 C4] [Z1 Z2 Z3 Z4] Hord Hmat Hpub Hsnap].
  destruct (drain_side _ g Hsnap Hvalid) as (ss1 & Hrun & Hs1 & Hq1 & Hc1).
  { rewrite app_assoc, length_app in Hfew. lia. }
  { rewrite C4. apply Hpub. }
  destruct (snapshot_due (now - last_snapshot_time_ ss1 >? 60 * NANOS_TO_SECS) now' ss1 _ Hs1)
    as (ss2 & ks & Hrun2 & Hs2 & Hq2).
  eexists _, ks. split.
  { unfold synthesizer_thread, synthesizer_turn. rewrite Hrun. cbn [mbind Res_bind].
    rewrite Hrun2. reflexivity. }
  split; cbn [w_exchange w_incoming w_sent].
  - by split.
  - split; cbn; congruence.
  - destruct Hord as [O1 O2 O3 O4]. by split.
  - destruct Hmat as [M1 M2 M3]. split; try done. etrans; [exact M3|]. cbn. by rewrite <-app_assoc.
  - destruct Hpub as [P1 P2 P3 P4]. split; cbn; rewrite ?app_nil_r; try done. by rewrite Hq2.
  - unfold ghost_synth in *. xsimpl. rewrite app_nil_r in Hs2. exact Hs2.
Qed.

(** ** The order server *)
Definition ghost_serve (g : Ghost) (d : Z → nat) (batch : list MEClientRequest) : Ghost :=
  mkGhost d (g_processed g) (g_queued g ++ batch) (g_answered g ++ g_unanswered g) []
    (g_snapshot g) (g_published g) (g_unpublished g) (g_cycles g).

(** The engine only answers clients the server has heard of. *)
Lemma processed_answerable w g : exchange_inv w g →
  Forall (answerable stream owner (g_taken g)) (g_answered g ++ g_unanswered g).
Proof.
  intros [_ _ Hord [_ <- _] _ _]. pose proof (processed_traffic w g Hord) as Htr.
  apply (engine_after_clients lo hi _ (λ c, 0 ≤ c < ME_MAX_NUM_CLIENTS ∧
    mine c (taken stream (g_taken g) (owner c)) ≠ []) Htr).
  destruct Hord as [_ Hreq _ _]. apply Forall_forall. intros r Hr.
  assert (r ∈ omrq_request <$> (receive_sockets_ (x_tcp_server (w_exchange w)) ≫=
    taken stream (g_taken g))) as (m & -> & (k & Hm & _)%list_elem_of_bind)%list_elem_of_fmap.
  { rewrite <-Hreq. apply elem_of_app. by left. }
  pose proof (st_owner _ _ (ck_streams Hck) k) as Hk. rewrite Forall_forall in Hk.
  destruct (Hk m) as (_ & Hknown & Ho).
  { unfold taken in Hm. by eapply elem_of_take in Hm as (i & Hi & _); eapply list_elem_of_lookup_2. }
  split; [exact Hknown|]. unfold client_of in Ho. rewrite Ho. intros E.
  apply (not_elem_of_nil m). rewrite <-E. by apply list_elem_of_filter.
Qed.

Lemma server_turn_spec `{StdSort} kt w g : exchange_inv w g → turn_ok w (OrderServerTurn kt) →
  turn_fault w (OrderServerTurn kt) = None →
  ∃ w' d batch, world_turn w (OrderServerTurn kt) = Ok w' ∧
    exchange_inv w' (ghost_serve g d batch) ∧ (∀ k, (g_taken g k ≤ d k)%nat) ∧
    receive_sockets_ (x_tcp_server (w_exchange w)) `prefix_of`
      receive_sockets_ (x_tcp_server (w_exchange w')) ∧
    (g_unanswered g = [] → ∀ k, outbound (order_server (w_exchange w')) k = []).
Proof.
  intros Hinv Hko Hnf. pose proof (pending_few w g Hinv) as [Hfew _].
  pose proof (processed_answerable w g Hinv) as [_ Hans]%Forall_app.
  destruct Hinv as [Hco Hsz Hord Hmat Hpub Hsnap].
  destruct Hco as [C1 C2 C3 C4], Hsz as [Z1 Z2 Z3 Z4].
  pose proof (ghost_traffic w g Hord) as Hsub%submseteq_length. rewrite length_app in Hsub.
  pose proof (ck_few Hck) as Hck3. rewrite length_app in Hfew.
  destruct Hord as [O1 O2 O3 O4], Hmat as [[M1 M2 M3 M4 M5] M6 M7].
  assert (∀ n, Z.of_nat n ≤ ME_MAX_CLIENT_UPDATES → Z.of_nat (50 * n) ≤ TCPBufferSize) as Hbuf.
  { intros n. unfold ME_MAX_CLIENT_UPDATES, TCPBufferSize. lia. }
  assert (ME_MAX_CLIENT_UPDATES < 2 ^ 62) as Hsmall by (by vm_compute).
  assert (2 * ME_MAX_PENDING_REQUESTS ≤ ME_MAX_CLIENT_UPDATES) as Hroom by (by vm_compute).
  cbn [se_responses] in M4.
  destruct (order_server_turn_spec stream owner (ck_streams Hck) kt queue_fuel (g_taken g)
    (w_incoming w) _ _ (g_queued g) (g_unanswered g) O1 Hko Hnf)
    as (d & fut & ts & sv & wire & batch & Hrun & Hc & Hmono & Hpre & Hbatch & Hq1 & Hf1 & Hq2 &
        Hf2 & Hnext & Hsent & Hout & Hfut).
  { rewrite <-C1. exact M3. }
  { rewrite <-C1, Z1. lia. }
  { rewrite C2. exact M4. }
  { exact Hans. }
  { apply fits_fuel. lia. }
  { apply Hbuf. lia. }
  { intros c. rewrite O3. pose proof (client_count_bounds c (g_answered g)). lia. }
  eexists _, d, batch. unfold world_turn, order_server_thread. rewrite Hrun.
  cbn [mbind Res_bind]. split; [reflexivity|].
  split; [|split; [exact Hmono|split; [exact Hpre|intros E k; xsimpl; by rewrite Hout, E]]].
  split; xsimpl; unfold ghost_serve; xsimpl.
  - by split.
  - split; cbn; congruence.
  - split; xsimpl.
    + destruct Hc as [D1 D2 D3 D4 D5]. split; try done.
      eapply serves_ext; [..|exact D1]; done.
    + rewrite app_assoc, O2, Hbatch, <-fmap_app. apply fmap_Permutation. symmetry.
      apply taken_newly; [done|done| |apply Hc]. intros k Hk. by apply O1.
    + intros c. rewrite Hnext, O3, client_count_app. lia.
    + intros k. rewrite Hsent, Hout, O4, reply_bytes_app. f_equal.
      by apply reply_bytes_ext.
  - split; [|by rewrite app_nil_r|exact M7]. by split.
  - by destruct Hpub.
  - by destruct Hsnap.
Qed.

Lemma server_turn_fault `{StdSort} kt w g f : exchange_inv w g →
  turn_ok w (OrderServerTurn kt) → turn_fault w (OrderServerTurn kt) = Some f →
  world_turn w (OrderServerTurn kt) = Err f.
Proof.
  intros Hinv Hko Hf. unfold world_turn, order_server_thread.
  destruct (xi_order _ _ Hinv) as [Hc _ _ _].
  by rewrite (order_server_turn_fault stream owner (ck_streams Hck) kt queue_fuel _ _ _ _ f Hc Hko Hf).
Qed.
End Bounds.
End Invariant.
