(* ===== verification/ExchangeRun.v ===== *)
(** * ExchangeRun: what the exchange as a whole does

    Every turn that does not end the process keeps the invariant of [Exchange], in whatever
    order the scheduler runs the threads; [turn_fault] says which turns do.  The theorems
    read off it what clients and subscribers can rely on. *)
From stdpp Require Import functions.
From S2P Require Import Prelude Types Wire Sockets LFQueue FIFOSequencer OrderServer.
From S2P Require Import OrderGateway OrderFlow TCPServer ServerRound.
From S2P Require Import BookInv LevelsAbs MEOrderBook BookSpec BookMatch MEBookRefine MEBookSpec.
From S2P Require Import BookProps Sessions MatchingEngine MarketOrderBook MarketBookSpec MarketBBO.
From S2P Require Import FeedMirror SnapshotSynthesizer MarketDataPublisher LateJoiner EngineSession.
From S2P Require Import EngineTypes Exchange.

(** What the outside sees, and the queues. *)
Definition book_at (w : World) (t : TickerId) : MEOrderBook :=
  arr_get (ticker_order_book_ (matching_engine (w_exchange w))) t.
Definition feed_published (w : World) : bytes := pub_published (market_data_publisher (w_exchange w)).
Definition snapshots_published (w : World) : bytes :=
  published (snapshot_synthesizer (w_exchange w)).
Definition no_requests_queued (w : World) : Prop :=
  lfq_size (incoming_requests_ (matching_engine (w_exchange w))) = 0.
Definition no_responses_queued (w : World) : Prop :=
  lfq_size (outgoing_ogw_responses_ (matching_engine (w_exchange w))) = 0.
Definition no_updates_queued (w : World) : Prop :=
  lfq_size (MatchingEngine.outgoing_md_updates_ (matching_engine (w_exchange w))) = 0.

Section Runs.
Context (stream : Z → list OMClientRequest) (owner : ClientId → Z) (socks : list Z).
Context (lo hi : TickerId → Price) (Hck : clients_ok stream owner socks lo hi).
Context `{StdSort} (listener : Z).
Implicit Types (w : World) (g : Ghost).

Lemma turn_keeps t w g : exchange_inv stream owner w g → turn_ok w t → turn_fault w t = None →
  ∃ w' g', world_turn w t = Ok w' ∧ exchange_inv stream owner w' g'.
Proof.
  intros Hinv Hok Hnf. destruct t as [kt| | |now now'].
  - destruct (server_turn_spec _ _ _ _ _ Hck kt w g Hinv Hok Hnf) as (w' & d & batch & Hrun & Hi & _).
    by exists w', (ghost_serve g d batch).
  - destruct (matching_turn_spec _ _ _ _ _ Hck w g Hinv) as (x' & Hrun & Hi).
    eexists _, _. split; [|exact Hi]. cbn [world_turn]. by rewrite Hrun.
  - destruct (publisher_turn_spec _ _ _ _ _ Hck w g Hinv) as (x' & Hrun & Hi).
    eexists _, _. split; [|exact Hi]. cbn [world_turn]. by rewrite Hrun.
  - destruct (synthesizer_turn_spec _ _ _ _ _ Hck now now' w g Hinv) as (x' & ks & Hrun & Hi).
    eexists _, _. split; [|exact Hi]. cbn [world_turn]. by rewrite Hrun.
Qed.

(** The other turns fail. *)
Lemma turn_fails t w g f : exchange_inv stream owner w g → turn_ok w t → turn_fault w t = Some f →
  world_turn w t = Err f.
Proof.
  intros Hinv Hok Hf. destruct t as [kt| | |now now']; try done.
  by apply (server_turn_fault _ _ _ _ _ Hck kt w g f).
Qed.

Lemma turn_ran t w g w' : exchange_inv stream owner w g → turn_ok w t → world_turn w t = Ok w' →
  turn_fault w t = None.
Proof.
  intros Hinv Hok Hrun. destruct (turn_fault w t) as [f|] eqn:Hf; [|done].
  by rewrite (turn_fails t w g f Hinv Hok Hf) in Hrun.
Qed.

Lemma exchange_reachable_inv w : reachable (World_new listener stream) w → ∃ g, exchange_inv stream owner w g.
Proof.
  induction 1 as [|w t w' _ [g Hinv] Hok Hrun].
  - eexists. apply exchange_inv_new.
  - pose proof (turn_ran t w g w' Hinv Hok Hrun) as Hnf.
    destruct (turn_keeps t w g Hinv Hok Hnf) as (w2 & g' & Hrun2 & Hinv').
    exists g'. by assert (w' = w2) as -> by congruence.
Qed.

(** Nothing comes from a socket on which nothing is sent. *)
Lemma silent_socket w k : reachable (World_new listener stream) w → stream k = [] → w_incoming w k = [].
Proof.
  intros [g [_ _ [Hc _ _ _] _ _ _]]%exchange_reachable_inv Hk.
  pose proof (sv_bytes _ _ _ _ _ (cd_serves _ _ _ _ _ _ Hc) k) as Hb.
  unfold untaken in Hb. rewrite Hk, drop_nil in Hb. symmetry in Hb.
  by apply app_nil in Hb as [_ ?].
Qed.

(** *** Empty queues *)
Lemma lfq_rep_empty {T} (q : LFQueue T) l : lfq_rep q l → lfq_size q = 0 → l = [].
Proof.
  intros Hq Hz. apply nil_length_inv, Nat2Z.inj. by rewrite <-(lq_num _ _ Hq).
Qed.

(** All bytes read: all requests taken. *)
Lemma all_taken w g : exchange_inv stream owner w g → (∀ k, w_incoming w k = []) →
  g_processed g ++ g_queued g ≡ₚ traffic stream socks.
Proof.
  intros [_ _ [Hc -> _ _] _ _ _] Hin.
  assert (∀ k, taken stream (g_taken g) k = stream k) as Htk.
  { intros k. unfold taken. apply take_ge, Nat.nlt_ge. intros Hlt.
    pose proof (sv_bytes _ _ _ _ _ (cd_serves _ _ _ _ _ _ Hc) k) as Hb.
    rewrite Hin, app_nil_r in Hb. apply (f_equal length) in Hb.
    unfold untaken in Hb. rewrite encode_all_length, length_drop in Hb.
    pose proof (sv_short _ _ _ _ _ (cd_serves _ _ _ _ _ _ Hc) k). lia. }
  unfold traffic. apply fmap_Permutation. rewrite (list_bind_ext _ stream _ _ Htk eq_refl).
  apply bind_perm; [apply Hc|apply Hck|]. intros k Hne. split; intros _.
  - destruct (decide (k ∈ socks)); [done|]. by destruct Hne; apply Hck.
  - destruct (decide (k ∈ receive_sockets_ (x_tcp_server (w_exchange w)))) as [|Hno]; [done|].
    destruct Hne. rewrite <-Htk. unfold taken.
    by rewrite (proj1 (cd_quiet _ _ _ _ _ _ Hc k Hno)), take_0.
Qed.

(** *** What has been seen so far *)
Record seen (w : World) (P : list MEClientRequest) : Prop := {
  sn_sub : P ⊆+ traffic stream socks;
  sn_books : ∀ t, ticker_ok t → refines (book_at w t) (se_books (engine_after P) t);
  sn_replies : ∀ k, w_sent w k `prefix_of`
    reply_bytes owner (λ _, 1) (se_responses (engine_after P)) k;
  sn_feed : feed_published w `prefix_of`
    encode_all (numbered_updates 1 (se_updates (engine_after P)));
  sn_snapshots : ∃ ks, Forall (λ k, (k ≤ length (se_updates (engine_after P)))%nat) ks ∧
    snapshots_published w = concat (cycle_after (se_updates (engine_after P)) <$> ks)
}.

Lemma inv_seen w g : exchange_inv stream owner w g → seen w (g_processed g).
Proof.
  intros [_ _ Hord [Hrep Hresp Hupd] Hpub Hsnap]. split.
  - etrans; [|by eapply ghost_traffic]. by apply submseteq_inserts_r.
  - apply Hrep.
  - intros k. rewrite Hresp, reply_bytes_app, <-(xi_replies _ _ _ _ Hord), <-app_assoc.
    by apply prefix_app_r.
  - unfold feed_published. rewrite (xi_published _ _ Hpub), Hupd, app_assoc.
    rewrite (numbered_updates_app 1 (g_snapshot g ++ g_published g)), encode_all_app.
    by apply prefix_app_r.
  - destruct Hsnap as [_ _ _ Hcy Hks]. exists (g_cycles g). split.
    + eapply Forall_impl; [exact Hks|]. cbn. intros k Hk. rewrite Hupd, length_app. lia.
    + unfold snapshots_published. by rewrite Hcy, Hupd, cycles_app.
Qed.

(** The updates so far describe the books so far. *)
Lemma inv_feed w g : exchange_inv stream owner w g → ∀ t, ticker_ok t →
  feed_ok SpecMarket_new (for_ticker t (se_updates (engine_after (g_processed g)))) ∧
  sm_run SpecMarket_new (for_ticker t (se_updates (engine_after (g_processed g)))) =
    proj_book (se_books (engine_after (g_processed g)) t).
Proof.
  intros Hinv t Ht. apply (engine_after_feed_ok lo hi); [|done|].
  - by eapply (processed_traffic _ _ _ _ _ Hck), xi_order.
  - pose proof (ghost_traffic _ _ _ _ _ Hck w g (xi_order _ _ _ _ Hinv)) as Hsub%submseteq_length.
    rewrite length_app in Hsub. pose proof (ck_few _ _ _ _ _ Hck) as Hfew.
    unfold ME_MAX_ORDER_IDS, ME_MAX_CLIENT_UPDATES in *. lia.
Qed.

(** Everything the engine holds and has sent fits its type. *)
Lemma inv_typed w g : exchange_inv stream owner w g →
  engine_typed lo hi (engine_after (g_processed g)).
Proof.
  intros Hinv. pose proof (xi_order _ _ _ _ Hinv) as Hord.
  apply engine_after_typed; [by eapply (processed_traffic _ _ _ _ _ Hck)|].
  apply Forall_forall. intros r Hr.
  assert (r ∈ traffic stream socks) as Hin.
  { eapply elem_of_submseteq; [exact Hr|].
    etrans; [|by eapply (ghost_traffic _ _ _ _ _ Hck)]. by apply submseteq_inserts_r. }
  unfold traffic in Hin. apply list_elem_of_fmap in Hin as (x & -> & (k & Hx & _)%list_elem_of_bind).
  pose proof (st_owner _ _ (ck_streams _ _ _ _ _ Hck) k) as Ho. rewrite Forall_forall in Ho.
  by destruct (Ho x Hx) as ([_ Hok] & _).
Qed.

(** The messages on a connection. *)
Lemma inv_messages w g k : exchange_inv stream owner w g → ∃ ms,
  w_sent w k ++ outbound (order_server (w_exchange w)) k = encode_all ms ∧
  Forall (λ m, c_ok m ∧ owner (response_client m) = k) ms.
Proof.
  intros Hinv. pose proof (et_responses _ _ _ (inv_typed w g Hinv)) as Hok.
  pose proof (pending_few _ _ _ _ _ Hck w g Hinv) as [Hfew _].
  destruct Hinv as [_ _ Hord [_ Hresp _] _ _]. rewrite Hresp in Hok.
  apply Forall_app in Hok as [Hok _]. rewrite length_app in Hfew.
  rewrite (xi_replies _ _ _ _ Hord). unfold reply_bytes. eexists. split; [reflexivity|].
  assert (Forall c_ok (numbered_responses (λ _, 1) (g_answered g))) as Hnum.
  { apply numbered_responses_ok; [|done]. intros c. unfold ME_MAX_CLIENT_UPDATES in Hfew. lia. }
  rewrite Forall_forall in Hnum. apply Forall_forall. intros m [Ho Hm]%list_elem_of_filter.
  split; [by apply Hnum|exact Ho].
Qed.

(** The messages of the feed. *)
Lemma inv_feed_messages w g : exchange_inv stream owner w g → ∃ us,
  feed_published w = encode_all (numbered_updates 1 us) ∧
  Forall c_ok (numbered_updates 1 us) ∧
  Forall (λ u, mu_type u = MarketUpdateType.ADD →
    lo (mu_ticker_id u) ≤ mu_price u ≤ hi (mu_ticker_id u)) us.
Proof.
  intros Hinv. pose proof (et_updates _ _ _ (inv_typed w g Hinv)) as Hok.
  pose proof (pending_few _ _ _ _ _ Hck w g Hinv) as [_ Hfew].
  destruct Hinv as [_ _ _ [_ _ Hupd] Hpub _]. rewrite Hupd, app_assoc in Hok.
  apply Forall_app in Hok as [Hok _]. rewrite app_assoc, length_app in Hfew.
  exists (g_snapshot g ++ g_published g). split; [apply Hpub|].
  apply Forall_and in Hok as [Hok Hp]. split; [|done].
  apply numbered_updates_ok; [lia| |done]. unfold ME_MAX_MARKET_UPDATES in Hfew. lia.
Qed.

(** Nothing is under way. *)
Record quiet (w : World) : Prop := {
  qt_read : ∀ k, w_incoming w k = [];
  qt_requests : no_requests_queued w;
  qt_responses : no_responses_queued w;
  qt_updates : no_updates_queued w
}.

Lemma inv_quiet w g : exchange_inv stream owner w g → quiet w →
  g_processed g ≡ₚ traffic stream socks ∧ g_unanswered g = [] ∧ g_unpublished g = [].
Proof.
  intros Hinv [Hin Hq1 Hq2 Hq3]. pose proof (all_taken w g Hinv Hin) as Hall.
  destruct Hinv as [_ _ _ [[_ _ M1 M2 M3] _ _] _ _].
  rewrite (lfq_rep_empty _ _ M1 Hq1), app_nil_r in Hall.
  split; [done|]. split; [exact (lfq_rep_empty _ _ M2 Hq2)|exact (lfq_rep_empty _ _ M3 Hq3)].
Qed.

(** *** Running to completion *)
Lemma reachable_trans w0 w w' : reachable w0 w → reachable w w' → reachable w0 w'.
Proof. intros H1. induction 1 as [|w' t w'' _ IH Hok Hrun]; [done|]. by eapply reach_turn. Qed.

(** A turn in which nothing arrives and everything buffered is sent. *)
Definition idle_turn (sv : OrderServer) : KernelTurn :=
  mkKernelTurn [] [] (λ _, None) (λ k, length (outbound sv k)).

Definition sockets w : list Z := receive_sockets_ (x_tcp_server (w_exchange w)).

Lemma idle_ok w : turn_ok w (OrderServerTurn (idle_turn (order_server (w_exchange w)))).
Proof. split; [split|]; [by constructor|by constructor|by intros k rx chunk|by intros k]. Qed.

Lemma idle_runs w g : exchange_inv stream owner w g →
  turn_fault w (OrderServerTurn (idle_turn (order_server (w_exchange w)))) = None.
Proof.
  intros [_ _ [[Hs _ _ _ _] _ _ _] _ _ _]. cbn [turn_fault]. unfold server_fault.
  cbn [idle_turn kt_events kt_conns kt_net length have_connection existsb andb].
  change (Z.of_nat 0 >? EVENTS_SIZE) with false. cbn iota.
  assert (∀ L, arrivals (λ _, None) (order_server (w_exchange w)) L = 0) as ->; [|done].
  induction L as [|k L IH]; [done|].
  by rewrite arrivals_cons, IH, (arriving_none stream owner _ _ _ _ k Hs).
Qed.

Lemma idle_turn_sockets sv0 fuel ts sv ts' sv' wire :
  order_server_turn (idle_turn sv0) fuel (ts, sv) = Ok (ts', sv', wire) → ts' = ts.
Proof.
  unfold order_server_turn, poll. cbn [idle_turn kt_events kt_conns length foldl].
  change (Z.of_nat 0 >? EVENTS_SIZE) with false. cbn iota.
  intros ([ts1 sv1] & [= <- <-] & H1)%res_bind_Ok.
  apply res_bind_Ok in H1 as ([sv2 w2] & _ & H2). cbv beta iota in H2.
  by apply res_bind_Ok in H2 as (sv3 & _ & [= <- _ _]).
Qed.

Lemma idle_sockets w sv w' : world_turn w (OrderServerTurn (idle_turn sv)) = Ok w' →
  sockets w' = sockets w.
Proof.
  unfold world_turn, order_server_thread. intros ([x wire] & H1 & H2)%res_bind_Ok.
  apply res_bind_Ok in H1 as ([[ts sv1] wire1] & Hts%idle_turn_sockets & H1).
  cbv beta iota in H1, H2. injection H1 as <- <-. injection H2 as <-. by cbn; rewrite Hts.
Qed.

(** A way on from [w] to a world with the ghost state [g'], no new input in between. *)
Record leads w w' g' : Prop := {
  ld_reach : reachable w w';
  ld_inv : exchange_inv stream owner w' g';
  ld_in : ∀ k, w_incoming w k = [] → w_incoming w' k = [];
  ld_socks : sockets w' = sockets w
}.

Lemma leads_trans w w1 w2 g1 g2 : leads w w1 g1 → leads w1 w2 g2 → leads w w2 g2.
Proof.
  intros [A1 A2 A3 A4] [B1 B2 B3 B4]. split; [by eapply reachable_trans|done|auto|congruence].
Qed.

Lemma leads_turn t w w' g' : turn_ok w t → world_turn w t = Ok w' →
  exchange_inv stream owner w' g' → sockets w' = sockets w →
  (∀ k, w_incoming w k = [] → w_incoming w' k = []) → leads w w' g'.
Proof. intros H1 H2 H3 H4 H5. split; try done. eapply reach_turn; [constructor|done|done]. Qed.

Lemma leads_match w g : exchange_inv stream owner w g →
  ∃ w' g', leads w w' g' ∧ g_queued g' = [] ∧
    g_processed g' ++ g_queued g' = g_processed g ++ g_queued g.
Proof.
  remember (g_queued g) as Q eqn:EQ. revert w g EQ.
  induction Q as [|r Q IH]; intros w g EQ Hinv.
  { exists w, g. rewrite <-EQ. split; [|done]. split; try done. constructor. }
  destruct (matching_turn_spec _ _ _ _ _ Hck w g Hinv) as (x' & Hrun & Hi).
  unfold ghost_turn in Hi. rewrite <-EQ in Hi. destruct (IH _ (ghost_match g r Q) eq_refl Hi) as (w' & g' & Hl & Hq & E).
  exists w', g'. split; [|split; [done|]].
  - eapply leads_trans; [|exact Hl]. apply (leads_turn MatchingTurn); try done.
    + cbn [world_turn]. by rewrite Hrun.
    + unfold matching_thread in Hrun. destruct (engine_step _); [|done]. by injection Hrun as <-.
  - rewrite E. cbn. by rewrite <-app_assoc.
Qed.

Lemma leads_idle w g : exchange_inv stream owner w g → (∀ k, w_incoming w k = []) →
  ∃ w' d, leads w w' (ghost_serve g d []) ∧
    (g_unanswered g = [] → ∀ k, outbound (order_server (w_exchange w')) k = []).
Proof.
  intros Hinv Hin. pose proof (idle_ok w) as Hok.
  destruct (server_turn_spec _ _ _ _ _ Hck _ w g Hinv Hok (idle_runs w g Hinv))
    as (w' & d & batch & Hrun & Hi & _ & _ & Hout).
  assert (∀ k, w_incoming w' k = []) as Hin'.
  { clear -Hrun Hin. intros k. unfold world_turn in Hrun.
    destruct (order_server_thread _ _) as [[x wire]|]; [|done]. injection Hrun as <-.
    cbn. unfold remaining. by case_decide; rewrite Hin, ?drop_nil. }
  assert (batch = []) as ->.
  { pose proof (all_taken w g Hinv Hin) as E1. pose proof (all_taken w' _ Hi Hin') as E2.
    rewrite <-E1 in E2. cbn in E2. apply Permutation_length in E2. rewrite !length_app in E2.
    apply nil_length_inv. lia. }
  exists w', d. split; [|done]. apply (leads_turn _ _ _ _ Hok Hrun Hi).
  - by eapply idle_sockets.
  - intros k _. apply Hin'.
Qed.

Lemma publisher_sockets x x' : publisher_thread x = Ok x' → x_tcp_server x' = x_tcp_server x.
Proof. unfold publisher_thread. intros Hrun. by apply res_bind_Ok in Hrun as (pb & _ & [= <-]). Qed.

Lemma publisher_world w x' : publisher_thread (w_exchange w) = Ok x' →
  world_turn w PublisherTurn = Ok (mkWorld x' (w_incoming w) (w_sent w)).
Proof. intros Hrun. cbn [world_turn]. by rewrite Hrun. Qed.

Lemma leads_publish w g : exchange_inv stream owner w g → ∃ w', leads w w' (ghost_publish g).
Proof.
  intros Hinv. destruct (publisher_turn_spec _ _ _ _ _ Hck w g Hinv) as (x' & Hrun & Hi).
  exists (mkWorld x' (w_incoming w) (w_sent w)).
  apply (leads_turn PublisherTurn); [exact I|by apply publisher_world|exact Hi| |by intros k].
  unfold sockets. cbn [w_exchange]. by rewrite (publisher_sockets _ _ Hrun).
Qed.

(** The matching thread empties its queue, the order server answers and then sends, the
    publisher publishes. *)
Lemma completes w g : exchange_inv stream owner w g → (∀ k, w_incoming w k = []) →
  ∃ w' g', leads w w' g' ∧ g_processed g' ≡ₚ traffic stream socks ∧
    g_unanswered g' = [] ∧ g_unpublished g' = [] ∧
    ∀ k, outbound (order_server (w_exchange w')) k = [].
Proof.
  intros Hinv Hin. pose proof (all_taken w g Hinv Hin) as Hall.
  destruct (leads_match w g Hinv) as (w1 & g1 & L1 & Hq & E). rewrite Hq, app_nil_r in E.
  destruct (leads_publish w1 g1 (ld_inv _ _ _ L1)) as (w2 & L2).
  pose proof (leads_trans _ _ _ _ _ L1 L2) as L12.
  destruct (leads_idle w2 _ (ld_inv _ _ _ L2)) as (w3 & d3 & L3 & _).
  { intros k. by apply (ld_in _ _ _ L12). }
  pose proof (leads_trans _ _ _ _ _ L12 L3) as L13.
  destruct (leads_idle w3 _ (ld_inv _ _ _ L3)) as (w4 & d4 & L4 & Hout).
  { intros k. by apply (ld_in _ _ _ L13). }
  eexists w4, _. split; [by eapply leads_trans|]. cbn. rewrite E.
  split; [done|]. split; [done|]. split; [done|]. by apply Hout.
Qed.
End Runs.

(** ** A demonstration: a seller and a buyer *)
Fixpoint run_turns `{StdSort} (w : World) (ts : list Turn) : Res World :=
  match ts with
  | [] => Ok w
  | t :: ts => w ← world_turn w t; run_turns w ts
  end.

Definition internal (t : Turn) : bool :=
  match t with OrderServerTurn _ => false | _ => true end.

Lemma run_turns_reachable `{StdSort} ts : ∀ w0 w w',
  reachable w0 w → forallb internal ts = true → run_turns w ts = Ok w' → reachable w0 w'.
Proof.
  induction ts as [|t ts IH]; intros w0 w w' Hw Hint Hrun; [by injection Hrun as <-|].
  cbn in Hint. apply andb_prop in Hint as [Ht Hint].
  cbn [run_turns] in Hrun. apply res_bind_Ok in Hrun as (w1 & H1 & H2).
  eapply IH; [|done|exact H2]. eapply reach_turn; [done| |exact H1]. by destruct t.
Qed.

(** A turn in which the given chunks arrive, each on its socket, and everything buffered goes
    out. *)
Definition delivery (chunks : list (Z * (Nanos * bytes))) (k : Z) : option (Nanos * bytes) :=
  (list_to_map chunks : gmap Z (Nanos * bytes)) !! k.
Lemma delivery_elem chunks k x : delivery chunks k = Some x → (k, x) ∈ chunks.
Proof. apply elem_of_list_to_map_2. Qed.
Definition delivery_turn (sv : OrderServer) (evs : list EpollEvent) (conns : list Connection)
    (chunks : list (Z * (Nanos * bytes))) : KernelTurn :=
  mkKernelTurn evs conns (delivery chunks) (λ k, length (outbound sv k)).

Definition delivery_fits (w : World) (evs : list EpollEvent) (conns : list Connection)
    (chunks : list (Z * (Nanos * bytes))) : Prop :=
  Forall (λ ev, ev_out ev = false) evs ∧ Forall (λ x, cn_socket x ∉ sockets w) conns ∧
  Forall (λ x, x.2.2 ≠ [] ∧ x.2.2 `prefix_of` w_incoming w x.1 ∧
    Z.of_nat (length (inbound (order_server (w_exchange w)) x.1) + length x.2.2) ≤ TCPBufferSize) chunks.
#[export] Instance delivery_fits_dec w evs conns chunks : Decision (delivery_fits w evs conns chunks).
Proof. unfold delivery_fits. apply _. Defined.

Lemma delivery_ok w evs conns chunks : delivery_fits w evs conns chunks →
  turn_ok w (OrderServerTurn (delivery_turn (order_server (w_exchange w)) evs conns chunks)).
Proof.
  intros (H1 & H2 & H3). rewrite Forall_forall in H3. split; [split; [done..|]|by intros k].
  intros k rx b Hk. exact (H3 _ (delivery_elem _ _ _ Hk)).
Qed.

Definition demo_sell : OMClientRequest :=
  mkOMClientRequest 1 (mkMEClientRequest ClientRequestType.NEW 1 0 10 Side.SELL 100 5).
Definition demo_buy : OMClientRequest :=
  mkOMClientRequest 1 (mkMEClientRequest ClientRequestType.NEW 2 0 20 Side.BUY 100 3).
Definition two_streams (l1 l2 : list OMClientRequest) (k : Z) : list OMClientRequest :=
  if k =? 7 then l1 else if k =? 8 then l2 else [].
Definition demo_stream : Z → list OMClientRequest := two_streams [demo_sell] [demo_buy].
Definition demo_owner (c : ClientId) : Z := if c =? 1 then 7 else 8.

(** Two clients who trade instrument 0 are clients the exchange takes. *)
Definition stream_of (c : ClientId) (l : list OMClientRequest) : Prop :=
  Forall (λ r, c_ok r ∧ known_client r ∧ client_of r = c) l ∧
  omrq_seq_num <$> l = seqZ 1 (Z.of_nat (length l)) ∧ Z.of_nat (length l) < 2 ^ 63.
Definition tame_in (lo hi : Price) (rs : list MEClientRequest) : Prop :=
  Forall (λ r, rq_ticker_id r = 0 ∧ rq_type r ≠ ClientRequestType.INVALID) rs ∧ band lo hi ∧
  Forall (request_ok lo hi) (ticker_requests 0 rs) ∧ NoDup (new_keys (ticker_requests 0 rs)) ∧
  3 * Z.of_nat (length rs) ≤ ME_MAX_CLIENT_UPDATES.

Lemma tame_traffic lo hi rs : tame_in lo hi rs → traffic_ok (λ _, lo) (λ _, hi) rs.
Proof.
  intros (Hrs & Hb & Hok & Hnd & Hn). split.
  - eapply Forall_impl; [exact Hrs|]. intros r [-> H]. by split; [vm_compute|].
  - intros t Ht. assert (t ≠ 0 → ticker_requests t rs = []) as Hno.
    { intros Hne. clear -Hrs Hne. induction Hrs as [|r rs [Hr _] _ IH]; [done|].
      change (ticker_requests t (r :: rs)) with (ticker_requests t ([r] ++ rs)).
      rewrite ticker_requests_app, IH, app_nil_r. unfold ticker_requests. cbn [omap list_omap].
      unfold ticker_request. by rewrite decide_False by congruence. }
    assert (∀ rs', (length (new_keys rs') ≤ length rs')%nat) as Hlen by by intros; apply length_omap_le.
    assert (length (ticker_requests 0 rs) ≤ length rs)%nat as Hlen0 by apply length_omap_le.
    specialize (Hlen (ticker_requests 0 rs)).
    destruct (decide (t = 0)) as [->|Hne].
    + split; try done. unfold ME_MAX_CLIENT_UPDATES, ME_MAX_ORDER_IDS in *. lia.
    + rewrite (Hno Hne). split; [done|constructor|constructor|by vm_compute].
Qed.

Lemma two_clients l1 l2 lo hi : stream_of 1 l1 → stream_of 2 l2 →
  tame_in lo hi (omrq_request <$> l1 ++ l2) →
  clients_ok (two_streams l1 l2) demo_owner [7; 8] (λ _, lo) (λ _, hi).
Proof.
  intros (Ha1 & Ha2 & Ha3) (Hb1 & Hb2 & Hb3) Ht.
  assert (∀ k, two_streams l1 l2 k = [] ∨ k = 7 ∨ k = 8) as Hk.
  { intros k. unfold two_streams. destruct (k =? 7) eqn:E7; [right; left; lia|].
    destruct (k =? 8) eqn:E8; [right; right; lia|by left]. }
  assert (traffic (two_streams l1 l2) [7; 8] = omrq_request <$> l1 ++ l2) as Htr.
  { unfold traffic. cbn. by rewrite app_nil_r. }
  split.
  - split.
    + intros k. destruct (Hk k) as [->|[->| ->]]; [constructor| |]; (eapply Forall_impl; [eassumption|]);
        intros r (? & ? & Hc); rewrite Hc; done.
    + intros c. assert (∀ c' l, Forall (λ r, c_ok r ∧ known_client r ∧ client_of r = c') l →
        mine c l = if decide (c = c') then l else []) as Hm.
      { intros c' l Hl. unfold mine. case_decide as E; apply filter_none_or_all;
          (eapply Forall_impl; [exact Hl|]); intros r (_ & _ & Hc); congruence. }
      destruct (decide (c = 1)) as [->|H1].
      * change (two_streams l1 l2 (demo_owner 1)) with l1. by rewrite (Hm _ _ Ha1).
      * assert (two_streams l1 l2 (demo_owner c) = l2) as ->.
        { unfold demo_owner. by rewrite (proj2 (Z.eqb_neq c 1) H1). }
        rewrite (Hm _ _ Hb1). by case_decide.
    + intros k. by destruct (Hk k) as [->|[->| ->]].
  - intros k Hno. destruct (Hk k) as [?|[->| ->]]; [done|exfalso; apply Hno; set_solver..].
  - apply (bool_decide_unpack _). by vm_compute.
  - rewrite Htr. by apply tame_traffic.
  - rewrite Htr. apply Ht.
Qed.

(** Both connect and send in the first turn; then every thread has its turns. *)
Definition demo_start : World := World_new 1 demo_stream.
Definition demo_conns : list Connection := [mkConnection 9 7 true true; mkConnection 10 8 true true].
Definition demo_kernel : KernelTurn :=
  delivery_turn (order_server (w_exchange demo_start)) [mkEpollEvent 1 true false false] demo_conns
    [(7, (1000, encode_all [demo_sell])); (8, (990, encode_all [demo_buy]))].
Definition demo_busy : Res World :=
  let _ := merge_sort_std in
  w ← world_turn demo_start (OrderServerTurn demo_kernel);
  run_turns w [MatchingTurn; MatchingTurn; PublisherTurn; SynthesizerTurn 0 0].
Definition demo_run : Res World :=
  let _ := merge_sort_std in
  w ← demo_busy; world_turn w (OrderServerTurn (idle_turn (order_server (w_exchange w)))).
Definition world_or_start (r : Res World) : World :=
  match r with Ok w => w | Err _ => demo_start end.
Definition demo_world : World := world_or_start demo_run.

Lemma demo_clients : clients_ok demo_stream demo_owner [7; 8] (λ _, 90) (λ _, 110).
Proof. apply two_clients; apply (bool_decide_unpack _); by vm_compute. Qed.

Lemma demo_kernel_ok : turn_ok demo_start (OrderServerTurn demo_kernel).
Proof.
  apply delivery_ok, (bool_decide_unpack _). by vm_compute.
Qed.

Lemma world_or_start_ok r :
  match r with Ok _ => true | Err _ => false end = true → r = Ok (world_or_start r).
Proof. by destruct r. Qed.

Lemma reach_after `{StdSort} w0 t ts w : turn_ok w0 t → forallb internal ts = true →
  (w1 ← world_turn w0 t; run_turns w1 ts) = Ok w → reachable w0 w.
Proof.
  intros Hok Hint (w1 & H0 & H1)%res_bind_Ok. eapply run_turns_reachable; [|done|exact H1].
  by eapply reach_turn; [constructor| |].
Qed.

Lemma reach_idle `{StdSort} w0 r w w' : r = Ok w → reachable w0 w →
  (w ← r; world_turn w (OrderServerTurn (idle_turn (order_server (w_exchange w))))) = Ok w' →
  reachable w0 w'.
Proof.
  intros -> Hw. cbn [mbind Res_bind]. intros Hrun.
  eapply reach_turn; [done| |exact Hrun]. by apply idle_ok.
Qed.

Lemma demo_busy_ok : demo_busy = Ok (world_or_start demo_busy).
Proof. apply world_or_start_ok. by vm_compute. Qed.
Lemma demo_run_ok : demo_run = Ok demo_world.
Proof. apply world_or_start_ok. by vm_compute. Qed.

Lemma demo_reachable : reachable (H := merge_sort_std) demo_start demo_world.
Proof.
  apply (reach_idle (H := merge_sort_std) demo_start demo_busy (world_or_start demo_busy)).
  - exact demo_busy_ok.
  - apply (reach_after (H := merge_sort_std) demo_start (OrderServerTurn demo_kernel)
      [MatchingTurn; MatchingTurn; PublisherTurn; SynthesizerTurn 0 0]).
    + exact demo_kernel_ok.
    + reflexivity.
    + exact demo_busy_ok.
  - exact demo_run_ok.
Qed.

Lemma demo_read k : w_incoming demo_world k = [].
Proof.
  destruct (decide (k = 7)) as [->|H7]; [by vm_compute|].
  destruct (decide (k = 8)) as [->|H8]; [by vm_compute|].
  apply (silent_socket _ _ _ _ _ demo_clients (H := merge_sort_std) 1); [exact demo_reachable|].
  unfold demo_stream, two_streams. by rewrite !(proj2 (Z.eqb_neq _ _)).
Qed.

Lemma demo_quiet : quiet demo_world.
Proof. split; [exact demo_read|by vm_compute..]. Qed.

(** ** Theorems *)

(** C8: The exchange implements the abstract engine: at any time there is a list of the
    clients' requests such that the books are those of the abstract engine after them,
    every client was sent a prefix of its numbered responses, the feed is a prefix of the
    numbered updates, and the snapshot channel carries whole cycles, each of the state
    after some of the updates. *)
Theorem exchange_refines_engine stream owner socks lo hi `{StdSort} listener w :
  clients_ok stream owner socks lo hi →
  reachable (World_new listener stream) w → ∃ P, seen stream owner socks w P.
Proof.
  intros Hck Hw. destruct (exchange_reachable_inv _ _ _ _ _ Hck listener w Hw) as [g Hinv].
  exists (g_processed g). by apply (inv_seen _ _ _ lo hi Hck).
Qed.

Lemma exchange_refines_engine_witness : ∃ P, seen demo_stream demo_owner [7; 8] demo_world P.
Proof.
  apply (exchange_refines_engine demo_stream demo_owner [7; 8] (λ _, 90) (λ _, 110)
    (H := merge_sort_std) 1).
  - exact demo_clients.
  - exact demo_reachable.
Defined.

(** C11: The exchange's values fit their C++ types, in every world it can get into: every book
    is one with client, order and market order ids, priorities and quantities in the range of
    their unsigned types and prices in the band; what is sent on a connection is a sequence
    of encoded responses, each in range and to a client of that connection; and the feed is a
    sequence of encoded updates in range. *)
Theorem exchange_values_typed stream owner socks lo hi `{StdSort} listener w :
  clients_ok stream owner socks lo hi → reachable (World_new listener stream) w →
  (∀ t, ticker_ok t → ∃ a, refines (book_at w t) a ∧ book_typed (lo t) (hi t) a ∧
     ∀ d, d ∈ sb_orders a → qty_ok (oi_qty d)) ∧
  (∀ k, ∃ ms, w_sent w k ++ outbound (order_server (w_exchange w)) k = encode_all ms ∧
     Forall (λ m, c_ok m ∧ owner (response_client m) = k) ms) ∧
  ∃ us, feed_published w = encode_all (numbered_updates 1 us) ∧
     Forall c_ok (numbered_updates 1 us) ∧
     Forall (λ u, mu_type u = MarketUpdateType.ADD →
       lo (mu_ticker_id u) ≤ mu_price u ≤ hi (mu_ticker_id u)) us.
Proof.
  intros Hck Hw. destruct (exchange_reachable_inv _ _ _ _ _ Hck listener w Hw) as [g Hinv].
  split; [|split; [intros k; by eapply inv_messages|by eapply inv_feed_messages]].
  intros t Ht. pose proof (sn_books _ _ _ _ _ (inv_seen _ _ _ lo hi Hck w g Hinv) t Ht) as Hr.
  eexists. split; [exact Hr|]. split; [|intros d; by eapply refines_qty].
  by apply (et_books _ _ _ (inv_typed _ _ _ _ _ Hck w g Hinv)).
Qed.

(** Two messages of 50 bytes have gone to the buyer. *)
Lemma exchange_values_typed_witness :
  ∃ ms, w_sent demo_world 8 ++ outbound (order_server (w_exchange demo_world)) 8 = encode_all ms ∧
    Forall (λ m, c_ok m ∧ demo_owner (response_client m) = 8) ms ∧
    length (encode_all ms) = 100%nat.
Proof.
  destruct (exchange_values_typed demo_stream demo_owner [7; 8] (λ _, 90) (λ _, 110)
    (H := merge_sort_std) 1 demo_world) as (_ & H & _).
  - exact demo_clients.
  - exact demo_reachable.
  - destruct (H 8) as (ms & E & Hms). exists ms. split; [exact E|]. split; [exact Hms|].
    rewrite <-E. by vm_compute.
Defined.

(** C9: Nothing is lost or made up: once every byte has been read and the queues are empty,
    the engine has processed every request of every client exactly once, each client has
    been sent its responses to the last (or they are in its buffer), and the feed holds
    every update under consecutive numbers. *)
Theorem exchange_delivers_all stream owner socks lo hi `{StdSort} listener w :
  clients_ok stream owner socks lo hi →
  reachable (World_new listener stream) w → quiet w →
  ∃ P, P ≡ₚ traffic stream socks ∧
    (∀ t, ticker_ok t → refines (book_at w t) (se_books (engine_after P) t)) ∧
    (∀ k, w_sent w k ++ outbound (order_server (w_exchange w)) k =
          reply_bytes owner (λ _, 1) (se_responses (engine_after P)) k) ∧
    feed_published w = encode_all (numbered_updates 1 (se_updates (engine_after P))).
Proof.
  intros Hck Hw Hq. destruct (exchange_reachable_inv _ _ _ _ _ Hck listener w Hw) as [g Hinv].
  destruct (inv_quiet _ _ _ _ _ Hck w g Hinv Hq) as (HP & Hr & Hu).
  destruct Hinv as [_ _ Hord [Hrep Hresp Hupd] Hpub _]. exists (g_processed g).
  rewrite Hr, app_nil_r in Hresp. rewrite Hu, app_nil_r in Hupd.
  split; [done|]. split; [apply Hrep|]. split.
  - intros k. rewrite Hresp. apply Hord.
  - rewrite Hupd. apply Hpub.
Qed.

(** The seller fills the order of the buyer, whose request came in first: four updates of
    42 bytes. *)
Lemma exchange_delivers_all_witness :
  (∃ P, P ≡ₚ [omrq_request demo_sell; omrq_request demo_buy] ∧
    feed_published demo_world = encode_all (numbered_updates 1 (se_updates (engine_after P)))) ∧
  length (feed_published demo_world) = 168%nat.
Proof.
  split; [|by vm_compute].
  destruct (exchange_delivers_all demo_stream demo_owner [7; 8] (λ _, 90) (λ _, 110)
    (H := merge_sort_std) 1 demo_world) as (P & HP & _ & _ & Hf).
  - exact demo_clients.
  - exact demo_reachable.
  - exact demo_quiet.
  - exists P. split; [exact HP|exact Hf].
Defined.

(** C10: The published feed shows the books: whenever no update waits to be published, what
    the feed says about an instrument is a valid history, and replaying it from the empty
    book gives the book the matching engine holds, without the client ids. *)
Theorem feed_shows_books stream owner socks lo hi `{StdSort} listener w :
  clients_ok stream owner socks lo hi →
  reachable (World_new listener stream) w → no_updates_queued w →
  ∃ us, feed_published w = encode_all (numbered_updates 1 us) ∧
    ∀ t, ticker_ok t → ∃ a, refines (book_at w t) a ∧
      feed_ok SpecMarket_new (for_ticker t us) ∧
      sm_run SpecMarket_new (for_ticker t us) = proj_book a.
Proof.
  intros Hck Hw Hq. destruct (exchange_reachable_inv _ _ _ _ _ Hck listener w Hw) as [g Hinv].
  pose proof (inv_feed _ _ _ _ _ Hck w g Hinv) as Hfeed.
  destruct Hinv as [_ _ _ [Hrep Hresp Hupd] Hpub _].
  pose proof (lfq_rep_empty _ _ (er_updates _ _ _ Hrep) Hq) as Hu. cbn [se_updates] in Hu.
  rewrite Hu, app_nil_r in Hupd.
  exists (g_snapshot g ++ g_published g). split; [apply Hpub|]. intros t Ht.
  exists (se_books (engine_after (g_processed g)) t). split; [by apply Hrep|].
  rewrite <-Hupd. by apply Hfeed.
Qed.

Lemma feed_shows_books_witness :
  ∃ us, feed_published demo_world = encode_all (numbered_updates 1 us) ∧
    ∃ a, refines (book_at demo_world 0) a ∧
      sm_run SpecMarket_new (for_ticker 0 us) = proj_book a.
Proof.
  assert (ticker_ok 0) as H0 by (by vm_compute).
  destruct (feed_shows_books demo_stream demo_owner [7; 8] (λ _, 90) (λ _, 110)
    (H := merge_sort_std) 1 demo_world) as (us & Hf & Hb).
  - exact demo_clients.
  - exact demo_reachable.
  - by vm_compute.
  - exists us. split; [exact Hf|]. destruct (Hb 0 H0) as (a & H1 & _ & H2).
    exists a. split; [exact H1|exact H2].
Defined.

(** C6: The exchange finishes: from any reachable world in which the clients' bytes have
    been read, turns of the threads lead to one in which every request has been processed,
    every client has been sent every response and every update is published. *)
Theorem exchange_completes stream owner socks lo hi `{StdSort} listener w :
  clients_ok stream owner socks lo hi →
  reachable (World_new listener stream) w → (∀ k, w_incoming w k = []) →
  ∃ w' P, reachable w w' ∧ P ≡ₚ traffic stream socks ∧
    (∀ t, ticker_ok t → refines (book_at w' t) (se_books (engine_after P) t)) ∧
    (∀ k, w_sent w' k = reply_bytes owner (λ _, 1) (se_responses (engine_after P)) k) ∧
    feed_published w' = encode_all (numbered_updates 1 (se_updates (engine_after P))).
Proof.
  intros Hck Hw Hin. destruct (exchange_reachable_inv _ _ _ _ _ Hck listener w Hw) as [g Hinv].
  destruct (completes _ _ _ _ _ Hck w g Hinv Hin) as (w' & g' & L & HP & Hr & Hu & Hout).
  exists w', (g_processed g'). destruct L as [Hreach [_ _ Hord [Hrep Hresp Hupd] Hpub _] _ _].
  rewrite Hr, app_nil_r in Hresp. rewrite Hu, app_nil_r in Hupd.
  split; [done|]. split; [done|]. split; [apply Hrep|]. split.
  - intros k. rewrite Hresp, <-(xi_replies _ _ _ _ Hord), Hout. by rewrite app_nil_r.
  - rewrite Hupd. apply Hpub.
Qed.

Lemma exchange_completes_witness :
  ∃ w' P, reachable (H := merge_sort_std) demo_world w' ∧
    P ≡ₚ [omrq_request demo_sell; omrq_request demo_buy] ∧
    ∀ k, w_sent w' k = reply_bytes demo_owner (λ _, 1) (se_responses (engine_after P)) k.
Proof.
  destruct (exchange_completes demo_stream demo_owner [7; 8] (λ _, 90) (λ _, 110)
    (H := merge_sort_std) 1 demo_world) as (w' & P & Hr & HP & _ & Hs & _).
  - exact demo_clients.
  - exact demo_reachable.
  - exact demo_read.
  - exists w', P. split; [exact Hr|]. split; [exact HP|exact Hs].
Defined.
