(* ===== verification/ExchangeFaults.v ===== *)
(** * ExchangeFaults: how the exchange can end

    The order server gives up for three reasons: [epoll_wait] reported more events than its
    array holds, a new connection could not be set up, or more requests arrived in one turn
    than the sequencer holds ([server_fault]).  Here the kernel only keeps the contract of
    its calls; in particular [send] may take any part of what it is offered.  [TCPSocket]
    ignores how much that was, so it makes a difference to the clients, not to the server. *)
From S2P Require Import Prelude Types Wire Sockets LFQueue FIFOSequencer OrderServer.
From S2P Require Import OrderGateway OrderFlow TCPServer ServerRound.
From S2P Require Import MatchingEngine SnapshotSynthesizer MarketDataPublisher EngineSession.
From S2P Require Import Exchange ExchangeRun.

(** The kernel keeps the contract of its calls, and may cut a send short. *)
Definition turn_possible (w : World) (t : Turn) : Prop :=
  match t with
  | OrderServerTurn kt => kernel_contract kt (w_incoming w) (x_tcp_server (w_exchange w))
                            (order_server (w_exchange w))
  | _ => True
  end.

Inductive possible `{StdSort} (w0 : World) : World → Prop :=
  | poss_start : possible w0 w0
  | poss_turn w t w' :
      possible w0 w → turn_possible w t → world_turn w t = Ok w' → possible w0 w'.

(** ** Sends that are cut short *)
Definition all_sent (kt : KernelTurn) (sv : OrderServer) : KernelTurn :=
  mkKernelTurn (kt_events kt) (kt_conns kt) (kt_net kt) (λ k, length (outbound sv k)).
Definition sending_all (w : World) (t : Turn) : Turn :=
  match t with
  | OrderServerTurn kt => OrderServerTurn (all_sent kt (order_server (w_exchange w)))
  | t => t
  end.

(** A result without what the kernel took. *)
Definition unsent {A} (r : Res (A * list (Z * bytes))) : Res A := '(x, _) ← r; Ok x.

Section Takes.
Context (net : Z → option (Nanos * bytes)) (takes takes' : Z → nat).

Lemma socket_takes b sv wire wire' k :
  unsent (socket_sendAndRecv net takes (b, sv, wire) k) =
  unsent (socket_sendAndRecv net takes' (b, sv, wire') k).
Proof.
  unfold unsent, socket_sendAndRecv.
  destruct (match net k with Some _ => _ | None => _ end) as [[read sv1]|]; [|done].
  by cbn [mbind Res_bind].
Qed.

Lemma sockets_takes L : ∀ b sv wire wire',
  unsent (fold_res (socket_sendAndRecv net takes) (b, sv, wire) L) =
  unsent (fold_res (socket_sendAndRecv net takes') (b, sv, wire') L).
Proof.
  induction L as [|k L IH]; intros b sv wire wire'; [done|]. cbn [fold_res].
  pose proof (socket_takes b sv wire wire' k) as E. unfold unsent at 1 2 in E.
  destruct (socket_sendAndRecv net takes _ k) as [[[b1 sv1] w1]|];
    destruct (socket_sendAndRecv net takes' _ k) as [[[b2 sv2] w2]|];
    cbn [mbind Res_bind] in E |- *; simplify_eq; try done; by apply IH.
Qed.

Lemma tcp_takes `{StdSort} ts sv :
  unsent (tcp_sendAndRecv net takes ts sv) = unsent (tcp_sendAndRecv net takes' ts sv).
Proof.
  unfold tcp_sendAndRecv. pose proof (sockets_takes (receive_sockets_ ts) false sv [] []) as E.
  unfold unsent at 1 2 in E.
  destruct (fold_res _ _ (receive_sockets_ ts)) as [[[b1 sv1] w1]|];
    destruct (fold_res (socket_sendAndRecv net takes') _ _) as [[[b2 sv2] w2]|];
    cbn [mbind Res_bind] in E |- *; simplify_eq; try done. set (sv3 := if b2 then _ else _).
  pose proof (sockets_takes (send_sockets_ ts) false sv3 w1 w2) as E'. unfold unsent in *.
  by destruct (fold_res _ _ (send_sockets_ ts)) as [[[b4 sv4] w4]|];
    destruct (fold_res (socket_sendAndRecv net takes') _ _) as [[[b5 sv5] w5]|];
    cbn [mbind Res_bind] in E' |- *; simplify_eq.
Qed.
End Takes.

Lemma order_server_takes `{StdSort} kt sv0 fuel st :
  unsent (order_server_turn kt fuel st) = unsent (order_server_turn (all_sent kt sv0) fuel st).
Proof.
  destruct st as [ts sv]. unfold order_server_turn. cbn [all_sent kt_events kt_conns kt_net kt_takes].
  destruct (poll ts sv _ _) as [[ts1 sv1]|]; [|done]. cbn [mbind Res_bind].
  pose proof (tcp_takes (kt_net kt) (kt_takes kt) (λ k, length (outbound sv0 k)) ts1 sv1) as E.
  unfold unsent in *. destruct (tcp_sendAndRecv _ _ _ _) as [[sv2 w2]|];
    destruct (tcp_sendAndRecv _ (λ _, _) _ _) as [[sv3 w3]|];
    cbn [mbind Res_bind] in E |- *; simplify_eq; try done.
  by destruct (os_send_responses fuel _).
Qed.

(** Two worlds that differ at most in what the clients were sent. *)
Definition alike (w w' : World) : Prop :=
  w_exchange w' = w_exchange w ∧ w_incoming w' = w_incoming w.
Definition same_result (r r' : Res World) : Prop :=
  match r, r' with
  | Ok w, Ok w' => alike w w'
  | Err f, Err f' => f = f'
  | _, _ => False
  end.

Lemma world_turn_alike `{StdSort} w w' t : alike w w' →
  same_result (world_turn w t) (world_turn w' (sending_all w t)).
Proof.
  intros [Hx Hi]. destruct t as [kt| | |now now']; cbn [sending_all world_turn]; rewrite Hx, ?Hi.
  - unfold order_server_thread. set (st := (_, _)).
    pose proof (order_server_takes kt (order_server (w_exchange w)) queue_fuel st) as E.
    unfold unsent in E. destruct (order_server_turn kt _ _) as [[[ts1 sv1] w1]|];
      destruct (order_server_turn (all_sent _ _) _ _) as [[[ts2 sv2] w2]|];
      cbn [mbind Res_bind] in E |- *; simplify_eq; done.
  - by destruct (matching_thread _).
  - by destruct (publisher_thread _).
  - by destruct (synthesizer_thread _ _ _).
Qed.

Lemma sending_all_ok w w' t : alike w w' → turn_possible w t → turn_ok w' (sending_all w t).
Proof.
  intros [Hx Hi]. destruct t as [kt| | |now now']; try done. cbn [turn_possible turn_ok sending_all].
  rewrite Hx, Hi. intros [H1 H2 H3]. by split; [split|].
Qed.

Lemma sending_all_fault w w' t : alike w w' → turn_fault w' (sending_all w t) = turn_fault w t.
Proof. intros [Hx _]. destruct t; try done. cbn [turn_fault sending_all]. by rewrite Hx. Qed.

(** Whatever is sent, the exchange is in a state it reaches when all is sent. *)
Lemma possible_reachable `{StdSort} w0 w : possible w0 w → ∃ w', reachable w0 w' ∧ alike w w'.
Proof.
  induction 1 as [|w t w2 _ (w' & Hw' & Hal) Hok Hrun].
  { exists w0. split; [constructor|done]. }
  pose proof (world_turn_alike w w' t Hal) as Hsame. rewrite Hrun in Hsame.
  destruct (world_turn w' _) as [w3|] eqn:Hrun'; [|done]. exists w3. split; [|done].
  by eapply reach_turn; [|apply (sending_all_ok w)|].
Qed.

Lemma reachable_possible `{StdSort} w0 w : reachable w0 w → possible w0 w.
Proof.
  induction 1 as [|w t w2 _ IH Hok Hrun]; [constructor|].
  eapply poss_turn; [done| |done]. destruct t; try done. apply Hok.
Qed.

(** ** Theorems *)

(** C7: Which turns of the exchange end the process, and how.  The clients send tame,
    consecutively numbered requests, each on one connection, at most a third of a queue in
    all; the kernel keeps the contract of its calls, may deliver the streams in any pieces,
    refuse to set up connections and take any part of what is sent; the threads take turns
    in any order.  Then a turn faults exactly when it is the order server's and the kernel
    reports more than 1024 events (it writes past the array), a new connection cannot be set
    up (the [ASSERT]s of [TCPServer::poll]), or more than 1024 requests are complete in the
    buffers the turn reads (the [FATAL] of the sequencer), in this order of precedence; every
    other turn of every thread runs to its end. *)
Theorem exchange_fault_causes stream owner socks lo hi `{StdSort} listener w t :
  clients_ok stream owner socks lo hi →
  possible (World_new listener stream) w → turn_possible w t →
  match turn_fault w t with
  | Some f => world_turn w t = Err f
  | None => ∃ w', world_turn w t = Ok w'
  end.
Proof.
  intros Hck Hw Hok. destruct (possible_reachable _ _ Hw) as (w1 & Hw1 & Hal).
  destruct (exchange_reachable_inv _ _ _ _ _ Hck listener w1 Hw1) as [g Hinv].
  pose proof (sending_all_ok w w1 t Hal Hok) as Hok1.
  pose proof (world_turn_alike w w1 t Hal) as Hsame. rewrite <-(sending_all_fault w w1 t Hal).
  destruct (turn_fault w1 (sending_all w t)) as [f|] eqn:Hf.
  - rewrite (turn_fails _ _ _ _ _ Hck _ w1 g f Hinv Hok1 Hf) in Hsame.
    destruct (world_turn w t); [done|]. cbn in Hsame. by subst.
  - destruct (turn_keeps _ _ _ _ _ Hck _ w1 g Hinv Hok1 Hf) as (w2 & _ & Hrun & _).
    rewrite Hrun in Hsame. destruct (world_turn w t) as [w'|]; [by exists w'|done].
Qed.

(** In the demonstration the snapshot thread goes on, and a third connection that cannot be
    made non-blocking ends the process; nothing of the responses is taken in that turn. *)
Definition failing_connection : KernelTurn :=
  mkKernelTurn [mkEpollEvent 1 true false false] [mkConnection 12 9 false true] (λ _, None) (λ _, 0%nat).

Lemma exchange_fault_causes_witness :
  (∃ w', world_turn (H := merge_sort_std) demo_world (SynthesizerTurn 70000000000 0) = Ok w') ∧
  world_turn (H := merge_sort_std) demo_world (OrderServerTurn failing_connection) = Err AssertFailed.
Proof.
  pose proof (exchange_fault_causes demo_stream demo_owner [7; 8] (λ _, 90) (λ _, 110)
    (H := merge_sort_std) 1 demo_world) as H.
  assert (possible (H := merge_sort_std) demo_start demo_world) as Hw
    by exact (reachable_possible _ _ demo_reachable).
  split.
  - exact (H (SynthesizerTurn 70000000000 0) demo_clients Hw I).
  - assert (turn_fault demo_world (OrderServerTurn failing_connection) = Some AssertFailed) as E
      by (by vm_compute).
    specialize (H (OrderServerTurn failing_connection) demo_clients Hw). rewrite E in H. apply H.
    split; [by repeat constructor|apply (bool_decide_unpack _); by vm_compute|by intros k rx chunk].
Defined.
