(* ===== verification/ExchangeBounds.v ===== *)
(** * ExchangeBounds: nothing in the exchange grows past its size

    How full the queues, the books, the pools and the counters of the exchange can be, in
    every reachable world: from the number of requests on the connections, every bound of
    the program that is a fixed size or a machine width is one that is not reached. *)
From stdpp Require Import functions.
From S2P Require Import Prelude Types Wire Sockets LFQueue FIFOSequencer OrderServer.
From S2P Require Import OrderGateway OrderFlow TCPServer ServerRound.
From S2P Require Import BookInv LevelsAbs MEOrderBook BookSpec BookMatch MEBookRefine MEBookSpec.
From S2P Require Import BookProps Sessions MatchingEngine MarketOrderBook MarketBookSpec MarketBBO.
From S2P Require Import FeedMirror SnapshotSynthesizer MarketDataPublisher LateJoiner EngineSession.
From S2P Require Import EngineTypes Exchange ExchangeRun.

(** ** The reference engine *)

(** A request takes at most one market order id. *)
Lemma spec_step_next_id t a br : 0 ≤ sb_next_id a < 2 ^ 64 - 1 →
  sb_next_id a ≤ sb_next_id (spec_step t a br).1 ≤ sb_next_id a + 1.
Proof.
  intros H. destruct br as [c i s p q|c i]; cbn [spec_step].
  - unfold spec_add. destruct (match_side _ _ _ _ _ _ _ _) as [[other leaves] ev].
    destruct (leaves =? 0); cbn [fst]; rewrite ?sb_next_set; cbn [sb_next_id]; rewrite u64_id; lia.
  - unfold spec_cancel. destruct (find_order a c i); cbn [fst sb_next_id]; lia.
Qed.

Lemma engine_after_next_id P t : Z.of_nat (length P) < 2 ^ 32 →
  1 ≤ sb_next_id (se_books (engine_after P) t) ≤ 1 + Z.of_nat (length P).
Proof.
  induction P as [|r P IH] using rev_ind; intros Hlen; [by vm_compute|].
  rewrite length_app in Hlen |- *. cbn [length] in Hlen |- *. specialize (IH ltac:(lia)).
  rewrite engine_after_snoc, spec_process_book. destruct (ticker_request t r) as [br|]; [|lia].
  pose proof (spec_step_next_id t (se_books (engine_after P) t) br ltac:(lia)). lia.
Qed.

Lemma book_count_total s t : ticker_ok t → (book_count (se_books s t) ≤ book_total s)%nat.
Proof.
  intros Ht. unfold book_total.
  assert (t ∈ seqZ 0 ME_MAX_TICKERS) as Hin by (apply elem_of_seqZ; unfold ticker_ok in Ht; lia).
  induction (seqZ 0 ME_MAX_TICKERS) as [|u l IH]; [by apply elem_of_nil in Hin|].
  cbn [fmap list_fmap sum_list sum_list_with foldr] in *.
  apply elem_of_cons in Hin as [->|Hin]; [simpl; lia|]. specialize (IH Hin). simpl in *. lia.
Qed.

(** A level's price is that of its first order. *)
Lemma level_price_order bk a p : refines bk a → p ∈ (sb_levels a).*1 →
  ∃ d, d ∈ sb_orders a ∧ oi_price d = p.
Proof.
  intros Href (pd & -> & Hpd)%list_elem_of_fmap.
  assert (∃ s, tradable s ∧ pd ∈ sb_side a s) as (s & Hs & Hin).
  { unfold sb_levels in Hpd. apply elem_of_app in Hpd as [H|H];
      [exists Side.BUY|exists Side.SELL]; (split; [by (left + right)|exact H]). }
  destruct (refines_level_prices bk a s Href Hs) as (Hok & Hne & _).
  rewrite Forall_forall in Hok, Hne. specialize (Hok pd Hin). specialize (Hne pd Hin).
  destruct pd as [p [|d ds]]; [done|]. cbn [fst snd] in *. apply Forall_cons in Hok as [[Hp _] _].
  exists d. split; [|done]. apply (sb_side_orders a s). unfold level_orders.
  apply list_elem_of_In, in_concat. exists (d :: ds). rewrite <-!list_elem_of_In.
  split; [by apply (list_elem_of_fmap_2 snd) in Hin|by left].
Qed.

Lemma snap_run_size us : (size (snap_run ∅ us) ≤ length us)%nat.
Proof.
  induction us as [|u us IH] using rev_ind; [done|]. unfold snap_run in *.
  rewrite foldl_app, length_app. cbn [foldl length].
  pose proof (snap_apply_size (foldl snap_apply ∅ us) u). lia.
Qed.

(** A response is 50 bytes. *)
Lemma responses_length n rs : length (numbered_responses n rs) = length rs.
Proof. revert n. induction rs as [|r rs IH]; intros n; [done|]. cbn. by rewrite IH. Qed.

Lemma reply_bytes_length owner n rs k : (length (reply_bytes owner n rs k) ≤ 50 * length rs)%nat.
Proof.
  unfold reply_bytes. rewrite <-(responses_length n rs).
  induction (numbered_responses n rs) as [|m ms IH]; [done|]. rewrite filter_cons.
  case_decide; cbn [length]; [|lia]. unfold encode_all in *. rewrite fmap_cons. cbn [concat].
  rewrite length_app, c_enc_length. change (c_size OMClientResponse) with 50%nat. lia.
Qed.

(** ** The bounds, for [n] requests *)
Definition room {T} (q : LFQueue T) (n : Z) : Prop := 0 ≤ lfq_size q ≤ n ∧ n ≤ lfq_cap q.

(** A book: so many orders, a free level for the next price on each side, and a market order
    id that [checkForMatch], whose parameter has the type of a quantity, does not cut off. *)
Record book_bounded (n : Z) (bk : MEOrderBook) (a : SpecBook) : Prop := {
  bb_orders : 2 * Z.of_nat (book_count a) ≤ 3 * n ∧ 3 * n < ME_MAX_ORDER_IDS;
  bb_levels : Z.of_nat (length (sb_levels a)) + 2 ≤ ME_MAX_PRICE_LEVELS;
  bb_next : 1 ≤ next_market_order_id_ bk ≤ 1 + n ∧
            u32 (next_market_order_id_ bk) = next_market_order_id_ bk
}.

Record bounded (n : Z) (w : World) (x : Exchange) : Prop := {
  bd_requests : room (incoming_requests_ (matching_engine x)) n;
  bd_responses : room (outgoing_ogw_responses_ (matching_engine x)) (3 * n);
  bd_updates : room (MatchingEngine.outgoing_md_updates_ (matching_engine x)) (3 * n);
  bd_snapshots : room (snapshot_md_updates_ (market_data_publisher x)) (3 * n);
  bd_pending : pending_size_ (fifo_sequencer_ (order_server x)) = 0;
  bd_inbound : ∀ k, Z.of_nat (length (inbound (order_server x) k)) < 38;
  bd_outbound : ∀ k, Z.of_nat (length (w_sent w k ++ outbound (order_server x) k)) ≤ 150 * n ∧
                     150 * n ≤ TCPBufferSize;
  bd_client_seq : ∀ c, 1 ≤ arr_get (cid_next_outgoing_seq_num_ (order_server x)) c ≤ 1 + 3 * n;
  bd_feed_seq : 1 ≤ next_inc_seq_num_ (market_data_publisher x) ≤ 1 + 3 * n;
  bd_books : ∀ t, ticker_ok t → ∃ a,
    refines (arr_get (ticker_order_book_ (matching_engine x)) t) a ∧
    book_bounded n (arr_get (ticker_order_book_ (matching_engine x)) t) a;
  bd_snapshot : ∃ S, synthesizes (snapshot_synthesizer x) S ∧ Z.of_nat (size S) ≤ 3 * n
}.

Lemma room_of {T} (q : LFQueue T) l n :
  lfq_rep q l → Z.of_nat (length l) ≤ n → n ≤ lfq_cap q → room q n.
Proof. intros Hq Hl Hn. split; [|done]. unfold lfq_size. rewrite (lq_num _ _ Hq). lia. Qed.

Section Bounds.
Context (stream : Z → list OMClientRequest) (owner : ClientId → Z) (socks : list Z).
Context (lo hi : TickerId → Price) (Hck : clients_ok stream owner socks lo hi).
Implicit Types (w : World) (g : Ghost).
Let n := Z.of_nat (length (traffic stream socks)).

Lemma few_requests : 0 ≤ n ∧ 3 * n ≤ ME_MAX_CLIENT_UPDATES.
Proof. unfold n. pose proof (ck_few _ _ _ _ _ Hck). lia. Qed.

Lemma taken_few w g : exchange_inv stream owner w g →
  Z.of_nat (length (g_processed g)) ≤ n ∧ Z.of_nat (length (g_queued g)) ≤ n.
Proof.
  intros Hinv. pose proof (ghost_traffic _ _ _ _ _ Hck w g (xi_order _ _ _ _ Hinv)) as H.
  apply submseteq_length in H. rewrite length_app in H. unfold n. lia.
Qed.

Lemma sent_few w g : exchange_inv stream owner w g →
  Z.of_nat (length (g_answered g) + length (g_unanswered g)) ≤ 3 * n ∧
  Z.of_nat (length (g_snapshot g) + length (g_published g) + length (g_unpublished g)) ≤ 3 * n.
Proof.
  intros Hinv. pose proof (taken_few w g Hinv) as [HP _].
  pose proof (engine_after_count lo hi _ (processed_traffic _ _ _ _ _ Hck w g (xi_order _ _ _ _ Hinv))).
  destruct Hinv as [_ _ _ [_ Hr Hu] _ _]. rewrite Hr, Hu, !length_app in H. lia.
Qed.

Lemma book_within w g t : exchange_inv stream owner w g → ticker_ok t →
  refines (arr_get (ticker_order_book_ (matching_engine (w_exchange w))) t)
    (se_books (engine_after (g_processed g)) t) ∧
  book_bounded n (arr_get (ticker_order_book_ (matching_engine (w_exchange w))) t)
    (se_books (engine_after (g_processed g)) t).
Proof.
  intros Hinv Ht. pose proof few_requests as [Hn0 Hn]. pose proof (taken_few w g Hinv) as [HP _].
  pose proof (processed_traffic _ _ _ _ _ Hck w g (xi_order _ _ _ _ Hinv)) as Htr.
  pose proof (et_books _ _ _ (inv_typed _ _ _ _ _ Hck w g Hinv) t Ht) as [_ Hty].
  pose proof (sn_books _ _ _ _ _ (inv_seen _ _ _ lo hi Hck w g Hinv) t Ht) as Href.
  unfold ME_MAX_CLIENT_UPDATES in Hn. split; [exact Href|]. split.
  - pose proof (engine_after_count lo hi _ Htr) as [Hc _].
    pose proof (book_count_total (engine_after (g_processed g)) t Ht).
    unfold ME_MAX_ORDER_IDS. lia.
  - apply (band_levels _ _ (lo t) (hi t) Href); [by apply Htr|].
    intros p (d & Hd & <-)%(level_price_order _ _ _ Href). apply (ot_price _ _ _ (Hty d Hd)).
  - destruct Href as [G [_ _ _ Hnext]]. unfold book_at in Hnext. rewrite Hnext.
    pose proof (engine_after_next_id (g_processed g) t ltac:(lia)).
    rewrite u32_id by lia. lia.
Qed.

Lemma inv_bounded w g : exchange_inv stream owner w g → bounded n w (w_exchange w).
Proof.
  intros Hinv. pose proof few_requests as [Hn0 Hn]. pose proof (taken_few w g Hinv) as [_ HQ].
  pose proof (sent_few w g Hinv) as [Hr Hu].
  pose proof (book_within w g) as Hbook. specialize (λ t, Hbook t Hinv).
  destruct Hinv as [_ [F1 F2 F3 F4] [Hc _ Hseq Hrep] [[_ _ M1 M2 M3] _ _] [P1 _ _ P4] [S1 _ _ _ _]].
  cbn in M1, M2, M3. split.
  - apply (room_of _ _ _ M1 HQ). rewrite F1. lia.
  - apply (room_of _ _ _ M2); [lia|]. by rewrite F2.
  - apply (room_of _ _ _ M3); [lia|]. by rewrite F3.
  - apply (room_of _ _ _ P4); [unfold numbered_updates; rewrite length_imap; lia|]. by rewrite F4.
  - pose proof (cd_pending _ _ _ _ _ _ Hc) as Hp. unfold pending in Hp.
    unfold pending_size_. by rewrite Hp.
  - intros k. pose proof (sv_short _ _ _ _ _ (cd_serves _ _ _ _ _ _ Hc) k). lia.
  - intros k. rewrite Hrep. pose proof (reply_bytes_length owner (λ _, 1) (g_answered g) k).
    unfold TCPBufferSize, ME_MAX_CLIENT_UPDATES in *. lia.
  - intros c. rewrite Hseq. pose proof (client_count_bounds c (g_answered g)). lia.
  - rewrite P1, length_app. lia.
  - intros t Ht. eexists. by apply Hbook.
  - eexists. split; [exact S1|]. pose proof (snap_run_size (g_snapshot g)). lia.
Qed.
End Bounds.

(** C12: In every reachable world of the exchange, with [n] requests on all connections
    together: the request queue holds at most [n] and every other queue at most [3 n] of
    the at least [3 n] elements it has room for; between turns no request waits in the
    sequencer, less than a request waits in a receive buffer, and all that was ever sent to
    a client fits its 64 MiB send buffer; the sequence numbers to the clients and on the feed
    are at most [1 + 3 n]; a book has a free price level for each side and fewer orders than
    its pool and its next market order id is not cut off by the 32-bit parameter it is
    passed through; the snapshot holds at most [3 n] orders, fewer than its pool. *)
Theorem exchange_within_bounds stream owner socks lo hi `{StdSort} listener w :
  clients_ok stream owner socks lo hi → reachable (World_new listener stream) w →
  bounded (Z.of_nat (length (traffic stream socks))) w (w_exchange w).
Proof.
  intros Hck Hw. destruct (exchange_reachable_inv _ _ _ _ _ Hck listener w Hw) as [g Hinv].
  by apply (inv_bounded _ _ _ _ _ Hck w g).
Qed.

(** Two requests; four updates are out, under numbers one to four. *)
Lemma exchange_within_bounds_witness :
  bounded 2 demo_world (w_exchange demo_world) ∧
  next_inc_seq_num_ (market_data_publisher (w_exchange demo_world)) = 5 ∧
  length (demo_stream 7 ++ demo_stream 8) = 2%nat.
Proof.
  split; [|by vm_compute].
  apply (exchange_within_bounds demo_stream demo_owner [7; 8] (λ _, 90) (λ _, 110)
    (H := merge_sort_std) 1 demo_world).
  - exact demo_clients.
  - exact demo_reachable.
Defined.
