(* ===== verification/Lifecycle.v ===== *)
(** * Lifecycle: threads, their objects and the end of both programs

    [common/thread_utils.h]; start, stop and destruction of every component; the signal
    handler and [main] of [exchange/exchange_main.cpp] and [main] of
    [trading/trading_main.cpp], as far as they create, stop and destroy.

    No thread but a logger's is ever joined: a destructor clears [run_], sleeps a while and
    frees what the thread works on.  So this is a model with a clock.  A process is its main
    thread, with the actions it has still to do, and an object per component and per logger,
    each with at most one thread.  An event is the passing of time, an action of main, a
    thread's look at its [run_] flag, or SIGINT.  A step that touches memory which is not
    there is [None].  [new] and the start of a thread succeed; SIGINT comes to the main
    thread, and once. *)
From S2P Require Import Prelude Types SnapshotSynthesizer.

(** ** Objects and threads *)
Inductive Comp :=
  | MAIN | MATCHING_ENGINE | MARKET_DATA_PUBLISHER | SNAPSHOT_SYNTHESIZER | ORDER_SERVER
  | TRADE_ENGINE | MARKET_DATA_CONSUMER | ORDER_GATEWAY.
#[export] Instance Comp_eq_dec : EqDecision Comp.
Proof. solve_decision. Defined.

(** A component, or the logger it owns (the logger of [MAIN] is the global [logger]). *)
Inductive Obj := Component (c : Comp) | LoggerOf (c : Comp).
#[export] Instance Obj_eq_dec : EqDecision Obj.
Proof. solve_decision. Defined.

Definition all_comps : list Comp :=
  [MAIN; MATCHING_ENGINE; MARKET_DATA_PUBLISHER; SNAPSHOT_SYNTHESIZER; ORDER_SERVER;
   TRADE_ENGINE; MARKET_DATA_CONSUMER; ORDER_GATEWAY].
Definition all_objs : list Obj := (Component <$> all_comps) ++ (LoggerOf <$> all_comps).

(** What the thread of an object works on: itself, its logger, and for the synthesizer the
    queue [snapshot_md_updates_], which is a member of the publisher. *)
Definition uses (o : Obj) : list Obj :=
  match o with
  | Component SNAPSHOT_SYNTHESIZER =>
      [o; LoggerOf SNAPSHOT_SYNTHESIZER; Component MARKET_DATA_PUBLISHER]
  | Component c => [o; LoggerOf c]
  | LoggerOf _ => [o]
  end.

(** A thread: created at [since] and not yet in its function; in its loop, having last looked
    at [run_] at [since]; or at its end. *)
Inductive Thread :=
  | NoThread
  | Created (core_id : Z) (since : Nanos)
  | Looping (since : Nanos)
  | Ended.

(** [run_], or [running_] of a logger. *)
Record Slot := mkSlot { made : bool; run_ : bool; thread : Thread }.

(** ** Actions of the main thread *)
Inductive Action :=
  | New (o : Obj)                          (** constructed, and its pointer assigned *)
  | SetRun (o : Obj) (b : bool)
  | CreateThread (o : Obj) (core_id : Z)   (** [new std::thread] in [createAndStartThread] *)
  | Return                                 (** from [createAndStartThread] *)
  | SleepFor (n : Nanos)
  | Call (o : Obj)                         (** a method that returns at once *)
  | Repeat (o : Obj)                       (** calls with sleeps between, until a condition *)
  | Forever (o : Obj) (n : Nanos)          (** [while (true)]: a call and a sleep *)
  | Ensure                                 (** [ASSERT] of the answer of a system call *)
  | Join (o : Obj)
  | Delete (o : Obj)                       (** the memory is given back *)
  | OnSignal                               (** [std::signal(SIGINT, signal_handler)] *)
  | Exit.                                  (** [exit(EXIT_SUCCESS)] *)

Record Process := mkProcess {
  clock : Nanos;
  wake : Nanos;                  (** main sleeps until then *)
  todo : list Action;
  frame : option Obj;            (** [createAndStartThread] is on the stack, for this thread *)
  objects : Obj → Slot;
  armed : bool;                  (** the handler is installed *)
  handling : bool;               (** and has been called *)
  exited : option bool           (** [exit] with success or failure *)
}.

Definition second : Nanos := NANOS_TO_SECS.
Definition set_object (p : Process) (o : Obj) (s : Slot) : Process :=
  mkProcess (clock p) (wake p) (todo p) (frame p)
    (λ x, if decide (x = o) then s else objects p x) (armed p) (handling p) (exited p).
Definition set_todo (p : Process) (l : list Action) : Process :=
  mkProcess (clock p) (wake p) l (frame p) (objects p) (armed p) (handling p) (exited p).
Definition set_frame (p : Process) (f : option Obj) : Process :=
  mkProcess (clock p) (wake p) (todo p) f (objects p) (armed p) (handling p) (exited p).
Definition set_wake (p : Process) (t : Nanos) : Process :=
  mkProcess (clock p) t (todo p) (frame p) (objects p) (armed p) (handling p) (exited p).
Definition set_exited (p : Process) (success : bool) : Process :=
  mkProcess (clock p) (wake p) (todo p) (frame p) (objects p) (armed p) (handling p) (Some success).

(** ** The parts of the programs *)

(** [createAndStartThread]: the new thread's function captures the parameters by reference,
    so it has to be in the thread's hands before the second is over. *)
Definition createAndStartThread (core_id : Z) (o : Obj) : list Action :=
  [CreateThread o core_id; SleepFor second; Return].

(** [Logger(file_name)] and [~Logger]. *)
Definition Logger_ctor (c : Comp) : list Action :=
  [Ensure; New (LoggerOf c); SetRun (LoggerOf c) true] ++ createAndStartThread (-1) (LoggerOf c).
Definition Logger_dtor (c : Comp) : list Action :=
  [Repeat (LoggerOf c); SetRun (LoggerOf c) false; Join (LoggerOf c); Delete (LoggerOf c)].

Definition MatchingEngine_ctor : list Action :=
  Logger_ctor MATCHING_ENGINE ++ [New (Component MATCHING_ENGINE)].
Definition MatchingEngine_start : list Action :=
  SetRun (Component MATCHING_ENGINE) true :: createAndStartThread (-1) (Component MATCHING_ENGINE).
Definition MatchingEngine_stop : list Action := [SetRun (Component MATCHING_ENGINE) false].
(** The books' destructors write to the logger. *)
Definition MatchingEngine_dtor : list Action :=
  MatchingEngine_stop ++ [SleepFor second; Call (LoggerOf MATCHING_ENGINE)] ++
  Logger_dtor MATCHING_ENGINE ++ [Delete (Component MATCHING_ENGINE)].

Definition SnapshotSynthesizer_ctor : list Action :=
  Logger_ctor SNAPSHOT_SYNTHESIZER ++ [Ensure; New (Component SNAPSHOT_SYNTHESIZER)].
Definition SnapshotSynthesizer_start : list Action :=
  SetRun (Component SNAPSHOT_SYNTHESIZER) true ::
  createAndStartThread (-1) (Component SNAPSHOT_SYNTHESIZER).
Definition SnapshotSynthesizer_stop : list Action := [SetRun (Component SNAPSHOT_SYNTHESIZER) false].
Definition SnapshotSynthesizer_dtor : list Action :=
  SnapshotSynthesizer_stop ++ Logger_dtor SNAPSHOT_SYNTHESIZER ++
  [Delete (Component SNAPSHOT_SYNTHESIZER)].

Definition MarketDataPublisher_ctor : list Action :=
  Logger_ctor MARKET_DATA_PUBLISHER ++ [Ensure] ++ SnapshotSynthesizer_ctor ++
  [New (Component MARKET_DATA_PUBLISHER)].
Definition MarketDataPublisher_start : list Action :=
  SetRun (Component MARKET_DATA_PUBLISHER) true ::
  createAndStartThread (-1) (Component MARKET_DATA_PUBLISHER) ++ SnapshotSynthesizer_start.
Definition MarketDataPublisher_stop : list Action :=
  SetRun (Component MARKET_DATA_PUBLISHER) false :: SnapshotSynthesizer_stop.
Definition MarketDataPublisher_dtor : list Action :=
  MarketDataPublisher_stop ++ [SleepFor (5 * second)] ++ SnapshotSynthesizer_dtor ++
  Logger_dtor MARKET_DATA_PUBLISHER ++ [Delete (Component MARKET_DATA_PUBLISHER)].

Definition OrderServer_ctor : list Action := Logger_ctor ORDER_SERVER ++ [New (Component ORDER_SERVER)].
Definition OrderServer_start : list Action :=
  [SetRun (Component ORDER_SERVER) true; Ensure] ++ createAndStartThread (-1) (Component ORDER_SERVER).
Definition OrderServer_stop : list Action := [SetRun (Component ORDER_SERVER) false].
Definition OrderServer_dtor : list Action :=
  OrderServer_stop ++ [SleepFor second] ++ Logger_dtor ORDER_SERVER ++ [Delete (Component ORDER_SERVER)].

Definition TradeEngine_ctor : list Action :=
  Logger_ctor TRADE_ENGINE ++ [Call (LoggerOf TRADE_ENGINE); New (Component TRADE_ENGINE)].
Definition TradeEngine_start : list Action :=
  SetRun (Component TRADE_ENGINE) true :: createAndStartThread (-1) (Component TRADE_ENGINE).
(** It waits until its queues are empty. *)
Definition TradeEngine_stop : list Action :=
  [Repeat (Component TRADE_ENGINE); SetRun (Component TRADE_ENGINE) false].
Definition TradeEngine_dtor : list Action :=
  [SetRun (Component TRADE_ENGINE) false; SleepFor second; Call (LoggerOf TRADE_ENGINE)] ++
  Logger_dtor TRADE_ENGINE ++ [Delete (Component TRADE_ENGINE)].

Definition MarketDataConsumer_ctor : list Action :=
  Logger_ctor MARKET_DATA_CONSUMER ++ [Ensure; Ensure; New (Component MARKET_DATA_CONSUMER)].
Definition MarketDataConsumer_start : list Action :=
  SetRun (Component MARKET_DATA_CONSUMER) true ::
  createAndStartThread (-1) (Component MARKET_DATA_CONSUMER).
Definition MarketDataConsumer_stop : list Action := [SetRun (Component MARKET_DATA_CONSUMER) false].
Definition MarketDataConsumer_dtor : list Action :=
  MarketDataConsumer_stop ++ [SleepFor (5 * second)] ++ Logger_dtor MARKET_DATA_CONSUMER ++
  [Delete (Component MARKET_DATA_CONSUMER)].

Definition OrderGateway_ctor : list Action := Logger_ctor ORDER_GATEWAY ++ [New (Component ORDER_GATEWAY)].
Definition OrderGateway_start : list Action :=
  [SetRun (Component ORDER_GATEWAY) true; Ensure] ++ createAndStartThread (-1) (Component ORDER_GATEWAY).
Definition OrderGateway_stop : list Action := [SetRun (Component ORDER_GATEWAY) false].
Definition OrderGateway_dtor : list Action :=
  OrderGateway_stop ++ [SleepFor (5 * second)] ++ Logger_dtor ORDER_GATEWAY ++
  [Delete (Component ORDER_GATEWAY)].

(** ** The exchange *)

(** [delete] of a null pointer does nothing: a component is deleted if it was made. *)
Definition signal_handler (is_made : Obj → bool) : list Action :=
  [SleepFor (10 * second)] ++
  (if is_made (LoggerOf MAIN) then Logger_dtor MAIN else []) ++
  (if is_made (Component MATCHING_ENGINE) then MatchingEngine_dtor else []) ++
  (if is_made (Component MARKET_DATA_PUBLISHER) then MarketDataPublisher_dtor else []) ++
  (if is_made (Component ORDER_SERVER) then OrderServer_dtor else []) ++
  [SleepFor (10 * second); Exit].

(** The global pointers of both programs. *)
Definition globals : list Obj :=
  [LoggerOf MAIN; Component MATCHING_ENGINE; Component MARKET_DATA_PUBLISHER; Component ORDER_SERVER;
   Component TRADE_ENGINE; Component MARKET_DATA_CONSUMER; Component ORDER_GATEWAY].

Definition exchange_main : list Action :=
  Logger_ctor MAIN ++ [OnSignal; Call (LoggerOf MAIN)] ++
  MatchingEngine_ctor ++ MatchingEngine_start ++ [Call (LoggerOf MAIN)] ++
  MarketDataPublisher_ctor ++ MarketDataPublisher_start ++ [Call (LoggerOf MAIN)] ++
  OrderServer_ctor ++ OrderServer_start ++ [Forever (LoggerOf MAIN) (100 * second)].

(** ** The trading program *)

(** The middle, between [initLastEventTime] and [stop], is the loop of the random algorithm and
    the wait for silence: calls to the trade engine with sleeps. *)
Definition trading_end : list Action :=
  TradeEngine_stop ++ MarketDataConsumer_stop ++ OrderGateway_stop ++ [SleepFor (10 * second)] ++
  Logger_dtor MAIN ++ TradeEngine_dtor ++ MarketDataConsumer_dtor ++ OrderGateway_dtor ++
  [SleepFor (10 * second); Exit].
Definition trading_main : list Action :=
  Logger_ctor MAIN ++ [Call (LoggerOf MAIN)] ++
  TradeEngine_ctor ++ TradeEngine_start ++ [Call (LoggerOf MAIN)] ++
  OrderGateway_ctor ++ OrderGateway_start ++ [Call (LoggerOf MAIN)] ++
  MarketDataConsumer_ctor ++ MarketDataConsumer_start ++
  [SleepFor (10 * second); Call (Component TRADE_ENGINE);
   Repeat (Component TRADE_ENGINE); Call (LoggerOf MAIN);
   Repeat (Component TRADE_ENGINE); Call (LoggerOf MAIN)] ++ trading_end.

Definition Process_new (main : list Action) : Process :=
  mkProcess 0 0 main None (λ _, mkSlot false false NoThread) false false None.

(** ** Steps *)

(** How main goes on: past the action, or with another round of a [Repeat] or [Forever] and
    a sleep, or with the system call of an [Ensure] failed. *)
Inductive Answer := Go | Again (n : Nanos) | Failed.

Definition main_step (p : Process) (ans : Answer) : option Process :=
  match todo p with
  | [] => None
  | a :: rest =>
      let q := set_todo p rest in
      match a with
      | New o => Some (set_object q o (mkSlot true false NoThread))
      | SetRun o b =>
          if made (objects p o) then Some (set_object q o (mkSlot true b (thread (objects p o))))
          else None
      | CreateThread o core_id =>
          if made (objects p o) then
            Some (set_frame (set_object q o
              (mkSlot true (run_ (objects p o)) (Created core_id (clock p)))) (Some o))
          else None
      | Return => Some (set_frame q None)
      | SleepFor n => Some (set_wake q (clock p + n))
      | Call o => if made (objects p o) then Some q else None
      | Repeat o =>
          if made (objects p o) then
            match ans with Again n => Some (set_wake p (clock p + n)) | _ => Some q end
          else None
      | Forever o n =>
          if made (objects p o) then Some (set_wake p (clock p + n)) else None
      | Ensure => match ans with Failed => Some (set_exited p false) | _ => Some q end
      | Join o => Some q
      | Delete o =>
          if made (objects p o) then
            Some (set_object q o (mkSlot false (run_ (objects p o)) (thread (objects p o))))
          else None
      | OnSignal =>
          Some (mkProcess (clock q) (wake q) (todo q) (frame q) (objects q) true (handling q) (exited q))
      | Exit => Some (set_exited p true)
      end
  end.

(** Everything the thread of [o] works on is there. *)
Definition intact (p : Process) (o : Obj) : bool := forallb (λ x, made (objects p x)) (uses o).

(** A thread's start, with [setThreadCore]'s answer, or its next look at [run_]. *)
Definition thread_step (p : Process) (o : Obj) (pinned : bool) : option Process :=
  let s := objects p o in
  match thread s with
  | Created core_id _ =>
      if bool_decide (frame p = Some o) && intact p o then
        if (core_id >=? 0) && negb pinned then Some (set_exited p false)
        else Some (set_object p o (mkSlot (made s) (run_ s) (Looping (clock p))))
      else None
  | Looping _ =>
      if intact p o then
        Some (set_object p o (mkSlot (made s) (run_ s) (if run_ s then Looping (clock p) else Ended)))
      else None
  | NoThread | Ended => Some p
  end.

Inductive LifeEvent :=
  | Tick (d : Nanos)
  | MainAct (ans : Answer)
  | ThreadAct (o : Obj) (pinned : bool)
  | Interrupt.

(** SIGINT: the handler runs on the main thread, whose sleep is over; before it is installed
    the process ends. *)
Definition life_step (p : Process) (ev : LifeEvent) : option Process :=
  match ev with
  | Tick d =>
      Some (mkProcess (clock p + d) (wake p) (todo p) (frame p) (objects p) (armed p) (handling p)
              (exited p))
  | MainAct ans => main_step p ans
  | ThreadAct o pinned => thread_step p o pinned
  | Interrupt =>
      if armed p then
        Some (mkProcess (clock p) (clock p) (signal_handler (λ o, made (objects p o))) (frame p)
                (objects p) true true (exited p))
      else Some (set_exited p false)
  end.

(** ** What can happen *)
Definition running (s : Slot) : Prop :=
  match thread s with Created _ _ | Looping _ => True | NoThread | Ended => False end.
#[export] Instance running_dec s : Decision (running s).
Proof. unfold running. destruct (thread s); apply _. Defined.

(** A thread gets to its next look at [run_] within [D]. *)
Definition in_time (D now : Nanos) (s : Slot) : Prop :=
  match thread s with
  | Created _ since | Looping since => now ≤ since + D
  | NoThread | Ended => True
  end.
#[export] Instance in_time_dec D now s : Decision (in_time D now s).
Proof. unfold in_time. destruct (thread s); apply _. Defined.

(** A join waits for the end of the thread. *)
Definition main_ready (p : Process) : Prop :=
  wake p ≤ clock p ∧
  match todo p with
  | [] => False
  | Join o :: _ => thread (objects p o) = Ended
  | _ => True
  end.
#[export] Instance Thread_eq_dec : EqDecision Thread.
Proof. solve_decision. Defined.
#[export] Instance main_ready_dec p : Decision (main_ready p).
Proof. unfold main_ready. destruct (todo p) as [|[]]; apply _. Defined.

Definition event_ok (D : Nanos) (p : Process) (ev : LifeEvent) : Prop :=
  exited p = None ∧
  match ev with
  | Tick d => 0 < d ∧ Forall (λ o, in_time D (clock p + d) (objects p o)) all_objs
  | MainAct ans => main_ready p ∧ match ans with Again n => 0 ≤ n | _ => True end
  | ThreadAct o _ => running (objects p o)
  | Interrupt => handling p = false
  end.
#[export] Instance event_ok_dec D p ev : Decision (event_ok D p ev).
Proof. unfold event_ok. destruct ev as [|[]| |]; apply _. Defined.

Inductive lives (D : Nanos) (p0 : Process) : Process → Prop :=
  | lives_refl : lives D p0 p0
  | lives_step p ev p' :
      lives D p0 p → event_ok D p ev → life_step p ev = Some p' → lives D p0 p'.

(** Steps, if every event can happen. *)
Fixpoint life_run (D : Nanos) (p : Process) (evs : list LifeEvent) : option Process :=
  match evs with
  | [] => Some p
  | ev :: evs => if decide (event_ok D p ev) then p' ← life_step p ev; life_run D p' evs else None
  end.
