(* ===== verification/LifecycleRun.v ===== *)
(** * LifecycleRun: no thread outlives what it works on

    A check of the actions of main that keeps, for every object, what main knows of its
    thread; the check is sound for every schedule in which no thread takes a second to its
    next look at [run_]; the programs pass it by evaluation. *)
From S2P Require Import Prelude Types SnapshotSynthesizer Lifecycle.

(** ** What main knows *)

(** [Up true] and [Stopping true]: main has slept a second since. *)
Inductive Status :=
  | Absent | Idle | Up (settled : bool) | Stopping (settled : bool) | Over | Gone.
#[export] Instance Status_eq_dec : EqDecision Status.
Proof. solve_decision. Defined.

Record Known := mkKnown {
  k_status : Obj → Status;
  k_frame : option Obj;
  k_armed : bool
}.
Definition Known_new : Known := mkKnown (λ _, Absent) None false.

Definition present (s : Status) : bool := match s with Absent | Gone => false | _ => true end.
(** No thread of the object runs. *)
Definition finished (s : Status) : bool :=
  match s with Up _ | Stopping false => false | _ => true end.
Definition settle (s : Status) : Status :=
  match s with Up _ => Up true | Stopping _ => Stopping true | s => s end.
(** After SIGINT main has not slept as long as it meant to. *)
Definition unsettle (s : Status) : Status :=
  match s with Up _ => Up false | Stopping _ => Stopping false | s => s end.

Definition know (k : Known) (o : Obj) (s : Status) : Known :=
  mkKnown (λ x, if decide (x = o) then s else k_status k x) (k_frame k) (k_armed k).
Definition map_status (f : Status → Status) (k : Known) : Known :=
  mkKnown (λ x, f (k_status k x)) (k_frame k) (k_armed k).

Definition stopped (s : Status) (b : bool) : option Status :=
  match s, b with
  | Idle, _ => Some Idle
  | Up true, false => Some (Stopping false)
  | Stopping i, false => Some (Stopping i)
  | Over, false => Some Over
  | _, _ => None
  end.

(** One action. *)
Definition check (k : Known) (a : Action) : option Known :=
  match a with
  | New o => if decide (k_status k o = Absent) then Some (know k o Idle) else None
  | SetRun o b => know k o <$> stopped (k_status k o) b
  | CreateThread o core_id =>
      if bool_decide (k_status k o = Idle) && bool_decide (k_frame k = None) && (core_id <? 0) &&
         forallb (λ x, present (k_status k x)) (uses o)
      then Some (mkKnown (k_status (know k o (Up false))) (Some o) (k_armed k)) else None
  | Return =>
      match k_frame k with
      | Some o =>
          if decide (k_status k o = Up true) then Some (mkKnown (k_status k) None (k_armed k)) else None
      | None => None
      end
  | SleepFor n =>
      if n <? 0 then None else Some (if second <=? n then map_status settle k else k)
  | Call o | Repeat o => if present (k_status k o) then Some k else None
  | Forever o n => if (0 <=? n) && present (k_status k o) then Some k else None
  | Join o => match k_status k o with Stopping _ => Some (know k o Over) | _ => None end
  | Delete x =>
      if present (k_status k x) &&
         forallb (λ o, finished (k_status k o) || negb (bool_decide (x ∈ uses o))) all_objs
      then Some (know k x Gone) else None
  | OnSignal => Some (mkKnown (k_status k) (k_frame k) true)
  | Ensure => Some k
  | Exit => if forallb (λ o, negb (present (k_status k o))) globals then Some k else None
  end.

(** A program whose last action is never left. *)
Definition final (a : Action) : bool := match a with Exit | Forever _ _ => true | _ => false end.
Fixpoint checks (k : Known) (l : list Action) : bool :=
  match l with
  | [] => false
  | a :: l =>
      match check k a with
      | Some k' => if final a then bool_decide (l = []) else checks k' l
      | None => false
      end
  end.

(** The handler, should the signal come now. *)
Definition handler_checks (k : Known) : bool :=
  negb (k_armed k) ||
  checks (map_status unsettle k) (signal_handler (λ o, present (k_status k o))).
Fixpoint main_checks (k : Known) (l : list Action) : bool :=
  handler_checks k &&
  match l with
  | [] => false
  | a :: l =>
      match check k a with
      | Some k' => if final a then bool_decide (l = []) else main_checks k' l
      | None => false
      end
  end.

Example exchange_checks : main_checks Known_new exchange_main = true.
Proof. by vm_compute. Qed.
Example trading_checks : main_checks Known_new trading_main = true.
Proof. by vm_compute. Qed.

(** ** What is true *)
Definition horizon (p : Process) : Nanos := Z.max (clock p) (wake p).

Definition slot_knows (f : option Obj) (h : Nanos) (o : Obj) (s : Slot) (st : Status) : Prop :=
  match st with
  | Absent | Gone => made s = false ∧ ¬ running s
  | Idle => made s = true ∧ thread s = NoThread
  | Up settled => made s = true ∧
      match thread s with
      | Created core_id t => core_id < 0 ∧ f = Some o ∧ (settled = true → t + second ≤ h)
      | Looping _ | Ended => True
      | NoThread => False
      end
  | Stopping settled => made s = true ∧ run_ s = false ∧
      match thread s with
      | Looping t => settled = true → t + second ≤ h
      | Ended => True
      | NoThread | Created _ _ => False
      end
  | Over => made s = true ∧ thread s = Ended
  end.

Record knows (p : Process) (k : Known) : Prop := {
  kn_objects : ∀ o, slot_knows (frame p) (horizon p) o (objects p o) (k_status k o);
  kn_frame : k_frame k = frame p;
  kn_armed : k_armed k = armed p
}.

(** The thread's last look is not in the future, and not longer ago than it may be. *)
Definition on_time (D now : Nanos) (s : Slot) : Prop :=
  match thread s with
  | Created _ since | Looping since => since ≤ now ≤ since + D
  | NoThread | Ended => True
  end.

Record sound (D : Nanos) (p : Process) : Prop := {
  so_time : ∀ o, on_time D (clock p) (objects p o);
  so_intact : ∀ o, running (objects p o) → intact p o = true
}.

Definition on_track (p : Process) : Prop :=
  ∃ k, knows p k ∧ (if handling p then checks k (todo p) else main_checks k (todo p)) = true.
(** The globals are deleted when the process ends in success. *)
Definition released (p : Process) : Prop := ∀ o, o ∈ globals → made (objects p o) = false.
Definition life_inv (D : Nanos) (p : Process) : Prop :=
  sound D p ∧ (exited p = None → on_track p) ∧ (exited p = Some true → released p).

(** ** Lemmas on one object *)
Lemma slot_made f h o s st : slot_knows f h o s st → made s = present st.
Proof. destruct st; cbn; tauto. Qed.

Lemma slot_later f h h' o s st : h ≤ h' → slot_knows f h o s st → slot_knows f h' o s st.
Proof.
  intros Hh. destruct st; cbn; try done; destruct (thread s); try done.
  - intros (? & ? & ? & H). do 3 (split; [done|]). intros E. specialize (H E). lia.
  - intros (? & ? & H). do 2 (split; [done|]). intros E. specialize (H E). lia.
Qed.

Lemma slot_unsettle f h h' o s st : slot_knows f h o s st → slot_knows f h' o s (unsettle st).
Proof. destruct st; cbn; try done; destruct (thread s); try done; intros H; split_and!; by try apply H. Qed.

Lemma slot_settle D f now h o s st : on_time D now s → now + second ≤ h →
  slot_knows f now o s st → slot_knows f h o s (settle st).
Proof.
  intros Ht Hh. unfold on_time in Ht. destruct st; cbn; try done; destruct (thread s); try done.
  - intros (? & ? & ? & _). split_and!; try done. lia.
  - intros (? & ? & _). split_and!; try done. lia.
Qed.

(** The frame is free, so every thread is in its function. *)
Lemma slot_no_frame f h o s st : slot_knows None h o s st → slot_knows f h o s st.
Proof. destruct st; cbn; try done. destruct (thread s); try done. by intros (_ & _ & ? & _). Qed.

(** A second is longer than a turn. *)
Lemma slot_started D f now o s : D < second → on_time D now s →
  slot_knows f now o s (Up true) → ∀ f', slot_knows f' now o s (Up true) ∧ ∀ c t, thread s ≠ Created c t.
Proof.
  intros HD Ht [Hm H] f'. unfold on_time in Ht. cbn. destruct (thread s) as [|c t|t|]; try done.
  destruct H as (_ & _ & H). specialize (H eq_refl). lia.
Qed.

Lemma slot_finished D f now o s st : D < second → on_time D now s →
  slot_knows f now o s st → finished st = true → ¬ running s.
Proof.
  intros HD Ht H Hf. unfold on_time in Ht.
  destruct st as [| |[]|[]| |]; cbn in *; try discriminate Hf; try (by apply H); unfold running;
    destruct (thread s) as [|c t|t|]; try tauto; try (destruct H; congruence).
  destruct H as (_ & _ & H). specialize (H eq_refl). lia.
Qed.

(** Clearing or setting the flag. *)
Lemma slot_stopped D f now o s st st' b : D < second → on_time D now s →
  slot_knows f now o s st → stopped st b = Some st' →
  made s = true ∧ slot_knows f now o (mkSlot true b (thread s)) st'.
Proof.
  intros HD Ht H E. destruct st as [| |[]|i| |], b; cbn in E; try discriminate E;
    injection E as <-; (split; [by apply H|]).
  1,2: split; [done|by apply H].
  - destruct (slot_started D f now o s HD Ht H f) as [_ Hno]. destruct H as [_ H]. cbn.
    destruct (thread s) as [|c t|t|]; try done. by destruct (Hno c t).
  - destruct H as (_ & _ & H). by cbn.
  - destruct H as [_ H]. by cbn.
Qed.

(** ** Lemmas on the process *)
Lemma all_objs_elem o : o ∈ all_objs.
Proof. apply (bool_decide_unpack _). by destruct o as [[]|[]]. Qed.

Lemma intact_made p o : intact p o = true ↔ ∀ x, x ∈ uses o → made (objects p x) = true.
Proof. unfold intact. rewrite forallb_forall. by setoid_rewrite list_elem_of_In. Qed.

Lemma ready_horizon p : main_ready p → horizon p = clock p.
Proof. intros [H _]. unfold horizon. lia. Qed.

Lemma knows_now p k o : main_ready p → knows p k →
  slot_knows (frame p) (clock p) o (objects p o) (k_status k o).
Proof. intros Hr Hk. rewrite <-(ready_horizon p Hr). apply Hk. Qed.

Lemma knows_set p k o s st : knows p k → slot_knows (frame p) (horizon p) o s st →
  knows (set_object p o s) (know k o st).
Proof.
  intros [K1 K2 K3] Hs. split; [|done..]. intros x. cbn. case_decide as E; [by subst|]. apply K1.
Qed.

(** Frees no memory and starts no thread: [sound] stays. *)
Lemma sound_set D p o s : sound D p → on_time D (clock p) s →
  (made (objects p o) = true → made s = true) → (running s → running (objects p o)) →
  sound D (set_object p o s).
Proof.
  intros [S1 S2] Ht Hm Hr. split.
  - intros x. cbn. by case_decide.
  - intros x Hx. cbn in Hx. assert (running (objects p x)) as Hx'.
    { destruct (decide (x = o)) as [->|]; [by apply Hr|done]. }
    apply intact_made. intros y Hy. cbn.
    pose proof (proj1 (intact_made p x) (S2 x Hx') y Hy) as H.
    destruct (decide (y = o)) as [->|]; [by apply Hm|done].
Qed.

Lemma knows_todo p k l : knows p k → knows (set_todo p l) k.
Proof. by intros []. Qed.
Lemma sound_todo D p l : sound D p → sound D (set_todo p l).
Proof. by intros []. Qed.
Lemma sound_wake D p t : sound D p → sound D (set_wake p t).
Proof. by intros []. Qed.
Lemma sound_exited D p b : sound D p → sound D (set_exited p b).
Proof. by intros []. Qed.

Lemma knows_wake p k t : horizon p ≤ horizon (set_wake p t) → knows p k → knows (set_wake p t) k.
Proof.
  intros Hh [K1 K2 K3]. split; [|done..]. intros o. by apply (slot_later _ (horizon p)).
Qed.

(** ** The actions of main *)
Section Step.
Context (D : Nanos) (HD : 0 ≤ D < second).
Implicit Types (p : Process) (k : Known) (o : Obj).

(** What an action leads to: main is past it, or does it again, or the process has ended. *)
Definition leads_to p k k' a rest p' : Prop :=
  sound D p' ∧ handling p' = handling p ∧
  match exited p' with
  | None => (knows p' k ∧ todo p' = a :: rest) ∨ (final a = false ∧ knows p' k' ∧ todo p' = rest)
  | Some true => released p'
  | Some false => True
  end.

Lemma leads_past p k k' a rest p' : final a = false →
  sound D p' → handling p' = handling p → knows p' k' → todo p' = rest → exited p' = None →
  leads_to p k k' a rest p'.
Proof. intros ? ? ? ? ? E. unfold leads_to. rewrite E. split_and!; [done..|]. right. by split_and!. Qed.

(** Main has slept until now. *)
Context (p : Process) (k : Known) (Hs : sound D p) (Hk : knows p k) (Hr : main_ready p).
Context (He : exited p = None) (rest : list Action).

Lemma present_made o : made (objects p o) = present (k_status k o).
Proof. apply (slot_made (frame p) (horizon p) o), Hk. Qed.

Lemma step_new o k' : todo p = New o :: rest → check k (New o) = Some k' →
  leads_to p k k' (New o) rest (set_object (set_todo p rest) o (mkSlot true false NoThread)).
Proof using He Hs Hk.
  cbn [check]. intros _ E. destruct (decide _) as [Ea|]; [|done]. injection E as <-.
  apply leads_past; [done| |done| |done|done].
  - by apply sound_set; [apply sound_todo| | |].
  - by apply knows_set; [apply knows_todo|].
Qed.

Lemma step_set_run o b k' : check k (SetRun o b) = Some k' →
  made (objects p o) = true ∧
  leads_to p k k' (SetRun o b) rest
    (set_object (set_todo p rest) o (mkSlot true b (thread (objects p o)))).
Proof using He Hs Hk Hr HD.
  cbn [check]. intros (st & Est & ->)%fmap_Some.
  destruct (slot_stopped D (frame p) (clock p) o _ _ st b (proj2 HD) (so_time _ _ Hs o)
    (knows_now p k o Hr Hk) Est) as [Hm Hst].
  split; [done|]. apply leads_past; [done| |done| |done|done].
  - apply sound_set; [by apply sound_todo| |done|done]. apply (so_time _ _ Hs o).
  - apply knows_set; [by apply knows_todo|]. change (horizon (set_todo p rest)) with (horizon p).
    by rewrite (ready_horizon p Hr).
Qed.

Lemma step_create o c k' : check k (CreateThread o c) = Some k' →
  made (objects p o) = true ∧
  leads_to p k k' (CreateThread o c) rest
    (set_frame (set_object (set_todo p rest) o
      (mkSlot true (run_ (objects p o)) (Created c (clock p)))) (Some o)).
Proof using He Hs Hk HD.
  cbn [check]. intros E. destruct (_ && _) eqn:Hc in E; [|done]. injection E as <-.
  apply andb_prop in Hc as [[[Hi%bool_decide_eq_true Hf%bool_decide_eq_true]%andb_prop
    Hneg%Z.ltb_lt]%andb_prop Huses].
  rewrite forallb_forall in Huses. pose proof (kn_objects _ _ Hk o) as Ho. rewrite Hi in Ho.
  split; [by apply Ho|]. destruct Hk as [K1 K2 K3]. rewrite Hf in K2.
  assert (∀ x, made (objects p x) = true →
    made (objects (set_object p o (mkSlot true (run_ (objects p o)) (Created c (clock p)))) x) = true) as Hmade.
  { intros x Hx. cbn. by destruct (decide (x = o)). }
  apply leads_past; [done| |done| |done|done].
  - split; intros x.
    + cbn. destruct (decide (x = o)); [cbn; lia|]. apply (so_time _ _ Hs).
    + intros Hx. apply intact_made. intros y Hy. apply Hmade. cbn in Hx.
      destruct (decide (x = o)) as [->|].
      * rewrite present_made. apply Huses. by apply list_elem_of_In.
      * by apply (proj1 (intact_made p x) (so_intact _ _ Hs x Hx)).
  - split; [|done..]. intros x. cbn. destruct (decide (x = o)) as [->|]; [by cbn|].
    specialize (K1 x). rewrite <-K2 in K1. by apply slot_no_frame.
Qed.

Lemma step_return k' : check k Return = Some k' →
  leads_to p k k' Return rest (set_frame (set_todo p rest) None).
Proof using He Hs Hk Hr HD.
  cbn [check]. intros E. destruct (k_frame k) as [o|] eqn:Ef; [|done].
  destruct (decide _) as [Eo|]; [|done]. injection E as <-.
  apply leads_past; [done|by destruct Hs|done| |done|done].
  split; [|done|apply Hk]. intros x. cbn [frame set_frame objects set_todo k_status].
  change (horizon (set_frame (set_todo p rest) None)) with (horizon p).
  pose proof (knows_now p k x Hr Hk) as Hx. rewrite (ready_horizon p Hr).
  destruct (decide (x = o)) as [->|Hne].
  - rewrite Eo in Hx |- *. by apply (slot_started D _ _ _ _ (proj2 HD) (so_time _ _ Hs o) Hx).
  - rewrite <-(kn_frame _ _ Hk), Ef in Hx. destruct (k_status k x); try done. cbn in Hx |- *.
    destruct (thread (objects p x)); try done. destruct Hx as (_ & _ & [=E] & _). by destruct Hne.
Qed.

Lemma step_sleep n k' : check k (SleepFor n) = Some k' →
  leads_to p k k' (SleepFor n) rest (set_wake (set_todo p rest) (clock p + n)).
Proof using He Hs Hk Hr.
  cbn [check]. intros E. destruct (n <? 0) eqn:Hn; [done|]. apply Z.ltb_ge in Hn. injection E as <-.
  apply leads_past; [done|by apply sound_wake, sound_todo|done| |done|done].
  assert (horizon (set_wake (set_todo p rest) (clock p + n)) = clock p + n) as Hh.
  { unfold horizon. cbn. lia. }
  destruct (second <=? n) eqn:Hl; [|apply knows_wake; [|by apply knows_todo]].
  - apply Z.leb_le in Hl. split; [|apply Hk..]. intros x. rewrite Hh.
    apply (slot_settle D _ (clock p)); [exact (so_time _ _ Hs x)|lia|exact (knows_now p k x Hr Hk)].
  - rewrite Hh. change (horizon (set_todo p rest)) with (horizon p). rewrite ready_horizon by done. lia.
Qed.

(** The end of the thread has been waited for. *)
Lemma step_join o k' : todo p = Join o :: rest → check k (Join o) = Some k' →
  leads_to p k k' (Join o) rest (set_todo p rest).
Proof using He Hs Hk Hr.
  intros Et E. destruct Hr as [_ Hend]. rewrite Et in Hend. cbn [check] in E.
  pose proof (kn_objects _ _ Hk o) as Ho.
  destruct (k_status k o) as [| | |b| |]; try discriminate E. injection E as <-.
  apply leads_past; [done|by apply sound_todo|done| |done|done]. destruct Hk as [K1 K2 K3].
  split; [|done..]. intros x. cbn. destruct (decide (x = o)) as [->|]; [|apply K1].
  split; [apply Ho|done].
Qed.

(** Nobody works on what is freed. *)
Lemma step_delete o k' : check k (Delete o) = Some k' →
  made (objects p o) = true ∧
  leads_to p k k' (Delete o) rest
    (set_object (set_todo p rest) o (mkSlot false (run_ (objects p o)) (thread (objects p o)))).
Proof using He Hs Hk Hr HD.
  cbn [check]. intros E. destruct (_ && _) eqn:Hc in E; [|done]. injection E as <-.
  apply andb_prop in Hc as [Hpres Husers]. rewrite forallb_forall in Husers.
  rewrite <-present_made in Hpres. split; [done|].
  assert (∀ x, running (objects p x) → o ∉ uses x) as Hfree.
  { intros x Hx Hin. specialize (Husers x (proj1 (list_elem_of_In _ _) (all_objs_elem x))).
    apply orb_prop in Husers as [Hf|Hf].
    - destruct (slot_finished D _ _ _ _ _ (proj2 HD) (so_time _ _ Hs x) (knows_now p k x Hr Hk) Hf Hx).
    - by rewrite bool_decide_eq_true_2 in Hf. }
  assert (¬ running (objects p o)) as Hno.
  { intros Hx. apply (Hfree o Hx). destruct o as [[]|]; by left. }
  apply leads_past; [done| |done| |done|done].
  - split; intros x; cbn.
    + destruct (decide (x = o)) as [->|]; apply (so_time _ _ Hs).
    + intros Hx. destruct (decide (x = o)) as [->|Hne]; [done|]. apply intact_made. intros y Hy.
      cbn. destruct (decide (y = o)) as [->|]; [by destruct (Hfree x Hx)|].
      by apply (proj1 (intact_made p x) (so_intact _ _ Hs x Hx)).
  - apply knows_set; [by apply knows_todo|by split].
Qed.

Lemma main_step_ok a k' ans : todo p = a :: rest → check k a = Some k' →
  match ans with Again n => 0 ≤ n | _ => True end →
  ∃ p', main_step p ans = Some p' ∧ leads_to p k k' a rest p'.
Proof using He Hs Hk Hr HD.
  intros Et Ec Hans. unfold main_step. rewrite Et.
  assert (∀ o, (if present (k_status k o) then Some k else None) = Some k' →
    made (objects p o) = true ∧ k' = k) as Hcall.
  { intros o E. destruct (present _) eqn:Hp; [|done]. rewrite present_made. by injection E as <-. }
  assert (∀ n, 0 ≤ n → leads_to p k k' a rest (set_wake p (clock p + n))) as Hagain.
  { intros n Hn. split_and!; [by apply sound_wake|done|]. cbn. rewrite He. left. split; [|done].
    apply knows_wake; [|done]. rewrite ready_horizon by done. unfold horizon. cbn. lia. }
  destruct a as [o|o b|o c| |n|o|o|o n| |o|o| |].
  - eexists. split; [done|by apply step_new].
  - destruct (step_set_run o b k' Ec) as [-> H]. by eexists.
  - destruct (step_create o c k' Ec) as [-> H]. by eexists.
  - eexists. split; [done|by apply step_return].
  - eexists. split; [done|by apply step_sleep].
  - destruct (Hcall o Ec) as [-> ->]. eexists. split; [done|].
    apply leads_past; [done|by apply sound_todo|done|by apply knows_todo|done|done].
  - destruct (Hcall o Ec) as [-> ->].
    destruct ans as [|n|]; eexists; (split; [done|]); [|by apply Hagain|];
      (apply leads_past; [done|by apply sound_todo|done|by apply knows_todo|done|done]).
  - cbn [check] in Ec. destruct (0 <=? n) eqn:Hn; [|done]. destruct (Hcall o Ec) as [-> ->].
    eexists. split; [done|]. apply Hagain. by apply Z.leb_le.
  - injection Ec as <-. destruct ans as [|n|]; eexists; (split; [done|]);
      [| |by split_and!; [apply sound_exited| |]];
      (apply leads_past; [done|by apply sound_todo|done|by apply knows_todo|done|done]).
  - eexists. split; [done|by apply (step_join o)].
  - destruct (step_delete o k' Ec) as [-> H]. by eexists.
  - injection Ec as <-. eexists. split; [done|].
    apply leads_past; [done|by destruct Hs|done|by destruct Hk|done|done].
  - cbn [check] in Ec. destruct (forallb _ _) eqn:Hg; [|done]. eexists. split; [done|].
    split_and!; [by apply sound_exited|done|]. rewrite forallb_forall in Hg. intros o Ho.
    apply list_elem_of_In, Hg, negb_true_iff in Ho. by rewrite <-present_made in Ho.
Qed.
End Step.

(** ** The other events *)
Section Events.
Context (D : Nanos) (HD : 0 ≤ D < second).
Implicit Types (p : Process) (k : Known) (o : Obj).

(** What a running thread is, as main knows it. *)
Lemma thread_known p k o : knows p k → running (objects p o) →
  match thread (objects p o) with
  | Created core_id _ => core_id < 0 ∧ frame p = Some o
  | _ => True
  end.
Proof.
  intros Hk Hrun. pose proof (kn_objects _ _ Hk o) as Ho. unfold running in Hrun.
  destruct (thread (objects p o)) as [|c t|t|] eqn:Et; try done.
  destruct (k_status k o); cbn in Ho; unfold running in Ho; rewrite Et in Ho;
    [by destruct Ho as [_ []]|by destruct Ho|by destruct Ho as (_ & ? & ? & _)|
     by destruct Ho as (_ & _ & [])|by destruct Ho|by destruct Ho as [_ []]].
Qed.

(** The thread starts, or looks at [run_]. *)
Lemma slot_looked f h o s st now : slot_knows f h o s st → running s →
  slot_knows f h o (mkSlot (made s) (run_ s)
    match thread s with Looping _ => if run_ s then Looping now else Ended | _ => Looping now end) st.
Proof.
  intros H Hrun. unfold running in Hrun. destruct st; cbn in *; unfold running in H;
    destruct (thread s) as [|c t|t|]; try done; try tauto; try (by destruct H).
  - split; [apply H|]. by destruct (run_ s).
  - destruct H as (H1 & H2 & _). by rewrite H2.
Qed.

Lemma thread_step_ok p k o pinned : sound D p → knows p k → running (objects p o) →
  ∃ p', thread_step p o pinned = Some p' ∧ sound D p' ∧ knows p' k ∧
    todo p' = todo p ∧ handling p' = handling p ∧ exited p' = exited p.
Proof using HD.
  intros Hs Hk Hrun. pose proof (thread_known p k o Hk Hrun) as Hth.
  pose proof (slot_looked _ _ _ _ _ (clock p) (kn_objects _ _ Hk o) Hrun) as Hslot.
  set (s' := mkSlot _ _ _) in Hslot. exists (set_object p o s'). split_and!; try done.
  - unfold thread_step. rewrite (so_intact _ _ Hs o Hrun). subst s'. unfold running in Hrun.
    destruct (thread (objects p o)) as [|c t|t|]; try done.
    destruct Hth as [Hc ->]. rewrite bool_decide_eq_true_2 by done.
    assert ((c >=? 0) = false) as ->; [|done]. rewrite Z.geb_leb. apply Z.leb_gt. lia.
  - apply sound_set; [done| |done|done]. unfold s', on_time. cbn.
    destruct (thread (objects p o)); try lia. destruct (run_ _); [lia|done].
  - destruct Hk as [K1 K2 K3]. split; [|done..]. intros x. cbn.
    destruct (decide (x = o)) as [->|]; [done|apply K1].
Qed.

(** Time passes. *)
Lemma tick_ok p d : event_ok D p (Tick d) → life_inv D p →
  ∃ p', life_step p (Tick d) = Some p' ∧ life_inv D p'.
Proof.
  intros (He & Hd & Hall) [[S1 S2] [Ht Hg]]. rewrite Forall_forall in Hall.
  eexists. split; [done|]. split; [|split; [|exact Hg]].
  - split; [|done]. intros o. cbn. specialize (S1 o). specialize (Hall o (all_objs_elem o)).
    unfold on_time, in_time in *. destruct (thread (objects p o)); try done; lia.
  - intros _. destruct (Ht He) as (k & [K1 K2 K3] & Hc). exists k. split; [|done].
    split; [|done..]. intros o. apply (slot_later _ (horizon p)); [|apply K1].
    unfold horizon. cbn. lia.
Qed.

(** SIGINT. *)
Lemma handler_ext f g : (∀ o, f o = g o) → signal_handler f = signal_handler g.
Proof. intros E. unfold signal_handler. by rewrite !E. Qed.

Lemma main_checks_handler k l : main_checks k l = true → handler_checks k = true.
Proof. destruct l; cbn; by intros [? _]%andb_prop. Qed.

Lemma interrupt_ok p : event_ok D p Interrupt → life_inv D p →
  ∃ p', life_step p Interrupt = Some p' ∧ life_inv D p'.
Proof.
  intros (He & Hh) (Hs & Ht & Hg). cbn [life_step]. destruct (armed p) eqn:Ha.
  2: { eexists. split; [done|]. by split_and!; [apply sound_exited| |]. }
  eexists. split; [done|]. split; [by destruct Hs|]. split; [intros _|by cbn; rewrite He].
  destruct (Ht He) as (k & Hk & Hc). rewrite Hh in Hc. apply main_checks_handler in Hc.
  unfold handler_checks in Hc. rewrite (kn_armed _ _ Hk), Ha in Hc. cbn [negb orb] in Hc.
  exists (map_status unsettle k). split.
  - split; [|apply Hk|by rewrite <-Ha; apply Hk]. intros o. cbn.
    apply (slot_unsettle _ (horizon p)), Hk.
  - cbn [handling todo]. rewrite <-Hc. f_equal. apply handler_ext. intros o.
    apply (slot_made _ _ _ _ _ (kn_objects _ _ Hk o)).
Qed.

(** Main. *)
Lemma main_ok p ans : event_ok D p (MainAct ans) → life_inv D p →
  ∃ p', life_step p (MainAct ans) = Some p' ∧ life_inv D p'.
Proof using HD.
  intros (He & Hr & Hans) (Hs & Ht & _). destruct (Ht He) as (k & Hk & Hc).
  destruct (todo p) as [|a rest] eqn:Et; [by destruct Hr as [_ Hr]; rewrite Et in Hr|].
  assert (∃ k', check k a = Some k' ∧
    (final a = false → (if handling p then checks k' rest else main_checks k' rest) = true))
    as (k' & Ec & Hrest).
  { destruct (handling p); cbn in Hc; [|apply andb_prop in Hc as [_ Hc]];
      (destruct (check k a) as [k'|]; [|done]); exists k'; (split; [done|]); intros Hf;
      by rewrite Hf in Hc. }
  destruct (main_step_ok D HD p k Hs Hk Hr He rest a k' ans Et Ec Hans) as (p' & Hrun & Hs' & Hh & Hp').
  exists p'. split; [done|]. split; [done|].
  destruct (exited p') as [[]|]; [done..|]. split; [intros _|done].
  destruct Hp' as [(Hk' & Et')|(Hf & Hk' & Et')]; eexists; (split; [exact Hk'|]); rewrite Hh, Et'.
  - exact Hc.
  - by apply Hrest.
Qed.

Lemma event_keeps p ev : event_ok D p ev → life_inv D p →
  ∃ p', life_step p ev = Some p' ∧ life_inv D p'.
Proof using HD.
  intros Hok Hinv. destruct ev as [d|ans|o pinned|].
  - by apply tick_ok.
  - by apply main_ok.
  - destruct Hok as [He Hrun]. destruct Hinv as (Hs & Ht & _). destruct (Ht He) as (k & Hk & Hc).
    destruct (thread_step_ok p k o pinned Hs Hk Hrun) as (p' & H & Hs' & Hk' & E1 & E2 & E3).
    exists p'. split; [done|]. split; [done|]. split; [|by rewrite E3, He].
    intros _. exists k. by rewrite E1, E2.
  - by apply interrupt_ok.
Qed.

Lemma lives_inv p0 p : life_inv D p0 → lives D p0 p → life_inv D p.
Proof using HD.
  intros H0. induction 1 as [|p ev p' _ IH Hok Hrun]; [done|].
  destruct (event_keeps p ev Hok IH) as (p2 & E & ?). by assert (p' = p2) as -> by congruence.
Qed.

Lemma life_inv_new main : main_checks Known_new main = true → life_inv D (Process_new main).
Proof.
  intros Hm. split; [by split|]. split; [|done]. intros _. exists Known_new. split; [|done].
  split; [|done..]. intros o. split; [done|]. by intros [].
Qed.
End Events.

(** ** The way to the end *)
Definition no_forever (l : list Action) : bool :=
  forallb (λ a, match a with Forever _ _ => false | _ => true end) l.

Lemma lives_trans D p0 p p' : lives D p0 p → lives D p p' → lives D p0 p'.
Proof. intros H. induction 1; [done|]. by eapply lives_step. Qed.

Lemma main_step_todo p ans p' : main_step p ans = Some p' →
  todo p' = todo p ∨ ∃ a, todo p = a :: todo p'.
Proof.
  unfold main_step. destruct (todo p) as [|a rest] eqn:Et; [done|]. rewrite <-Et.
  intros H. destruct a, ans; repeat case_match; simplify_eq; cbn; eauto.
Qed.

Lemma step_no_forever p ev p' : no_forever (todo p) = true → life_step p ev = Some p' →
  no_forever (todo p') = true.
Proof.
  intros Hp. destruct ev as [d|ans|o pinned|]; cbn [life_step].
  - by intros [= <-].
  - intros [->|[a E]]%main_step_todo; [done|]. rewrite E in Hp. by apply andb_prop in Hp as [_ ?].
  - unfold thread_step. intros H. by repeat case_match; simplify_eq.
  - case_match; intros [= <-]; cbn [todo set_exited]; [|done]. unfold signal_handler. by repeat case_match.
Qed.

Lemma handler_no_forever D p0 p : handling p0 = false → lives D p0 p → handling p = true →
  no_forever (todo p) = true.
Proof.
  intros H0. induction 1 as [|p ev p' _ IH Hok Hrun]; [by rewrite H0|].
  intros Hh. destruct (handling p) eqn:Hp; [by eapply step_no_forever; [apply IH|]|].
  destruct ev as [d|ans|o pinned|]; cbn [life_step] in Hrun.
  - injection Hrun as <-. cbn in Hh. congruence.
  - unfold main_step in Hrun. repeat case_match; simplify_eq; cbn in Hh; congruence.
  - unfold thread_step in Hrun. repeat case_match; simplify_eq; cbn in Hh; congruence.
  - case_match; injection Hrun as <-; cbn in Hh |- *; [|congruence].
    unfold signal_handler. by repeat case_match.
Qed.

Section Progress.
Context (D : Nanos) (HD : 0 < D < second).
Implicit Types (p : Process) (o : Obj).

Let HD' : 0 ≤ D < second.
Proof. lia. Qed.

(** A thread that has just looked, and goes on. *)
Definition fresh (now : Nanos) (s : Slot) : Prop :=
  match thread s with
  | NoThread | Ended => True
  | Created _ _ => False
  | Looping t => t = now ∧ run_ s = true
  end.

Record same_main (p p' : Process) : Prop := {
  sm_clock : clock p' = clock p;
  sm_wake : wake p' = wake p;
  sm_todo : todo p' = todo p;
  sm_exited : exited p' = exited p
}.

(** One thread looks, once or twice; the others do nothing. *)
Lemma one_looks p o : life_inv D p → exited p = None →
  ∃ p', lives D p p' ∧ life_inv D p' ∧ same_main p p' ∧ fresh (clock p) (objects p' o) ∧
    ∀ x, x ≠ o → objects p' x = objects p x.
Proof using HD'.
  intros Hinv He. destruct (decide (running (objects p o))) as [Hrun|Hno].
  2: { exists p. split_and!; [constructor|done|done| |done]. unfold fresh, running in *.
       by destruct (thread (objects p o)). }
  assert (∀ q, life_inv D q → exited q = None → running (objects q o) → ∃ q',
    lives D q q' ∧ life_inv D q' ∧ same_main q q' ∧ (∀ x, x ≠ o → objects q' x = objects q x) ∧
    thread (objects q' o) = match thread (objects q o) with
                            | Looping _ => if run_ (objects q o) then Looping (clock q) else Ended
                            | _ => Looping (clock q) end ∧
    run_ (objects q' o) = run_ (objects q o)) as Hlook.
  { clear -HD'. intros q Hinv He Hrun.
    destruct (event_keeps D HD' q (ThreadAct o true)) as (q' & Hq & Hinv'); [done..|].
    exists q'. split; [by eapply (lives_step D q q (ThreadAct o true)); [constructor|split|]|].
    cbn [life_step] in Hq. unfold thread_step in Hq. unfold running in Hrun.
    destruct (thread (objects q o)) as [|c t|t|]; try done; repeat case_match; simplify_eq;
      try (by rewrite andb_false_r in *); (split; [done|split; [done|split]]); cbn;
      rewrite ?decide_True by done; try done; intros x Hx; by rewrite decide_False. }
  destruct (Hlook p Hinv He Hrun) as (p1 & L1 & I1 & [A1 A2 A3 A4] & O1 & T1 & R1).
  destruct (thread (objects p o)) as [|c t|t|] eqn:Et; try (by unfold running in Hrun; rewrite Et in Hrun).
  - destruct (run_ (objects p1 o)) eqn:Er.
    { exists p1. split_and!; try done. unfold fresh. by rewrite T1. }
    destruct (Hlook p1 I1) as (p2 & L2 & I2 & [B1 B2 B3 B4] & O2 & T2 & R2); [congruence| |].
    { unfold running. by rewrite T1. }
    exists p2. rewrite T1, Er in T2. split_and!; [by eapply lives_trans|done|split; congruence| |].
    + unfold fresh. by rewrite T2.
    + intros x Hx. by rewrite O2, O1.
  - exists p1. split_and!; try done. unfold fresh. rewrite T1, R1. by destruct (run_ (objects p o)).
Qed.

Lemma all_look p : life_inv D p → exited p = None →
  ∃ p', lives D p p' ∧ life_inv D p' ∧ same_main p p' ∧ ∀ o, fresh (clock p) (objects p' o).
Proof using HD'.
  intros Hinv He. assert (∀ l : list Obj, ∃ p', lives D p p' ∧ life_inv D p' ∧ same_main p p' ∧
    ∀ o, o ∈ l → fresh (clock p) (objects p' o)) as H.
  { induction l as [|o l (p1 & L1 & I1 & [A1 A2 A3 A4] & H1)].
    { exists p. split_and!; [constructor|done|done|]. intros o Ho. by apply elem_of_nil in Ho. }
    destruct (one_looks p1 o I1) as (p2 & L2 & I2 & [B1 B2 B3 B4] & F2 & O2); [congruence|].
    exists p2. split_and!; [by eapply lives_trans|done|split; congruence|].
    intros x Hx. destruct (decide (x = o)) as [->|Hne]; [by rewrite A1 in F2|].
    rewrite O2 by done. apply H1. by apply elem_of_cons in Hx as [|]. }
  destruct (H all_objs) as (p' & ? & ? & ? & Hf). exists p'. split_and!; [done..|].
  intros o. apply Hf, all_objs_elem.
Qed.

(** Main's sleep ends. *)
Lemma awake p : life_inv D p → exited p = None →
  ∃ p', lives D p p' ∧ life_inv D p' ∧ todo p' = todo p ∧ exited p' = None ∧
    wake p' ≤ clock p' ∧ ∀ o, fresh (clock p') (objects p' o).
Proof using HD HD'.
  remember (Z.to_nat (wake p - clock p)) as n eqn:En. revert p En.
  induction (lt_wf n) as [n _ IH]. intros p -> Hinv He.
  destruct (all_look p Hinv He) as (p1 & L1 & I1 & [A1 A2 A3 A4] & F1).
  destruct (decide (wake p ≤ clock p)) as [Hw|Hw].
  { exists p1. rewrite A1, A2, A3, A4. by split_and!. }
  set (d := D `min` (wake p - clock p)).
  assert (event_ok D p1 (Tick d)) as Hok.
  { split; [congruence|]. split; [lia|]. apply Forall_forall. intros o _. specialize (F1 o).
    unfold fresh, in_time in *. destruct (thread (objects p1 o)); try done. destruct F1; lia. }
  destruct (event_keeps D HD' p1 _ Hok I1) as (p2 & E2 & I2). injection E2 as E2.
  assert (todo p2 = todo p ∧ exited p2 = None ∧ wake p2 = wake p ∧ clock p2 = clock p + d) as (B1 & B2 & B3 & B4).
  { rewrite <-E2. cbn. by rewrite A1, A2, A3, A4. }
  destruct (IH (Z.to_nat (wake p2 - clock p2))) with p2 as (p' & L' & I' & C1 & C'); [lia|done..|].
  exists p'. split_and!; try apply C'; [|done|congruence].
  eapply lives_trans; [|exact L']. by eapply (lives_step D p p1 (Tick d)); [| |rewrite <-E2].
Qed.

(** Main goes on. *)
Lemma main_goes p a rest : todo p = a :: rest → main_ready p → life_inv D p → exited p = None →
  (∀ o n, a ≠ Forever o n) →
  ∃ p', lives D p p' ∧ life_inv D p' ∧
    (exited p' = Some true ∨ exited p' = None ∧ todo p' = rest).
Proof using HD'.
  intros Et Hr Hinv He Hf.
  destruct (event_keeps D HD' p (MainAct Go)) as (p' & E & I'); [done..|].
  exists p'. split; [by eapply (lives_step D p p (MainAct Go)); [constructor|split|]|]. split; [done|].
  cbn [life_step] in E. unfold main_step in E. rewrite Et in E.
  destruct a; repeat case_match; simplify_eq; cbn; eauto. by destruct (Hf o n).
Qed.

(** A thread that main joins has been told to end. *)
Lemma join_ready p o rest : life_inv D p → exited p = None → todo p = Join o :: rest →
  fresh (clock p) (objects p o) → thread (objects p o) = Ended.
Proof.
  intros (_ & Ht & _) He Et Hf. destruct (Ht He) as (k & Hk & Hc).
  assert (is_Some (check k (Join o))) as [k' E].
  { rewrite Et in Hc. destruct (handling p); [|apply andb_prop in Hc as [_ Hc]]; cbn [checks main_checks] in Hc;
      by destruct (check k (Join o)). }
  pose proof (kn_objects _ _ Hk o) as Ho. cbn [check] in E.
  destruct (k_status k o) as [| | |b| |]; try discriminate E. destruct Ho as (_ & Hrun & Ho).
  unfold fresh in Hf. destruct (thread (objects p o)); try done. destruct Hf. congruence.
Qed.

Lemma reaches_end p : life_inv D p → exited p = None → no_forever (todo p) = true →
  ∃ p', lives D p p' ∧ life_inv D p' ∧ exited p' = Some true.
Proof using HD HD'.
  remember (todo p) as l eqn:El. revert p El. induction l as [|a rest IH]; intros p El Hinv He Hnf.
  { destruct Hinv as (_ & Ht & _). destruct (Ht He) as (k & _ & Hc). rewrite <-El in Hc.
    destruct (handling p); [done|]. by apply andb_prop in Hc as [_ Hc]. }
  apply andb_prop in Hnf as [Ha Hnf].
  destruct (awake p Hinv He) as (p1 & L1 & I1 & T1 & E1 & W1 & F1). rewrite <-El in T1.
  assert (main_ready p1) as Hr.
  { split; [done|]. rewrite T1. destruct a; try done. by eapply join_ready. }
  destruct (main_goes p1 a rest T1 Hr I1 E1) as (p2 & L2 & I2 & [E2|[E2 T2]]).
  { intros o n ->. done. }
  - exists p2. split; [by eapply lives_trans|done].
  - destruct (IH p2) as (p' & L' & ?); [done..|]. exists p'. split; [|done].
    eapply lives_trans; [|exact L']. by eapply lives_trans.
Qed.
End Progress.

(** ** Schedules *)
Lemma life_run_lives D p evs p' : life_run D p evs = Some p' → lives D p p'.
Proof.
  revert p. induction evs as [|ev evs IH]; intros p; cbn [life_run]; [intros [= ->]; constructor|].
  case_decide as Hok; [|done]. intros (q & Hq & Hrun)%bind_Some.
  eapply lives_trans; [by eapply (lives_step D p p ev); [constructor|..]|by apply IH].
Qed.

(** The thread has something to do at this instant. *)
Definition due (p : Process) (o : Obj) : bool :=
  match thread (objects p o) with
  | Created _ _ => true
  | Looping t => t <? clock p
  | NoThread | Ended => false
  end.

(** A schedule: main whenever it can, then the threads, those that dawdle only when they must;
    time passes in steps of a half second.  It ends with the process, or at an event that
    faults. *)
Definition pick (D : Nanos) (dawdles : Obj → bool) (p : Process) : LifeEvent :=
  if decide (main_ready p) then MainAct Go
  else match filter (λ o, due p o && negb (dawdles o) = true) all_objs with
       | o :: _ => ThreadAct o true
       | [] =>
           if decide (event_ok D p (Tick (second / 2))) then Tick (second / 2)
           else match filter (λ o, due p o = true) all_objs with
                | o :: _ => ThreadAct o true
                | [] => Tick (second / 2)
                end
       end.
Fixpoint schedule (D : Nanos) (dawdles : Obj → bool) (n : nat) (p : Process) : list LifeEvent :=
  match n with
  | O => []
  | S n =>
      let ev := pick D dawdles p in
      if decide (event_ok D p ev) then
        match life_step p ev with Some p' => ev :: schedule D dawdles n p' | None => [] end
      else []
  end.

Definition none_dawdles (_ : Obj) : bool := false.
Definition process_after (D : Nanos) (p : Process) (evs : list LifeEvent) : Process :=
  default p (life_run D p evs).

(** The exchange is up; SIGINT; its last step before [exit]. *)
Definition brisk : Nanos := 900000000.
Definition exchange_up : Process :=
  let p := Process_new exchange_main in process_after brisk p (schedule brisk none_dawdles 700 p).
Definition exchange_interrupted : Process := default exchange_up (life_step exchange_up Interrupt).

(** The first [n] events after SIGINT. *)
Definition exchange_ending (D : Nanos) (dawdles : Obj → bool) (n : nat) : Process :=
  process_after D exchange_interrupted (schedule D dawdles n exchange_interrupted).

Lemma process_after_lives D p evs : is_Some (life_run D p evs) → lives D p (process_after D p evs).
Proof. intros [p' E]. unfold process_after. rewrite E. by apply life_run_lives in E. Qed.

Lemma some_default {A} (d : A) (m : option A) : is_Some m → m = Some (default d m).
Proof. by intros [x ->]. Qed.

Lemma exchange_up_lives : lives brisk (Process_new exchange_main) exchange_up.
Proof. apply process_after_lives, (bool_decide_unpack _). by vm_compute. Qed.

Lemma exchange_interrupted_lives : lives brisk (Process_new exchange_main) exchange_interrupted.
Proof.
  apply (lives_step brisk _ exchange_up Interrupt); [apply exchange_up_lives| |].
  - apply (bool_decide_unpack _). by vm_compute.
  - apply some_default, (bool_decide_unpack _). by vm_compute.
Qed.

(** ** Theorems *)
Definition is_program (main : list Action) : Prop := main = exchange_main ∨ main = trading_main.

Lemma program_inv D main p : 0 ≤ D < second → is_program main →
  lives D (Process_new main) p → life_inv D p.
Proof.
  intros HD Hm. apply (lives_inv D HD), life_inv_new.
  destruct Hm as [->| ->]; [apply exchange_checks|apply trading_checks].
Qed.

(** C17: From the start of either program to its exit, with SIGINT at any instant, as long as
    every thread reaches its function and its next look at [run_] in less than a second: no
    step touches an object that is not there, whatever a running thread works on exists, and
    when the process exits with success everything the global pointers named is deleted. *)
Theorem threads_keep_their_objects D main p : 0 ≤ D < second → is_program main →
  lives D (Process_new main) p →
  (∀ ev, event_ok D p ev → is_Some (life_step p ev)) ∧
  (∀ o x, running (objects p o) → x ∈ uses o → made (objects p x) = true) ∧
  (exited p = Some true → released p).
Proof.
  intros HD Hm Hp. pose proof (program_inv D main p HD Hm Hp) as Hinv. split; [|split].
  - intros ev Hev. destruct (event_keeps D HD p ev Hev Hinv) as (p' & -> & _). by eexists.
  - intros o x Hrun Hx. destruct Hinv as [[_ Hi] _]. by apply (intact_made p o); [apply Hi|].
  - apply Hinv.
Qed.

(** Forty events after SIGINT the matching engine's thread has still its engine. *)
Lemma threads_keep_their_objects_witness :
  running (objects exchange_interrupted (Component MATCHING_ENGINE)) ∧
  made (objects exchange_interrupted (LoggerOf MATCHING_ENGINE)) = true ∧
  is_Some (life_step exchange_interrupted (ThreadAct (Component MATCHING_ENGINE) true)).
Proof.
  destruct (threads_keep_their_objects brisk exchange_main exchange_interrupted) as (H1 & H2 & _).
  - by vm_compute.
  - by left.
  - exact exchange_interrupted_lives.
  - assert (running (objects exchange_interrupted (Component MATCHING_ENGINE))) as Hrun by by vm_compute.
    split; [exact Hrun|]. split.
    + apply (H2 (Component MATCHING_ENGINE)); [exact Hrun|]. apply (bool_decide_unpack _). by vm_compute.
    + apply H1. apply (bool_decide_unpack _). by vm_compute.
Defined.

(** C18: The exchange after SIGINT, and the trading program at any time, can always end: main
    never waits in vain for its sleep, a join or a queue, and the way goes to an exit with
    success. *)
Theorem programs_end D main p : 0 < D < second → is_program main →
  lives D (Process_new main) p → exited p = None →
  main = trading_main ∨ handling p = true →
  ∃ p', lives D p p' ∧ exited p' = Some true ∧ released p' ∧
    ∀ o x, x ∈ globals → x ∈ uses o → ¬ running (objects p' o).
Proof.
  intros HD Hm Hp He Hend. pose proof (program_inv D main p ltac:(lia) Hm Hp) as Hinv.
  assert (no_forever (todo p) = true) as Hnf.
  { destruct Hend as [->|Hh]; [|by apply (handler_no_forever D (Process_new main) p)]. clear -Hp.
    induction Hp as [|p ev p' _ IH _ Hrun]; [by vm_compute|]. by eapply step_no_forever. }
  destruct (reaches_end D HD p Hinv He Hnf) as (p' & Hl & [[_ Hi] [_ Hg]] & He').
  exists p'. split; [done|]. split; [done|]. specialize (Hg He'). split; [done|].
  intros o x Hx Hin Hrun. specialize (Hi o Hrun). rewrite intact_made in Hi. specialize (Hg x Hx).
  by rewrite (Hi x Hin) in Hg.
Qed.

(** The exchange has just been interrupted. *)
Lemma programs_end_witness : ∃ p', lives brisk exchange_interrupted p' ∧ exited p' = Some true.
Proof.
  destruct (programs_end brisk exchange_main exchange_interrupted) as (p' & H1 & H2 & _).
  - by vm_compute.
  - by left.
  - exact exchange_interrupted_lives.
  - by vm_compute.
  - right. by vm_compute.
  - exists p'. by split.
Defined.

(** One run to the end: SIGINT comes at 35.5 seconds, [exit] at 63. *)
Example exchange_ends :
  (clock exchange_interrupted, exited (exchange_ending brisk none_dawdles 700),
   clock (exchange_ending brisk none_dawdles 700)) = (35500000000, Some true, 63000000000).
Proof. by vm_compute. Qed.

(** *** When a turn takes longer *)
Definition engine_dawdles (o : Obj) : bool := bool_decide (o = Component MATCHING_ENGINE).
Definition slow : Nanos := 3 * second.
Definition slow_up : Process :=
  let p := Process_new exchange_main in process_after slow p (schedule slow none_dawdles 700 p).
Definition slow_interrupted : Process := default slow_up (life_step slow_up Interrupt).
Definition slow_ending : Process :=
  process_after slow slow_interrupted (schedule slow engine_dawdles 222 slow_interrupted).

Definition logger_dawdles (o : Obj) : bool := bool_decide (o = LoggerOf MAIN).
Definition slow_start : Process :=
  let p := Process_new exchange_main in process_after slow p (schedule slow logger_dawdles 8 p).

Definition stuck_at (D : Nanos) (p : Process) (o : Obj) : Prop :=
  event_ok D p (ThreadAct o true) ∧ life_step p (ThreadAct o true) = None.
#[export] Instance stuck_at_dec D p o : Decision (stuck_at D p o).
Proof. unfold stuck_at. destruct (life_step p _); apply _. Defined.

(** One second is all there is to spare: if a turn may take three, the matching engine is
    freed under its thread after SIGINT, and a new thread may read the parameters of
    [createAndStartThread] after it has returned. *)
Theorem slow_turns_touch_freed_memory :
  (∃ p, lives slow (Process_new exchange_main) p ∧ stuck_at slow p (Component MATCHING_ENGINE)) ∧
  (∃ p, lives slow (Process_new exchange_main) p ∧ stuck_at slow p (LoggerOf MAIN)).
Proof.
  split; [exists slow_ending|exists slow_start]; (split; [|apply (bool_decide_unpack _); by vm_compute]).
  - apply (lives_trans _ _ slow_interrupted); [apply (lives_trans _ _ slow_up)|].
    + apply process_after_lives, (bool_decide_unpack _). by vm_compute.
    + apply (lives_step slow _ slow_up Interrupt); [constructor| |].
      * apply (bool_decide_unpack _). by vm_compute.
      * apply some_default, (bool_decide_unpack _). by vm_compute.
    + apply process_after_lives, (bool_decide_unpack _). by vm_compute.
  - apply process_after_lives, (bool_decide_unpack _). by vm_compute.
Qed.
