(* ===== verification/TimeUtils.v ===== *)
(** * TimeUtils: the time as a string

    [common/time_utils.h].  [getCurrentTimeStr] puts the text of [ctime] into the caller's
    string and overwrites its last character, the newline, with a zero: the string keeps its
    length, and ends at the zero for everyone who reads it as a C string. *)
From S2P Require Import Prelude Types SnapshotSynthesizer Text.
From Stdlib Require Import Ascii.

Definition NANOS_TO_MICROS : Z := 1000.
Definition MICROS_TO_MILLIS : Z := 1000.
Definition MILLIS_TO_SECS : Z := 1000.
Definition NANOS_TO_MILLIS : Z := NANOS_TO_MICROS * MICROS_TO_MILLIS.

Definition NUL : ascii := "000".
Definition LF : string := String "010" EmptyString.

(** A string read through [c_str()]: up to the first zero. *)
Fixpoint c_str (s : string) : string :=
  match s with
  | EmptyString => EmptyString
  | String c s => if Ascii.eqb c NUL then EmptyString else String c (c_str s)
  end.

(** [s.at(s.length() - 1) = c], where [s] is not empty. *)
Fixpoint set_last (s : string) (c : ascii) : string :=
  match s with
  | EmptyString => EmptyString
  | String _ EmptyString => String c EmptyString
  | String a s => String a (set_last s c)
  end.

Section Time.
(** [ctime] of the C library, of a [time_t] in seconds. *)
Context (ctime : Z → string).

(** At the instant [now] of [system_clock], in nanoseconds; [to_time_t] drops the fraction. *)
Definition getCurrentTimeStr (now : Nanos) : string :=
  let time := Z.quot now (NANOS_TO_MILLIS * MILLIS_TO_SECS) in
  let time_str := ctime time in
  if String.eqb time_str EmptyString then time_str else set_last time_str NUL.

(** [ctime] returns a line: printable text and a newline. *)
Definition printable (s : string) : bool :=
  forallb (λ c, (32 <=? N_of_ascii c)%N) (String.list_ascii_of_string s).
Definition ctime_ok : Prop := ∀ t, ∃ text, ctime t = text +:+ LF ∧ printable text = true.
End Time.

Example same_second : NANOS_TO_MILLIS * MILLIS_TO_SECS = NANOS_TO_SECS.
Proof. reflexivity. Qed.

Lemma set_last_line s c : set_last (s +:+ LF) c = s +:+ String c EmptyString.
Proof.
  induction s as [|a s IH]; [done|]. change (String a s +:+ ?t) with (String a (s +:+ t)).
  cbn [set_last]. rewrite IH. by destruct s.
Qed.

Lemma c_str_printable s t : printable s = true → c_str (s +:+ String NUL t) = s.
Proof.
  unfold printable. induction s as [|a s IH]; [done|]. intros [Ha Hs]%andb_prop.
  change (String a s +:+ String NUL t) with (String a (s +:+ String NUL t)). cbn [c_str].
  destruct (Ascii.eqb_spec a NUL) as [->|_]; [done|]. by rewrite IH.
Qed.

Lemma length_line s c : String.length (s +:+ String c EmptyString) = S (String.length s).
Proof. induction s as [|a s IH]; [done|]. exact (f_equal S IH). Qed.

(** The string has the newline's place taken by the zero, so as a C string, which is how the
    logger takes it, it is the text alone: no line of a log is broken by its time.  Written
    to a stream, as the logger's destructor does, the zero comes along. *)
Theorem time_has_no_newline ctime now : ctime_ok ctime →
  ∃ text, ctime (Z.quot now NANOS_TO_SECS) = text +:+ LF ∧ printable text = true ∧
    c_str (getCurrentTimeStr ctime now) = text ∧
    getCurrentTimeStr ctime now = text +:+ String NUL EmptyString ∧
    String.length (getCurrentTimeStr ctime now) = S (String.length text).
Proof.
  intros Hok. destruct (Hok (Z.quot now NANOS_TO_SECS)) as (text & E & Hp). exists text.
  split; [done|]. split; [done|]. unfold getCurrentTimeStr. rewrite same_second, E.
  assert (String.eqb (text +:+ LF) EmptyString = false) as -> by by destruct text.
  rewrite set_last_line. split; [by apply c_str_printable|]. split; [done|apply length_line].
Qed.

(** The epoch, all the time. *)
Definition epoch_ctime (_ : Z) : string := "Thu Jan  1 00:00:00 1970" +:+ LF.
Lemma epoch_ctime_ok : ctime_ok epoch_ctime.
Proof. intros t. by exists "Thu Jan  1 00:00:00 1970"%string. Qed.

Lemma time_has_no_newline_witness : ∃ text,
  c_str (getCurrentTimeStr epoch_ctime 1500000000) = text ∧ printable text = true ∧
  String.length text = 24%nat.
Proof.
  destruct (time_has_no_newline epoch_ctime 1500000000 epoch_ctime_ok) as (text & _ & Hp & H1 & _ & H2).
  exists text. split; [exact H1|]. split; [exact Hp|]. apply (f_equal pred) in H2. rewrite <-H1. by vm_compute.
Defined.
