(* ===== verification/LogCalls.v ===== *)
(** * LogCalls: every log call of the program

    [Logger::log] ends the process when a call has an argument too many or too few, at run
    time.  Here are all calls of both programs, by file, with their formats and the types of
    their arguments; each begins with the place in the source and the time. *)
From S2P Require Import Prelude Types SnapshotSynthesizer Text LFQueue Logger TimeUtils.
From Stdlib Require Import Ascii.

(** The overload of [pushValue] an argument goes to. *)
Inductive ArgType := TEXT | INT | UINT | LONG | ULONG | DBL.
Definition has_type (ty : ArgType) (v : LogValue) : Prop :=
  match ty, v with
  | TEXT, CStr _ | INT, Prim (INTEGER _) | UINT, Prim (UNSIGNED_INTEGER _)
  | LONG, Prim (LONG_INTEGER _) | ULONG, Prim (UNSIGNED_LONG_INTEGER _) | DBL, Prim (DOUBLE _) => True
  | _, _ => False
  end.

(** A call: its line, its format, and its arguments after [__FILE__], [__LINE__],
    [__FUNCTION__] and the time. *)
Record LogCall := mkLogCall {
  lc_line : Z;
  lc_format : string;
  lc_args : list ArgType
}.
#[export] Instance ArgType_eq_dec : EqDecision ArgType.
Proof. solve_decision. Defined.
#[export] Instance LogCall_eq_dec : EqDecision LogCall.
Proof. solve_decision. Defined.

(** ** The calls *)
Definition tcp_socket_cpp_logs : list LogCall :=
  [mkLogCall 41 ("%:% %() % read socket:% len:% utime:% ktime:% diff:%" +:+ LF) [INT; ULONG; LONG; LONG; LONG];
   mkLogCall 49 ("%:% %() % send socket:% len:%" +:+ LF) [INT; LONG]].
Definition mcast_socket_cpp_logs : list LogCall :=
  [mkLogCall 29 ("%:% %() % read socket:% len:%" +:+ LF) [INT; ULONG];
   mkLogCall 38 ("%:% %() % send socket:% len:%" +:+ LF) [INT; LONG]].
Definition socket_utils_h_logs : list LogCall :=
  [mkLogCall 98 ("%:% %() % cfg:%" +:+ LF) [TEXT]].
Definition tcp_server_cpp_logs : list LogCall :=
  [mkLogCall 51 ("%:% %() % EPOLLIN listener_socket:%" +:+ LF) [INT];
   mkLogCall 56 ("%:% %() % EPOLLIN socket:%" +:+ LF) [INT];
   mkLogCall 63 ("%:% %() % EPOLLOUT socket:%" +:+ LF) [INT];
   mkLogCall 70 ("%:% %() % EPOLLERR socket:%" +:+ LF) [INT];
   mkLogCall 79 ("%:% %() % have_new_connection" +:+ LF) [];
   mkLogCall 90 ("%:% %() % accepted socket:%" +:+ LF) [INT]].
Definition matching_engine_h_logs : list LogCall :=
  [mkLogCall 51 ("%:% %() % Sending %" +:+ LF) [TEXT];
   mkLogCall 59 ("%:% %() % Sending %" +:+ LF) [TEXT];
   mkLogCall 67 ("%:% %() %" +:+ LF) [];
   mkLogCall 71 ("%:% %() % Processing %" +:+ LF) [TEXT]].
Definition me_order_book_cpp_logs : list LogCall :=
  [mkLogCall 12 ("%:% %() % OrderBook" +:+ LF +:+ "%" +:+ LF) [TEXT]].
Definition market_data_publisher_cpp_logs : list LogCall :=
  [mkLogCall 16 ("%:% %() %" +:+ LF) [];
   mkLogCall 21 ("%:% %() % Sending seq:% %" +:+ LF) [ULONG; TEXT]].
Definition snapshot_synthesizer_cpp_logs : list LogCall :=
  [mkLogCall 77 ("%:% %() % %" +:+ LF) [TEXT];
   mkLogCall 90 ("%:% %() % %" +:+ LF) [TEXT];
   mkLogCall 97 ("%:% %() % %" +:+ LF) [TEXT];
   mkLogCall 106 ("%:% %() % %" +:+ LF) [TEXT];
   mkLogCall 110 ("%:% %() % Published snapshot of % orders." +:+ LF) [ULONG];
   mkLogCall 115 ("%:% %() %" +:+ LF) [];
   mkLogCall 118 ("%:% %() % Processing %" +:+ LF) [TEXT]].
Definition fifo_sequencer_h_logs : list LogCall :=
  [mkLogCall 34 ("%:% %() % Processing % requests." +:+ LF) [ULONG];
   mkLogCall 41 ("%:% %() % Writing RX:% Req:% to FIFO." +:+ LF) [LONG; TEXT]].
Definition order_server_h_logs : list LogCall :=
  [mkLogCall 27 ("%:% %() %" +:+ LF) [];
   mkLogCall 35 ("%:% %() % Processing cid:% seq:% %" +:+ LF) [UINT; ULONG; TEXT];
   mkLogCall 52 ("%:% %() % Received socket:% len:% rx:%" +:+ LF) [INT; ULONG; LONG];
   mkLogCall 59 ("%:% %() % Received %" +:+ LF) [TEXT];
   mkLogCall 66 ("%:% %() % Received ClientRequest from ClientId:% on different socket:% expected:%" +:+ LF) [UINT; INT; INT];
   mkLogCall 74 ("%:% %() % Incorrect sequence number. ClientId:% SeqNum expected:% received:%" +:+ LF) [UINT; ULONG; ULONG]].
Definition exchange_main_cpp_logs : list LogCall :=
  [mkLogCall 46 ("%:% %() % Starting Matching Engine..." +:+ LF) [];
   mkLogCall 54 ("%:% %() % Starting Market Data Publisher..." +:+ LF) [];
   mkLogCall 61 ("%:% %() % Starting Order Server..." +:+ LF) [];
   mkLogCall 66 ("%:% %() % Sleeping for a few milliseconds.." +:+ LF) []].
Definition market_data_consumer_cpp_logs : list LogCall :=
  [mkLogCall 28 ("%:% %() %" +:+ LF) [];
   mkLogCall 54 ("%:% %() % Returning because have not seen a SNAPSHOT_START yet." +:+ LF) [];
   mkLogCall 65 ("%:% %() % % => %" +:+ LF) [ULONG; TEXT];
   mkLogCall 69 ("%:% %() % Detected gap in snapshot stream expected:% found:% %." +:+ LF) [ULONG; ULONG; TEXT];
   mkLogCall 82 ("%:% %() % Returning because found gaps in snapshot stream." +:+ LF) [];
   mkLogCall 90 ("%:% %() % Returning because have not seen a SNAPSHOT_END yet." +:+ LF) [];
   mkLogCall 99 ("%:% %() % Checking next_exp:% vs. seq:% %." +:+ LF) [ULONG; ULONG; TEXT];
   mkLogCall 106 ("%:% %() % Detected gap in incremental stream expected:% found:% %." +:+ LF) [ULONG; ULONG; TEXT];
   mkLogCall 112 ("%:% %() % % => %" +:+ LF) [ULONG; TEXT];
   mkLogCall 124 ("%:% %() % Returning because have gaps in queued incrementals." +:+ LF) [];
   mkLogCall 136 ("%:% %() % Recovered % snapshot and % incremental orders." +:+ LF) [ULONG; ULONG];
   mkLogCall 150 ("%:% %() % Packet drops on snapshot socket. Received for a 2nd time:%" +:+ LF) [TEXT];
   mkLogCall 159 ("%:% %() % size snapshot:% incremental:% % => %" +:+ LF) [ULONG; ULONG; ULONG; TEXT];
   mkLogCall 171 ("%:% %() % WARN Not expecting snapshot messages." +:+ LF) [];
   mkLogCall 181 ("%:% %() % Received % socket len:% %" +:+ LF) [TEXT; ULONG; TEXT];
   mkLogCall 190 ("%:% %() % Packet drops on % socket. SeqNum expected:% received:%" +:+ LF) [TEXT; ULONG; ULONG];
   mkLogCall 197 ("%:% %() % %" +:+ LF) [TEXT]].
Definition order_gateway_cpp_logs : list LogCall :=
  [mkLogCall 15 ("%:% %() %" +:+ LF) [];
   mkLogCall 20 ("%:% %() % Sending cid:% seq:% %" +:+ LF) [UINT; ULONG; TEXT];
   mkLogCall 33 ("%:% %() % Received socket:% len:% %" +:+ LF) [INT; ULONG; LONG];
   mkLogCall 39 ("%:% %() % Received %" +:+ LF) [TEXT];
   mkLogCall 42 ("%:% %() % ERROR Incorrect client id. ClientId expected:% received:%." +:+ LF) [UINT; UINT];
   mkLogCall 47 ("%:% %() % ERROR Incorrect sequence number. ClientId:%. SeqNum expected:% received:%." +:+ LF) [UINT; ULONG; ULONG]].
Definition feature_engine_h_logs : list LogCall :=
  [mkLogCall 25 ("%:% %() % ticker:% price:% side:% mkt-price:% agg-trade-ratio:%" +:+ LF) [UINT; TEXT; TEXT; DBL; DBL];
   mkLogCall 37 ("%:% %() % % mkt-price:% agg-trade-ratio:%" +:+ LF) [TEXT; DBL; DBL]].
Definition liquidity_taker_h_logs : list LogCall :=
  [mkLogCall 20 ("%:% %() % ticker:% price:% side:%" +:+ LF) [UINT; TEXT; TEXT];
   mkLogCall 27 ("%:% %() % %" +:+ LF) [TEXT];
   mkLogCall 34 ("%:% %() % % agg-qty-ratio:%" +:+ LF) [TEXT; DBL];
   mkLogCall 52 ("%:% %() % %" +:+ LF) [TEXT]].
Definition market_maker_h_logs : list LogCall :=
  [mkLogCall 20 ("%:% %() % ticker:% price:% side:%" +:+ LF) [UINT; TEXT; TEXT];
   mkLogCall 28 ("%:% %() % % fair-price:%" +:+ LF) [TEXT; DBL];
   mkLogCall 44 ("%:% %() % %" +:+ LF) [TEXT];
   mkLogCall 50 ("%:% %() % %" +:+ LF) [TEXT]].
Definition market_order_book_cpp_logs : list LogCall :=
  [mkLogCall 11 ("%:% %() % OrderBook" +:+ LF +:+ "%" +:+ LF) [TEXT];
   mkLogCall 76 ("%:% %() % % %") [TEXT; TEXT]].
Definition order_manager_cpp_logs : list LogCall :=
  [mkLogCall 14 ("%:% %() % Sent new order % for %" +:+ LF) [TEXT; TEXT];
   mkLogCall 28 ("%:% %() % Sent cancel % for %" +:+ LF) [TEXT; TEXT]].
Definition order_manager_h_logs : list LogCall :=
  [mkLogCall 25 ("%:% %() % %" +:+ LF) [TEXT];
   mkLogCall 28 ("%:% %() % %" +:+ LF) [TEXT];
   mkLogCall 76 ("%:% %() % Ticker:% Side:% Qty:% RiskCheckResult:%" +:+ LF) [TEXT; TEXT; TEXT; TEXT]].
Definition position_keeper_h_logs : list LogCall :=
  [mkLogCall 77 ("%:% %() % % %" +:+ LF) [TEXT; TEXT];
   mkLogCall 101 ("%:% %() % % %" +:+ LF) [TEXT; TEXT]].
Definition trade_engine_cpp_logs : list LogCall :=
  [mkLogCall 37 ("%:% %() % Initialized % Ticker:% %." +:+ LF) [TEXT; UINT; TEXT];
   mkLogCall 65 ("%:% %() % Sending %" +:+ LF) [TEXT];
   mkLogCall 74 ("%:% %() %" +:+ LF) [];
   mkLogCall 77 ("%:% %() % Processing %" +:+ LF) [TEXT];
   mkLogCall 85 ("%:% %() % Processing %" +:+ LF) [TEXT];
   mkLogCall 98 ("%:% %() % ticker:% price:% side:%" +:+ LF) [UINT; TEXT; TEXT];
   mkLogCall 113 ("%:% %() % %" +:+ LF) [TEXT];
   mkLogCall 123 ("%:% %() % %" +:+ LF) [TEXT]].
Definition trade_engine_h_logs : list LogCall :=
  [mkLogCall 45 ("%:% %() % Sleeping till all updates are consumed ogw-size:% md-size:%" +:+ LF) [ULONG; ULONG];
   mkLogCall 52 ("%:% %() % POSITIONS" +:+ LF +:+ "%" +:+ LF) [TEXT];
   mkLogCall 140 ("%:% %() % ticker:% price:% side:%" +:+ LF) [UINT; TEXT; TEXT];
   mkLogCall 146 ("%:% %() % %" +:+ LF) [TEXT];
   mkLogCall 151 ("%:% %() % %" +:+ LF) [TEXT]].
Definition trading_main_cpp_logs : list LogCall :=
  [mkLogCall 49 ("%:% %() % Starting Trade Engine..." +:+ LF) [];
   mkLogCall 61 ("%:% %() % Starting Order Gateway..." +:+ LF) [];
   mkLogCall 71 ("%:% %() % Starting Market Data Consumer..." +:+ LF) [];
   mkLogCall 106 ("%:% %() % Stopping early because been silent for % seconds..." +:+ LF) [LONG];
   mkLogCall 115 ("%:% %() % Waiting till no activity, been silent for % seconds..." +:+ LF) [LONG]].
Definition program_logs : list LogCall :=
  tcp_socket_cpp_logs ++
  mcast_socket_cpp_logs ++
  socket_utils_h_logs ++
  tcp_server_cpp_logs ++
  matching_engine_h_logs ++
  me_order_book_cpp_logs ++
  market_data_publisher_cpp_logs ++
  snapshot_synthesizer_cpp_logs ++
  fifo_sequencer_h_logs ++
  order_server_h_logs ++
  exchange_main_cpp_logs ++
  market_data_consumer_cpp_logs ++
  order_gateway_cpp_logs ++
  feature_engine_h_logs ++
  liquidity_taker_h_logs ++
  market_maker_h_logs ++
  market_order_book_cpp_logs ++
  order_manager_cpp_logs ++
  order_manager_h_logs ++
  position_keeper_h_logs ++
  trade_engine_cpp_logs ++
  trade_engine_h_logs ++
  trading_main_cpp_logs.

(** ** What a format asks for *)

(** The text of a line, by the rules of [log]. *)
Fixpoint fill (s : string) (args : list LogValue) : option string :=
  match s with
  | EmptyString => match args with [] => Some EmptyString | _ :: _ => None end
  | String "%" (String "%" s) => String "%" <$> fill s args
  | String "%" s =>
      match args with
      | [] => None
      | value :: args => String.append (value_text value) <$> fill s args
      end
  | String c s => String c <$> fill s args
  end.

(** The number of its arguments. *)
Fixpoint signs (s : string) : nat :=
  match s with
  | EmptyString => 0
  | String "%" (String "%" s) => signs s
  | String "%" s => S (signs s)
  | String _ s => signs s
  end.

(** A format read sign by sign. *)
Lemma format_ind (P : string → Prop) :
  P EmptyString → (∀ s, P s → P (String "%" (String "%" s))) →
  (∀ s, starts_percent s = false → P s → P (String "%" s)) →
  (∀ c s, Ascii.eqb c "%" = false → P s → P (String c s)) → ∀ s, P s.
Proof.
  intros H1 H2 H3 H4 s. remember (String.length s) as n eqn:En. revert s En.
  induction (lt_wf n) as [n _ IH]. intros [|c s] ->; [done|].
  destruct (Ascii.eqb c "%") eqn:Ec; [|by apply H4; [|apply (IH (String.length s)); [cbn; lia|]]].
  apply Ascii.eqb_eq in Ec as ->. destruct s as [|c s]; [by apply H3|].
  destruct (Ascii.eqb c "%") eqn:Ec.
  - apply Ascii.eqb_eq in Ec as ->. apply H2, (IH (String.length s)); [cbn; lia|done].
  - apply H3; [done|]. by apply (IH (String.length (String c s))); [cbn; lia|].
Qed.

(** The equations of the two, by the shape of the format. *)
Lemma fill_arg s args : starts_percent s = false →
  fill (String "%" s) args =
  match args with [] => None | v :: args => String.append (value_text v) <$> fill s args end.
Proof. intros Hs. destruct s as [|c s]; [done|]. by destruct c as [[] [] [] [] [] [] [] []]. Qed.
Lemma fill_char c s args : Ascii.eqb c "%" = false → fill (String c s) args = String c <$> fill s args.
Proof. intros Hc. by destruct c as [[] [] [] [] [] [] [] []]. Qed.
Lemma signs_arg s : starts_percent s = false → signs (String "%" s) = S (signs s).
Proof. intros Hs. destruct s as [|c s]; [done|]. by destruct c as [[] [] [] [] [] [] [] []]. Qed.
Lemma signs_char c s : Ascii.eqb c "%" = false → signs (String c s) = signs s.
Proof. intros Hc. by destruct c as [[] [] [] [] [] [] [] []]. Qed.

(** A call goes through if and only if the number of arguments is right. *)
Lemma fill_signs s args : is_Some (fill s args) ↔ length args = signs s.
Proof.
  revert args. induction s as [|s IH|s Hs IH|c s Hc IH] using format_ind; intros args.
  - destruct args; cbn; split; intros H; done.
  - cbn [fill signs]. by rewrite fmap_is_Some, IH.
  - rewrite fill_arg, signs_arg by done. destruct args as [|v args]; cbn [length].
    + split; [by intros []|done].
    + rewrite fmap_is_Some, IH. lia.
  - by rewrite fill_char, signs_char, fmap_is_Some, IH.
Qed.

(** What is pushed reads as the line. *)
Definition pushes_text (lg : Logger) (t : string) (r : Res Logger) : Prop :=
  ∃ es, r = Ok (pushes lg es) ∧ elements_text es = t.

Lemma pushes_after lg es t r :
  pushes_text (pushes lg es) t r → pushes_text lg (elements_text es +:+ t) r.
Proof.
  intros (es' & -> & <-). exists (es ++ es'). by rewrite pushes_app, elements_text_app.
Qed.

Lemma log_fill lg s args t : fill s args = Some t → pushes_text lg t (log lg s args).
Proof.
  revert lg args t. induction s as [|s IH|s Hs IH|c s Hc IH] using format_ind; intros lg args t.
  - destruct args; [|done]. intros [= <-]. exists []. by destruct lg.
  - cbn [fill log]. intros (t' & Ht & ->)%fmap_Some.
    apply (pushes_after lg [CHAR "%"] t'). by apply IH.
  - rewrite fill_arg by done. destruct args as [|v args]; [done|]. intros (t' & Ht & ->)%fmap_Some.
    rewrite log_arg, pushValue_pushes, <-value_elements_text by done.
    apply pushes_after. by apply IH.
  - rewrite fill_char by done. intros (t' & Ht & ->)%fmap_Some. rewrite log_char by done.
    apply (pushes_after lg [CHAR c] t'). by apply IH.
Qed.

(** ** The program's calls *)
Definition all_args (c : LogCall) (file fn time : string) (rest : list LogValue) : list LogValue :=
  CStr file :: Prim (INTEGER (lc_line c)) :: CStr fn :: CStr (c_str time) :: rest.
Definition counted (c : LogCall) : bool :=
  (signs (lc_format c) =? 4 + length (lc_args c))%nat.

Example all_counted : forallb counted program_logs = true.
Proof. by vm_compute. Qed.

(** C33: None of the 97 log calls of the two programs ends the process: whatever the values of
    its arguments, the call pushes its line to the logger's queue, every [%] of the format
    replaced by its argument. *)
Theorem log_calls_never_abort c file fn time rest lg :
  c ∈ program_logs → Forall2 has_type (lc_args c) rest →
  ∃ t, fill (lc_format c) (all_args c file fn time rest) = Some t ∧
    pushes_text lg t (log lg (lc_format c) (all_args c file fn time rest)).
Proof.
  intros Hc Hty. pose proof all_counted as H. rewrite forallb_forall in H.
  specialize (H c (proj1 (list_elem_of_In _ _) Hc)). apply Nat.eqb_eq in H.
  destruct (proj2 (fill_signs (lc_format c) (all_args c file fn time rest))) as [t Ht].
  { rewrite H. cbn [all_args length]. by rewrite (Forall2_length _ _ _ Hty). }
  exists t. split; [done|]. by apply log_fill.
Qed.

(** The order server answers client 1. *)
Definition demo_call : LogCall :=
  mkLogCall 35 ("%:% %() % Processing cid:% seq:% %" +:+ LF) [UINT; ULONG; TEXT].
Definition demo_args : list LogValue :=
  [Prim (UNSIGNED_INTEGER 1); Prim (UNSIGNED_LONG_INTEGER 7); CStr "ACCEPTED"].

Lemma log_calls_never_abort_witness :
  pushes_text Logger_new
    ("order_server.h:35 run() Thu Jan  1 00:00:00 1970 Processing cid:1 seq:7 ACCEPTED" +:+ LF)
    (log Logger_new (lc_format demo_call)
       (all_args demo_call "order_server.h" "run" (getCurrentTimeStr epoch_ctime 0) demo_args)).
Proof.
  destruct (log_calls_never_abort demo_call "order_server.h" "run" (getCurrentTimeStr epoch_ctime 0)
    demo_args Logger_new) as (t & Ht & H).
  - apply (bool_decide_unpack _). by vm_compute.
  - by repeat constructor.
  - vm_compute in Ht. injection Ht as <-. exact H.
Defined.

(** All lines but one end with a newline: the client's book runs its line into the next. *)
Fixpoint ends_line (s : string) : bool :=
  match s with
  | EmptyString => false
  | String c EmptyString => Ascii.eqb c "010"
  | String _ s => ends_line s
  end.
Theorem one_line_without_end :
  filter (λ c, ends_line (lc_format c) = false) program_logs =
  [mkLogCall 76 "%:% %() % % %" [TEXT; TEXT]].
Proof. by vm_compute. Qed.
