(* ===== verification/Examples.v ===== *)
(** * Examples: two of the demonstration programs, run

    [common/mem_pool_example.cpp] and [common/logging_example.cpp], as far as they use the
    pool and the logger. *)
From S2P Require Import Prelude Double Text MemPool LFQueue Logger TimeUtils.
From Stdlib Require Import Ascii.

(** ** The pool *)
Definition MyStruct : Type := (Z * Z * Z)%type.

(** The turn [i] of the loop, on both pools. *)
Definition mem_pool_turn (s : MemPool double * MemPool MyStruct) (i : Z) :
    Res (MemPool double * MemPool MyStruct) :=
  let '(prim_pool, struct_pool) := s in
  '(p_ret, prim_pool) ← allocate prim_pool (d_of_Z i);
  '(s_ret, struct_pool) ← allocate struct_pool (i, i + 1, i + 2);
  if Z.rem i 5 =? 0 then
    prim_pool ← deallocate prim_pool p_ret;
    struct_pool ← deallocate struct_pool s_ret;
    Ok (prim_pool, struct_pool)
  else Ok (prim_pool, struct_pool).

Definition mem_pool_example (num_elems : Z) : Res (MemPool double * MemPool MyStruct) :=
  fold_res mem_pool_turn (MemPool_new num_elems (d_of_Z 0), MemPool_new num_elems (0, 0, 0))
    (seqZ 0 50).

Definition in_use {T} (pool : MemPool T) : nat :=
  length (filter (λ p, pool_free pool p = false) (seqZ 0 (pool_size pool))).

(** Pools of 50 are enough for the 40 objects that stay, and so are pools of 41: a pool of 40
    is full one object too early. *)
Example mem_pool_example_runs :
  match mem_pool_example 50 with
  | Ok (prim_pool, struct_pool) => in_use prim_pool = 40%nat ∧ in_use struct_pool = 40%nat
  | Err _ => False
  end.
Proof. by vm_compute. Qed.
Example mem_pool_example_least :
  match mem_pool_example 41, mem_pool_example 40 with Ok _, Err AssertFailed => True | _, _ => False end.
Proof. by vm_compute. Qed.

(** ** The logger *)
Definition logging_example : Res string :=
  let c : Ascii.ascii := "d"%char in
  let f := SpecFloat.SFdiv 24 128 (SpecFloat.binary_normalize 24 128 34 0 false)
             (SpecFloat.binary_normalize 24 128 10 0 false) in
  let d := d_div (d_of_Z 3456) (d_of_Z 100) in
  let logger := Logger_new in
  logger ← log logger ("Logging a char:% an int:% and an unsigned:%" +:+ LF)
             [Prim (CHAR c); Prim (INTEGER 3); Prim (UNSIGNED_LONG_INTEGER 65)];
  logger ← log logger ("Logging a float:% and a double:%" +:+ LF) [Prim (FLOAT f); Prim (DOUBLE d)];
  logger ← log logger ("Logging a C-string:'%'" +:+ LF) [CStr "test C-string"];
  logger ← log logger ("Logging a string:'%'" +:+ LF) [CStr (c_str "test string")];
  logger ← flushQueue logger;
  Ok (file_ logger).

Example logging_example_file :
  logging_example =
  Ok ("Logging a char:d an int:3 and an unsigned:65" +:+ LF +:+
      "Logging a float:3.4 and a double:34.56" +:+ LF +:+
      "Logging a C-string:'test C-string'" +:+ LF +:+
      "Logging a string:'test string'" +:+ LF).
Proof. by vm_compute. Qed.
