(* ===== verification/MarketFeed.v ===== *)
(** * MarketFeed: the exchange's feed is one the client takes

    The trading client's theorems ask for a feed that is valid for every instrument, with
    prices below 2^30 and fields the message structures hold.  The updates of the matching
    engine are such a feed, for traffic within price bands. *)
From S2P Require Import Prelude Types Wire PriceLevels BookInv LevelsAbs MEOrderBook BookSpec.
From S2P Require Import BookMatch MEBookRefine MEBookSpec BookProps Sessions MatchingEngine.
From S2P Require Import MarketOrderBook MarketBookSpec MarketBBO LateJoiner EngineSession EngineTypes.
From S2P Require Import Strategies TradeEngineSpec LFQueue ClientRun.

(** ** Prices of the client's book *)
Definition small_price (p : Price) : Prop := Z.abs p < 2 ^ 30.
Definition small_levels (b : SpecMarket) : Prop := ∀ p, p ∈ (sm_levels b).*1 → small_price p.
Definition small_add (u : MEMarketUpdate) : Prop :=
  mu_type u = MarketUpdateType.ADD → small_price (mu_price u).

Lemma small_levels_apply b u :
  (mu_type u = MarketUpdateType.ADD → tradable (mu_side u)) → small_levels b → small_add u →
  small_levels (sm_apply b u).
Proof.
  intros Hs Hb Hu p. unfold sm_apply, small_add in *. destruct (mu_type u); try apply Hb.
  - specialize (Hs eq_refl). rewrite (sm_levels_perm _ _ Hs), sm_side_set, sm_side_set_opp by done.
    rewrite fmap_app, elem_of_app. intros [[->|Hp]%insert_order_prices|Hp]; [by apply Hu|..];
      apply Hb; rewrite (sm_levels_perm b _ Hs), fmap_app, elem_of_app; auto.
  - unfold sm_levels. cbn [sm_bids sm_asks]. rewrite fmap_app, !update_where_prices, <-fmap_app.
    apply Hb.
  - unfold sm_levels. cbn [sm_bids sm_asks]. rewrite fmap_app, elem_of_app.
    intros [Hp|Hp]; apply Hb; unfold sm_levels; rewrite fmap_app, elem_of_app; [left|right];
      by eapply remove_where_sub.
Qed.

Lemma top_small b s : tradable s → small_levels b →
  ((top (sm_side b s)).1 = Price_INVALID ∨ small_price (top (sm_side b s)).1) ∧
  0 ≤ (top (sm_side b s)).2 < 2 ^ 32.
Proof.
  intros Hs Hb. assert (0 ≤ Qty_INVALID < 2 ^ 32) by by vm_compute.
  destruct (sm_side b s) as [|[p ds] l] eqn:E; cbn [top fst snd]; [by split; [left|]|].
  split; [right|apply u32_range]. apply Hb. rewrite (sm_levels_perm b s Hs), E.
  rewrite fmap_app, elem_of_app. left. by left.
Qed.

Lemma bbo_next_small b old u :
  small_levels (sm_apply b u) → bbo_small old → bbo_small (bbo_next b old u).
Proof.
  intros Hb Hold. unfold bbo_next. case_bool_decide; [done|].
  pose proof (top_small _ _ (or_introl eq_refl) Hb) as Hbid.
  pose proof (top_small _ _ (or_intror eq_refl) Hb) as Hask.
  change (sm_side _ Side.BUY) with (sm_bids (sm_apply b u)) in Hbid.
  change (sm_side _ Side.SELL) with (sm_asks (sm_apply b u)) in Hask.
  destruct Hold as (O1 & O2 & O3 & O4). unfold bbo_after.
  destruct (top (sm_bids _)) as [bp bq], (top (sm_asks _)) as [ap aq]. cbn [fst snd] in *.
  destruct Hbid, Hask, (side_touched b u Side.BUY), (side_touched b u Side.SELL);
    unfold bbo_small; cbn [bid_price_ ask_price_ bid_qty_ ask_qty_]; tauto.
Qed.

(** ** Instruments one by one *)
Lemma valid_feed_each us : ∀ st,
  Forall (λ u, ticker_ok (mu_ticker_id u) ∧ small_add u) us →
  (∀ t, ticker_ok t → small_levels (st t).1 ∧ bbo_small (st t).2 ∧
     feed_ok (st t).1 (for_ticker t us)) →
  valid_feed st us.
Proof.
  induction us as [|u us IH]; intros st Hall Hst; [done|].
  apply Forall_cons in Hall as [[Ht Hu] Hall].
  destruct (Hst _ Ht) as (Hl & Hb & Hf). unfold for_ticker in Hf.
  rewrite filter_cons_True in Hf by done. destruct Hf as (Hv & _ & _ & Hf).
  assert (small_levels (sm_apply (st (mu_ticker_id u)).1 u)) as Hl'.
  { apply small_levels_apply; [|done|done]. intros E. unfold valid_update in Hv. rewrite E in Hv.
    apply Hv. }
  assert (feed_step st u (mu_ticker_id u) =
    (sm_apply (st (mu_ticker_id u)).1 u, bbo_next (st (mu_ticker_id u)).1 (st (mu_ticker_id u)).2 u))
    as E by (unfold feed_step; by rewrite decide_True).
  pose proof (bbo_next_small _ _ u Hl' Hb) as Hb'.
  split_and!; [apply Ht|apply Ht|exact Hv|by rewrite E|]. apply IH; [done|]. intros t Ht'.
  destruct (decide (t = mu_ticker_id u)) as [->|Hne].
  - rewrite E. by split_and!.
  - unfold feed_step. rewrite decide_False by done. destruct (Hst t Ht') as (H1 & H2 & H3).
    unfold for_ticker in H3. rewrite filter_cons_False in H3 by congruence. by split_and!.
Qed.

Lemma valid_feed_new us :
  Forall (λ u, ticker_ok (mu_ticker_id u) ∧ small_add u) us →
  (∀ t, ticker_ok t → feed_ok SpecMarket_new (for_ticker t us)) → valid_feed feed_new us.
Proof.
  intros Hall Hf. apply valid_feed_each; [done|]. intros t Ht. split; [|split; [|by apply Hf]].
  - intros p Hp. by apply elem_of_nil in Hp.
  - apply (bool_decide_unpack _). by vm_compute.
Qed.

(** ** The engine's feed *)
Section Engine.
Context (lo hi : TickerId → Price) (Hsmall : ∀ t, ticker_ok t → hi t < 2 ^ 30).

Lemma engine_feed_fits P us :
  traffic_ok lo hi P → Forall c_ok P → 6 * Z.of_nat (length P) ≤ ME_MAX_CLIENT_UPDATES →
  us `prefix_of` se_updates (engine_after P) → feed_fits us.
Proof.
  intros Htr HP Hfew [vs Hus].
  destruct (engine_after_count lo hi P Htr) as [_ Hn].
  destruct (engine_after_clients lo hi P (λ _, True) Htr) as (_ & _ & Ht).
  { by apply Forall_forall. }
  pose proof (et_updates _ _ _ (engine_after_typed lo hi P Htr HP)) as Hty.
  pose proof (λ t Ht, engine_after_feed_ok lo hi P t Htr Ht) as Hok.
  rewrite Hus in Hn, Ht, Hty, Hok. rewrite length_app in Hn.
  apply Forall_app in Ht as [Ht _], Hty as [Hty _].
  split.
  - apply valid_feed_new.
    + rewrite Forall_forall in Ht, Hty |- *. intros u Hu. destruct (Ht u Hu) as [Hu1 _].
      split; [done|]. intros E. destruct (Hty u Hu) as [_ Hp]. specialize (Hp E).
      destruct (tm_band _ _ _ (tr_tame _ _ _ Htr _ Hu1)) as (H0 & _). specialize (Hsmall _ Hu1).
      unfold small_price. lia.
    + intros t Ht'. destruct (Hok t Ht') as [Hf _].
      { unfold ME_MAX_CLIENT_UPDATES, ME_MAX_ORDER_IDS in *. lia. }
      rewrite for_ticker_app in Hf. by apply feed_ok_app in Hf as [Hf _].
  - eapply Forall_impl; [exact Hty|]. by intros u [? _].
  - lia.
Qed.
End Engine.
