(* ===== verification/Market.v ===== *)
(** * Market: the trading client trades on the exchange

    Both programs together: the threads of [trading_main] and of [exchange_main] take turns
    in any order.  One TCP connection carries requests one way and responses the other, the
    incremental feed reaches the client in order, and other clients trade on the same
    exchange.  Only the network is between the two; nothing is assumed of how the exchange
    answers. *)
From S2P Require Import Prelude Types Wire Sockets LFQueue FIFOSequencer OrderServer OrderFlow.
From S2P Require Import TCPServer ServerRound MatchingEngine MarketDataPublisher OrderGateway.
From S2P Require Import TradeEngine TradingClient Exchange ExchangeRun.

(** The two programs; the client's bytes the server has not read; how many bytes of the
    server's replies, and how many updates of the feed, the client has received. *)
Record Market := mkMarket {
  mk_client : TradingClient;
  mk_exchange : World;
  mk_wire : bytes;
  mk_read : nat;
  mk_seen : nat
}.

Definition Market_new (x : TradingClient) (w : World) : Market := mkMarket x w [] 0 0.

Inductive MarketTurn :=
  | ClientTrades
  | ClientGateway (chunk : option bytes) (kernel_takes : nat)
  | ClientListens (n : nat)
  | ExchangeRuns (t : Turn).

Section Market.
Context `{StdSort} (conn : Z).
Implicit Types (m : Market).

(** The next [n] updates of the feed, as they were published. *)
Definition update_bytes : nat := c_size MDPMarketUpdate.
Definition datagram m (n : nat) : bytes :=
  take (update_bytes * n) (drop (update_bytes * mk_seen m) (feed_published (mk_exchange m))).

(** What is left of the client's bytes after a turn of the exchange. *)
Definition unread (m : Market) (t : Turn) (w : World) : bytes :=
  match t with
  | OrderServerTurn kt =>
      remaining (kt_net kt) (receive_sockets_ (x_tcp_server (w_exchange w)))
        (λ _, mk_wire m) conn
  | _ => mk_wire m
  end.

Definition market_turn (m : Market) (t : MarketTurn) : Res Market :=
  match t with
  | ClientTrades =>
      x ← trade_thread (mk_client m);
      Ok (mkMarket x (mk_exchange m) (mk_wire m) (mk_read m) (mk_seen m))
  | ClientGateway chunk kernel_takes =>
      '(x, sent) ← gateway_thread chunk kernel_takes (mk_client m);
      Ok (mkMarket x (mk_exchange m) (mk_wire m ++ sent)
            (mk_read m + length (default [] chunk)) (mk_seen m))
  | ClientListens n =>
      let b := datagram m n in
      x ← consumer_thread (-1) true (if decide (b = []) then None else Some b) None (mk_client m);
      Ok (mkMarket x (mk_exchange m) (mk_wire m) (mk_read m) (mk_seen m + n))
  | ExchangeRuns t =>
      w ← world_turn (mk_exchange m) t;
      Ok (mkMarket (mk_client m) w (unread m t w) (mk_read m) (mk_seen m))
  end.

(** How a turn ends its program, if it does: only the exchange's order server can. *)
Definition market_fault (m : Market) (t : MarketTurn) : option Fault :=
  match t with ExchangeRuns t => turn_fault (mk_exchange m) t | _ => None end.

(** The network: TCP delivers, in order, what was sent and takes what is to be sent; a
    datagram holds whole updates that were published. *)
Definition market_allowed (m : Market) (t : MarketTurn) : Prop :=
  match t with
  | ClientTrades => True
  | ClientGateway chunk kernel_takes =>
      let s := gw_tcp_socket_ (order_gateway (mk_client m)) in
      (∀ b, chunk = Some b → b ≠ [] ∧ b `prefix_of` drop (mk_read m) (w_sent (mk_exchange m) conn) ∧
        Z.of_nat (length (inbound_data_ s) + length b) ≤ TCPBufferSize) ∧
      (length (outbound_data_ s) ≤ kernel_takes)%nat
  | ClientListens n =>
      (update_bytes * (mk_seen m + n) ≤ length (feed_published (mk_exchange m)))%nat
  | ExchangeRuns t =>
      turn_ok (mk_exchange m) t ∧
      match t with
      | OrderServerTurn kt => got (kt_net kt) conn `prefix_of` mk_wire m
      | _ => True
      end
  end.

(** The runs in which the client's requests are the front of its stream in the exchange's
    world: what that stream is, is not fixed beforehand. *)
Inductive market_reachable (m0 : Market) : Market → Prop :=
  | mkt_start : market_reachable m0 m0
  | mkt_turn m t m' : market_reachable m0 m → market_allowed m t → market_turn m t = Ok m' →
      mk_wire m' `prefix_of` w_incoming (mk_exchange m') conn → market_reachable m0 m'.
End Market.
