(* ===== verification/MarketRun.v ===== *)
(** * MarketRun: the market as a whole

    Every run of the two programs together is, for the client, a run with an exchange that
    answers its orders ([ClientRun]) and, for the exchange, a run with clients that send
    their streams ([ExchangeRun]).  What both have proved holds in the market, with no
    assumption left about the other side. *)
From S2P Require Import Prelude Types Wire Sockets LFQueue FIFOSequencer OrderServer OrderFlow.
From S2P Require Import TCPServer ServerRound BookInv LevelsAbs MEOrderBook BookSpec BookMatch.
From S2P Require Import MEBookRefine MEBookSpec BookProps Sessions MatchingEngine MarketOrderBook.
From S2P Require Import MarketBookSpec MarketBBO FeedMirror SnapshotSynthesizer MarketDataPublisher.
From S2P Require Import LateJoiner EngineSession EngineTypes OrderGateway MarketDataConsumer Double.
From S2P Require Import PositionKeeper OrderManager PositionLimit TradeEngine TradeEngineSpec.
From S2P Require Import OrdersInFlight RestingOrders TradingClient ClientRun MarketFeed Strategies.
From S2P Require Import Exchange ExchangeRun Market.

Ltac cwsimpl := unfold cw_answered in *; cbn [cw_client cw_upstream cw_downstream cw_answers cw_pending cw_resting
  cw_published cw_feed] in *.

(** ** Runs of the client's world *)

(** The responses of one client, numbered. *)
Fixpoint own_replies (n : Z) (rs : list MEClientResponse) : list OMClientResponse :=
  match rs with
  | [] => []
  | r :: rs => mkOMClientResponse n r :: own_replies (n + 1) rs
  end.

Section ClientRuns.
Context (c : ClientId) (w0 : ClientWorld).
Implicit Types (cw : ClientWorld).
Abbreviation cl_reach := (client_reachable c w0) (only parsing).

(** The exchange reads requests. *)
Lemma takes_many ms : ∀ cw rest,
  cl_reach cw → cw_upstream cw = encode_all ms ++ rest → Forall c_ok ms →
  cl_reach (mkClientWorld (cw_client cw) rest (cw_downstream cw) (cw_answers cw)
    (cw_pending cw ++ (omrq_request <$> ms)) (cw_resting cw) (cw_published cw) (cw_feed cw)).
Proof.
  induction ms as [|m ms IH]; intros cw rest Hr Hup Hok.
  { cbn [encode_all fmap list_fmap concat app] in Hup |- *. rewrite app_nil_r, <-Hup.
    by destruct cw. }
  apply Forall_cons in Hok as [Hm Hok].
  change (encode_all (m :: ms)) with (c_enc m ++ encode_all ms) in Hup. rewrite <-app_assoc in Hup.
  assert (cl_reach (mkClientWorld (cw_client cw) (encode_all ms ++ rest) (cw_downstream cw)
    (cw_answers cw) (cw_pending cw ++ [omrq_request m]) (cw_resting cw) (cw_published cw)
    (cw_feed cw))) as H1.
  { eapply (cl_turn _ _ cw (ExchangeTakes m)); [exact Hr|split; [done|]|].
    - rewrite Hup. by eexists.
    - cbn [client_turn]. rewrite Hup, drop_app_length' by by rewrite c_enc_length. done. }
  specialize (IH _ rest H1 eq_refl Hok). cwsimpl. by rewrite <-app_assoc in IH.
Qed.

(** The exchange answers. *)
Lemma answers_many rs : ∀ cw X',
  cl_reach cw → answers_run (cw_resting cw) rs X' →
  Forall (λ r, c_ok r ∧ rs_client_id r = c) rs →
  cw_answered cw + Z.of_nat (length rs) ≤ ME_MAX_CLIENT_UPDATES →
  cl_reach (mkClientWorld (cw_client cw) (cw_upstream cw)
    (cw_downstream cw ++ encode_all (own_replies (cw_answered cw + 1) rs))
    (cw_answers cw ++ rs) (cw_pending cw) X' (cw_published cw) (cw_feed cw)).
Proof.
  induction rs as [|r rs IH]; intros cw X' Hr Hrun Hok Hn; inversion Hrun as [|? ? X1 ? Ho Ha Hrs]; subst.
  { cbn. rewrite !app_nil_r. by destruct cw. }
  apply Forall_cons in Hok as [[Hc Hcl] Hok]. cbn [length] in Hn.
  assert (cl_reach (mkClientWorld (cw_client cw) (cw_upstream cw)
    (cw_downstream cw ++ c_enc (mkOMClientResponse (cw_answered cw + 1) r)) (cw_answers cw ++ [r])
    (cw_pending cw) X1 (cw_published cw) (cw_feed cw))) as H1.
  { eapply (cl_turn _ _ cw (ExchangeAnswers r X1)); [exact Hr| |done].
    split; [exact Ho|]. split; [exact Ha|]. split; [exact Hcl|]. split; [exact Hc|lia]. }
  specialize (IH _ X' H1 Hrs Hok). cwsimpl. rewrite length_app in IH. cbn [length] in IH.
  rewrite Nat2Z.inj_add, <-!app_assoc in IH. apply IH. lia.
Qed.
End ClientRuns.

(** ** The replies of one connection *)
Section Replies.
Context (owner : ClientId → Z) (c : ClientId).
Implicit Types (rs : list MEClientResponse) (n : ClientId → Z).

(** On a connection of its own, a client gets its own replies. *)
Lemma replies_own n rs :
  Forall (λ r, owner (rs_client_id r) = owner c → rs_client_id r = c) rs →
  reply_bytes owner n rs (owner c) =
  encode_all (own_replies (n c) (filter (λ r, rs_client_id r = c) rs)).
Proof.
  unfold reply_bytes. intros Hall. f_equal. revert n.
  induction Hall as [|r rs Hr _ IH]; intros n; [done|]. cbn [numbered_responses].
  destruct (decide (rs_client_id r = c)) as [E|E].
  - rewrite !filter_cons, !decide_True by (unfold response_client; cbn; congruence).
    cbn [own_replies]. rewrite IH, E, decide_True by done. done.
  - rewrite !filter_cons, !decide_False by (unfold response_client; cbn; auto).
    rewrite IH, decide_False by done. done.
Qed.

End Replies.

(** ** The link *)

(** Both programs as they are started; the client has its connection to itself, prices stay
    in bands below 2^30, and the traffic fits the queues. *)
Record market_setup (stream : Z → list OMClientRequest) (owner : ClientId → Z) (socks : list Z)
    (lo hi : TickerId → Price) (c : ClientId) (algo : AlgoType.t) (cfgs : TradeEngineCfgHashMap)
    (garbage : TickerId → arr double) (inc_fd : Z) : Prop := {
  ms_clients : clients_ok stream owner socks lo hi;
  ms_client : client_setup c algo cfgs garbage inc_fd;
  ms_own : Forall (λ r, client_of r = c) (stream (owner c));
  ms_prices : ∀ t, ticker_ok t → hi t < 2 ^ 30;
  ms_few : 6 * Z.of_nat (length (traffic stream socks)) ≤ ME_MAX_CLIENT_UPDATES
}.

Section Link.
Context (stream : Z → list OMClientRequest) (owner : ClientId → Z) (socks : list Z).
Context (lo hi : TickerId → Price) `{StdSort} (listener : Z).
Context (c : ClientId) (algo : AlgoType.t) (cfgs : TradeEngineCfgHashMap).
Context (garbage : TickerId → arr double) (inc_fd : Z).
Context (Hms : market_setup stream owner socks lo hi c algo cfgs garbage inc_fd).
Implicit Types (m : Market) (g : Ghost) (cw : ClientWorld) (feed : list MEMarketUpdate) (w : World).

Definition conn : Z := owner c.
Definition by_client (r : MEClientRequest) : Prop := rq_client_id r = c.
Definition market_start : Market :=
  Market_new (TradingClient_new c algo cfgs garbage inc_fd) (World_new listener stream).

#[local] Instance by_client_dec r : Decision (by_client r).
Proof. unfold by_client. apply _. Defined.

(** The client's requests are those taken from its connection. *)
Lemma own_requests (d : Z → nat) (L : list Z) : NoDup L →
  filter by_client (omrq_request <$> (L ≫= taken stream d)) =
  if decide (conn ∈ L) then omrq_request <$> taken stream d conn else [].
Proof.
  assert (∀ k, filter by_client (omrq_request <$> taken stream d k) =
    if decide (k = conn) then omrq_request <$> taken stream d k else []) as Hone.
  { intros k. case_decide as E.
    - apply filter_none_or_all. apply Forall_fmap, Forall_take. subst k.
      eapply Forall_impl; [apply (ms_own _ _ _ _ _ _ _ _ _ _ Hms)|]. by intros r.
    - apply filter_none_or_all. apply Forall_fmap, Forall_take.
      eapply Forall_impl; [apply (st_owner _ _ (ck_streams _ _ _ _ _ (ms_clients _ _ _ _ _ _ _ _ _ _ Hms)))|].
      intros r (_ & _ & Ho) Hc. apply E. unfold conn. rewrite <-Hc. symmetry. exact Ho. }
  induction 1 as [|k L Hk _ IH]; [done|]. cbn [mbind list_bind].
  change (list_bind _ _ ?f L) with (L ≫= f). rewrite fmap_app, filter_app, IH, Hone.
  destruct (decide (k = conn)) as [->|Hne].
  - rewrite decide_False, app_nil_r, decide_True by (done || by left). done.
  - cbn [app]. destruct (decide (conn ∈ L)) as [Hin|Hno].
    + by rewrite decide_True by by right.
    + rewrite decide_False; [done|]. by intros [?|?]%elem_of_cons.
Qed.

Lemma client_taken w g : exchange_inv stream owner w g →
  filter by_client (g_processed g ++ g_queued g) ≡ₚ omrq_request <$> taken stream (g_taken g) conn.
Proof.
  intros Hinv. pose proof (xi_order _ _ _ _ Hinv) as [Hc Hreq _ _]. rewrite Hreq.
  rewrite own_requests by apply Hc. case_decide as E; [done|].
  unfold taken. by rewrite (proj1 (cd_quiet _ _ _ _ _ _ Hc conn E)), take_0.
Qed.

(** What the client's world is in a state of the market: everything the engine has not worked
    on is on its way or pending, everything it has answered is answered. *)
Definition replies g : list MEClientResponse := se_responses (engine_after (g_processed g)).
Definition own_bytes g : bytes := reply_bytes owner (λ _, 1) (replies g) conn.

Record linked m g feed cw : Prop := {
  lk_client : cw_client cw = mk_client m;
  lk_upstream : cw_upstream cw = inbound (order_server (w_exchange (mk_exchange m))) conn ++ mk_wire m;
  lk_pending : filter by_client (g_processed g) ++ cw_pending cw ≡ₚ
    omrq_request <$> taken stream (g_taken g) conn;
  lk_downstream : cw_downstream cw = drop (mk_read m) (own_bytes g);
  lk_answers : cw_answers cw = filter (λ r, rs_client_id r = c) (replies g);
  lk_holds : holds c (cw_resting cw) (engine_after (g_processed g));
  lk_published : cw_published cw = Z.of_nat (mk_seen m);
  lk_feed : cw_feed cw = drop (mk_seen m) feed
}.

Definition feed_so_far g : list MEMarketUpdate := g_snapshot g ++ g_published g.

Record market_inv m g : Prop := {
  mi_exchange : exchange_inv stream owner (mk_exchange m) g;
  mi_wire : mk_wire m `prefix_of` w_incoming (mk_exchange m) conn;
  mi_read : (mk_read m ≤ length (w_sent (mk_exchange m) conn))%nat;
  mi_seen : (mk_seen m ≤ length (feed_so_far g))%nat;
  mi_client : ∀ feed, feed_fits feed → feed_so_far g `prefix_of` feed → ∃ cw,
    client_reachable c (client_start c algo cfgs garbage inc_fd feed) cw ∧ linked m g feed cw
}.

Lemma market_inv_new :
  market_inv market_start (mkGhost (λ _, 0%nat) [] [] [] [] [] [] [] []).
Proof.
  split; [apply exchange_inv_new|apply prefix_nil|cbn; lia|cbn; lia|].
  intros feed Hfits _. exists (client_start c algo cfgs garbage inc_fd feed).
  split; [constructor|]. split; try done. apply (holds_new c).
Qed.

(** *** The client's turns *)
Lemma sent_replies m g : market_inv m g →
  w_sent (mk_exchange m) conn `prefix_of` own_bytes g.
Proof. intros [Hinv _ _ _ _]. apply (sn_replies _ _ _ _ _ (inv_seen _ _ _ lo hi (ms_clients _ _ _ _ _ _ _ _ _ _ Hms) _ _ Hinv)). Qed.

Lemma drop_prefix {A} n (l k : list A) : l `prefix_of` k → drop n l `prefix_of` drop n k.
Proof. intros [r ->]. rewrite drop_app. by apply prefix_app_r. Qed.

Lemma trades_keeps m g x' : market_inv m g → trade_thread (mk_client m) = Ok x' →
  market_inv (mkMarket x' (mk_exchange m) (mk_wire m) (mk_read m) (mk_seen m)) g.
Proof.
  intros [Hinv Hw Hr Hs Hcl] Hrun. split; try done. intros feed Hfits Hpre.
  destruct (Hcl feed Hfits Hpre) as (cw & Hreach & [L1 L2 L3 L4 L5 L6 L7 L8]).
  eexists. split; [eapply (cl_turn _ _ cw TradeTurn); [exact Hreach|exact I|]|].
  - cbn [client_turn]. rewrite L1, Hrun. reflexivity.
  - by split.
Qed.

Lemma gateway_allowed m g feed cw chunk kernel_takes : market_inv m g → linked m g feed cw →
  market_allowed conn m (ClientGateway chunk kernel_takes) →
  turn_allowed c cw (GatewayTurn chunk kernel_takes).
Proof.
  intros Hm [L1 _ _ L4 _ _ _ _] [Hchunk Htakes]. pose proof (sent_replies m g Hm) as Hsent.
  cbn [turn_allowed]. rewrite L1, L4. split; [|exact Htakes]. intros b Hb.
  destruct (Hchunk b Hb) as (H1 & H2 & H3). split_and!; [done| |done].
  etrans; [exact H2|]. by apply drop_prefix.
Qed.

Lemma gateway_keeps m g chunk kernel_takes x' sent : market_inv m g →
  market_allowed conn m (ClientGateway chunk kernel_takes) →
  gateway_thread chunk kernel_takes (mk_client m) = Ok (x', sent) →
  mk_wire m ++ sent `prefix_of` w_incoming (mk_exchange m) conn →
  market_inv (mkMarket x' (mk_exchange m) (mk_wire m ++ sent)
    (mk_read m + length (default [] chunk)) (mk_seen m)) g.
Proof.
  intros Hm Hok Hrun Hwire. pose proof Hm as [Hinv Hw Hr Hs Hcl]. split; try done.
  - cbn [mk_read mk_exchange]. destruct chunk as [b|]; cbn [default from_option length id]; [|lia].
    destruct (proj1 Hok b eq_refl) as (_ & Hb%prefix_length & _). rewrite length_drop in Hb. lia.
  - intros feed Hfits Hpre.
    destruct (Hcl feed Hfits Hpre) as (cw & Hreach & Hl). pose proof Hl as [L1 L2 L3 L4 L5 L6 L7 L8].
    eexists. split; [eapply (cl_turn _ _ cw (GatewayTurn chunk kernel_takes)); [exact Hreach| |]|].
    + by apply (gateway_allowed m g feed).
    + cbn [client_turn]. rewrite L1, Hrun. reflexivity.
    + split; cwsimpl; try done; [by rewrite L2, <-app_assoc|].
      rewrite L4, drop_drop. done.
Qed.

(** A stretch of the feed, as bytes. *)
Lemma feed_slice a n us :
  (a + n ≤ length us)%nat →
  take (update_bytes * n) (drop (update_bytes * a) (encode_all (numbered_updates 1 us))) =
  encode_all (numbered_updates (Z.of_nat a + 1) (take n (drop a us))).
Proof.
  intros Hn. assert (update_bytes = 42%nat) as -> by done.
  assert (us = take a us ++ take n (drop a us) ++ drop n (drop a us)) as E by by rewrite !take_drop.
  assert (length (take a us) = a ∧ length (take n (drop a us)) = n) as [E1 E2].
  { rewrite !length_take, length_drop. lia. }
  set (us1 := take a us) in *. set (us2 := take n (drop a us)) in *. rewrite E.
  rewrite !numbered_updates_app, !encode_all_app.
  rewrite drop_app_length' by by rewrite numbered_updates_bytes, E1.
  rewrite take_app_length' by by rewrite numbered_updates_bytes, E2.
  do 2 f_equal. lia.
Qed.

(** What the client receives is the next part of the feed. *)
Lemma listens_turn m g feed cw n : market_inv m g → linked m g feed cw →
  feed_so_far g `prefix_of` feed → market_allowed conn m (ClientListens n) →
  (mk_seen m + n ≤ length (feed_so_far g))%nat ∧ length (take n (cw_feed cw)) = n ∧
  market_turn conn m (ClientListens n) =
    (w ← client_turn cw (ConsumerTurn n);
     Ok (mkMarket (cw_client w) (mk_exchange m) (mk_wire m) (mk_read m) (mk_seen m + n))).
Proof.
  intros [Hinv Hw Hr Hs Hcl] [L1 L2 L3 L4 L5 L6 L7 L8] Hpre Hn. cbn [market_allowed] in Hn.
  assert (feed_published (mk_exchange m) = encode_all (numbered_updates 1 (feed_so_far g))) as Hpub.
  { apply (xi_publish _ _ _ _ Hinv). }
  assert (mk_seen m + n ≤ length (feed_so_far g))%nat as Hlen.
  { rewrite Hpub, numbered_updates_bytes in Hn. unfold update_bytes in Hn.
    rewrite MDPMarketUpdate_size in Hn. lia. }
  assert (take n (cw_feed cw) = take n (drop (mk_seen m) (feed_so_far g))) as Htake.
  { rewrite L8. destruct Hpre as [rest ->].
    rewrite drop_app_le, take_app_le by (rewrite ?length_drop; lia). done. }
  split; [done|]. split; [rewrite Htake, length_take, length_drop; lia|].
  cbn [market_turn client_turn]. unfold datagram. rewrite Hpub, feed_slice, L1, L7, Htake by done.
  set (us := take n (drop (mk_seen m) (feed_so_far g))) in *.
  assert ((if decide (us = []) then None
     else Some (encode_all (numbered_updates (Z.of_nat (mk_seen m) + 1) us))) =
    (if decide (encode_all (numbered_updates (Z.of_nat (mk_seen m) + 1) us) = []) then None
     else Some (encode_all (numbered_updates (Z.of_nat (mk_seen m) + 1) us)))) as ->.
  { destruct us as [|u us]; [done|]. rewrite !decide_False; [done| |done].
    intros E%(f_equal length). rewrite numbered_updates_bytes in E. simpl in E. lia. }
  by destruct (consumer_thread _ _ _ _ _).
Qed.

Lemma listens_keeps m g n m' : market_inv m g → market_allowed conn m (ClientListens n) →
  market_turn conn m (ClientListens n) = Ok m' → market_inv m' g.
Proof.
  intros Hm Hok Hrun. pose proof Hm as [Hinv Hw Hr Hs Hcl].
  assert (∃ x, m' = mkMarket x (mk_exchange m) (mk_wire m) (mk_read m) (mk_seen m + n)) as [x Em].
  { cbn [market_turn] in Hrun. apply res_bind_Ok in Hrun as (x & _ & E). injection E as <-.
    by exists x. }
  assert (mk_seen m + n ≤ length (feed_so_far g))%nat as Hlen.
  { cbn [market_allowed] in Hok. unfold feed_published in Hok.
    rewrite (xi_published _ _ (xi_publish _ _ _ _ Hinv)), numbered_updates_bytes in Hok.
    unfold update_bytes in Hok. rewrite MDPMarketUpdate_size in Hok. unfold feed_so_far. lia. }
  rewrite Em. split; try done. intros feed Hfits Hpre.
  destruct (Hcl feed Hfits Hpre) as (cw & Hreach & Hl).
  destruct (listens_turn m g feed cw n Hm Hl Hpre Hok) as (_ & Hn & Hturn).
  rewrite Hturn in Hrun. apply res_bind_Ok in Hrun as (cw' & Hcw & E). injection E as E.
  exists cw'. split; [by eapply (cl_turn _ _ cw (ConsumerTurn n))|].
  destruct Hl as [L1 L2 L3 L4 L5 L6 L7 L8].
  cbn [client_turn] in Hcw. apply res_bind_Ok in Hcw as (x' & _ & Hcw). injection Hcw as <-.
  cwsimpl. rewrite Em in E. injection E as ->.
  split; cwsimpl; try done.
  - rewrite Hn, L7. cbn. lia.
  - rewrite L8, drop_drop. done.
Qed.

(** *** The exchange's turns *)

(** A turn that neither reads requests nor processes one. *)
Lemma feed_turn_keeps m g w' g' :
  market_inv m g → exchange_inv stream owner w' g' →
  inbound (order_server (w_exchange w')) conn = inbound (order_server (w_exchange (mk_exchange m))) conn →
  w_incoming w' = w_incoming (mk_exchange m) → w_sent w' = w_sent (mk_exchange m) →
  g_processed g' = g_processed g → g_taken g' = g_taken g →
  feed_so_far g `prefix_of` feed_so_far g' →
  market_inv (mkMarket (mk_client m) w' (mk_wire m) (mk_read m) (mk_seen m)) g'.
Proof.
  intros [Hinv Hw Hr Hs Hcl] Hinv' Hin Hinc Hsent Hp Ht Hfeed.
  split; cbn [mk_exchange mk_wire mk_read mk_seen]; [done|by rewrite Hinc|by rewrite Hsent| |].
  - apply prefix_length in Hfeed. lia.
  - intros feed Hfits Hpre. destruct (Hcl feed Hfits) as (cw & Hreach & [L1 L2 L3 L4 L5 L6 L7 L8]);
      [by etrans|].
    exists cw. split; [done|]. unfold own_bytes, replies in *.
    split; unfold own_bytes, replies; cbn [mk_exchange mk_wire mk_read mk_seen mk_client];
      rewrite ?Hp, ?Ht, ?Hin; done.
Qed.

Lemma server_world kt w w' : world_turn w (OrderServerTurn kt) = Ok w' →
  w_incoming w' = remaining (kt_net kt) (receive_sockets_ (x_tcp_server (w_exchange w'))) (w_incoming w) ∧
  ∀ k, w_sent w k `prefix_of` w_sent w' k.
Proof.
  cbn [world_turn]. intros ([x wire] & _ & E)%res_bind_Ok. injection E as <-.
  split; [done|]. intros k. by eexists.
Qed.

(** The same number of bytes leaves the wire and what is to come. *)
Lemma remaining_wire net L (wire fut : bytes) (f : Z → bytes) k :
  f k = wire ++ fut → got net k `prefix_of` wire →
  remaining net L f k = remaining net L (λ _, wire) k ++ fut.
Proof.
  intros Hf Hg%prefix_length. unfold remaining. rewrite Hf. case_decide; [|done].
  by rewrite drop_app_le.
Qed.

(** The requests the server has read, as bytes. *)
Lemma newly_read (d d' : Z → nat) k (b b' f : bytes) :
  (d k ≤ d' k)%nat →
  encode_all (untaken stream d k) = b ++ f → encode_all (untaken stream d' k) = b' ++ f →
  b = encode_all (newly stream d d' k) ++ b'.
Proof.
  intros Hd E E'. apply (app_inv_tail f). rewrite <-app_assoc, <-E', <-E, <-encode_all_app.
  f_equal. unfold newly, untaken. rewrite <-(take_drop (d' k - d k) (drop (d k) (stream k))) at 1.
  rewrite drop_drop. do 2 f_equal. lia.
Qed.

Lemma taken_more (d d' : Z → nat) k : (d k ≤ d' k)%nat →
  taken stream d' k = taken stream d k ++ newly stream d d' k.
Proof.
  intros Hd. unfold taken, newly, untaken. rewrite take_drop_commute.
  rewrite <-(take_drop (d k) (take (d' k) (stream k))) at 1.
  rewrite take_take, Nat.min_l by done. do 3 f_equal. lia.
Qed.

Lemma newly_ok (d d' : Z → nat) k : Forall c_ok (newly stream d d' k).
Proof.
  unfold newly, untaken. apply Forall_take, Forall_drop.
  eapply Forall_impl; [apply (st_owner _ _ (ck_streams _ _ _ _ _ (ms_clients _ _ _ _ _ _ _ _ _ _ Hms)))|].
  by intros r (? & _).
Qed.

Lemma server_keeps m g kt w' : market_inv m g →
  market_allowed conn m (ExchangeRuns (OrderServerTurn kt)) →
  world_turn (mk_exchange m) (OrderServerTurn kt) = Ok w' →
  ∃ g', market_inv (mkMarket (mk_client m) w'
    (unread conn m (OrderServerTurn kt) w') (mk_read m) (mk_seen m)) g'.
Proof.
  intros [Hinv [fut Hw] Hr Hs Hcl] [Hok Hgot] Hrun.
  pose proof (turn_ran _ _ _ _ _ (ms_clients _ _ _ _ _ _ _ _ _ _ Hms) _ _ g _ Hinv Hok Hrun) as Hnf.
  destruct (server_turn_spec _ _ _ _ _ (ms_clients _ _ _ _ _ _ _ _ _ _ Hms) kt _ g Hinv Hok Hnf)
    as (w2 & d & batch & Hrun2 & Hinv' & Hmono & _). rewrite Hrun in Hrun2. injection Hrun2 as <-.
  destruct (server_world kt _ _ Hrun) as [Hinc Hsent].
  exists (ghost_serve g d batch).
  pose proof (remaining_wire _ (receive_sockets_ (x_tcp_server (w_exchange w'))) _ _ _ _ Hw Hgot)
    as Hrem. rewrite <-Hinc in Hrem.
  split; cbn [mk_exchange mk_wire mk_read mk_seen unread].
  - exact Hinv'.
  - rewrite Hrem. by apply prefix_app_r.
  - etrans; [exact Hr|apply prefix_length, Hsent].
  - exact Hs.
  - intros feed Hfits Hpre.
    destruct (Hcl feed Hfits Hpre) as (cw & Hreach & [L1 L2 L3 L4 L5 L6 L7 L8]).
    pose proof (sv_bytes _ _ _ _ _ (cd_serves _ _ _ _ _ _ (xi_connected _ _ _ _ (xi_order _ _ _ _ Hinv))) conn) as B1.
    pose proof (sv_bytes _ _ _ _ _ (cd_serves _ _ _ _ _ _ (xi_connected _ _ _ _ (xi_order _ _ _ _ Hinv'))) conn) as B2.
    cbn [ghost_serve g_taken] in B2. rewrite Hw, app_assoc, <-L2 in B1. rewrite Hrem, app_assoc in B2.
    pose proof (newly_read _ _ _ _ _ _ (Hmono conn) B1 B2) as Hup.
    eexists. split; [exact (takes_many c _ _ _ _ Hreach Hup (newly_ok _ _ _))|].
    split; cwsimpl; try done. cbn [ghost_serve g_taken g_processed].
    by rewrite (taken_more _ _ _ (Hmono conn)), app_assoc, L3, fmap_app.
Qed.

(** *** The matching turn *)

(** What is taken from the streams fits the wire, and comes from its owner's connection. *)
Lemma traffic_request_ok r : r ∈ traffic stream socks →
  c_ok r ∧ (owner (rq_client_id r) = conn → rq_client_id r = c).
Proof.
  unfold traffic. intros (x & -> & (k & Hx & _)%list_elem_of_bind)%list_elem_of_fmap.
  pose proof (st_owner _ _ (ck_streams _ _ _ _ _ (ms_clients _ _ _ _ _ _ _ _ _ _ Hms)) k) as Ho.
  rewrite Forall_forall in Ho. destruct (Ho x Hx) as ([_ Hok] & _ & Hk).
  split; [exact Hok|]. intros Hc. pose proof (ms_own _ _ _ _ _ _ _ _ _ _ Hms) as Hown.
  rewrite Forall_forall in Hown. apply (Hown x). unfold client_of in Hk. fold conn. by rewrite <-Hc, Hk.
Qed.

Lemma processed_ok w g : exchange_inv stream owner w g →
  traffic_ok lo hi (g_processed g) ∧ Forall c_ok (g_processed g) ∧
  Forall (λ r, owner (rs_client_id r) = conn → rs_client_id r = c) (replies g) ∧
  Forall c_ok (replies g) ∧ Z.of_nat (length (replies g)) ≤ ME_MAX_CLIENT_UPDATES.
Proof.
  intros Hinv. pose proof (ms_clients _ _ _ _ _ _ _ _ _ _ Hms) as Hck.
  pose proof (processed_traffic _ _ _ _ _ Hck w g (xi_order _ _ _ _ Hinv)) as Htr.
  assert (g_processed g ⊆+ traffic stream socks) as Hsub.
  { etrans; [|by eapply (ghost_traffic _ _ _ _ _ Hck), xi_order]. by apply submseteq_inserts_r. }
  assert (Forall (λ r, c_ok r ∧ (owner (rq_client_id r) = conn → rq_client_id r = c)) (g_processed g))
    as [Hok Hq]%Forall_and.
  { apply Forall_forall. intros r Hr. apply traffic_request_ok. by eapply elem_of_submseteq. }
  split; [done|]. split; [done|]. split.
  - by apply (engine_after_clients lo hi _ (λ c', owner c' = conn → c' = c) Htr).
  - split; [apply (et_responses _ _ _ (engine_after_typed lo hi _ Htr Hok))|].
    by apply (few_messages _ _ _ _ _ Hck _ Hsub Htr).
Qed.

(** The client's request that comes next is pending, and is free to be placed. *)
Lemma works_next m g feed cw r Q :
  exchange_inv stream owner (mk_exchange m) g → feed_fits feed → linked m g feed cw →
  client_reachable c (client_start c algo cfgs garbage inc_fd feed) cw → g_queued g = r :: Q →
  ∃ pending, client_reachable c (client_start c algo cfgs garbage inc_fd feed)
    (mkClientWorld (cw_client cw) (cw_upstream cw) (cw_downstream cw) (cw_answers cw) pending
      (taken_by_engine c (cw_resting cw) r) (cw_published cw) (cw_feed cw)) ∧
    filter by_client [r] ++ pending ≡ₚ cw_pending cw ∧
    (rq_client_id r = c → rq_type r = ClientRequestType.NEW →
     cw_resting cw (rq_ticker_id r) (rq_side r) = None).
Proof.
  intros Hinv Hfits [L1 L2 L3 L4 L5 L6 L7 L8] Hreach EQ.
  pose proof (client_taken _ _ Hinv) as Htk. rewrite EQ, <-L3, filter_app in Htk.
  apply Permutation_app_inv_l in Htk.
  change (r :: Q) with ([r] ++ Q) in Htk. rewrite filter_app in Htk.
  unfold taken_by_engine. destruct (decide (rq_client_id r = c)) as [E|E].
  - rewrite filter_cons_True, filter_nil in Htk |- * by exact E.
    assert (r ∈ cw_pending cw) as [i Hi]%list_elem_of_lookup by (rewrite <-Htk; by left).
    destruct (client_started c algo cfgs garbage inc_fd feed (ms_client _ _ _ _ _ _ _ _ _ _ Hms)
      Hfits cw Hreach) as [h Hcinv].
    exists (delete i (cw_pending cw)). split; [|split].
    + eapply (cl_turn _ _ cw (ExchangeWorks i)); [exact Hreach|exact I|].
      cbn [client_turn]. by rewrite Hi.
    + rewrite delete_take_drop. rewrite <-(take_drop_middle _ _ _ Hi) at 3. solve_Permutation.
    + intros _. pose proof (ci_orders _ _ _ _ _ Hcinv) as Hord.
      rewrite <-(take_drop_middle _ _ _ Hi), <-app_assoc in Hord.
      exact (proj2 (in_flight_take _ r _ _ _ _ Hord)).
  - rewrite filter_cons_False, filter_nil in Htk |- * by exact E.
    exists (cw_pending cw). split; [by destruct cw|done].
Qed.

Lemma replies_more g r Q :
  replies (ghost_match g r Q) = replies g ++ responses (process_events (engine_after (g_processed g)) r).
Proof.
  unfold replies, ghost_match. cbn [g_processed]. rewrite engine_after_snoc.
  apply (proj1 (spec_process_messages _ _)).
Qed.

Lemma own_bytes_more w g r Q : exchange_inv stream owner w (ghost_match g r Q) →
  own_bytes (ghost_match g r Q) = own_bytes g ++ encode_all (own_replies
    (client_count c (replies g) + 1) (to_client c (process_events (engine_after (g_processed g)) r))).
Proof.
  intros (_ & _ & Hown & _)%processed_ok. unfold own_bytes. rewrite replies_more in *.
  apply Forall_app in Hown as [_ Hown]. rewrite reply_bytes_app. f_equal.
  unfold conn in *. rewrite (replies_own owner c _ _ Hown). do 2 f_equal. lia.
Qed.

Lemma match_linked m g r Q feed cw w' :
  exchange_inv stream owner (mk_exchange m) g → exchange_inv stream owner w' (ghost_match g r Q) →
  inbound (order_server (w_exchange w')) conn = inbound (order_server (w_exchange (mk_exchange m))) conn →
  (mk_read m ≤ length (own_bytes g))%nat → feed_fits feed → linked m g feed cw →
  client_reachable c (client_start c algo cfgs garbage inc_fd feed) cw → g_queued g = r :: Q →
  ∃ cw', client_reachable c (client_start c algo cfgs garbage inc_fd feed) cw' ∧
    linked (mkMarket (mk_client m) w' (mk_wire m) (mk_read m) (mk_seen m)) (ghost_match g r Q) feed cw'.
Proof.
  intros Hinv Hinv' Hin Hread Hfits Hl Hreach EQ.
  destruct (works_next m g feed cw r Q Hinv Hfits Hl Hreach EQ) as (pending & Hreach1 & Hpend & Hfree).
  destruct Hl as [L1 L2 L3 L4 L5 L6 L7 L8].
  destruct (ghost_next _ _ _ _ _ (ms_clients _ _ _ _ _ _ _ _ _ _ Hms) _ g r Q (xi_order _ _ _ _ Hinv) EQ)
    as [Htr _].
  destruct (processed_ok _ _ Hinv) as (_ & Hok & _).
  destruct (processed_ok _ _ Hinv') as (_ & _ & _ & Hrok & Hfew).
  rewrite replies_more in Hrok, Hfew. apply Forall_app in Hrok as [_ Hrok].
  destruct (engine_answers c lo hi) with (P := g_processed g) (r := r) (X := cw_resting cw)
    as (X' & Hrun & Hholds); try done.
  { intros t Ht. pose proof (ms_prices _ _ _ _ _ _ _ _ _ _ Hms t Ht). lia. }
  set (ev := process_events (engine_after (g_processed g)) r) in *.
  assert (client_count c (replies g) + Z.of_nat (length (to_client c ev)) ≤ ME_MAX_CLIENT_UPDATES) as Hcount.
  { etrans; [|exact Hfew]. change (Z.of_nat (length (to_client c ev))) with (client_count c (responses ev)).
    rewrite <-client_count_app. apply client_count_bounds. }
  eexists. split; [apply (answers_many c _ (to_client c ev) _ X' Hreach1 Hrun)|]; cwsimpl.
  - apply Forall_forall. intros x [Hx Hxin]%list_elem_of_filter. rewrite Forall_forall in Hrok.
    by split; [apply Hrok|].
  - by rewrite L5.
  - split; cwsimpl; cbn [mk_client mk_exchange mk_wire mk_read mk_seen]; try done.
    + by rewrite Hin.
    + unfold ghost_match. cbn [g_processed g_taken]. by rewrite filter_app, <-app_assoc, Hpend.
    + rewrite (own_bytes_more w') by done. by rewrite L4, L5, drop_app_le.
    + by rewrite replies_more, filter_app, L5.
Qed.

Lemma matching_world w w' : world_turn w MatchingTurn = Ok w' →
  inbound (order_server (w_exchange w')) conn = inbound (order_server (w_exchange w)) conn ∧
  w_incoming w' = w_incoming w ∧ w_sent w' = w_sent w.
Proof.
  cbn [world_turn]. intros (x & Hx & E)%res_bind_Ok. injection E as <-.
  unfold matching_thread in Hx. apply res_bind_Ok in Hx as (e & _ & E). by injection E as <-.
Qed.

Lemma match_keeps m g w' : market_inv m g → world_turn (mk_exchange m) MatchingTurn = Ok w' →
  market_inv (mkMarket (mk_client m) w' (mk_wire m) (mk_read m) (mk_seen m)) (ghost_turn g).
Proof.
  intros Hm Hrun. pose proof (sent_replies m g Hm) as Hsent%prefix_length.
  pose proof Hm as [Hinv Hw Hr Hs Hcl].
  destruct (matching_turn_spec _ _ _ _ _ (ms_clients _ _ _ _ _ _ _ _ _ _ Hms) _ g Hinv)
    as (x' & Hrun' & Hinv').
  destruct (matching_world _ _ Hrun) as (Hin & Hinc & Hsent').
  assert (w' = mkWorld x' (w_incoming (mk_exchange m)) (w_sent (mk_exchange m))) as Ew.
  { cbn [world_turn] in Hrun. rewrite Hrun' in Hrun. by injection Hrun as <-. }
  rewrite <-Ew in Hinv'. unfold ghost_turn in *. destruct (g_queued g) as [|r Q] eqn:EQ.
  - by apply (feed_turn_keeps m g w' g).
  - split; cbn [mk_exchange mk_wire mk_read mk_seen]; [done|by rewrite Hinc|by rewrite Hsent'|done|].
    intros feed Hfits Hpre. destruct (Hcl feed Hfits Hpre) as (cw & Hreach & Hl).
    apply (match_linked m g r Q feed cw w'); try done. lia.
Qed.

(** *** Any turn *)
Lemma publisher_servers x x' : publisher_thread x = Ok x' → order_server x' = order_server x.
Proof. unfold publisher_thread. intros Hrun. by apply res_bind_Ok in Hrun as (pb & _ & [= <-]). Qed.
Lemma synthesizer_servers now now' x x' :
  synthesizer_thread now now' x = Ok x' → order_server x' = order_server x.
Proof. unfold synthesizer_thread. intros Hrun. by apply res_bind_Ok in Hrun as (ss & _ & [= <-]). Qed.
Lemma synthesizer_world now now' w x' : synthesizer_thread now now' (w_exchange w) = Ok x' →
  world_turn w (SynthesizerTurn now now') = Ok (mkWorld x' (w_incoming w) (w_sent w)).
Proof. intros Hrun. cbn [world_turn]. by rewrite Hrun. Qed.

Lemma publish_keeps m g w' : market_inv m g → world_turn (mk_exchange m) PublisherTurn = Ok w' →
  market_inv (mkMarket (mk_client m) w' (mk_wire m) (mk_read m) (mk_seen m)) (ghost_publish g).
Proof.
  intros Hm Hrun. pose proof Hm as [Hinv _ _ _ _].
  destruct (publisher_turn_spec _ _ _ _ _ (ms_clients _ _ _ _ _ _ _ _ _ _ Hms) _ g Hinv)
    as (x' & Hrun' & Hinv').
  rewrite (publisher_world _ _ Hrun') in Hrun. injection Hrun as <-.
  apply (feed_turn_keeps m g); try done.
  - cbn [w_exchange]. by rewrite (publisher_servers _ _ Hrun').
  - unfold feed_so_far, ghost_publish. cbn [g_snapshot g_published]. rewrite app_assoc.
    by apply prefix_app_r.
Qed.

Lemma synth_keeps m g now now' w' : market_inv m g →
  world_turn (mk_exchange m) (SynthesizerTurn now now') = Ok w' →
  ∃ ks, market_inv (mkMarket (mk_client m) w' (mk_wire m) (mk_read m) (mk_seen m)) (ghost_synth g ks).
Proof.
  intros Hm Hrun. pose proof Hm as [Hinv _ _ _ _].
  destruct (synthesizer_turn_spec _ _ _ _ _ (ms_clients _ _ _ _ _ _ _ _ _ _ Hms) now now' _ g Hinv)
    as (x' & ks & Hrun' & Hinv'). exists ks.
  rewrite (synthesizer_world _ _ _ _ Hrun') in Hrun. injection Hrun as <-.
  apply (feed_turn_keeps m g); try done.
  - cbn [w_exchange]. by rewrite (synthesizer_servers _ _ _ _ Hrun').
  - unfold feed_so_far, ghost_synth. cbn [g_snapshot g_published]. by rewrite app_nil_r.
Qed.

Lemma market_turn_keeps m g t m' :
  market_inv m g → market_allowed conn m t → market_turn conn m t = Ok m' →
  mk_wire m' `prefix_of` w_incoming (mk_exchange m') conn → ∃ g', market_inv m' g'.
Proof.
  intros Hm Hok Hrun Hwire. destruct t as [|chunk takes|n|t].
  - cbn [market_turn] in Hrun. apply res_bind_Ok in Hrun as (x & Hx & E). injection E as <-.
    exists g. by apply trades_keeps.
  - cbn [market_turn] in Hrun. apply res_bind_Ok in Hrun as ([x sent] & Hx & E). injection E as <-.
    exists g. by apply (gateway_keeps m g chunk takes).
  - exists g. by apply (listens_keeps m g n).
  - cbn [market_turn] in Hrun. apply res_bind_Ok in Hrun as (w' & Hw & E). injection E as <-.
    destruct t as [kt| | |now now'].
    + by apply (server_keeps m g kt w').
    + eexists. by apply match_keeps.
    + eexists. by apply publish_keeps.
    + destruct (synth_keeps m g now now' w' Hm Hw) as [ks Hi]. by eexists.
Qed.

Lemma market_reachable_inv m : market_reachable conn market_start m → ∃ g, market_inv m g.
Proof.
  induction 1 as [|m t m' _ [g Hinv] Hok Hrun Hwire].
  - eexists. apply market_inv_new.
  - by eapply market_turn_keeps.
Qed.

(** The feed so far is one the client takes, so the market is a run of the client's world. *)
Lemma feed_so_far_fits w g : exchange_inv stream owner w g → feed_fits (feed_so_far g).
Proof.
  intros Hinv. destruct (processed_ok w g Hinv) as (Htr & Hok & _).
  apply (engine_feed_fits lo hi (ms_prices _ _ _ _ _ _ _ _ _ _ Hms) (g_processed g)); try done.
  - pose proof (ghost_traffic _ _ _ _ _ (ms_clients _ _ _ _ _ _ _ _ _ _ Hms) w g
      (xi_order _ _ _ _ Hinv)) as Hsub%submseteq_length.
    rewrite length_app in Hsub. pose proof (ms_few _ _ _ _ _ _ _ _ _ _ Hms). lia.
  - rewrite (xi_updates _ _ (xi_match _ _ _ _ Hinv)), app_assoc. by apply prefix_app_r.
Qed.

Lemma market_client m g : market_inv m g → ∃ cw h,
  linked m g (feed_so_far g) cw ∧ client_inv c cfgs (feed_so_far g) cw h.
Proof.
  intros [Hinv _ _ _ Hcl]. pose proof (feed_so_far_fits _ g Hinv) as Hfits.
  destruct (Hcl _ Hfits ltac:(done)) as (cw & Hreach & Hl).
  destruct (client_started c algo cfgs garbage inc_fd _ (ms_client _ _ _ _ _ _ _ _ _ _ Hms)
    Hfits cw Hreach) as [h Hh]. by exists cw, h.
Qed.

(** *** Which turns fault *)
Lemma market_turn_fails m g t f : market_inv m g → market_allowed conn m t →
  market_fault m t = Some f → market_turn conn m t = Err f.
Proof.
  intros [Hinv _ _ _ _] Hok Hf. destruct t as [|chunk takes|n|t]; try done.
  cbn [market_fault market_turn market_allowed] in *. destruct Hok as [Hok _].
  by rewrite (turn_fails _ _ _ _ _ (ms_clients _ _ _ _ _ _ _ _ _ _ Hms) t _ g f Hinv Hok Hf).
Qed.

Lemma market_turn_total m g t : market_inv m g → market_allowed conn m t →
  market_fault m t = None → ∃ m', market_turn conn m t = Ok m'.
Proof.
  intros Hm Hok Hnf. pose proof Hm as [Hinv _ _ _ _].
  pose proof (feed_so_far_fits _ g Hinv) as Hfits.
  destruct (market_client m g Hm) as (cw & h & Hl & Hh). pose proof (lk_client _ _ _ _ Hl) as Ec.
  destruct t as [|chunk takes|n|t].
  - destruct (trade_turn_keeps c _ _ Hfits cw h Hh) as (x & _ & _ & Hrun & _).
    cbn [market_turn]. rewrite <-Ec, Hrun. by eexists.
  - destruct (gateway_turn_keeps c _ _ Hfits cw h chunk takes Hh) as (w & _ & _ & Hrun & _).
    { by apply (gateway_allowed m g (feed_so_far g)). }
    cbn [market_turn]. cbn [client_turn] in Hrun. rewrite <-Ec.
    apply res_bind_Ok in Hrun as ([x sent] & -> & _). by eexists.
  - destruct (consumer_turn_keeps c _ _ Hfits cw h n Hh) as (w & Hrun & _).
    destruct (listens_turn m g (feed_so_far g) cw n Hm Hl ltac:(done) Hok) as (_ & _ & ->).
    rewrite Hrun. by eexists.
  - destruct (turn_keeps _ _ _ _ _ (ms_clients _ _ _ _ _ _ _ _ _ _ Hms) t _ g Hinv (proj1 Hok) Hnf)
      as (w & _ & Hrun & _).
    cbn [market_turn]. rewrite Hrun. by eexists.
Qed.
End Link.
