(* ===== verification/MarketSession.v ===== *)
(** * MarketSession: what the two programs do together

    The theorems about the market: which turns end one of the programs, the client's limits
    bound what the exchange has executed and what it may still execute, and a client that
    has caught up agrees with the exchange about positions and books.  A demonstration runs
    both programs on a short session. *)
From S2P Require Import Prelude Types Wire Sockets LFQueue FIFOSequencer OrderServer OrderFlow.
From S2P Require Import TCPServer ServerRound BookInv LevelsAbs MEOrderBook BookSpec BookMatch.
From S2P Require Import MEBookRefine MEBookSpec BookProps Sessions MatchingEngine MarketOrderBook.
From S2P Require Import MarketBookSpec MarketBBO FeedMirror SnapshotSynthesizer MarketDataPublisher.
From S2P Require Import LateJoiner EngineSession EngineTypes OrderGateway MarketDataConsumer Double.
From S2P Require Import PositionKeeper OrderManager PositionLimit TradeEngine TradeEngineSpec.
From S2P Require Import OrdersInFlight RestingOrders TradingClient ClientRun MarketFeed Strategies.
From S2P Require Import Exchange ExchangeRun Market.
From S2P Require Import MarketRun.

(** ** The client's orders in the exchange's books *)
Lemma held_left (c : ClientId) X t a s d :
  holds_in c X t a → tradable s → d ∈ level_orders (sb_side a s) → oi_client_id d = c →
  X t s = Some (oi_qty d).
Proof.
  intros Hh Hs Hd Hc. specialize (Hh s Hs).
  assert (oi_qty d ∈ held c (sb_side a s)) as Hin.
  { apply list_elem_of_fmap. exists d. split; [done|]. by apply list_elem_of_filter. }
  rewrite Hh in Hin. destruct (X t s) as [q|]; cbn [left_of] in Hin; [|by apply elem_of_nil in Hin].
  destruct (q =? 0); [by apply elem_of_nil in Hin|]. by apply list_elem_of_singleton in Hin as ->.
Qed.

(** The feed of one instrument makes its book. *)
Lemma feed_steps_book us t : ∀ st, (foldl feed_step st us t).1 = sm_run (st t).1 (for_ticker t us).
Proof.
  induction us as [|u us IH]; intros st; [done|]. cbn [foldl]. rewrite IH. unfold feed_step, for_ticker.
  rewrite filter_cons. case_decide as E; [by rewrite decide_True|by rewrite decide_False].
Qed.

Section Session.
Context (stream : Z → list OMClientRequest) (owner : ClientId → Z) (socks : list Z).
Context (lo hi : TickerId → Price) `{StdSort} (listener : Z).
Context (c : ClientId) (algo : AlgoType.t) (cfgs : TradeEngineCfgHashMap).
Context (garbage : TickerId → arr double) (inc_fd : Z).
Context (Hms : market_setup stream owner socks lo hi c algo cfgs garbage inc_fd).
Implicit Types (m : Market) (g : Ghost).

(** Nothing is on its way to the client. *)
Record caught_up (k : Z) m : Prop := {
  cu_responses : no_responses_queued (mk_exchange m);
  cu_buffer : outbound (order_server (w_exchange (mk_exchange m))) k = [];
  cu_network : mk_read m = length (w_sent (mk_exchange m) k);
  cu_read : lfq_size (te_responses (trade_engine (mk_client m))) = 0;
  cu_updates : no_updates_queued (mk_exchange m);
  cu_feed : length (feed_published (mk_exchange m)) = (update_bytes * mk_seen m)%nat;
  cu_handled : lfq_size (te_md_updates (trade_engine (mk_client m))) = 0
}.

(** What the exchange has executed for the client. *)
Definition executed (P : list MEClientRequest) (t : TickerId) : Z :=
  fills t (filter (λ r, rs_client_id r = c) (se_responses (engine_after P))).

Lemma market_positions m g cw h : linked stream owner c m g (feed_so_far g) cw →
  client_inv c cfgs (feed_so_far g) cw h → ∀ t,
  te_position (trade_engine (mk_client m)) t = fills t (cg_done h) ∧
  executed (g_processed g) t =
    te_position (trade_engine (mk_client m)) t + fills t (cg_read h ++ (omrs_response <$> cg_coming h)).
Proof.
  intros [L1 _ _ _ L5 _ _ _] [_ _ [_ _ _ _ Hpos] _ _ _ _ Hans] t.
  rewrite <-L1. split; [apply Hpos|]. unfold executed. fold (replies g).
  by rewrite <-L5, Hans, fills_app, Hpos.
Qed.

(** What the engine holds for the client is bounded like what the client knows to be out. *)
Lemma market_bounds m g cw h : linked stream owner c m g (feed_so_far g) cw →
  client_inv c cfgs (feed_so_far g) cw h → ∀ t, ticker_ok t →
  Z.abs (te_position (trade_engine (mk_client m)) t) ≤ limit cfgs t ∧
  Z.abs (executed (g_processed g) t) ≤ limit cfgs t ∧
  ∀ s d, tradable s → d ∈ level_orders (sb_side (se_books (engine_after (g_processed g)) t) s) →
    oi_client_id d = c →
    Z.abs (executed (g_processed g) t + sideToValue s * oi_qty d) ≤ limit cfgs t.
Proof.
  intros Hl Hh t Ht. destruct (market_positions m g cw h Hl Hh t) as [_ Hx]. rewrite Hx.
  destruct (inv_within c cfgs (feed_so_far g) cw h Hh t Ht) as [H1 H2].
  destruct Hl as [L1 _ _ _ _ L6 _ _]. rewrite <-L1.
  destruct Hh as [_ _ [_ Hcfg Hrep _ _] _ _ _ [_ Hfresh] _].
  split; [rewrite <-Hcfg; by apply (wi_pos _ _ (tc_world _ _ (tr_core _ _ _ Hrep)))|].
  split; [exact H1|]. intros s d Hs Hd Hc.
  apply (H2 s (oi_qty d) Hs), place_keeps; [done|]. by eapply held_left; [apply L6|..].
Qed.

Lemma caught_up_books m g cw h : market_inv stream owner c algo cfgs garbage inc_fd m g →
  linked stream owner c m g (feed_so_far g) cw → client_inv c cfgs (feed_so_far g) cw h →
  caught_up (owner c) m → cg_handled h = se_updates (engine_after (g_processed g)).
Proof.
  intros [[_ _ _ [Hrep _ Hupd] Hpub _] _ _ Hseen _] [L1 _ _ _ _ _ _ L8]
    [_ _ [_ _ _ [_ _ Q3] _] _ _ [F1 _ _] _ _] [_ _ _ _ C5 C6 C7].
  rewrite L1 in *. rewrite (lfq_rep_empty _ _ Q3 C7) in F1. cbn [app] in F1.
  pose proof (lfq_rep_empty _ _ (er_updates _ _ _ Hrep) C5) as Hun. cbn [se_updates] in Hun.
  rewrite Hun, app_nil_r in Hupd. rewrite Hupd. fold (feed_so_far g). rewrite F1 at 1.
  unfold feed_published in C6. rewrite (xi_published _ _ Hpub), numbered_updates_bytes in C6.
  unfold update_bytes in C6. rewrite MDPMarketUpdate_size in C6.
  rewrite L8, drop_ge, app_nil_r; [done|]. unfold feed_so_far. lia.
Qed.

Lemma caught_up_replies m g cw h : market_inv stream owner c algo cfgs garbage inc_fd m g →
  linked stream owner c m g (feed_so_far g) cw → client_inv c cfgs (feed_so_far g) cw h →
  caught_up (owner c) m → cg_read h = [] ∧ cg_coming h = [].
Proof.
  intros [[_ _ Hord [Hrep Hresp _] _ _] _ _ _ _] [L1 _ _ L4 _ _ _ _]
    [_ _ [_ _ _ [_ Q2 _] _] _ [_ _ _ D4 D5 _ _ _ _ _] _ _ _] [C1 C2 C3 C4 _ _ _].
  rewrite L1 in *. split; [exact (lfq_rep_empty _ _ Q2 C4)|].
  pose proof (lfq_rep_empty _ _ (er_responses _ _ _ Hrep) C1) as Hun. cbn [se_responses] in Hun.
  rewrite Hun, app_nil_r in Hresp.
  assert (own_bytes owner c g = w_sent (mk_exchange m) (owner c)) as Hown.
  { unfold own_bytes, replies. rewrite Hresp. unfold conn.
    by rewrite <-(xi_replies _ _ _ _ Hord), C2, app_nil_r. }
  rewrite L4, Hown, C3, drop_all, app_nil_r in D4. destruct (cg_coming h) as [|r rs]; [done|].
  apply (f_equal length) in D4. change (encode_all (r :: rs)) with (c_enc r ++ encode_all rs) in D4.
  rewrite length_app, c_enc_length in D4. lia.
Qed.
End Session.

(** ** A demonstration *)

(** A step of a scripted session: a turn of a thread, or one of the order server to which the
    network delivers chunks. *)
Inductive Step :=
  | Runs (t : Market → MarketTurn)
  | Serves (evs : list EpollEvent) (conns : list Connection)
      (chunks : Market → list (Z * (Nanos * bytes))).

Section Script.
Context `{StdSort} (k : Z).

Definition step_turn (m : Market) (s : Step) : MarketTurn :=
  match s with
  | Runs t => t m
  | Serves evs conns chunks =>
      ExchangeRuns (OrderServerTurn
        (delivery_turn (order_server (w_exchange (mk_exchange m))) evs conns (chunks m)))
  end.

Definition step_fits (m : Market) (s : Step) : Prop :=
  match s with
  | Runs t =>
      match t m with
      | ClientTrades => True
      | ClientGateway chunk kernel_takes =>
          let s := gw_tcp_socket_ (order_gateway (mk_client m)) in
          match chunk with
          | None => True
          | Some b => b ≠ [] ∧ b `prefix_of` drop (mk_read m) (w_sent (mk_exchange m) k) ∧
              Z.of_nat (length (inbound_data_ s) + length b) ≤ TCPBufferSize
          end ∧ (length (outbound_data_ s) ≤ kernel_takes)%nat
      | ClientListens n =>
          (update_bytes * (mk_seen m + n) ≤ length (feed_published (mk_exchange m)))%nat
      | ExchangeRuns (OrderServerTurn _) => False
      | ExchangeRuns _ => True
      end
  | Serves evs conns chunks =>
      delivery_fits (mk_exchange m) evs conns (chunks m) ∧
      got (delivery (chunks m)) k `prefix_of` mk_wire m
  end.
#[local] Instance step_fits_dec m s : Decision (step_fits m s).
Proof. destruct s; unfold step_fits; repeat case_match; apply _. Defined.

Fixpoint run_script (m : Market) (ss : list Step) : option Market :=
  match ss with
  | [] => Some m
  | s :: ss =>
      if decide (step_fits m s) then
        match market_turn k m (step_turn m s) with
        | Ok m' => if decide (mk_wire m' `prefix_of` w_incoming (mk_exchange m') k)
                   then run_script m' ss else None
        | Err _ => None
        end
      else None
  end.

Lemma step_allowed m s : step_fits m s → market_allowed k m (step_turn m s).
Proof.
  destruct s as [t|evs conns chunks]; cbn [step_fits step_turn].
  - destruct (t m) as [|chunk takes|n|[]]; try done. intros [Hc Ht]. split; [|done].
    intros b ->. exact Hc.
  - intros [H1 H2]. split; [by apply delivery_ok|exact H2].
Qed.

Lemma run_script_reachable ss : ∀ m0 m m',
  market_reachable k m0 m → run_script m ss = Some m' → market_reachable k m0 m'.
Proof.
  induction ss as [|s ss IH]; intros m0 m m' Hr; cbn [run_script]; [by intros [= <-]|].
  destruct (decide (step_fits m s)) as [Hs|]; [|done].
  destruct (market_turn k m (step_turn m s)) as [m1|] eqn:E; [|done].
  destruct (decide _) as [Hw|]; [|done]. apply IH.
  eapply mkt_turn; [exact Hr|by apply step_allowed|exact E|exact Hw].
Qed.
End Script.

(** Client 2 opens the book of instrument 0; the market maker, client 1, quotes around it;
    then client 2 sells 19, of which the maker buys 2. *)
Definition script_orders : list OMClientRequest :=
  [mkOMClientRequest 1 (mkMEClientRequest ClientRequestType.NEW 2 0 20 Side.SELL 103 5);
   mkOMClientRequest 2 (mkMEClientRequest ClientRequestType.NEW 2 0 21 Side.SELL 103 5);
   mkOMClientRequest 3 (mkMEClientRequest ClientRequestType.NEW 2 0 22 Side.BUY 100 8);
   mkOMClientRequest 4 (mkMEClientRequest ClientRequestType.NEW 2 0 23 Side.BUY 100 9);
   mkOMClientRequest 5 (mkMEClientRequest ClientRequestType.NEW 2 0 24 Side.SELL 100 19)].
Definition script_quotes : list OMClientRequest :=
  [mkOMClientRequest 1 (mkMEClientRequest ClientRequestType.NEW 1 0 1 Side.BUY 100 10);
   mkOMClientRequest 2 (mkMEClientRequest ClientRequestType.NEW 1 0 2 Side.SELL 103 10)].
Definition script_stream : Z → list OMClientRequest := two_streams script_quotes script_orders.
Definition script_start : Market :=
  market_start script_stream 1 1 AlgoType.MAKER limit_cfgs (λ _, arr_new side_count d_zero) 3.

Definition runs (t : MarketTurn) : Step := Runs (λ _, t).
Definition matches (n : nat) : list Step := replicate n (runs (ExchangeRuns MatchingTurn)).
Definition script_open : list Step :=
  Serves [mkEpollEvent 1 true false false] demo_conns (λ _, [(8, (990, encode_all (take 4 script_orders)))]) ::
  matches 4 ++ (runs <$>
  [ExchangeRuns PublisherTurn; ClientListens 4; ClientTrades; ClientGateway None 0; ClientGateway None 76]).
Definition script_trade : list Step :=
  Serves [] [] (λ m, [(7, (1000, mk_wire m)); (8, (1010, encode_all (drop 4 script_orders)))]) ::
  matches 3 ++ [runs (ExchangeRuns PublisherTurn); Serves [] [] (λ _, []); Serves [] [] (λ _, [])].
Definition script_settle : list Step :=
  Runs (λ m, ClientGateway (Some (w_sent (mk_exchange m) 7)) 0) :: (runs <$> [ClientListens 8; ClientTrades]).

Definition market_or_start (r : option Market) : Market := default script_start r.
Definition script_run (ss : list Step) : option Market :=
  run_script (H := merge_sort_std) 7 script_start ss.
Definition market_traded : Market := market_or_start (script_run (script_open ++ script_trade)).
Definition market_settled : Market :=
  market_or_start (script_run (script_open ++ script_trade ++ script_settle)).

Lemma script_setup : market_setup script_stream demo_owner [7; 8] (λ _, 90) (λ _, 110)
  1 AlgoType.MAKER limit_cfgs (λ _, arr_new side_count d_zero) 3.
Proof.
  split; [|exact demo_setup|..]; try (by apply (bool_decide_unpack _); vm_compute).
  - apply two_clients; apply (bool_decide_unpack _); by vm_compute.
  - by intros t _.
Qed.

Lemma script_reachable ss : match script_run ss with Some _ => true | None => false end = true →
  market_reachable (H := merge_sort_std) 7 script_start (market_or_start (script_run ss)).
Proof.
  destruct (script_run ss) as [m|] eqn:E; [|done]. intros _.
  eapply (run_script_reachable (H := merge_sort_std)); [constructor|exact E].
Qed.

Lemma market_traded_reachable : market_reachable (H := merge_sort_std) 7 script_start market_traded.
Proof. apply script_reachable. by vm_compute. Qed.
Lemma market_settled_reachable : market_reachable (H := merge_sort_std) 7 script_start market_settled.
Proof. apply script_reachable. by vm_compute. Qed.
Lemma market_settled_caught_up : caught_up 7 market_settled.
Proof. split; by vm_compute. Qed.

(** ** Theorems *)



(** C3: The client's risk limit holds on the exchange's side of the connection: the position
    that the trades executed so far make, whether the client has heard of them or not, never
    exceeds the configured limit, and the complete fill of any order of the client in the
    matching engine's books would not make it. *)
Theorem market_within_limits stream owner socks lo hi `{StdSort} listener c algo cfgs garbage inc_fd m :
  market_setup stream owner socks lo hi c algo cfgs garbage inc_fd →
  market_reachable (owner c) (market_start stream listener c algo cfgs garbage inc_fd) m →
  ∃ P, seen stream owner socks (mk_exchange m) P ∧ ∀ t, ticker_ok t →
    Z.abs (te_position (trade_engine (mk_client m)) t) ≤ limit cfgs t ∧
    Z.abs (executed c P t) ≤ limit cfgs t ∧
    ∀ s d, tradable s → d ∈ level_orders (sb_side (se_books (engine_after P) t) s) →
      oi_client_id d = c → Z.abs (executed c P t + sideToValue s * oi_qty d) ≤ limit cfgs t.
Proof.
  intros Hms Hm. destruct (market_reachable_inv _ _ _ _ _ listener _ _ _ _ _ Hms m Hm) as [g Hinv].
  destruct (market_client _ _ _ _ _ _ _ _ _ _ Hms m g Hinv) as (cw & h & Hl & Hh).
  exists (g_processed g). split; [|by apply (market_bounds stream owner c cfgs m g cw h)].
  apply (inv_seen _ _ _ lo hi (ms_clients _ _ _ _ _ _ _ _ _ _ Hms)). by destruct Hinv.
Qed.

(** The exchange has bought 2 for the client, which does not know it yet. *)
Lemma market_within_limits_witness :
  te_position (trade_engine (mk_client market_traded)) 0 = 0 ∧
  ∃ P, seen script_stream demo_owner [7; 8] (mk_exchange market_traded) P ∧
    Z.abs (executed 1 P 0) ≤ 15 ∧
    ∀ d, d ∈ level_orders (sb_side (se_books (engine_after P) 0) Side.BUY) →
      oi_client_id d = 1 → Z.abs (executed 1 P 0 + 1 * oi_qty d) ≤ 15.
Proof.
  assert (ticker_ok 0) as H0 by (by vm_compute).
  assert (limit limit_cfgs 0 = 15) as E by (by vm_compute). rewrite <-E.
  split; [by vm_compute|].
  destruct (market_within_limits script_stream demo_owner [7; 8] (λ _, 90) (λ _, 110)
    (H := merge_sort_std) 1 1 AlgoType.MAKER limit_cfgs (λ _, arr_new side_count d_zero) 3 market_traded)
    as (P & HP & H).
  - exact script_setup.
  - exact market_traded_reachable.
  - exists P. split; [exact HP|]. destruct (H 0 H0) as (_ & H1 & H2). split; [exact H1|].
    intros d Hd Hc. exact (H2 Side.BUY d (or_introl eq_refl) Hd Hc).
Defined.

(** C5: A client that has caught up agrees with the exchange: when no response and no update
    is on its way to it, its position is the one its executed trades make, and each of its
    books is the matching engine's, without the client ids. *)
Theorem market_agrees stream owner socks lo hi `{StdSort} listener c algo cfgs garbage inc_fd m :
  market_setup stream owner socks lo hi c algo cfgs garbage inc_fd →
  market_reachable (owner c) (market_start stream listener c algo cfgs garbage inc_fd) m →
  caught_up (owner c) m →
  ∃ P, seen stream owner socks (mk_exchange m) P ∧ ∀ t, ticker_ok t →
    te_position (trade_engine (mk_client m)) t = executed c P t ∧
    ∃ a, refines (book_at (mk_exchange m) t) a ∧
      mk_refines (arr_get (te_order_book (trade_engine (mk_client m))) t) (proj_book a).
Proof.
  intros Hms Hm Hup. pose proof (ms_clients _ _ _ _ _ _ _ _ _ _ Hms) as Hck.
  destruct (market_reachable_inv _ _ _ _ _ listener _ _ _ _ _ Hms m Hm) as [g Hinv].
  destruct (market_client _ _ _ _ _ _ _ _ _ _ Hms m g Hinv) as (cw & h & Hl & Hh).
  destruct (caught_up_replies _ _ _ _ _ _ _ m g cw h Hinv Hl Hh Hup) as [Hr Hc].
  pose proof (caught_up_books _ _ _ _ _ _ _ m g cw h Hinv Hl Hh Hup) as Hb.
  pose proof (mi_exchange _ _ _ _ _ _ _ _ _ Hinv) as Hx.
  pose proof (inv_seen _ _ _ lo hi Hck _ _ Hx) as Hseen.
  exists (g_processed g). split; [done|]. intros t Ht. split.
  - destruct (market_positions _ _ _ _ m g cw h Hl Hh t) as [_ ->]. rewrite Hr, Hc. cbn. lia.
  - exists (se_books (engine_after (g_processed g)) t). split; [by apply Hseen|].
    destruct Hh as [_ _ [_ _ [_ _ Hbooks] _ _] _ _ _ _ _]. destruct (Hbooks t Ht) as [Hbk _].
    rewrite (lk_client _ _ _ _ _ _ _ Hl), Hb, feed_steps_book in Hbk.
    change (feed_new t).1 with SpecMarket_new in Hbk.
    by rewrite (proj2 (inv_feed _ _ _ _ _ Hck _ g Hx t Ht)) in Hbk.
Qed.

Lemma market_agrees_witness :
  ∃ P, seen script_stream demo_owner [7; 8] (mk_exchange market_settled) P ∧ executed 1 P 0 = 2.
Proof.
  assert (ticker_ok 0) as H0 by (by vm_compute).
  assert (te_position (trade_engine (mk_client market_settled)) 0 = 2) as E by (by vm_compute).
  destruct (market_agrees script_stream demo_owner [7; 8] (λ _, 90) (λ _, 110)
    (H := merge_sort_std) 1 1 AlgoType.MAKER limit_cfgs (λ _, arr_new side_count d_zero) 3 market_settled)
    as (P & HP & H).
  - exact script_setup.
  - exact market_settled_reachable.
  - exact market_settled_caught_up.
  - exists P. split; [exact HP|]. destruct (H 0 H0) as [H1 _]. by rewrite <-H1.
Defined.
